(* ===== verification/_CoqProject ===== *)
-Q . S2P
Prelude.v
GoTime.v
Proc.v
RelyGuarantee.v
Schedules.v
GoStrings.v
GoUrl.v
UrlProps.v
GoEncoding.v
GoJson.v
GoHttp.v
GoText.v
Errors.v
Tokens.v
Config.v
Claims.v
ClientState.v
Schedule.v
ScheduleProps.v
Persistence.v
SessionSpec.v
World.v
Events.v
Lifecycle.v
Refresh.v
Login.v
Logout.v
Redirects.v
FlowProps.v
Session.v
Supervisor.v
Interference.v
Actions.v
Threads.v
Supervision.v
Client.v
Scenario.v
ClientProps.v
Races.v
Options.v
Transport.v
Eventbus.v
Filesystem.v
Filestore.v
FilestoreInv.v
FilestoreProps.v
FilestoreCrash.v
Filebackend.v
FileClient.v
Platform.v
Loopback.v
Provider.v
ProviderInv.v
ProviderProps.v
ProviderFlow.v
ProviderLogin.v
ProviderAzp.v
Emitter.v
CoverageProfile.v
CoverageProfileProps.v
CoverageGate.v
CoverageGateProps.v
CoverageReport.v
Mobileflow.v
MobileProps.v
Desktopflow.v
DesktopInv.v
DesktopProps.v
MobileLogin.v
DesktopLogin.v
Cli.v
CliProps.v
