(* ===== verification/Prelude.v ===== *)
(** * A verification development for go-pkceflow

    The library under [src/] implements the OAuth 2.0 authorization code flow with
    PKCE for native applications: a [Client] that logs in, keeps an access token
    fresh, recovers from failed persistence and logs out; flow handlers that open
    the system browser and receive the callback; an encrypted token file; an event
    bus.  The development models that code as the goroutines it consists of and
    proves properties of every interleaving of any number of concurrent callers.

    ** How programs are modelled

    A Go function that touches shared state is a [prog] of [Proc.v]: a tree of
    atomic actions on a world, locking and unlocking, questions to the environment
    (network, browser, clock, disk, randomness), selects, loops and [go]
    statements.  A critical section under a mutex that is never held across
    another node is one action.  [Proc.v] gives a sequential runner (fuel bounds
    the iterations of each loop; a witness shows the fuel it uses suffices) and the
    interleaving semantics [step]; [reachable] configurations start without
    goroutines, any entry point may be called at any time in a new goroutine, and
    the environment may act between two actions.  Loops need no fuel there.
    [RelyGuarantee.v] is a logic for it, proved sound once ([reachable_ok]): each
    component instantiates [RG_laws] with its invariant, its locks with their order
    and the roles that goroutines own.  [Schedules.v] runs chosen goroutines of a
    configuration and shows that what it executes is reachable, which is how the
    theorems about all interleavings are applied to concrete executions.

    Integers have the width of the code where they can wrap ([wrap_u64]); times are
    instants in nanoseconds, and [Time.Sub] saturates as in Go ([GoTime.v]); strings
    are byte strings.  [GoStrings.v], [GoUrl.v], [GoEncoding.v], [GoJson.v],
    [GoHttp.v] and [GoText.v] model the parts of Go's standard library the code uses
    (strings; net/url; base64 and the decoding half of encoding/json; encoding a
    string, which decoding undoes; requests and their forms; bufio, strconv and path),
    [UrlProps.v] the facts about them that several components share.

    ** The client (package pkceflow)

    - [Errors.v] errors.go; [Tokens.v] state.go, interfaces.go (the persistence
      interface is the class [TokenPersistence] with its laws) and the memory
      stores; [Config.v] config.go; [Claims.v] claims.go and checkAuthorizedParty of
      verify.go.
    - [ClientState.v] the fields of [Client] under [Client.mu] and the helpers that
      run under it; [Schedule.v] the critical sections of the refresh supervisor
      (pkceflow.go); [Persistence.v] those of the recovery of a failed Save
      (persistence.go).
    - [World.v] all the memory that goroutines share, with contexts and ghost state;
      [Events.v] events.go, [Lifecycle.v] lifecycle.go, [Refresh.v] refresh.go,
      [Login.v] login.go, [Logout.v] logout.go, [Session.v] Init and RestoreSession
      of client.go, [Supervisor.v] the loops of pkceflow.go and persistence.go with
      their start and stop, [Client.v] the queries, AccessToken, TokenFn and the list
      of entry points, [Options.v] options.go and the constructor New with its
      defaults, [Redirects.v] the HTTP client of the revocation request over the
      redirect loop of net/http; [Transport.v] transport.go.
    - [SessionSpec.v] is the abstract specification: an automaton whose observations
      are the commits of the program.  [Interference.v] holds the invariant and the
      lock discipline, [Actions.v], [Threads.v] and [Supervision.v] the proof of each
      function, [ClientProps.v] the theorems, [Scenario.v] a concrete execution with
      a login, a shared refresh and a logout to which they are applied.

    What is shown: every interleaving refines the session automaton, so logins
    commit only while they are the last admitted operation, a logout is final until
    a later login (for calls that look at the state after it), a refresh keeps the subject and is single flight, and the store
    is coherent with memory whenever no commit is in progress; events are emitted
    in commit order, one at a time; one browser flow at a time; neither of the two
    mutexes that are held across calls (of the store and the clock) is held while a
    request, the browser, the emitter, the logger or a select is waited for; no deadlock and no nil dereference.
    [ScheduleProps.v] bounds when, how often and how closely spaced the supervisor
    refreshes; [Races.v] shows, for every state and by a run that gets there, that an
    integrity block is lost when the supervisor ends its claim as expired.  [FlowProps.v] characterises what callbacks, ID tokens, endpoints
    and configurations are accepted and what the logout URL contains.  [Options.v]
    shows when New succeeds, what the Client is made of and that its state stays
    well formed in every interleaving; [Redirects.v] that a revocation is one
    request, wherever the endpoint redirects.

    ** The flow handlers

    - [Mobileflow.v], [MobileProps.v]: mobileflow/mobileflow.go, deep links.  Unicode
      case folding beyond ASCII is a parameter.
    - [Loopback.v], [Desktopflow.v], [DesktopInv.v], [DesktopProps.v]:
      desktopflow/desktopflow.go, the loopback callback broker with its server, its
      grace timer and its concurrent requests.  net/http is the source of requests:
      a request is a path and a raw query; [ServeMux]'s redirect of unclean paths
      happens before the handler.
    - [MobileLogin.v] and [DesktopLogin.v] compose them with [Login]: what a flow
      returns, in any interleaving, and what [Login] then reads.
    - [Eventbus.v]: eventbus/deferred.go.

    What is shown: a flow only returns callbacks that satisfy its own checks, one
    delivery each; a cancelled flow swallows nothing; the server runs exactly while
    it is needed; only loopback addresses are bound; the bus preserves order.

    ** The file store (package filestore)

    [Filesystem.v] models a directory that may crash: unsynced data and names may be
    lost.  [Filestore.v] models filestore.go, privatefile.go, encrypt.go,
    permissions.go, machineid.go and syncdir_posix.go over it; every system call may
    fail.  JSON, AES-GCM and SHA-256 are the class [Codec], of which only the round
    trips are assumed.  [FilestoreInv.v], [FilestoreProps.v] and [FilestoreCrash.v]
    show that no crash, at any moment of any interleaving, leaves a torn token
    file or loses a Save that returned nil, and that all callers ever use one
    fallback key.  [Platform.v] has what depends on the platform: DefaultDir and
    NewDefault on Unix, the machine identifier on Linux, macOS and Windows from what the
    file, the command or the registry yields, and the command that opens a browser; two
    applications whose identifiers are path elements get different directories.

    [Filebackend.v] makes the store, as one process uses it on a POSIX system, an instance
    of [TokenPersistenceLaws]: a script says which system calls fail, every method
    ends, and what it does is a run of the interleaving semantics above.  JSON drops the
    monotonic reading and the location of a time: a state it can represent
    ([represented]) comes back from a Load with the same tokens and instants, one that it
    keeps ([roundtrips]) as it was; [recovers] says both.  [FileClient.v] puts a Client over
    it: the tokens in memory and what a crash leaves in the directory.

    ** The test provider (package oidctest)

    - [Provider.v]: fakeserver.go and hooks.go, every endpoint, hook and setter of the
      server as concurrent goroutines.  RSA keys and the serialisation of signed
      tokens belong to the environment, SHA-256 is a parameter.  [ProviderInv.v] and
      [ProviderProps.v]: in every interleaving a code is exchanged at most once, by
      the request it was issued for; refresh tokens rotate; every signing key is in
      the key set.
    - [ProviderFlow.v] (flowhandler.go), [ProviderLogin.v] and [ProviderAzp.v] compose
      it with the client: a login and a refresh of this client run through and yield what
      the client checks, and a forced azp claim is read back as it was given.
    - [Emitter.v]: emitter.go, no wakeup is lost.

    ** The coverage gate (.github/scripts/coveragecheck)

    [CoverageProfile.v] models the parsers of the profile and of go list's output,
    [CoverageGate.v] the evaluation and the run, [CoverageReport.v] what is printed, in
    float64 arithmetic, and the exit status.  [CoverageProfileProps.v]: the parser
    computes the sums over the blocks or refuses the profile; [CoverageGateProps.v]: the
    gate passes exactly when the policy holds of these sums, in whatever order
    maps are visited; the report has a line that says so exactly when it fails.

    ** The example program (examples/cli)

    [Cli.v] models main.go over the handler and the configuration above: flags, output and
    calls, with the answers of the client and the store from the environment and the
    typed text as an input.  [CliProps.v]: whatever they are it comes to its end, with as
    many iterations of its loop as there are lines and one more, and makes the calls of
    a session in order.

    ** Not modelled

    - RedactedString of config.go (formatting for logs), and log messages beyond the
      fact that they are written; the HTML pages of the desktop flow are parameters.
    - Path rules of Windows, starting processes, listening on sockets,
      timers other than as alternatives of a select.
    - The file store as a [TokenPersistence] on Windows (the instance is that of a
      POSIX system), or with several processes at one directory, of which one may save
      what another one then loads: the theorems about the file store hold of both. *)
From stdpp Require Export base tactics list gmap strings.
From Stdlib Require Export ZArith Lia.

#[global] Open Scope Z_scope.

(** * Record update *)

(** [Settable R] packages the eta expansion of a record constructor; from it
    the update function of every field is derived by pattern abstraction. *)
Class Settable (R : Type) := eta_expand : R -> R.

Class Field {R T : Type} (proj : R -> T) := field_update : (T -> T) -> R -> R.

Ltac derive_field :=
  lazymatch goal with
  | |- @Field ?R ?T ?proj =>
      let inst := constr:(_ : Settable R) in
      let body := eval hnf in inst in
      lazymatch eval pattern proj in body with
      | ?build _ =>
          let upd := constr:(fun (u : T -> T) => build (fun r => u (proj r))) in
          let upd := eval cbv beta in upd in
          exact upd
      end
  end.

#[export] Hint Extern 0 (Field _) => derive_field : typeclass_instances.

Definition set {R T : Type} (proj : R -> T) {F : Field proj} (u : T -> T) (r : R) : R :=
  F u r.
Arguments set {R T} proj {F} u r /.

Declare Scope go_scope.
Delimit Scope go_scope with go.
#[global] Open Scope go_scope.

Notation "r <| proj := v |>" := (set proj (fun _ => v) r)
  (at level 1, left associativity, proj at level 20, v at level 99) : go_scope.

(** * Results: Go's [(value, error)] pairs where exactly one side is meaningful *)

Definition result (E A : Type) : Type := E + A.
Abbreviation Err := inl (only parsing).
Abbreviation Ok := inr (only parsing).

Definition is_ok {E A} (r : result E A) : bool :=
  match r with inl _ => false | inr _ => true end.

(** * Machine integers *)

(** Go's [uint64] and (on the 64-bit targets) [uint] arithmetic wraps modulo
    2^64; [int64], hence [time.Duration], wraps into two's complement. *)
Definition u64_modulus : Z := 2 ^ 64.
Definition u64_max : Z := 2 ^ 64 - 1.
Definition wrap_u64 (z : Z) : Z := z mod u64_modulus.
Definition min_i64 : Z := - 2 ^ 63.
Definition max_i64 : Z := 2 ^ 63 - 1.
Definition wrap_i64 (z : Z) : Z := (z + 2 ^ 63) mod 2 ^ 64 - 2 ^ 63.
Definition is_u64 (z : Z) : Prop := 0 <= z < u64_modulus.

Create HintDb go discriminated.
Create Rewrite HintDb gorw.

Lemma wrap_u64_range z : is_u64 (wrap_u64 z).
Proof. unfold is_u64, wrap_u64, u64_modulus. apply Z.mod_pos_bound. lia. Qed.

Lemma wrap_u64_id z : is_u64 z -> wrap_u64 z = z.
Proof. intros H. apply Z.mod_small. exact H. Qed.

Lemma wrap_u64_succ_ne z : wrap_u64 (z + 1) <> z.
Proof.
  unfold wrap_u64, u64_modulus. intros H.
  pose proof (Z.mod_pos_bound (z + 1) (2 ^ 64) ltac:(lia)).
  pose proof (Z.div_mod (z + 1) (2 ^ 64) ltac:(lia)). lia.
Qed.

Lemma wrap_i64_id z : min_i64 <= z <= max_i64 -> wrap_i64 z = z.
Proof.
  unfold min_i64, max_i64, wrap_i64. intros H.
  rewrite Z.mod_small by lia. lia.
Qed.

Lemma wrap_i64_range z : min_i64 <= wrap_i64 z <= max_i64.
Proof.
  unfold wrap_i64, min_i64, max_i64.
  pose proof (Z.mod_pos_bound (z + 2 ^ 63) (2 ^ 64) ltac:(lia)). lia.
Qed.

#[export] Hint Resolve wrap_u64_range wrap_i64_range : go.

(** * Tactics *)

(** Case analysis on the innermost discriminee of a [match] in the goal,
    keeping the equation. *)
Ltac destruct_inner t k :=
  lazymatch t with
  | context [match ?s with _ => _ end] => destruct_inner s k
  | _ => k t
  end.

Ltac case_goal :=
  match goal with
  | |- context [match ?s with _ => _ end] =>
      destruct_inner s ltac:(fun t => destruct t eqn:?)
  end.

Ltac case_hyp H :=
  match type of H with
  | context [match ?s with _ => _ end] =>
      destruct_inner s ltac:(fun t => destruct t eqn:?)
  end.

(** Boolean reflection for the comparisons the models use. *)
Ltac bool_to_prop :=
  repeat match goal with
  | H : (_ <? _) = true |- _ => apply Z.ltb_lt in H
  | H : (_ <? _) = false |- _ => apply Z.ltb_ge in H
  | H : (_ <=? _) = true |- _ => apply Z.leb_le in H
  | H : (_ <=? _) = false |- _ => apply Z.leb_gt in H
  | H : (_ =? _) = true |- _ => apply Z.eqb_eq in H
  | H : (_ =? _) = false |- _ => apply Z.eqb_neq in H
  | H : (_ && _)%bool = true |- _ => apply andb_prop in H; destruct H
  | H : (_ || _)%bool = false |- _ => apply orb_false_elim in H; destruct H
  | H : negb _ = true |- _ => apply negb_true_iff in H
  | H : negb _ = false |- _ => apply negb_false_iff in H
  | H : bool_decide _ = true |- _ => apply bool_decide_eq_true in H
  | H : bool_decide _ = false |- _ => apply bool_decide_eq_false in H
  end.

(** Reduce record updates and projections. *)
Ltac rsimpl := cbn -[Z.add Z.sub Z.mul Z.ltb Z.leb Z.eqb Z.quot Z.modulo Z.pow wrap_u64 wrap_i64] in *.

(** * Lists and options *)

Lemma last_app_singleton {A} (l : list A) x : last (l ++ [x]) = Some x.
Proof. apply last_snoc. Qed.
#[export] Hint Rewrite @last_app_singleton : gorw.

Definition option_eqb {A} `{EqDecision A} (x y : option A) : bool := bool_decide (x = y).
