(* ===== verification/GoTime.v ===== *)
(** Go's [time] package, as far as the library uses it: instants, durations
    and the comparisons on them.  Models [time.Time], [time.Duration] and their
    methods [IsZero], [Before], [After], [Add] and [Sub]. *)
From S2P Require Import Prelude.

(** A [time.Time]: [inst] is the instant in nanoseconds since the zero Time
    (January 1, year 1, UTC); [rep] stands for what [==] on the struct sees
    beyond the instant (location pointer, presence of a monotonic reading).
    The comparison methods look at the instant only; [==] looks at both.  The
    monotonic reading is taken to advance with the instant. *)
Record Time := mkTime { inst : Z; rep : N }.

#[export] Instance Time_eq_dec : EqDecision Time.
Proof. solve_decision. Defined.
#[export] Instance Time_countable : Countable Time.
Proof. by refine (inj_countable' (fun t => (inst t, rep t)) (fun p => mkTime p.1 p.2) _); intros []. Defined.

Definition zeroTime : Time := mkTime 0 0.
Definition IsZeroTime (t : Time) : bool := inst t =? 0.
Definition Before (t u : Time) : bool := inst t <? inst u.
Definition After (t u : Time) : bool := inst u <? inst t.
Definition AddDur (t : Time) (d : Z) : Time := mkTime (inst t + d) (rep t).

(** [Sub] saturates to the minimum or maximum Duration. *)
Definition SubTime (t u : Time) : Z :=
  Z.max min_i64 (Z.min max_i64 (inst t - inst u)).

Definition Nanosecond : Z := 1.
Definition Second : Z := 1000000000.
Definition Minute : Z := 60 * Second.
Definition Hour : Z := 60 * Minute.

Lemma AddDur_inst t d : inst (AddDur t d) = inst t + d.
Proof. reflexivity. Qed.

Lemma Before_spec t u : Before t u = true <-> inst t < inst u.
Proof. apply Z.ltb_lt. Qed.

Lemma Before_ge t u : Before t u = false <-> inst u <= inst t.
Proof. apply Z.ltb_ge. Qed.

Lemma Before_irrefl t : Before t t = false.
Proof. apply Before_ge. lia. Qed.

Lemma SubTime_exact t u :
  min_i64 <= inst t - inst u <= max_i64 -> SubTime t u = inst t - inst u.
Proof. unfold SubTime. lia. Qed.

Lemma SubTime_range t u : min_i64 <= SubTime t u <= max_i64.
Proof. unfold SubTime, min_i64, max_i64. lia. Qed.

#[export] Hint Rewrite AddDur_inst : gorw.

Ltac time_to_Z :=
  unfold After, IsZeroTime in *;
  repeat match goal with
  | H : Before _ _ = true |- _ => apply Before_spec in H
  | H : Before _ _ = false |- _ => apply Before_ge in H
  | |- Before _ _ = true => apply Before_spec
  | |- Before _ _ = false => apply Before_ge
  end; rewrite ?AddDur_inst in *; bool_to_prop.
