(* ===== verification/Proc.v ===== *)
(** Goroutines over shared memory: a resumption monad in which the Go handlers
    are written, its sequential runner, its interleaving semantics and a
    rely/guarantee logic.

    A [prog] performs atomic actions on a world [W] (a critical section under a
    mutex that is never held across another node is one action), acquires and
    releases the mutexes that are held across several actions, asks the
    environment (network, browser, clock, [select] with the effect of the chosen
    alternative), loops and starts goroutines.  The same program text is executed alone by [run] and
    interleaved with other goroutines by [step]. *)
From S2P Require Import Prelude.

Section Proc.
  Context {W L : Type} `{EqL : EqDecision L, CountL : !Countable L} {Q : Type -> Type}.

(** ** Syntax *)

Inductive prog (A : Type) : Type :=
| Ret (a : A)
| Do {X : Type} (f : W -> X * W) (k : X -> prog A)
| Lock (l : L) (k : prog A)
| Unlock (l : L) (k : prog A)
| Ask {X : Type} (q : Q X) (ready : W -> X -> option W) (k : X -> prog A)
| Loop {X Y : Type} (body : X -> prog (X + Y)) (x : X) (k : Y -> prog A)
| Fork (p : prog unit) (k : prog A).

Arguments Ret {A} a.
Arguments Do {A X} f k.
Arguments Lock {A} l k.
Arguments Unlock {A} l k.
Arguments Ask {A X} q ready k.
Arguments Loop {A X Y} body x k.
Arguments Fork {A} p k.

Fixpoint bind {A B : Type} (p : prog A) (f : A -> prog B) {struct p} : prog B :=
  match p with
  | Ret a => f a
  | Do g k => Do g (fun x => bind (k x) f)
  | Lock l k => Lock l (bind k f)
  | Unlock l k => Unlock l (bind k f)
  | Ask q ready k => Ask q ready (fun x => bind (k x) f)
  | Loop body x k => Loop body x (fun y => bind (k y) f)
  | Fork p k => Fork p (bind k f)
  end.

Definition act {X : Type} (f : W -> X * W) : prog X := Do f Ret.
Definition modify (f : W -> W) : prog unit := Do (fun w => (tt, f w)) Ret.
Definition read {X : Type} (f : W -> X) : prog X := Do (fun w => (f w, w)) Ret.
Definition lock (l : L) : prog unit := Lock l (Ret tt).
Definition unlock (l : L) : prog unit := Unlock l (Ret tt).
Definition ask {X : Type} (q : Q X) : prog X := Ask q (fun w _ => Some w) Ret.
(** A [select]: the environment chooses one of the ready alternatives, whose
    effect happens with the choice. *)
Definition select {X : Type} (q : Q X) (ready : W -> X -> option W) : prog X :=
  Ask q ready Ret.
Definition loop {X Y : Type} (body : X -> prog (X + Y)) (x : X) : prog Y :=
  Loop body x Ret.
Definition fork (p : prog unit) : prog unit := Fork p (Ret tt).
Definition skip : prog unit := Ret tt.
(** [defer cleanup]: the cleanup runs after the body, whatever it returns. *)
Definition deferred {A : Type} (cleanup : prog unit) (p : prog A) : prog A :=
  bind p (fun a => bind cleanup (fun _ => Ret a)).
Definition when (b : bool) (p : prog unit) : prog unit := if b then p else skip.

(** ** Running one goroutine alone *)

(** [oracle] answers the environment's questions.  A forked goroutine is run
    to completion at its fork, which is one of its schedules.  [n] bounds the
    iterations of each loop; [None] means that a loop ran out of fuel, a mutex
    was taken twice or released without being held, the oracle had no answer, or
    the alternative it chose was not ready. *)
Definition oracle : Type := forall X : Type, Q X -> W -> option X.

Fixpoint run {A : Type} (o : oracle) (n : nat) (p : prog A) (H : gset L) (w : W)
    {struct p} : option (A * gset L * W) :=
  match p with
  | Ret a => Some (a, H, w)
  | Do f k => run o n (k (f w).1) H (f w).2
  | Lock l k => if decide (l ∈ H) then None else run o n k ({[l]} ∪ H) w
  | Unlock l k => if decide (l ∈ H) then run o n k (H ∖ {[l]}) w else None
  | Ask q ready k =>
      match o _ q w with
      | Some x => match ready w x with Some w' => run o n (k x) H w' | None => None end
      | None => None
      end
  | @Loop _ X Y body x k =>
      (fix iter (m : nat) (x : X) (H : gset L) (w : W) {struct m} :=
         match m with
         | O => None
         | S m =>
             match run o n (body x) H w with
             | Some (inl x', H', w') => iter m x' H' w'
             | Some (inr y, H', w') => run o n (k y) H' w'
             | None => None
             end
         end) n x H w
  | Fork p k =>
      match run o n p ∅ w with
      | Some (_, _, w') => run o n k H w'
      | None => None
      end
  end.

Lemma run_bind {A B : Type} (o : oracle) n (p : prog A) (f : A -> prog B) : forall H w,
  run o n (bind p f) H w = match run o n p H w with Some (a, H', w') => run o n (f a) H' w' | None => None end.
Proof.
  induction p as [A a|A X g k IH|A l k IH|A l k IH|A X q ready k IH|A X Y b IHb x k IH|A q IHq k IH]; intros H w; cbn.
  - done.
  - apply IH.
  - case_decide; [done|apply IH].
  - case_decide; [apply IH|done].
  - destruct (o _ q w) as [x|]; [|done]. destruct (ready w x); [apply IH|done].
  - match goal with |- ?iter1 n x H w = match ?iter2 n x H w with _ => _ end =>
      enough (forall m x H w, iter1 m x H w =
        match iter2 m x H w with Some (a, H', w') => run o n (f a) H' w' | None => None end) by done
    end.
    intros m. induction m as [|m IHm]; intros x' H' w'; [done|]. cbn.
    destruct (run o n (b x') H' w') as [[[[x''|y] H''] w'']|]; [apply IHm|apply IH|done].
  - destruct (run o n q ∅ w) as [[[u Hq] w']|]; [apply IH|done].
Qed.

(** A loop ends when [mu] decreases and the fuel exceeds it. *)
Lemma run_loop {X Y : Type} (o : oracle) n (body : X -> prog (X + Y)) (mu : W -> nat)
    (P : X -> gset L -> W -> Prop) (R : Y -> gset L -> W -> Prop) :
  (forall x H w, P x H w -> exists r H' w', run o n (body x) H w = Some (r, H', w') /\
     match r with inl x' => P x' H' w' /\ (mu w' < mu w)%nat | inr y => R y H' w' end) ->
  forall x H w, P x H w -> (mu w < n)%nat -> exists y H' w', run o n (loop body x) H w = Some (y, H', w') /\ R y H' w'.
Proof.
  intros Hb x H w HP Hn. unfold loop. cbn.
  match goal with |- exists _ _ _, ?it n x H w = _ /\ _ =>
    enough (forall m x H w, P x H w -> (mu w < m)%nat -> exists y H' w', it m x H w = Some (y, H', w') /\ R y H' w') by auto
  end.
  clear x H w HP Hn. intros m. induction m as [|m IH]; intros x H w HP Hm; [lia|]. cbn.
  destruct (Hb x H w HP) as ([x'|y] & H' & w' & -> & Hr); [|eauto]. destruct Hr as [HP' Hlt]. apply IH; [done|lia].
Qed.

(** One unrolling of a loop, used by [step] and by the run lemmas. *)
Definition unroll {A X Y : Type} (body : X -> prog (X + Y)) (x : X) (k : Y -> prog A) : prog A :=
  bind (body x) (fun r => match r with inl x' => Loop body x' k | inr y => k y end).

(** ** Interleaving semantics *)

Record config := mkConfig {
  world : W;
  owner : gmap L nat;              (* which goroutine holds which mutex *)
  pool : gmap nat (prog unit)      (* the goroutines *)
}.

Section Semantics.
  (** [env]: what the environment does to the world between two actions;
      [api]: the entry points a caller may start in a new goroutine;
      [answers]: the answers the environment may give to a question. *)
  Context (env : W -> W -> Prop) (api : prog unit -> Prop)
          (answers : forall X : Type, Q X -> X -> Prop).

Inductive step : config -> config -> Prop :=
| step_do w ow pl t X (f : W -> X * W) k :
    pl !! t = Some (Do f k) ->
    step (mkConfig w ow pl) (mkConfig (f w).2 ow (<[t := k (f w).1]> pl))
| step_lock w ow pl t l k :
    pl !! t = Some (Lock l k) -> ow !! l = None ->
    step (mkConfig w ow pl) (mkConfig w (<[l := t]> ow) (<[t := k]> pl))
| step_unlock w ow pl t l k :
    pl !! t = Some (Unlock l k) -> ow !! l = Some t ->
    step (mkConfig w ow pl) (mkConfig w (delete l ow) (<[t := k]> pl))
| step_ask w w' ow pl t X (q : Q X) ready k x :
    pl !! t = Some (Ask q ready k) -> answers X q x -> ready w x = Some w' ->
    step (mkConfig w ow pl) (mkConfig w' ow (<[t := k x]> pl))
| step_loop w ow pl t X Y (body : X -> prog (X + Y)) x k :
    pl !! t = Some (Loop body x k) ->
    step (mkConfig w ow pl) (mkConfig w ow (<[t := unroll body x k]> pl))
| step_fork w ow pl t t' p k :
    pl !! t = Some (Fork p k) -> pl !! t' = None ->
    step (mkConfig w ow pl) (mkConfig w ow (<[t' := p]> (<[t := k]> pl)))
| step_call w ow pl t p :
    api p -> pl !! t = None ->
    step (mkConfig w ow pl) (mkConfig w ow (<[t := p]> pl))
| step_env w w' ow pl :
    env w w' -> step (mkConfig w ow pl) (mkConfig w' ow pl).

Definition init_config (w : W) : config := mkConfig w ∅ ∅.

(** Configurations reachable while every world stays within [bound]. *)
Definition reachable (bound : W -> Prop) (w0 : W) (c : config) : Prop :=
  rtc (fun c c' => step c c' /\ bound (world c')) (init_config w0) c.

End Semantics.

End Proc.

Arguments Ret {W L Q A} a.
Arguments Do {W L Q A X} f k.
Arguments Lock {W L Q A} l k.
Arguments Unlock {W L Q A} l k.
Arguments Ask {W L Q A X} q ready k.
Arguments Loop {W L Q A X Y} body x k.
Arguments Fork {W L Q A} p k.

Notation "'let*' x := p 'in' q" := (bind p (fun x => q))
  (at level 10, x pattern, p at level 100, q at level 200) : go_scope.
Notation "p ;;; q" := (bind p (fun _ => q))
  (at level 100, right associativity) : go_scope.
