(* ===== verification/RelyGuarantee.v ===== *)
(** A rely/guarantee logic for [Proc], with lock invariants, a lock order and
    roles.

    [prot l w w'] says that the part of the world protected by [l] is the same
    in [w] and [w']; [hist w w'] says that [w'] may lie in the future of [w]
    (monotone facts).  A goroutine holding the set [H] relies on nobody changing
    what it protects and guarantees not to change what the others protect.
    [inv] holds at every action; [linv l] holds whenever mutex [l] is free.  A
    goroutine may only acquire a mutex ranked above all those it holds.

    A role is a mutual exclusion the program implements itself, with a flag, a
    pointer or a channel: [taken l w] says that the world shows role [l] as
    taken, an action that sets the flag acquires the role, and one that clears
    it gives the role up.  [pre] is what a goroutine must satisfy to ask a
    question of the environment.  [bound] limits the runs considered. *)
From S2P Require Import Prelude Proc.

Section RG.
  Context {W L : Type} `{EqL : EqDecision L, CountL : !Countable L} {Q : Type -> Type}.
  Context {hist : W -> W -> Prop} {prot : L -> W -> W -> Prop}.
  Context {inv : W -> Prop} {linv : L -> W -> Prop} {rank : L -> nat}.
  Context {role : L -> bool} {taken : L -> W -> bool}.
  Context {pre : forall X : Type, Q X -> gset L -> W -> Prop}.
  Context {answers : forall X : Type, Q X -> X -> Prop}.
  Context {bound : W -> Prop}.

Definition rely (H : gset L) (w w' : W) : Prop :=
  hist w w' /\ forall l, l ∈ H -> prot l w w'.

(** How an action may change what its goroutine holds. *)
Record role_change (H H' : gset L) (w w' : W) : Prop := {
  rc_mutex : forall l, role l = false -> (l ∈ H <-> l ∈ H');
  rc_taken : forall l, role l = true -> l ∈ H' -> taken l w' = true;
  rc_free : forall l, role l = true -> l ∈ H -> l ∉ H' -> taken l w' = false;
  rc_new : forall l, role l = true -> l ∉ H -> l ∈ H' -> taken l w = false
}.

Definition trans (H : gset L) (w w' : W) (K : gset L -> Prop) : Prop :=
  bound w' ->
  exists H', role_change H H' w w' /\ hist w w' /\
             (forall l, l ∉ H -> l ∉ H' -> prot l w w') /\ inv w' /\ K H'.

Abbreviation prog := (@prog W L Q).

(** The roles a goroutine holds show in the world. *)
Definition held_roles (H : gset L) (w : W) : Prop :=
  forall l, l ∈ H -> role l = true -> taken l w = true.

Fixpoint wp {A : Type} (p : prog A) (H : gset L) (Post : A -> gset L -> W -> Prop) (w : W)
    {struct p} : Prop :=
  forall w', rely H w w' -> inv w' -> held_roles H w' ->
    (match p with
    | Ret a => Post a H w'
    | Do f k => trans H w' (f w').2 (fun H' => wp (k (f w').1) H' Post (f w').2)
    | Lock l k =>
        role l = false /\ l ∉ H /\
        (forall l', l' ∈ H -> role l' = false -> (rank l' < rank l)%nat) /\
        (linv l w' -> wp k ({[l]} ∪ H) Post w')
    | Unlock l k => role l = false /\ l ∈ H /\ linv l w' /\ wp k (H ∖ {[l]}) Post w'
    | Ask q ready k =>
        pre _ q H w' /\
        forall x w'', answers _ q x -> ready w' x = Some w'' ->
          trans H w' w'' (fun H' => wp (k x) H' Post w'')
    | @Loop _ _ _ _ X Y body x k =>
        exists I : X -> gset L -> W -> Prop,
          I x H w' /\
          forall x H w, I x H w ->
            wp (body x) H
              (fun r H w => match r with
                            | inl x' => forall w', rely H w w' -> inv w' -> held_roles H w' -> I x' H w'
                            | inr y => wp (k y) H Post w
                            end) w
    | Fork p k =>
        exists G, G ⊆ H /\ (forall l, l ∈ G -> role l = true) /\
          wp p G (fun _ H _ => H = ∅) w' /\ wp k (H ∖ G) Post w'
    end).

(** What the framework needs from its instance. *)
Record RG_laws (env : W -> W -> Prop) : Prop := {
  hist_refl : forall w, hist w w;
  hist_trans : forall w1 w2 w3, hist w1 w2 -> hist w2 w3 -> hist w1 w3;
  prot_refl : forall l w, prot l w w;
  prot_trans : forall l w1 w2 w3, prot l w1 w2 -> prot l w2 w3 -> prot l w1 w3;
  prot_taken : forall l w w', role l = true -> prot l w w' -> taken l w = taken l w';
  linv_prot : forall l w w', hist w w' -> prot l w w' -> inv w -> inv w' -> linv l w -> linv l w';
  env_hist : forall w w', env w w' -> hist w w';
  env_prot : forall l w w', env w w' -> prot l w w';
  env_inv : forall w w', env w w' -> inv w -> inv w'
}.

Section Rules.
  Context {env : W -> W -> Prop} (laws : RG_laws env).

Lemma rely_refl H w : rely H w w.
Proof. split; [apply (hist_refl _ laws)|]. intros. apply (prot_refl _ laws). Qed.

Lemma rely_trans H w1 w2 w3 : rely H w1 w2 -> rely H w2 w3 -> rely H w1 w3.
Proof.
  intros [h1 p1] [h2 p2]. split; [by eapply (hist_trans _ laws)|].
  intros l Hl. eapply (prot_trans _ laws); eauto.
Qed.

Lemma trans_mono H w w' (K1 K2 : gset L -> Prop) :
  (forall H', K1 H' -> K2 H') -> trans H w w' K1 -> trans H w w' K2.
Proof. intros HK HT Hb. destruct (HT Hb) as (H' & ? & ? & ? & ? & ?). exists H'. eauto 6. Qed.

(** An action that keeps the roles of its goroutine. *)
Lemma trans_keep H w w' (K : gset L -> Prop) :
  hist w w' -> (forall l, l ∉ H -> prot l w w') ->
  (forall l, role l = true -> l ∈ H -> taken l w' = true) ->
  inv w' -> K H -> trans H w w' K.
Proof. intros. intros _. exists H. split; [split; try done; auto|]; auto. Qed.

(** The assertion of a goroutine is stable under its rely. *)
Lemma wp_stable {A} (p : prog A) H Post w w' :
  wp p H Post w -> rely H w w' -> wp p H Post w'.
Proof. intros Hw HR. destruct p; cbn in *; intros w'' HR'; apply Hw; by eapply rely_trans. Qed.

Lemma wp_mono {A} (p : prog A) : forall H (P1 P2 : A -> gset L -> W -> Prop) w,
  (forall a H w, P1 a H w -> P2 a H w) -> wp p H P1 w -> wp p H P2 w.
Proof.
  induction p as [A a|A X f k IH|A l k IH|A l k IH|A X q ready k IH|A X Y body IHb x k IHk|A p IHp k IHk];
    cbn; intros H P1 P2 w HP Hw w' HR Hi Hh; specialize (Hw w' HR Hi Hh).
  - by apply HP.
  - eapply trans_mono; [|exact Hw]. eauto.
  - destruct Hw as (?&?&?&?). eauto 7.
  - destruct Hw as (?&?&?&?). eauto 6.
  - destruct Hw as [? Hw]. split; [done|]. intros x w'' Ha Hr.
    eapply trans_mono; [|by apply (Hw x)]. eauto.
  - destruct Hw as (I & HI & Hb). exists I. split; [done|].
    intros x1 H1 w1 HI1. eapply IHb; [|by apply Hb].
    intros [x'|y] H2 w2; cbn; [done|]. by apply IHk.
  - destruct Hw as (G & ? & ? & ? & ?). exists G. eauto 6.
Qed.

Lemma wp_bind {A B} (p : prog A) (f : A -> prog B) : forall H Post w,
  wp p H (fun a H w => wp (f a) H Post w) w -> wp (bind p f) H Post w.
Proof.
  induction p as [A a|A X g k IH|A l k IH|A l k IH|A X q ready k IH|A X Y body IHb x k IHk|A p IHp k IHk];
    intros H Post w Hw.
  - cbn in *. destruct (f a) eqn:E; cbn in *; intros w' HR Hi Hh;
      (eapply (Hw w' HR Hi Hh w'); [apply rely_refl|done|done]).
  - cbn in *; intros w' HR Hi Hh. eapply trans_mono; [|exact (Hw w' HR Hi Hh)]. eauto.
  - cbn in *; intros w' HR Hi Hh. destruct (Hw w' HR Hi Hh) as (?&?&?&?). eauto 7.
  - cbn in *; intros w' HR Hi Hh. destruct (Hw w' HR Hi Hh) as (?&?&?&?). eauto 6.
  - cbn in *; intros w' HR Hi Hh. destruct (Hw w' HR Hi Hh) as [? Hk]. split; [done|].
    intros x w'' Ha Hr. eapply trans_mono; [|by apply (Hk x)]. eauto.
  - cbn in *; intros w' HR Hi Hh. destruct (Hw w' HR Hi Hh) as (I & HI & Hb).
    exists I. split; [done|]. intros x1 H1 w1 HI1.
    eapply wp_mono; [|by apply Hb]. intros [x'|y] H2 w2; cbn; [done|]. apply IHk.
  - cbn in *; intros w' HR Hi Hh. destruct (Hw w' HR Hi Hh) as (G & ? & ? & ? & ?). exists G. eauto 6.
Qed.

Lemma wp_unroll {A X Y} (body : X -> prog (X + Y)) x (k : Y -> prog A) H Post w :
  wp (Loop body x k) H Post w -> inv w -> held_roles H w -> wp (unroll body x k) H Post w.
Proof.
  intros Hw Hi Hh. destruct (Hw w (rely_refl _ _) Hi Hh) as (I & HI & Hb).
  apply wp_bind. eapply wp_mono; [|by apply Hb].
  intros [x'|y] H' w'; [|done]. cbn. intros HI' w'' HR Hi' Hh'.
  exists I. split; [by apply HI'|done].
Qed.

(** ** Rules for the program text *)

Lemma trans_refl H w (K : gset L -> Prop) : held_roles H w -> inv w -> K H -> trans H w w K.
Proof.
  intros Hh Hi HK. apply trans_keep; [apply (hist_refl _ laws)| |auto|done|done].
  intros. apply (prot_refl _ laws).
Qed.

(** A step of the surroundings, and the facts that hold after it. *)
Definition later (H : gset L) (w : W) (P : W -> Prop) : Prop :=
  forall w', rely H w w' -> inv w' -> held_roles H w' -> P w'.

Lemma wp_ret {A} (a : A) H Post w : later H w (Post a H) -> wp (Ret a) H Post w.
Proof. done. Qed.

Lemma wp_act {X A} (f : W -> X * W) (k : X -> prog A) H Post w :
  later H w (fun w => trans H w (f w).2 (fun H' => wp (k (f w).1) H' Post (f w).2)) ->
  wp (bind (act f) k) H Post w.
Proof. done. Qed.

Lemma wp_modify {A} (f : W -> W) (k : unit -> prog A) H Post w :
  later H w (fun w => trans H w (f w) (fun H' => wp (k tt) H' Post (f w))) ->
  wp (bind (modify f) k) H Post w.
Proof. done. Qed.

Lemma wp_read {X A} (f : W -> X) (k : X -> prog A) H Post w :
  later H w (fun w => wp (k (f w)) H Post w) -> wp (bind (read f) k) H Post w.
Proof. intros Hw w' HR Hi Hh. cbn. apply trans_refl; [done|done|]. by apply Hw. Qed.

Lemma wp_ask {X A} (q : Q X) (k : X -> prog A) H Post w :
  later H w (fun w => pre _ q H w /\ forall x, answers _ q x -> wp (k x) H Post w) ->
  wp (bind (ask q) k) H Post w.
Proof.
  intros Hw w' HR Hi Hh. destruct (Hw w' HR Hi Hh) as [Hp Hk]. split; [done|].
  intros x w'' Ha [= <-]. apply trans_refl; auto. by apply Hk.
Qed.

Lemma wp_select {X A} (q : Q X) ready (k : X -> prog A) H Post w :
  later H w (fun w => pre _ q H w /\ forall x w', answers _ q x -> ready w x = Some w' ->
                        trans H w w' (fun H' => wp (k x) H' Post w')) ->
  wp (bind (select q ready) k) H Post w.
Proof. done. Qed.

Lemma wp_lock {A} l (k : unit -> prog A) H Post w :
  role l = false -> l ∉ H -> (forall l', l' ∈ H -> role l' = false -> (rank l' < rank l)%nat) ->
  later H w (fun w => linv l w -> wp (k tt) ({[l]} ∪ H) Post w) ->
  wp (bind (lock l) k) H Post w.
Proof. intros ? ? ? Hw w' HR Hi Hh. split; [done|]. split; [done|]. split; [done|]. by apply Hw. Qed.

Lemma wp_unlock {A} l (k : unit -> prog A) H Post w :
  role l = false -> l ∈ H ->
  later H w (fun w => linv l w /\ wp (k tt) (H ∖ {[l]}) Post w) ->
  wp (bind (unlock l) k) H Post w.
Proof. intros ? ? Hw w' HR Hi Hh. split; [done|]. split; [done|]. by apply Hw. Qed.

Lemma wp_fork {A} (p : prog unit) (k : unit -> prog A) H Post w (G : gset L) :
  G ⊆ H -> (forall l, l ∈ G -> role l = true) ->
  later H w (fun w => wp p G (fun _ H _ => H = ∅) w /\ wp (k tt) (H ∖ G) Post w) ->
  wp (bind (fork p) k) H Post w.
Proof. intros ? ? Hw w' HR Hi Hh. exists G. destruct (Hw w' HR Hi Hh). done. Qed.

(** Calling a subprogram by its specification. *)
Lemma wp_call {A B} (p : prog A) (k : A -> prog B) H (P : A -> gset L -> W -> Prop) Post w :
  wp p H P w -> (forall a H w, P a H w -> wp (k a) H Post w) -> wp (bind p k) H Post w.
Proof. intros Hp Hk. apply wp_bind. eapply wp_mono; eauto. Qed.

(** Whatever a program does, its end lies in the future of its start. *)
Lemma wp_hist_from {A} (p : prog A) : forall H (Post : A -> gset L -> W -> Prop) w0 w,
  hist w0 w -> wp p H Post w -> wp p H (fun a H' w' => Post a H' w' /\ hist w0 w') w.
Proof.
  induction p as [A a|A X f k IH|A l k IH|A l k IH|A X q ready k IH|A X Y body IHb x k IHk|A p IHp k IHk];
    cbn; intros H Post w0 w Hw0 Hw w' HR Hi Hh; specialize (Hw w' HR Hi Hh);
    assert (Hw1 : hist w0 w') by (destruct HR; by eapply (hist_trans _ laws)).
  - done.
  - intros Hb. destruct (Hw Hb) as (H' & Hrc & Hhist & Hp & Hi' & HK).
    exists H'. split; [done|]. split; [done|]. split; [done|]. split; [done|].
    apply IH; [by eapply (hist_trans _ laws)|done].
  - destruct Hw as (?&?&?&Hk). split; [done|]. split; [done|]. split; [done|]. intros Hl.
    apply IH; [done|by apply Hk].
  - destruct Hw as (?&?&?&Hk). split; [done|]. split; [done|]. split; [done|]. by apply IH.
  - destruct Hw as [? Hk]. split; [done|]. intros x w'' Ha Hr Hb.
    destruct (Hk x w'' Ha Hr Hb) as (H' & Hrc & Hhist & Hp & Hi' & HK).
    exists H'. split; [done|]. split; [done|]. split; [done|]. split; [done|].
    apply IH; [by eapply (hist_trans _ laws)|done].
  - destruct Hw as (I & HI & Hb). exists (fun x H w => I x H w /\ hist w0 w). split; [done|].
    intros x1 H1 w1 [HI1 Hh1]. eapply wp_mono; [|eapply (IHb x1 H1); [exact Hh1|apply Hb, HI1]].
    intros [x'|y] H2 w2; cbn.
    + intros [HI2 Hh2] w3 HR3 Hi3 Hh3. split; [by apply HI2|]. destruct HR3. by eapply (hist_trans _ laws).
    + intros [Hk Hh2]. by apply IHk.
  - destruct Hw as (G & ? & ? & ? & Hk). exists G. split; [done|]. split; [done|]. split; [done|]. by apply IHk.
Qed.

Lemma wp_call_hist {A B} (p : prog A) (k : A -> prog B) H (P : A -> gset L -> W -> Prop) Post w :
  wp p H P w -> (forall a H w', hist w w' -> P a H w' -> wp (k a) H Post w') -> wp (bind p k) H Post w.
Proof.
  intros Hp Hk. apply wp_bind. eapply wp_mono; [|apply (wp_hist_from p H P w w (hist_refl _ laws w) Hp)].
  intros a H' w' [HP Hh]. by apply Hk.
Qed.

(** A loop whose iterations all start with the same holdings and a stable
    invariant. *)
Lemma wp_loop {Y A} (body : unit -> prog (unit + Y)) (k : Y -> prog A) H Post w (I : W -> Prop) :
  (forall w w', rely H w w' -> I w -> I w') -> I w ->
  (forall w, I w ->
     wp (body tt) H (fun r H' w => match r with inl _ => H' = H /\ I w | inr y => wp (k y) H' Post w end) w) ->
  wp (bind (loop body tt) k) H Post w.
Proof.
  intros HI Hw Hb w' HR Hi Hh. exists (fun _ H' w => H' = H /\ I w). split; [eauto|].
  intros [] H1 w1 [-> HI1]. eapply wp_mono; [|by apply Hb].
  intros [x'|y] H2 w2; cbn; [|done]. intros [-> HI2] w3 HR3 _ _. eauto.
Qed.

Lemma later_hist H w P : later H w P -> inv w -> held_roles H w -> P w.
Proof. intros HL Hi Hh. apply HL; [apply rely_refl|done|done]. Qed.

(** ** Soundness *)

Section Soundness.
  Context {api : prog unit -> Prop}.
  Context (api_ok : forall p w, api p -> inv w -> wp p ∅ (fun _ H _ => H = ∅) w).

Definition holds_exactly (own : gmap L nat) (t : nat) (H : gset L) : Prop :=
  forall l, l ∈ H <-> own !! l = Some t.

Definition finished (_ : unit) (H : gset L) (_ : W) : Prop := H = ∅.

Definition thread_ok (w : W) (own : gmap L nat) (t : nat) (p : prog unit) : Prop :=
  exists H, holds_exactly own t H /\ wp p H finished w.

(** [own] extends the mutex ownership of the configuration with the roles. *)
Record config_own (c : config) (own : gmap L nat) : Prop := {
  ok_mutex : forall l, role l = false -> own !! l = owner c !! l;
  ok_role : forall l, role l = true -> is_Some (own !! l) <-> taken l (world c) = true;
  ok_inv : inv (world c);
  ok_linv : forall l, role l = false -> own !! l = None -> linv l (world c);
  ok_owner : forall l t, own !! l = Some t -> is_Some (pool c !! t);
  ok_pool : forall t p, pool c !! t = Some p -> thread_ok (world c) own t p
}.

Definition config_ok (c : config) : Prop := exists own, config_own c own.

Lemma holds_exactly_disjoint own t1 t2 H1 H2 :
  t1 <> t2 -> holds_exactly own t1 H1 -> holds_exactly own t2 H2 -> H1 ## H2.
Proof.
  intros Hne E1 E2 l Hl1 Hl2. apply E1 in Hl1. apply E2 in Hl2. congruence.
Qed.

(** Every goroutine's set, as a set. *)
Definition held (own : gmap L nat) (t : nat) : gset L := dom (filter (fun lu => lu.2 = t) own).

Lemma held_exactly own t : holds_exactly own t (held own t).
Proof.
  intros l. unfold held. rewrite elem_of_dom. split.
  - intros [u Hu]. apply map_lookup_filter_Some in Hu. cbn in Hu. by destruct Hu as [? <-].
  - intros Hl. exists t. by apply map_lookup_filter_Some.
Qed.

(** Goroutine [t] now holds exactly [H']. *)
Definition reown (own : gmap L nat) (t : nat) (H' : gset L) : gmap L nat :=
  gset_to_gmap t H' ∪ filter (fun lu => lu.2 <> t) own.

Lemma reown_in own t H' l : l ∈ H' -> reown own t H' !! l = Some t.
Proof.
  intros Hl. apply lookup_union_Some_l. by apply lookup_gset_to_gmap_Some.
Qed.

Lemma reown_notin own t H' l u :
  l ∉ H' -> reown own t H' !! l = Some u <-> own !! l = Some u /\ u <> t.
Proof.
  intros Hl. unfold reown. rewrite lookup_union_r.
  - by rewrite map_lookup_filter_Some.
  - by apply lookup_gset_to_gmap_None.
Qed.

Lemma reown_self own t H' : holds_exactly (reown own t H') t H'.
Proof.
  intros l. split; [apply reown_in|]. intros Hl. destruct (decide (l ∈ H')) as [|Hn]; [done|].
  apply reown_notin in Hl; [|done]. by destruct Hl.
Qed.

Lemma reown_other own t H' u H :
  u <> t -> (forall l, l ∈ H' -> own !! l <> Some u) ->
  holds_exactly own u H -> holds_exactly (reown own t H') u H.
Proof.
  intros Hne Hd HE l. unfold holds_exactly in HE. rewrite HE.
  destruct (decide (l ∈ H')) as [Hin|Hn].
  - rewrite reown_in by done. split; [by intros ?%Hd|]. congruence.
  - rewrite reown_notin by done. naive_solver.
Qed.

Lemma thread_ok_rely w w' own own' t p :
  (forall H, holds_exactly own t H -> holds_exactly own' t H /\ rely H w w') ->
  thread_ok w own t p -> thread_ok w' own' t p.
Proof.
  intros HR (H & E & Hw). destruct (HR H E) as [E' HR']. exists H. split; [done|].
  eapply wp_stable; eauto.
Qed.

Lemma own_held c own t H :
  config_own c own -> holds_exactly own t H -> held_roles H (world c).
Proof. intros Hc HE l Hl Hr. apply HE in Hl. apply (ok_role _ _ Hc l Hr). eauto. Qed.

(** Goroutine [t] moves from [w] to [w'] and from [H] to [H']. *)
Lemma config_own_move w w' ow ow' pl own t p p' H H' :
  config_own (mkConfig w ow pl) own -> pl !! t = Some p -> holds_exactly own t H ->
  (forall l, role l = true -> l ∈ H' -> taken l w' = true) ->
  (forall l, role l = true -> l ∈ H -> l ∉ H' -> taken l w' = false) ->
  (forall l, l ∉ H -> l ∈ H' -> own !! l = None) ->
  (forall l, role l = false -> reown own t H' !! l = ow' !! l) ->
  (forall l, role l = false -> l ∈ H -> l ∉ H' -> linv l w') ->
  hist w w' -> (forall l, l ∉ H -> l ∉ H' -> prot l w w') -> inv w' ->
  wp p' H' finished w' ->
  config_own (mkConfig w' ow' (<[t := p']> pl)) (reown own t H').
Proof.
  intros [Hm Hro Hi Hl Ho Hp] Hpt HE Ht Hf Hn How Hli Hh Hpr Hi' Hw. cbn in *.
  unfold holds_exactly in HE.
  assert (Hdis : forall l u, u <> t -> l ∈ H' -> own !! l <> Some u).
  { intros l u Hne Hin Hlu. destruct (decide (l ∈ H)) as [HlH|HlH].
    - apply HE in HlH. congruence.
    - rewrite (Hn l HlH Hin) in Hlu. done. }
  assert (Hout : forall l, l ∉ H -> l ∉ H' -> reown own t H' !! l = own !! l).
  { intros l HlH HlH'. apply option_eq. intros u. rewrite reown_notin by done.
    split; [naive_solver|]. intros Hu. split; [done|]. intros ->. by apply HlH, HE. }
  split; cbn; [exact How| |exact Hi'| | |].
  - intros l Hr. destruct (decide (l ∈ H')) as [Hin|Hout'].
    { rewrite reown_in by done. split; [by auto|by eauto]. }
    destruct (decide (l ∈ H)) as [HlH|HlH].
    { rewrite (Hf l Hr HlH Hout'). split; [|done]. intros [u Hu].
      apply reown_notin in Hu; [|done]. destruct Hu as [Hu Hne]. apply HE in HlH. congruence. }
    rewrite Hout, (Hro l Hr) by done. by rewrite (prot_taken _ laws l w w' Hr (Hpr l HlH Hout')).
  - intros l Hr Hnone. destruct (decide (l ∈ H')) as [Hin|Hout'].
    { rewrite reown_in in Hnone by done. done. }
    destruct (decide (l ∈ H)) as [HlH|HlH]; [by apply Hli|].
    rewrite Hout in Hnone by done. eapply (linv_prot _ laws); eauto.
  - intros l u Hu. destruct (decide (u = t)) as [->|Hne]; [by rewrite lookup_insert_eq; eauto|].
    rewrite lookup_insert_ne by done. destruct (decide (l ∈ H')) as [Hin|Hout'].
    { rewrite reown_in in Hu by done. congruence. }
    apply reown_notin in Hu; [|done]. destruct Hu. eauto.
  - intros u q. destruct (decide (u = t)) as [->|Hne].
    + rewrite lookup_insert_eq. intros [= <-]. exists H'. split; [apply reown_self|done].
    + rewrite lookup_insert_ne by done. intros Hq. eapply thread_ok_rely; [|by apply Hp].
      intros H2 HE2. split; [apply reown_other; [done|naive_solver|done]|].
      split; [done|]. intros l Hl2. apply HE2 in Hl2. apply Hpr.
      * intros HlH. apply HE in HlH. congruence.
      * intros HlH'. by apply (Hdis l u).
Qed.

(** A new goroutine [t'] takes over the roles [G] of its parent. *)
Lemma config_own_fork w ow pl own t t' p k q H G :
  config_own (mkConfig w ow pl) own -> pl !! t = Some q -> pl !! t' = None ->
  holds_exactly own t H -> G ⊆ H -> (forall l, l ∈ G -> role l = true) ->
  wp p G finished w -> wp k (H ∖ G) finished w ->
  config_own (mkConfig w ow (<[t' := p]> (<[t := k]> pl))) (reown own t' G).
Proof.
  intros [Hm Hro Hi Hl Ho Hp] Hpt Hpt' HE HG Hrole Hwp Hwk. cbn in *.
  unfold holds_exactly in HE.
  assert (Hne : t <> t') by congruence.
  assert (Hno : forall l, own !! l <> Some t').
  { intros l Hlu. destruct (Ho _ _ Hlu). congruence. }
  assert (Hout : forall l, l ∉ G -> reown own t' G !! l = own !! l).
  { intros l HlG. apply option_eq. intros u. rewrite reown_notin by done. naive_solver. }
  split; cbn.
  - intros l Hr. rewrite Hout; [by auto|]. intros Hin. apply Hrole in Hin. congruence.
  - intros l Hr. rewrite <- Hro by done. destruct (decide (l ∈ G)) as [Hin|Hn].
    + rewrite reown_in by done. apply HG, HE in Hin. rewrite Hin. by split; eauto.
    + by rewrite Hout.
  - done.
  - intros l Hr Hnone. apply Hl; [done|]. rewrite Hout in Hnone; [done|].
    intros Hin. apply Hrole in Hin. congruence.
  - intros l u Hu. destruct (decide (l ∈ G)) as [Hin|Hn].
    + rewrite reown_in in Hu by done. injection Hu as <-. rewrite lookup_insert_eq. eauto.
    + rewrite Hout in Hu by done. destruct (decide (u = t')) as [->|]; [by apply Hno in Hu|].
      rewrite lookup_insert_ne by done. destruct (decide (u = t)) as [->|];
        [rewrite lookup_insert_eq|rewrite lookup_insert_ne by done]; eauto.
  - intros u q'. destruct (decide (u = t')) as [->|Hu'].
    { rewrite lookup_insert_eq. intros [= <-]. exists G. split; [apply reown_self|done]. }
    rewrite lookup_insert_ne by done. destruct (decide (u = t)) as [->|Hu].
    { rewrite lookup_insert_eq. intros [= <-]. exists (H ∖ G). split; [|done].
      intros l. rewrite elem_of_difference, HE. destruct (decide (l ∈ G)) as [Hin|Hn].
      - rewrite reown_in by done. split; [naive_solver|congruence].
      - rewrite Hout by done. naive_solver. }
    rewrite lookup_insert_ne by done. intros Hq. eapply thread_ok_rely; [|by apply Hp].
    intros H2 HE2. split; [|apply rely_refl]. apply reown_other; [done| |done].
    intros l Hin. apply HG, HE in Hin. congruence.
Qed.

Lemma config_own_call w ow pl own t p :
  config_own (mkConfig w ow pl) own -> pl !! t = None -> wp p ∅ finished w ->
  config_own (mkConfig w ow (<[t := p]> pl)) own.
Proof.
  intros [Hm Hro Hi Hl Ho Hp] Hpt Hw. split; cbn in *; try done.
  - intros l u Hu. destruct (decide (u = t)) as [->|Hne].
    + rewrite lookup_insert_eq. eauto.
    + rewrite lookup_insert_ne by done. eauto.
  - intros u q. destruct (decide (u = t)) as [->|Hne].
    + rewrite lookup_insert_eq. intros [= <-]. exists ∅. split; [|done].
      intros l. split; [set_solver|]. intros Hl'. destruct (Ho _ _ Hl'). congruence.
    + rewrite lookup_insert_ne by done. apply Hp.
Qed.

Lemma config_own_env w w' ow pl own :
  env w w' -> config_own (mkConfig w ow pl) own -> config_own (mkConfig w' ow pl) own.
Proof.
  intros He [Hm Hro Hi Hl Ho Hp]. split; cbn in *; [done| |by eapply (env_inv _ laws)| |done|].
  - intros l Hr. rewrite (Hro l Hr).
    by rewrite (prot_taken _ laws l w w' Hr (env_prot _ laws _ _ _ He)).
  - intros l Hr Hnone. eapply (linv_prot _ laws);
      [by eapply (env_hist _ laws)|by eapply (env_prot _ laws)|done|by eapply (env_inv _ laws)|eauto].
  - intros u q Hq. eapply thread_ok_rely; [|by apply Hp]. intros H HE. split; [done|].
    split; [by eapply (env_hist _ laws)|]. intros. by eapply (env_prot _ laws).
Qed.

Lemma diff_singleton_eq (H : gset L) l l' : l' ∈ H -> l' ∉ H ∖ {[l]} -> l' = l.
Proof.
  rewrite elem_of_difference, elem_of_singleton. intros Hin Hn.
  destruct (decide (l' = l)); [done|]. exfalso. by apply Hn.
Qed.
Lemma union_singleton_eq (H : gset L) l l' : l' ∉ H -> l' ∈ {[l]} ∪ H -> l' = l.
Proof. rewrite elem_of_union, elem_of_singleton. by intros Hn [?|?]. Qed.
Lemma diff_singleton_iff (H : gset L) l l' : l' <> l -> l' ∈ H ∖ {[l]} <-> l' ∈ H.
Proof. intros Hne. rewrite elem_of_difference, elem_of_singleton. naive_solver. Qed.
Lemma union_singleton_iff (H : gset L) l l' : l' <> l -> l' ∈ {[l]} ∪ H <-> l' ∈ H.
Proof. intros Hne. rewrite elem_of_union, elem_of_singleton. naive_solver. Qed.
Lemma union_singleton_sub (H : gset L) l l' : l' ∈ H -> l' ∉ {[l]} ∪ H -> False.
Proof. rewrite elem_of_union. naive_solver. Qed.

(** The mutexes other than [l] keep their owners. *)
Lemma reown_mutex (own ow : gmap L nat) t H H' l' :
  holds_exactly own t H -> own !! l' = ow !! l' -> (l' ∈ H' <-> l' ∈ H) ->
  reown own t H' !! l' = ow !! l'.
Proof.
  intros HE Hm Hiff. rewrite <- Hm. apply option_eq. intros u. unfold holds_exactly in HE.
  destruct (decide (l' ∈ H')) as [Hin|Hn].
  - rewrite reown_in by done. apply Hiff, HE in Hin. by rewrite Hin.
  - rewrite reown_notin by done. split; [naive_solver|]. intros Hu. split; [done|].
    intros ->. by apply Hn, Hiff, HE.
Qed.

(** An action, or the choice of a select. *)
Lemma config_own_trans w w' ow pl own t p p' H :
  config_own (mkConfig w ow pl) own -> pl !! t = Some p -> holds_exactly own t H ->
  bound w' -> trans H w w' (fun H' => wp p' H' finished w') ->
  config_ok (mkConfig w' ow (<[t := p']> pl)).
Proof.
  intros Hc Hpt HE Hb HT. destruct (HT Hb) as (H' & [Rm Rt Rf Rn] & Hh & Hp & Hi & Hw).
  exists (reown own t H').
  eapply config_own_move; [exact Hc|exact Hpt|exact HE|exact Rt|exact Rf| | | |done..].
  - intros l HlH HlH'. destruct (role l) eqn:Hr; [|by apply Rm in HlH'].
    pose proof (ok_role _ _ Hc l Hr) as Hro. cbn in Hro.
    pose proof (Rn l Hr HlH HlH') as Hf. rewrite Hf in Hro.
    apply eq_None_not_Some. intros Hs. by apply Hro in Hs.
  - intros l Hr. eapply reown_mutex; [exact HE|exact (ok_mutex _ _ Hc l Hr)|].
    by rewrite (Rm l Hr).
  - intros l Hr HlH HlH'. by apply (Rm l Hr) in HlH.
Qed.

Lemma config_own_lock w ow pl own t l k :
  config_own (mkConfig w ow pl) own -> pl !! t = Some (Lock l k) -> ow !! l = None ->
  config_ok (mkConfig w (<[l := t]> ow) (<[t := k]> pl)).
Proof.
  intros Hc Hpt Hln. destruct (ok_pool _ _ Hc _ _ Hpt) as (H & HE & Hw). cbn in Hw.
  destruct (Hw w (rely_refl _ _) (ok_inv _ _ Hc) (own_held _ _ _ _ Hc HE)) as (Hr & Hnl & _ & Hk).
  pose proof (ok_mutex _ _ Hc l Hr) as Hol. cbn in Hol. rewrite Hln in Hol.
  exists (reown own t ({[l]} ∪ H)).
  eapply config_own_move; [exact Hc|exact Hpt|exact HE| | | | | |apply (hist_refl _ laws)| | |].
  - intros l' Hr' Hin. apply elem_of_union in Hin. destruct Hin as [->%elem_of_singleton|Hin];
      [congruence|]. apply HE in Hin. apply (ok_role _ _ Hc l' Hr'). eauto.
  - intros l' _ Hin Hout. by destruct (union_singleton_sub _ _ _ Hin Hout).
  - intros l' Hn Hin. by rewrite (union_singleton_eq _ _ _ Hn Hin).
  - intros l' Hr'. destruct (decide (l' = l)) as [->|Hne].
    { rewrite lookup_insert_eq. apply reown_in. apply elem_of_union. left. by apply elem_of_singleton. }
    rewrite lookup_insert_ne by done.
    eapply reown_mutex; [exact HE|exact (ok_mutex _ _ Hc l' Hr')|by apply union_singleton_iff].
  - intros l' _ Hin Hout. by destruct (union_singleton_sub _ _ _ Hin Hout).
  - intros. apply (prot_refl _ laws).
  - exact (ok_inv _ _ Hc).
  - apply Hk. by apply (ok_linv _ _ Hc).
Qed.

Lemma config_own_unlock w ow pl own t l k :
  config_own (mkConfig w ow pl) own -> pl !! t = Some (Unlock l k) -> ow !! l = Some t ->
  config_ok (mkConfig w (delete l ow) (<[t := k]> pl)).
Proof.
  intros Hc Hpt Hlt. destruct (ok_pool _ _ Hc _ _ Hpt) as (H & HE & Hw). cbn in Hw.
  destruct (Hw w (rely_refl _ _) (ok_inv _ _ Hc) (own_held _ _ _ _ Hc HE)) as (Hr & HlH & Hli & Hk).
  exists (reown own t (H ∖ {[l]})).
  eapply config_own_move; [exact Hc|exact Hpt|exact HE| | | | | |apply (hist_refl _ laws)| | |].
  - intros l' Hr' Hin. apply elem_of_difference in Hin. destruct Hin as [Hin _].
    apply HE in Hin. apply (ok_role _ _ Hc l' Hr'). eauto.
  - intros l' Hr' Hin Hout. rewrite (diff_singleton_eq _ _ _ Hin Hout) in Hr'. congruence.
  - intros l' Hn Hin. apply elem_of_difference in Hin. by destruct Hin.
  - intros l' Hr'. destruct (decide (l' = l)) as [->|Hne].
    { rewrite lookup_delete_eq. apply eq_None_not_Some. intros [u Hu].
      apply reown_notin in Hu; [|by rewrite elem_of_difference, elem_of_singleton; naive_solver].
      apply HE in HlH. destruct Hu. congruence. }
    rewrite lookup_delete_ne by done.
    eapply reown_mutex; [exact HE|exact (ok_mutex _ _ Hc l' Hr')|by apply diff_singleton_iff].
  - intros l' _ Hin Hout. by rewrite (diff_singleton_eq _ _ _ Hin Hout).
  - intros. apply (prot_refl _ laws).
  - exact (ok_inv _ _ Hc).
  - exact Hk.
Qed.

Lemma config_ok_step c c' :
  config_ok c -> step env api answers c c' -> bound (world c') -> config_ok c'.
Proof.
  intros [own Hok] Hs Hb. destruct Hs as [w ow pl t X f k Hpt|w ow pl t l k Hpt Hln|w ow pl t l k Hpt Hlt
    |w w' ow pl t X q ready k x Hpt Ha Hr|w ow pl t X Y body x k Hpt|w ow pl t t' p k Hpt Hpt'
    |w ow pl t p Hapi Hpt|w w' ow pl He].
  - destruct (ok_pool _ _ Hok _ _ Hpt) as (H & HE & Hw).
    eapply config_own_trans; [done..|]. exact (Hw w (rely_refl _ _) (ok_inv _ _ Hok) (own_held _ _ _ _ Hok HE)).
  - by eapply config_own_lock.
  - by eapply config_own_unlock.
  - destruct (ok_pool _ _ Hok _ _ Hpt) as (H & HE & Hw).
    destruct (Hw w (rely_refl _ _) (ok_inv _ _ Hok) (own_held _ _ _ _ Hok HE)) as [_ Hk].
    eapply config_own_trans; [done..|]. by apply Hk.
  - destruct (ok_pool _ _ Hok _ _ Hpt) as (H & HE & Hw).
    eapply config_own_trans; [done..|]. apply trans_keep.
    + apply (hist_refl _ laws).
    + intros. apply (prot_refl _ laws).
    + intros l Hr Hl. apply HE in Hl. apply (ok_role _ _ Hok l Hr). eauto.
    + exact (ok_inv _ _ Hok).
    + apply wp_unroll; [done|exact (ok_inv _ _ Hok)|exact (own_held _ _ _ _ Hok HE)].
  - destruct (ok_pool _ _ Hok _ _ Hpt) as (H & HE & Hw).
    destruct (Hw w (rely_refl _ _) (ok_inv _ _ Hok) (own_held _ _ _ _ Hok HE)) as (G & HG & HGr & Hp & Hk).
    exists (reown own t' G). by eapply config_own_fork.
  - exists own. apply config_own_call; [done..|]. apply api_ok; [done|exact (ok_inv _ _ Hok)].
  - exists own. by eapply config_own_env.
Qed.

Theorem reachable_ok w0 c :
  inv w0 -> (forall l, role l = false -> linv l w0) -> (forall l, role l = true -> taken l w0 = false) ->
  reachable env api answers bound w0 c -> config_ok c.
Proof.
  intros Hi Hl Ht Hr.
  assert (Hok0 : config_ok (init_config w0)).
  { exists ∅. split; cbn; try done.
    - intros l Hrl. rewrite (Ht l Hrl), lookup_empty. split; [by intros []|done].
    - intros l Hrl _. by apply Hl. }
  clear Hi Hl Ht. unfold reachable in Hr. revert Hok0.
  induction Hr as [|c1 c2 c3 [Hs Hb] _ IH]; eauto using config_ok_step.
Qed.

(** A goroutine waits for a mutex somebody holds. *)
Definition blocked (c : @config W L EqL CountL Q) (p : prog unit) : Prop :=
  match p with Lock l _ => is_Some (owner c !! l) | _ => False end.
Definition done_prog (p : prog unit) : Prop :=
  match p with Ret _ => True | _ => False end.

(** Whenever a mutex is held, some holder is neither finished nor waiting for
    a mutex: the lock order excludes deadlock. *)
Lemma held_lock_progress c (maxRank : nat) :
  (forall l, (rank l < maxRank)%nat) -> config_ok c ->
  forall l t, role l = false -> owner c !! l = Some t ->
  exists t' p', pool c !! t' = Some p' /\ ~ blocked c p' /\ ~ done_prog p'.
Proof.
  intros Hb [own Hok] l. remember (maxRank - rank l)%nat as d eqn:Hd.
  revert l Hd. induction d as [d IH] using lt_wf_ind. intros l Hd t Hrl Hlt.
  rewrite <- (ok_mutex _ _ Hok l Hrl) in Hlt.
  destruct (ok_owner _ _ Hok _ _ Hlt) as [p Hpt]. destruct (ok_pool _ _ Hok _ _ Hpt) as (H & HE & Hw).
  assert (HlH : l ∈ H) by by apply HE.
  destruct p as [a|X f k|l' k|l' k|X q ready k|X Y body x k|p k];
    try (eexists _, _; split; [exact Hpt|]; cbn; by split; intros []).
  - exfalso. specialize (Hw _ (rely_refl _ _) (ok_inv _ _ Hok) (own_held _ _ _ _ Hok HE)). cbn in Hw. unfold finished in Hw. set_solver.
  - destruct (owner c !! l') as [t'|] eqn:El'.
    + destruct (Hw _ (rely_refl _ _) (ok_inv _ _ Hok) (own_held _ _ _ _ Hok HE)) as (Hr' & _ & Hrank & _).
      specialize (Hrank _ HlH Hrl). pose proof (Hb l). pose proof (Hb l').
      eapply (IH (maxRank - rank l')%nat); [lia|done|exact Hr'|exact El'].
    + eexists _, _; split; [exact Hpt|]. cbn. rewrite El'. split; [by intros [? [=]]|tauto].
Qed.

(** Two goroutines that ask the environment at the same time satisfy their
    conditions with disjoint holdings. *)
Lemma asking_disjoint c t1 t2 X1 X2 (q1 : Q X1) (q2 : Q X2) r1 r2 k1 k2 :
  config_ok c -> t1 <> t2 ->
  pool c !! t1 = Some (Ask q1 r1 k1) -> pool c !! t2 = Some (Ask q2 r2 k2) ->
  exists H1 H2, H1 ## H2 /\ (held_roles H1 (world c) /\ pre _ q1 H1 (world c)) /\
                (held_roles H2 (world c) /\ pre _ q2 H2 (world c)).
Proof.
  intros [own Hok] Hne H1 H2.
  destruct (ok_pool _ _ Hok _ _ H1) as (G1 & E1 & W1).
  destruct (ok_pool _ _ Hok _ _ H2) as (G2 & E2 & W2).
  exists G1, G2. split; [by eapply holds_exactly_disjoint|].
  pose proof (own_held _ _ _ _ Hok E1) as Hr1. pose proof (own_held _ _ _ _ Hok E2) as Hr2.
  pose proof (ok_inv _ _ Hok) as Hi.
  split; (split; [done|]); [by apply (W1 _ (rely_refl _ _))|by apply (W2 _ (rely_refl _ _))].
Qed.

Lemma asking_pre c t X (q : Q X) r k :
  config_ok c -> pool c !! t = Some (Ask q r k) ->
  exists H, pre _ q H (world c) /\ held_roles H (world c) /\
    (forall l, role l = false -> l ∈ H <-> owner c !! l = Some t).
Proof.
  intros [own Hok] H. destruct (ok_pool _ _ Hok _ _ H) as (G & E & Hw).
  pose proof (own_held _ _ _ _ Hok E) as Hr. exists G.
  split; [apply (Hw _ (rely_refl _ _) (ok_inv _ _ Hok) Hr)|]. split; [exact Hr|].
  intros l Hl. rewrite <- (ok_mutex _ _ Hok l Hl). apply E.
Qed.

End Soundness.
End Rules.
End RG.

Arguments rely {W L EqL CountL} hist prot H w w'.
Arguments role_change {W L EqL CountL} role taken H H' w w'.
Arguments trans {W L EqL CountL} hist prot inv role taken bound H w w' K.
Arguments held_roles {W L EqL CountL} role taken H w.
Arguments wp {W L EqL CountL Q} hist prot inv linv rank role taken pre answers bound {A} p H Post w.
Arguments later {W L EqL CountL} hist prot inv role taken H w P.
Arguments RG_laws {W L} hist prot inv linv role taken env.
Arguments config_own {W L EqL CountL Q} hist prot inv linv rank role taken pre answers bound c own.
Arguments config_ok {W L EqL CountL Q} hist prot inv linv rank role taken pre answers bound c.
