(* ===== verification/Schedules.v ===== *)
(** Concrete executions: a scheduler that runs chosen goroutines of a
    configuration with a fixed environment, and the proof that everything it
    executes is a reachable configuration of the interleaving semantics. *)
From S2P Require Import Prelude Proc.

Section Schedules.
  Context {W L : Type} `{EqL : EqDecision L, CountL : !Countable L} {Q : Type -> Type}.
  Context (env : W -> W -> Prop) (api : prog (W := W) (L := L) (Q := Q) unit -> Prop)
          (answers : forall X : Type, Q X -> X -> Prop).
  Context (bound : W -> Prop) `{Hbd : forall w, Decision (bound w)}.
  Abbreviation prog := (@prog W L Q).
  Abbreviation config := (@config W L EqL CountL Q).

(** One action of goroutine [t]; a goroutine it starts is called [child]. *)
Definition exec_step (o : oracle) (t child : nat) (c : config) : option config :=
  let '(mkConfig w ow pl) := c in
  match pl !! t with
  | None | Some (Ret _) => None
  | Some (Do f k) => Some (mkConfig (f w).2 ow (<[t := k (f w).1]> pl))
  | Some (Lock l k) =>
      match ow !! l with
      | None => Some (mkConfig w (<[l := t]> ow) (<[t := k]> pl))
      | Some _ => None
      end
  | Some (Unlock l k) =>
      if decide (ow !! l = Some t) then Some (mkConfig w (delete l ow) (<[t := k]> pl)) else None
  | Some (Ask q ready k) =>
      match o _ q w with
      | Some x =>
          match ready w x with
          | Some w' => Some (mkConfig w' ow (<[t := k x]> pl))
          | None => None
          end
      | None => None
      end
  | Some (Loop body x k) => Some (mkConfig w ow (<[t := unroll body x k]> pl))
  | Some (Fork p k) =>
      match pl !! child with
      | None => Some (mkConfig w ow (<[child := p]> (<[t := k]> pl)))
      | Some _ => None
      end
  end.

Lemma exec_step_sound o t child c c' :
  (forall X q w x, o X q w = Some x -> answers X q x) -> exec_step o t child c = Some c' ->
  step env api answers c c'.
Proof.
  intros Ho. destruct c as [w ow pl]. cbn.
  destruct (pl !! t) as [[]|] eqn:Et; try done; cbn.
  - intros [= <-]. by eapply step_do.
  - destruct (ow !! l) eqn:El; [done|]. intros [= <-]. by eapply step_lock.
  - case_decide; [|done]. intros [= <-]. by eapply step_unlock.
  - destruct (o _ q w) as [x|] eqn:Ex; [|done]. destruct (ready w x) eqn:Er; [|done].
    intros [= <-]. eapply step_ask; eauto.
  - intros [= <-]. by eapply step_loop.
  - destruct (pl !! child) eqn:Ec; [done|]. intros [= <-]. by eapply step_fork.
Qed.

(** [n] actions of goroutine [t], or as many as it can take. *)
Fixpoint exec_thread (o : oracle) (n t child : nat) (c : config) : config :=
  match n with
  | O => c
  | S n =>
      match exec_step o t child c with
      | Some c' => if decide (bound (world c')) then exec_thread o n t child c' else c
      | None => c
      end
  end.

(** Start an entry point in goroutine [t]. *)
Definition call (t : nat) (p : prog unit) (c : config) : config :=
  match pool c !! t with
  | None => mkConfig (world c) (owner c) (<[t := p]> (pool c))
  | Some _ => c
  end.

Lemma exec_thread_reachable o n t child : forall w0 c,
  (forall X q w x, o X q w = Some x -> answers X q x) ->
  reachable env api answers bound w0 c ->
  reachable env api answers bound w0 (exec_thread o n t child c).
Proof.
  induction n as [|n IH]; intros w0 c Ho Hr; cbn; [done|].
  destruct (exec_step o t child c) as [c'|] eqn:E; [|done]. case_decide; [|done].
  apply IH; [done|]. eapply rtc_r; [exact Hr|]. split; [by eapply exec_step_sound|done].
Qed.

Lemma call_reachable t p w0 c :
  api p -> bound (world c) -> reachable env api answers bound w0 c ->
  reachable env api answers bound w0 (call t p c).
Proof.
  intros Hp Hb Hr. unfold call. destruct (pool c !! t) eqn:E; [done|].
  destruct c as [w ow pl]. eapply rtc_r; [exact Hr|]. split; [|done]. by apply step_call.
Qed.

Lemma reachable_bound w0 c :
  bound w0 -> reachable env api answers bound w0 c -> bound (world c).
Proof.
  intros Hb Hr. unfold reachable in Hr. apply rtc_inv_r in Hr as [<-|(c' & _ & _ & Hc)]; done.
Qed.

(** What goroutine [t] asks the environment, if that is its next action. *)
Definition asked (c : config) (t : nat) : option {X : Type & Q X} :=
  match pool c !! t with
  | Some (Ask q _ _) => Some (existT _ q)
  | _ => None
  end.

Lemma asked_pool c t (q : {X : Type & Q X}) :
  asked c t = Some q -> exists r k, pool c !! t = Some (Ask (projT2 q) r k).
Proof.
  unfold asked. destruct (pool c !! t) as [[]|]; try done. intros [= <-]. eauto.
Qed.

End Schedules.
