(* ===== verification/GoStrings.v ===== *)
(** Go's [strings] package, as far as the library uses it, on byte strings. *)
From S2P Require Import Prelude.
From Stdlib Require Import Ascii.

(** ** Slicing and searching *)

Fixpoint str_drop (n : nat) (s : string) : string :=
  match n, s with
  | O, _ => s
  | S n, String _ s => str_drop n s
  | S _, EmptyString => EmptyString
  end.

Fixpoint str_take (n : nat) (s : string) : string :=
  match n, s with
  | S n, String c s => String c (str_take n s)
  | _, _ => EmptyString
  end.

Definition HasPrefix (s pre : string) : bool := String.prefix pre s.

Definition HasSuffix (s suf : string) : bool :=
  (String.length suf <=? String.length s)%nat &&
  String.eqb (str_drop (String.length s - String.length suf) s) suf.

(** [strings.IndexByte] and [strings.LastIndexByte]. *)
Fixpoint IndexByte (s : string) (c : ascii) : option nat :=
  match s with
  | EmptyString => None
  | String a s => if Ascii.eqb a c then Some O else S <$> IndexByte s c
  end.

Fixpoint LastIndexByte (s : string) (c : ascii) : option nat :=
  match s with
  | EmptyString => None
  | String a s =>
      match LastIndexByte s c with
      | Some i => Some (S i)
      | None => if Ascii.eqb a c then Some O else None
      end
  end.

Definition ContainsByte (s : string) (c : ascii) : bool :=
  match IndexByte s c with Some _ => true | None => false end.

(** [strings.Index] of a substring. *)
Fixpoint Index (s sub : string) : option nat :=
  if HasPrefix s sub then Some O
  else match s with
       | EmptyString => None
       | String _ s => S <$> Index s sub
       end.

(** [strings.Cut] at a one-byte separator: before, after, found. *)
Fixpoint Cut (s : string) (sep : ascii) : string * string * bool :=
  match s with
  | EmptyString => (EmptyString, EmptyString, false)
  | String a s =>
      if Ascii.eqb a sep then (EmptyString, s, true)
      else let '(b, r, f) := Cut s sep in (String a b, r, f)
  end.

(** [strings.Split] at a one-byte separator. *)
Fixpoint Split (s : string) (sep : ascii) : list string :=
  match s with
  | EmptyString => [EmptyString]
  | String a s =>
      if Ascii.eqb a sep then EmptyString :: Split s sep
      else match Split s sep with
           | [] => [String a EmptyString]
           | h :: t => String a h :: t
           end
  end.

(** ** Character classes *)

Definition byte_of (c : ascii) : N := N_of_ascii c.
Definition in_range (lo hi c : ascii) : bool :=
  (byte_of lo <=? byte_of c)%N && (byte_of c <=? byte_of hi)%N.
Definition is_lower (c : ascii) : bool := in_range "a" "z" c.
Definition is_upper (c : ascii) : bool := in_range "A" "Z" c.
Definition is_digit (c : ascii) : bool := in_range "0" "9" c.
Definition is_alpha (c : ascii) : bool := is_lower c || is_upper c.

Fixpoint str_forallb (f : ascii -> bool) (s : string) : bool :=
  match s with
  | EmptyString => true
  | String c s => f c && str_forallb f s
  end.

(** ** TrimSpace: Unicode white space, decoded from UTF-8 *)

Definition ascii_space (c : ascii) : bool :=
  let n := byte_of c in ((9 <=? n) && (n <=? 13) || (n =? 32))%N.

(** U+0085 and U+00A0. *)
Definition space2 (a b : ascii) : bool :=
  ((byte_of a =? 0xC2) && ((byte_of b =? 0x85) || (byte_of b =? 0xA0)))%N.

(** U+1680, U+2000..U+200A, U+2028, U+2029, U+202F, U+205F, U+3000. *)
Definition space3 (a b c : ascii) : bool :=
  let a := byte_of a in let b := byte_of b in let c := byte_of c in
  ((a =? 0xE1) && (b =? 0x9A) && (c =? 0x80) ||
   (a =? 0xE2) && (b =? 0x80) &&
     ((0x80 <=? c) && (c <=? 0x8A) || (c =? 0xA8) || (c =? 0xA9) || (c =? 0xAF)) ||
   (a =? 0xE2) && (b =? 0x81) && (c =? 0x9F) ||
   (a =? 0xE3) && (b =? 0x80) && (c =? 0x80))%N.

Fixpoint TrimLeftSpace (s : string) : string :=
  match s with
  | EmptyString => EmptyString
  | String a s1 =>
      if ascii_space a then TrimLeftSpace s1
      else match s1 with
           | EmptyString => s
           | String b s2 =>
               if space2 a b then TrimLeftSpace s2
               else match s2 with
                    | EmptyString => s
                    | String c s3 => if space3 a b c then TrimLeftSpace s3 else s
                    end
           end
  end.

(** On the reversed string, where the bytes of a rune come last first. *)
Fixpoint TrimLeftSpaceRev (s : string) : string :=
  match s with
  | EmptyString => EmptyString
  | String a s1 =>
      if ascii_space a then TrimLeftSpaceRev s1
      else match s1 with
           | EmptyString => s
           | String b s2 =>
               if space2 b a then TrimLeftSpaceRev s2
               else match s2 with
                    | EmptyString => s
                    | String c s3 => if space3 c b a then TrimLeftSpaceRev s3 else s
                    end
           end
  end.

Definition TrimSpace (s : string) : string :=
  String.rev (TrimLeftSpaceRev (String.rev (TrimLeftSpace s))).

(** ** Case *)

Definition lower_byte (c : ascii) : ascii :=
  if is_upper c then ascii_of_N (byte_of c + 32) else c.

(** [strings.ToLower], exact on every rune whose lower case is an ASCII
    letter: besides A-Z those are U+0130 (bytes C4 B0, lower case i) and the
    Kelvin sign U+212A (bytes E2 84 AA, lower case k).  Any other rune has a
    non-ASCII lower case, and its bytes are kept, so that comparisons with
    ASCII strings agree with Go's. *)
Fixpoint ToLower (s : string) : string :=
  match s with
  | EmptyString => EmptyString
  | String a s1 =>
      match s1 with
      | String b s2 =>
          if ((byte_of a =? 0xC4) && (byte_of b =? 0xB0))%N then String "i" (ToLower s2)
          else match s2 with
               | String c s3 =>
                   if ((byte_of a =? 0xE2) && (byte_of b =? 0x84) && (byte_of c =? 0xAA))%N
                   then String "k" (ToLower s3)
                   else String (lower_byte a) (ToLower s1)
               | EmptyString => String (lower_byte a) (ToLower s1)
               end
      | EmptyString => String (lower_byte a) EmptyString
      end
  end.

(** [strings.ToLower] on ASCII input; [strings.EqualFold] of ASCII strings. *)
Fixpoint lower_ascii (s : string) : string :=
  match s with
  | EmptyString => EmptyString
  | String c s => String (lower_byte c) (lower_ascii s)
  end.

(** ** Lemmas *)

Lemma str_app_nil_r s : s +:+ "" = s.
Proof. induction s as [|c s IH]; cbn; [done|]. unfold String.append in *. cbn in *. by rewrite IH. Qed.

Lemma str_app_cons c s t : String c s +:+ t = String c (s +:+ t).
Proof. reflexivity. Qed.

Lemma str_app_empty t : "" +:+ t = t.
Proof. reflexivity. Qed.

Lemma str_app_assoc s t u : (s +:+ t) +:+ u = s +:+ (t +:+ u).
Proof. induction s as [|c s IH]; [done|]. rewrite !str_app_cons. by rewrite IH. Qed.

#[export] Hint Rewrite str_app_nil_r str_app_cons str_app_empty : gorw.

Lemma Cut_app s t sep :
  ContainsByte s sep = false -> Cut (s +:+ String sep t) sep = (s, t, true).
Proof.
  unfold ContainsByte. induction s as [|c s IH]; intros Hc.
  - rewrite str_app_empty. cbn. by rewrite Ascii.eqb_refl.
  - rewrite str_app_cons. cbn in *. destruct (Ascii.eqb c sep); [done|].
    rewrite IH; [done|]. by destruct (IndexByte s sep).
Qed.

Lemma Cut_none s sep : ContainsByte s sep = false -> Cut s sep = (s, "", false).
Proof.
  unfold ContainsByte. induction s as [|c s IH]; intros Hc; [done|].
  cbn in *. destruct (Ascii.eqb c sep); [done|].
  rewrite IH; [done|]. by destruct (IndexByte s sep).
Qed.

Lemma ContainsByte_cons c s sep :
  ContainsByte (String c s) sep = Ascii.eqb c sep || ContainsByte s sep.
Proof. unfold ContainsByte. cbn. destruct (Ascii.eqb c sep); [done|]. by destruct (IndexByte s sep). Qed.

Lemma ContainsByte_app s t sep :
  ContainsByte (s +:+ t) sep = ContainsByte s sep || ContainsByte t sep.
Proof.
  induction s as [|c s IH]; [done|].
  rewrite str_app_cons, !ContainsByte_cons, IH. by destruct (Ascii.eqb c sep).
Qed.

(** ** Fields *)

(** [strings.Fields], with the field read so far. *)
Fixpoint fields_from (cur s : string) : list string :=
  let flush rest := if String.eqb cur "" then rest else cur :: rest in
  match s with
  | EmptyString => flush []
  | String a s1 =>
      if ascii_space a then flush (fields_from "" s1)
      else match s1 with
           | EmptyString => fields_from (cur +:+ String a "") s1
           | String b s2 =>
               if space2 a b then flush (fields_from "" s2)
               else match s2 with
                    | EmptyString => fields_from (cur +:+ String a "") s1
                    | String c s3 =>
                        if space3 a b c then flush (fields_from "" s3)
                        else fields_from (cur +:+ String a "") s1
                    end
           end
  end.
Definition Fields (s : string) : list string := fields_from "" s.

Example Fields_example : Fields " openid  profile " = ["openid"; "profile"].
Proof. vm_compute. reflexivity. Qed.
