(* ===== verification/GoUrl.v ===== *)
(** Go's [net/url] (go 1.25), as far as the library uses it: [Parse],
    [ParseQuery], [Values], percent-encoding, [Hostname], [Port],
    [EscapedPath] and [String]. *)
From S2P Require Import Prelude GoStrings.
From Stdlib Require Import Ascii.
From stdpp Require Import sorting.

(** ** Percent-encoding *)

Inductive encoding :=
| encodePath | encodeHost | encodeZone | encodeUserPassword
| encodeQueryComponent | encodeFragment.

#[export] Instance encoding_eq_dec : EqDecision encoding.
Proof. solve_decision. Defined.

Definition one_of (cs : string) (c : ascii) : bool := ContainsByte cs c.
Definition dquote : ascii := ascii_of_N 34.

Definition shouldEscape (c : ascii) (mode : encoding) : bool :=
  if is_alpha c || is_digit c then false
  else if bool_decide (mode = encodeHost \/ mode = encodeZone) &&
          (one_of "!$&'()*+,;=:[]<>" c || Ascii.eqb c dquote) then false
  else if one_of "-_.~" c then false
  else if one_of "$&+,/:;=?@" c then
    match mode with
    | encodePath => Ascii.eqb c "?"
    | encodeUserPassword => one_of "@/?:" c
    | encodeQueryComponent => true
    | encodeFragment => false
    | encodeHost | encodeZone => true
    end
  else if bool_decide (mode = encodeFragment) && one_of "!()*" c then false
  else true.

Definition hex_digit (n : N) : ascii :=
  if (n <? 10)%N then ascii_of_N (48 + n) else ascii_of_N (55 + n).

Definition unhex (c : ascii) : option N :=
  if is_digit c then Some (byte_of c - 48)%N
  else if in_range "a" "f" c then Some (byte_of c - 87)%N
  else if in_range "A" "F" c then Some (byte_of c - 55)%N
  else None.

Fixpoint escape (s : string) (mode : encoding) : string :=
  match s with
  | EmptyString => EmptyString
  | String c s =>
      if shouldEscape c mode then
        if Ascii.eqb c " " && bool_decide (mode = encodeQueryComponent)
        then String "+" (escape s mode)
        else String "%" (String (hex_digit (byte_of c / 16))
                           (String (hex_digit (byte_of c mod 16)) (escape s mode)))
      else String c (escape s mode)
  end.

(** [None] is an EscapeError or InvalidHostError. *)
Fixpoint unescape (s : string) (mode : encoding) : option string :=
  match s with
  | EmptyString => Some EmptyString
  | String c s1 =>
      if Ascii.eqb c "%" then
        match s1 with
        | String h (String l rest) =>
            match unhex h, unhex l with
            | Some hv, Some lv =>
                let v := ascii_of_N (hv * 16 + lv) in
                let is25 := Ascii.eqb h "2" && Ascii.eqb l "5" in
                if bool_decide (mode = encodeHost) && (hv <? 8)%N && negb is25 then None
                else if bool_decide (mode = encodeZone) && negb is25 &&
                        negb (Ascii.eqb v " ") && shouldEscape v encodeHost then None
                else String v <$> unescape rest mode
            | _, _ => None
            end
        | _ => None
        end
      else if Ascii.eqb c "+" then
        String (if bool_decide (mode = encodeQueryComponent) then " "%char else "+"%char)
          <$> unescape s1 mode
      else if bool_decide (mode = encodeHost \/ mode = encodeZone) &&
              (byte_of c <? 128)%N && shouldEscape c mode then None
      else String c <$> unescape s1 mode
  end.

Definition QueryEscape (s : string) : string := escape s encodeQueryComponent.
Definition QueryUnescape (s : string) : option string := unescape s encodeQueryComponent.

(** ** Query values *)

Abbreviation Values := (gmap string (list string)).

Definition Values_lookup (v : Values) (k : string) : list string := default [] (v !! k).
(** [Values.Get], [Values.Set]. *)
Definition Values_Get (v : Values) (k : string) : string :=
  match Values_lookup v k with [] => EmptyString | x :: _ => x end.
Definition Values_Set (v : Values) (k x : string) : Values := <[k := [x]]> v.
Definition Values_Add (v : Values) (k x : string) : Values :=
  <[k := Values_lookup v k ++ [x]]> v.

(** One [key=value] pair of a query; [None] on a malformed pair. *)
Definition parsePair (pair : string) : option (string * string) :=
  let '(k, v, _) := Cut pair "=" in
  match QueryUnescape k, QueryUnescape v with
  | Some k, Some v => Some (k, v)
  | _, _ => None
  end.

(** [parseQuery]: the values of the well-formed pairs, and whether no pair was
    malformed. *)
Fixpoint parsePairs (pairs : list string) (m : Values) (ok : bool) : Values * bool :=
  match pairs with
  | [] => (m, ok)
  | p :: ps =>
      if ContainsByte p ";" then parsePairs ps m false
      else if String.eqb p "" then parsePairs ps m ok
      else match parsePair p with
           | Some (k, v) => parsePairs ps (Values_Add m k v) ok
           | None => parsePairs ps m false
           end
  end.

Definition parseQueryAll (query : string) : Values * bool :=
  parsePairs (Split query "&") ∅ true.

(** [url.ParseQuery]; its error excludes the values for every caller here. *)
Definition ParseQuery (query : string) : option Values :=
  let '(m, ok) := parseQueryAll query in if ok then Some m else None.

(** [Values.Encode]: sorted by key. *)
Fixpoint encodePairs (kvs : list (string * string)) : string :=
  match kvs with
  | [] => EmptyString
  | [(k, v)] => QueryEscape k +:+ "=" +:+ QueryEscape v
  | (k, v) :: rest =>
      QueryEscape k +:+ "=" +:+ QueryEscape v +:+ "&" +:+ encodePairs rest
  end.
Definition sortedKeys (v : Values) : list string :=
  merge_sort String.le (elements (dom v)).
Definition flatPairs (v : Values) (keys : list string) : list (string * string) :=
  keys ≫= (fun k => (fun x => (k, x)) <$> Values_lookup v k).
Definition Encode (v : Values) : string := encodePairs (flatPairs v (sortedKeys v)).

(** ** URLs *)

Record Userinfo := mkUserinfo { username : string; password : option string }.

Record URL := mkURL {
  Scheme : string;
  Opaque : string;
  User : option Userinfo;
  Host : string;
  Path : string;
  RawPath : string;
  OmitHost : bool;
  ForceQuery : bool;
  RawQuery : string;
  Fragment : string;
  RawFragment : string
}.

#[export] Instance URL_settable : Settable URL :=
  fun u => mkURL (Scheme u) (Opaque u) (User u) (Host u) (Path u) (RawPath u) (OmitHost u)
             (ForceQuery u) (RawQuery u) (Fragment u) (RawFragment u).

Definition emptyURL : URL := mkURL "" "" None "" "" "" false false "" "" "".

(** [getScheme]: [None] when the scheme is missing before a colon. *)
Fixpoint getScheme_from (first : bool) (s : string) : option (option (string * string)) :=
  match s with
  | EmptyString => Some None
  | String c rest =>
      if is_alpha c then
        match getScheme_from false rest with
        | Some (Some (sch, r)) => Some (Some (String c sch, r))
        | o => o
        end
      else if is_digit c || one_of "+-." c then
        if first then Some None
        else match getScheme_from false rest with
             | Some (Some (sch, r)) => Some (Some (String c sch, r))
             | o => o
             end
      else if Ascii.eqb c ":" then
        if first then None else Some (Some (EmptyString, rest))
      else Some None
  end.
Definition getScheme (rawURL : string) : option (string * string) :=
  match getScheme_from true rawURL with
  | None => None
  | Some None => Some (EmptyString, rawURL)
  | Some (Some (sch, rest)) => Some (sch, rest)
  end.

Definition is_ctl (c : ascii) : bool := ((byte_of c <? 32) || (byte_of c =? 127))%N.
Definition containsCTL (s : string) : bool := negb (str_forallb (fun c => negb (is_ctl c)) s).

Definition validOptionalPort (port : string) : bool :=
  match port with
  | EmptyString => true
  | String c rest => Ascii.eqb c ":" && str_forallb is_digit rest
  end.

Definition validUserinfo (s : string) : bool :=
  str_forallb (fun c => is_alpha c || is_digit c || one_of "-._:~!$&'()*+,;=%@" c) s.

Definition parseHost (host : string) : option string :=
  if HasPrefix host "[" then
    match LastIndexByte host "]" with
    | None => None
    | Some i =>
        if negb (validOptionalPort (str_drop (S i) host)) then None
        else match Index (str_take i host) "%25" with
             | Some zone =>
                 match unescape (str_take zone host) encodeHost,
                       unescape (str_drop zone (str_take i host)) encodeZone,
                       unescape (str_drop i host) encodeHost with
                 | Some h1, Some h2, Some h3 => Some (h1 +:+ h2 +:+ h3)
                 | _, _, _ => None
                 end
             | None => unescape host encodeHost
             end
    end
  else match LastIndexByte host ":" with
       | Some i =>
           if validOptionalPort (str_drop i host) then unescape host encodeHost else None
       | None => unescape host encodeHost
       end.

Definition parseUserinfo (userinfo : string) : option Userinfo :=
  if negb (validUserinfo userinfo) then None
  else match Cut userinfo ":" with
       | (_, _, false) =>
           (fun n => mkUserinfo n None) <$> unescape userinfo encodeUserPassword
       | (n, p, true) =>
           match unescape n encodeUserPassword, unescape p encodeUserPassword with
           | Some n, Some p => Some (mkUserinfo n (Some p))
           | _, _ => None
           end
       end.

Definition parseAuthority (authority : string) : option (option Userinfo * string) :=
  match LastIndexByte authority "@" with
  | None => (fun h => (None, h)) <$> parseHost authority
  | Some i =>
      match parseHost (str_drop (S i) authority), parseUserinfo (str_take i authority) with
      | Some h, Some u => Some (Some u, h)
      | _, _ => None
      end
  end.

Definition setPath (u : URL) (p : string) : option URL :=
  match unescape p encodePath with
  | None => None
  | Some path =>
      Some (u <| Path := path |>
              <| RawPath := if String.eqb p (escape path encodePath) then "" else p |>)
  end.

Fixpoint count_byte (s : string) (c : ascii) : nat :=
  match s with
  | EmptyString => O
  | String a s => ((if Ascii.eqb a c then 1 else 0) + count_byte s c)%nat
  end.

(** Splits the query off what follows the scheme. *)
Definition splitQuery (rest : string) : bool * string * string :=
  if HasSuffix rest "?" && (count_byte rest "?" =? 1)%nat
  then (true, str_take (String.length rest - 1) rest, EmptyString)
  else let '(r, q, _) := Cut rest "?" in (false, r, q).

(** The authority and path part of [parse], after scheme and query. *)
Definition parseHierarchy (u : URL) (rest : string) : option URL :=
  let hasScheme := negb (String.eqb (Scheme u) "") in
  if (hasScheme || negb (HasPrefix rest "///")) && HasPrefix rest "//" then
    let authority := str_drop 2 rest in
    let i := default (String.length authority) (IndexByte authority "/") in
    match parseAuthority (str_take i authority) with
    | None => None
    | Some (user, host) =>
        setPath (u <| User := user |> <| Host := host |>) (str_drop i authority)
    end
  else
    setPath (u <| OmitHost := hasScheme && HasPrefix rest "/" |>) rest.

(** [parse(rawURL, false)]. *)
Definition parse (rawURL : string) : option URL :=
  if containsCTL rawURL then None
  else if String.eqb rawURL "*" then Some (emptyURL <| Path := "*" |>)
  else match getScheme rawURL with
  | None => None
  | Some (scheme, rest0) =>
      let scheme := lower_ascii scheme in
      let '(force, rest, query) := splitQuery rest0 in
      let u := emptyURL <| Scheme := scheme |> <| ForceQuery := force |> <| RawQuery := query |> in
      if negb (HasPrefix rest "/") then
        if negb (String.eqb scheme "") then Some (u <| Opaque := rest |>)
        else if ContainsByte (Cut rest "/").1.1 ":" then None
        else parseHierarchy u rest
      else parseHierarchy u rest
  end.

Definition setFragment (u : URL) (f : string) : option URL :=
  match unescape f encodeFragment with
  | None => None
  | Some frag =>
      Some (u <| Fragment := frag |>
              <| RawFragment := if String.eqb f (escape frag encodeFragment) then "" else f |>)
  end.

(** [url.Parse]. *)
Definition Parse (rawURL : string) : option URL :=
  let '(u, frag, _) := Cut rawURL "#" in
  match parse u with
  | None => None
  | Some url => if String.eqb frag "" then Some url else setFragment url frag
  end.

Definition IsAbs (u : URL) : bool := negb (String.eqb (Scheme u) "").
(** [u.Query()] drops malformed pairs. *)
Definition Query (u : URL) : Values := (parseQueryAll (RawQuery u)).1.

Definition splitHostPort (hostPort : string) : string * string :=
  let '(host, port) :=
    match LastIndexByte hostPort ":" with
    | Some i =>
        if validOptionalPort (str_drop i hostPort)
        then (str_take i hostPort, str_drop (S i) hostPort) else (hostPort, EmptyString)
    | None => (hostPort, EmptyString)
    end in
  if HasPrefix host "[" && HasSuffix host "]"
  then (str_take (String.length host - 2) (str_drop 1 host), port)
  else (host, port).
Definition Hostname (u : URL) : string := (splitHostPort (Host u)).1.
Definition Port (u : URL) : string := (splitHostPort (Host u)).2.

Definition validEncoded (s : string) (mode : encoding) : bool :=
  str_forallb (fun c => one_of "!$&'()*+,;=:@[]%" c || negb (shouldEscape c mode)) s.

Definition EscapedPath (u : URL) : string :=
  if negb (String.eqb (RawPath u) "") && validEncoded (RawPath u) encodePath &&
     bool_decide (unescape (RawPath u) encodePath = Some (Path u))
  then RawPath u
  else if String.eqb (Path u) "*" then "*"
  else escape (Path u) encodePath.

Definition EscapedFragment (u : URL) : string :=
  if negb (String.eqb (RawFragment u) "") && validEncoded (RawFragment u) encodeFragment &&
     bool_decide (unescape (RawFragment u) encodeFragment = Some (Fragment u))
  then RawFragment u
  else escape (Fragment u) encodeFragment.

Definition Userinfo_String (u : Userinfo) : string :=
  escape (username u) encodeUserPassword +:+
  match password u with
  | None => ""
  | Some p => ":" +:+ escape p encodeUserPassword
  end.

(** [URL.String]. *)
Definition URL_String (u : URL) : string :=
  let scheme := if IsAbs u then Scheme u +:+ ":" else "" in
  let body :=
    if negb (String.eqb (Opaque u) "") then Opaque u
    else
      let noUser := match User u with None => true | Some _ => false end in
      let authority :=
        if (IsAbs u || negb (String.eqb (Host u) "") || negb noUser) &&
           negb (OmitHost u && String.eqb (Host u) "" && noUser)
        then
          (if negb (String.eqb (Host u) "") || negb (String.eqb (Path u) "") || negb noUser
           then "//" else "") +:+
          match User u with None => "" | Some ui => Userinfo_String ui +:+ "@" end +:+
          escape (Host u) encodeHost
        else "" in
      let path := EscapedPath u in
      let slash :=
        if negb (String.eqb path "") && negb (HasPrefix path "/") && negb (String.eqb (Host u) "")
        then "/" else "" in
      let dot :=
        if String.eqb (scheme +:+ authority +:+ slash) "" && ContainsByte (Cut path "/").1.1 ":"
        then "./" else "" in
      authority +:+ slash +:+ dot +:+ path in
  scheme +:+ body +:+
  (if ForceQuery u || negb (String.eqb (RawQuery u) "") then "?" +:+ RawQuery u else "") +:+
  (if negb (String.eqb (Fragment u) "") then "#" +:+ EscapedFragment u else "").

(** ** Sanity checks on concrete URLs *)

Example Parse_callback :
  Parse "http://127.0.0.1:15051/callback?code=a%20b&state=x+y" =
  Some (mkURL "http" "" None "127.0.0.1:15051" "/callback" "" false false
          "code=a%20b&state=x+y" "" "").
Proof. vm_compute. reflexivity. Qed.

Example Parse_opaque : Opaque <$> Parse "MyApp:cb" = Some "cb".
Proof. vm_compute. reflexivity. Qed.

Example Parse_query :
  (fun u => Values_lookup (Query u) "code") <$> Parse "http://h/?code=a%20b&state=x+y" =
  Some ["a b"].
Proof. vm_compute. reflexivity. Qed.

Example String_roundtrip :
  URL_String <$> Parse "https://u:p@[::1]:80/a%2Fb;c/d?x=1#f" = Some "https://u:p@[::1]:80/a%2Fb;c/d?x=1#f".
Proof. vm_compute. reflexivity. Qed.

(** ** Percent-encoding of query components round-trips *)

Lemma unescape_escape_byte c s :
  unescape (escape (String c s) encodeQueryComponent) encodeQueryComponent =
  String c <$> unescape (escape s encodeQueryComponent) encodeQueryComponent.
Proof.
  destruct c as [[] [] [] [] [] [] [] []];
    (cbv [escape]; cbn -[unescape escape]; fold escape; cbn; reflexivity).
Qed.

Lemma QueryUnescape_QueryEscape s : QueryUnescape (QueryEscape s) = Some s.
Proof.
  unfold QueryUnescape, QueryEscape. induction s as [|c s IH]; [done|].
  rewrite unescape_escape_byte, IH. done.
Qed.
