(* ===== verification/UrlProps.v ===== *)
(** Facts about the models of [net/url] and [strings]: [Values.Encode] and
    [ParseQuery] are inverse, and URLs extended by an encoded query parse to
    the expected parts. *)
From S2P Require Import Prelude GoStrings GoUrl.
From Stdlib Require Import Ascii.
From stdpp Require Import sorting.

(** ** Splitting *)

Lemma Split_none s sep : ContainsByte s sep = false -> Split s sep = [s].
Proof.
  induction s as [|c s IH]; [done|]. rewrite ContainsByte_cons. intros [Hc Hs]%orb_false_elim.
  cbn. by rewrite Hc, IH.
Qed.

Lemma Split_app s t sep :
  ContainsByte s sep = false -> Split (s +:+ String sep t) sep = s :: Split t sep.
Proof.
  induction s as [|c s IH]; intros Hs.
  - rewrite str_app_empty. cbn. by rewrite Ascii.eqb_refl.
  - rewrite ContainsByte_cons in Hs. apply orb_false_elim in Hs as [Hc Hs].
    rewrite str_app_cons. cbn. by rewrite Hc, IH.
Qed.

(** ** What an escaped query component is made of *)

Definition query_safe (c : ascii) : bool :=
  is_alpha c || is_digit c || one_of "-_.~+%" c.

Lemma str_forallb_app f s t : str_forallb f (s +:+ t) = str_forallb f s && str_forallb f t.
Proof. induction s as [|c s IH]; [done|]. rewrite str_app_cons. cbn. by rewrite IH, andb_assoc. Qed.

Lemma str_forallb_impl (f g : ascii -> bool) s :
  (forall c, f c = true -> g c = true) -> str_forallb f s = true -> str_forallb g s = true.
Proof.
  intros Hfg. induction s as [|c s IH]; [done|]. cbn. intros [Hc Hs]%andb_prop.
  by rewrite (Hfg _ Hc), IH.
Qed.

Lemma forallb_no_byte f s c :
  str_forallb f s = true -> f c = false -> ContainsByte s c = false.
Proof.
  intros Hs Hf. induction s as [|a s IH]; [done|]. cbn in Hs. apply andb_prop in Hs as [Ha Hs].
  rewrite ContainsByte_cons, IH by done. destruct (Ascii.eqb a c) eqn:E; [|done].
  apply Ascii.eqb_eq in E. congruence.
Qed.

Lemma escape_byte_safe c :
  query_safe (hex_digit (byte_of c / 16)) && query_safe (hex_digit (byte_of c mod 16)) = true /\
  (shouldEscape c encodeQueryComponent = false -> query_safe c = true).
Proof. destruct c as [[] [] [] [] [] [] [] []]; vm_compute; done. Qed.

Lemma QueryEscape_safe s : str_forallb query_safe (QueryEscape s) = true.
Proof.
  unfold QueryEscape. induction s as [|c s IH]; [done|]. cbn [escape].
  destruct (escape_byte_safe c) as [Hh Hc]. apply andb_prop in Hh as [H1 H2].
  destruct (shouldEscape c encodeQueryComponent).
  - destruct (_ && _); cbn [str_forallb]; rewrite IH; [done|]. by rewrite H1, H2.
  - cbn [str_forallb]. by rewrite IH, Hc.
Qed.

Lemma QueryEscape_no_byte s c : query_safe c = false -> ContainsByte (QueryEscape s) c = false.
Proof. apply forallb_no_byte, QueryEscape_safe. Qed.

(** ** Encoding and parsing a query *)

Lemma encodePairs_cons k v rest :
  encodePairs ((k, v) :: rest) =
  (QueryEscape k +:+ "=" +:+ QueryEscape v) +:+
  match rest with [] => "" | _ => "&" +:+ encodePairs rest end.
Proof. destruct rest; cbn [encodePairs]; by rewrite ?str_app_nil_r, ?str_app_assoc. Qed.

Lemma pair_parses k v :
  let p := QueryEscape k +:+ "=" +:+ QueryEscape v in
  ContainsByte p ";" = false /\ ContainsByte p "&" = false /\ String.eqb p "" = false /\
  parsePair p = Some (k, v).
Proof.
  cbv zeta. split; [|split; [|split]].
  - rewrite !ContainsByte_app, !QueryEscape_no_byte by done. done.
  - rewrite !ContainsByte_app, !QueryEscape_no_byte by done. done.
  - by destruct (QueryEscape k).
  - unfold parsePair. change ("=" +:+ QueryEscape v) with (String "=" (QueryEscape v)).
    rewrite Cut_app by (by rewrite QueryEscape_no_byte). by rewrite !QueryUnescape_QueryEscape.
Qed.

Definition addPairs (kvs : list (string * string)) (m : Values) : Values :=
  fold_left (fun m kv => Values_Add m kv.1 kv.2) kvs m.

Lemma parsePairs_cons p k v ps m ok :
  ContainsByte p ";" = false -> String.eqb p "" = false -> parsePair p = Some (k, v) ->
  parsePairs (p :: ps) m ok = parsePairs ps (Values_Add m k v) ok.
Proof. intros H1 H2 H3. cbn [parsePairs]. by rewrite H1, H2, H3. Qed.

Lemma parse_encodePairs kvs : forall m ok,
  parsePairs (Split (encodePairs kvs) "&") m ok = (addPairs kvs m, ok).
Proof.
  induction kvs as [|[k v] rest IH]; intros m ok; [done|].
  rewrite encodePairs_cons. destruct (pair_parses k v) as (H1 & H2 & H3 & H4).
  change (addPairs ((k, v) :: rest) m) with (addPairs rest (Values_Add m k v)).
  destruct rest as [|kv rest].
  - rewrite str_app_nil_r, Split_none by done. by rewrite (parsePairs_cons _ k v).
  - change ("&" +:+ encodePairs (kv :: rest)) with (String "&" (encodePairs (kv :: rest))).
    rewrite Split_app by done. rewrite (parsePairs_cons _ k v) by done. apply IH.
Qed.

Lemma lookup_Add m k v k' :
  Values_lookup (Values_Add m k v) k' =
  Values_lookup m k' ++ (if decide (k = k') then [v] else []).
Proof.
  unfold Values_Add. unfold Values_lookup at 1. case_decide as E.
  - subst. by rewrite lookup_insert_eq.
  - rewrite lookup_insert_ne by done. by rewrite app_nil_r.
Qed.

Lemma lookup_addPairs kvs k : forall m,
  Values_lookup (addPairs kvs m) k =
  Values_lookup m k ++ (filter (fun kv => kv.1 = k) kvs).*2.
Proof.
  induction kvs as [|[k' v] kvs IH]; intros m; [by rewrite app_nil_r|].
  change (addPairs ((k', v) :: kvs) m) with (addPairs kvs (Values_Add m k' v)).
  rewrite IH, lookup_Add, <- app_assoc, filter_cons. cbn. by case_decide.
Qed.

Lemma filter_pairs k' k (xs : list string) :
  (filter (fun kv : string * string => kv.1 = k) ((fun x => (k', x)) <$> xs)).*2 =
  if decide (k' = k) then xs else [].
Proof.
  induction xs as [|x xs IH]; [by case_decide|]. rewrite fmap_cons, filter_cons. cbn [fst].
  case_decide; [rewrite fmap_cons; by rewrite IH|done].
Qed.

Lemma filter_flatPairs v k keys :
  (filter (fun kv => kv.1 = k) (flatPairs v keys)).*2 =
  keys ≫= (fun k' => if decide (k' = k) then Values_lookup v k else []).
Proof.
  induction keys as [|k' keys IH]; [done|]. unfold flatPairs in *.
  rewrite !bind_cons, filter_app, fmap_app, IH, filter_pairs. f_equal. by case_decide; subst.
Qed.

Lemma bind_unique {A} (l : list string) k (x : list A) :
  NoDup l -> l ≫= (fun k' => if decide (k' = k) then x else []) = if decide (k ∈ l) then x else [].
Proof.
  induction 1 as [|a l Ha _ IH]; [done|]. rewrite bind_cons, IH. destruct (decide (a = k)) as [->|Hne].
  - rewrite (decide_True (P := k ∈ k :: l)) by set_solver. rewrite decide_False by done.
    by rewrite app_nil_r.
  - cbn. destruct (decide (k ∈ l)); [rewrite decide_True by set_solver|rewrite decide_False by set_solver];
      done.
Qed.

Lemma sortedKeys_keys v : NoDup (sortedKeys v) /\ forall k, k ∈ sortedKeys v <-> is_Some (v !! k).
Proof.
  unfold sortedKeys. pose proof (merge_sort_Permutation String.le (elements (dom v))) as Hp.
  split; [rewrite Hp; apply NoDup_elements|]. intros k. rewrite Hp, elem_of_elements. apply elem_of_dom.
Qed.

(** Parsing an encoded query gives back every value list. *)
Lemma ParseQuery_Encode v :
  exists q, ParseQuery (Encode v) = Some q /\ forall k, Values_lookup q k = Values_lookup v k.
Proof.
  unfold ParseQuery, parseQueryAll, Encode. rewrite parse_encodePairs.
  eexists. split; [done|]. intros k. rewrite lookup_addPairs, filter_flatPairs.
  destruct (sortedKeys_keys v) as [Hn Hk]. rewrite bind_unique by done.
  unfold Values_lookup at 1. rewrite lookup_empty. cbn. case_decide as E; [done|].
  rewrite Hk in E. apply eq_None_not_Some in E. unfold Values_lookup. by rewrite E.
Qed.

Lemma encodePairs_safe kvs :
  str_forallb (fun c => query_safe c || one_of "=&" c) (encodePairs kvs) = true.
Proof.
  assert (Hq : forall s, str_forallb (fun c => query_safe c || one_of "=&" c) (QueryEscape s) = true).
  { intros s. eapply str_forallb_impl; [|apply QueryEscape_safe]. intros c Hc. by rewrite Hc. }
  induction kvs as [|[k v] rest IH]; [done|]. rewrite encodePairs_cons.
  rewrite !str_forallb_app, !Hq. destruct rest; [done|]. rewrite str_forallb_app, IH. done.
Qed.

(** ** Appending a query to an absolute URL *)

Lemma getScheme_from_app first s t sch rest :
  getScheme_from first s = Some (Some (sch, rest)) ->
  getScheme_from first (s +:+ t) = Some (Some (sch, rest +:+ t)).
Proof.
  revert first sch rest. induction s as [|c s IH]; intros first sch rest; [done|].
  rewrite str_app_cons. cbn [getScheme_from]. destruct (is_alpha c).
  - destruct (getScheme_from false s) as [[[sch' r]|]|] eqn:E; try done. intros [= <- <-].
    by rewrite (IH _ _ _ E).
  - destruct (_ || _); [destruct first; [done|]|].
    + destruct (getScheme_from false s) as [[[sch' r]|]|] eqn:E; try done. intros [= <- <-].
      by rewrite (IH _ _ _ E).
    + destruct (Ascii.eqb c ":"); [|done]. destruct first; [done|]. by intros [= <- <-].
Qed.

Lemma getScheme_suffix first s sch rest :
  getScheme_from first s = Some (Some (sch, rest)) -> exists pre, s = pre +:+ rest.
Proof.
  revert first sch rest. induction s as [|c s IH]; intros first sch rest; [done|]. cbn [getScheme_from].
  assert (Hr : forall sch' r, getScheme_from false s = Some (Some (sch', r)) ->
             exists pre, String c s = pre +:+ r).
  { intros sch' r E. destruct (IH _ _ _ E) as [pre Hp]. exists (String c pre). by rewrite str_app_cons, <- Hp. }
  destruct (is_alpha c); [|destruct (_ || _); [destruct first; [done|]|]].
  - destruct (getScheme_from false s) as [[[sch' r]|]|]; try done. intros [= <- <-]. by eapply Hr.
  - destruct (getScheme_from false s) as [[[sch' r]|]|]; try done. intros [= <- <-]. by eapply Hr.
  - destruct (Ascii.eqb c ":"); [|done]. destruct first; [done|]. intros [= <- <-].
    by exists (String c "").
Qed.

Lemma parseHierarchy_query u q rest :
  parseHierarchy (u <| RawQuery := q |>) rest =
  (fun u => u <| RawQuery := q |>) <$> parseHierarchy u rest.
Proof.
  unfold parseHierarchy. cbn [Scheme].
  destruct (_ && _).
  - destruct (parseAuthority _) as [[user host]|]; [|done]. unfold setPath. by destruct (unescape _ _).
  - unfold setPath. by destruct (unescape rest encodePath).
Qed.

Lemma str_length_app s t : String.length (s +:+ t) = (String.length s + String.length t)%nat.
Proof. induction s as [|c s IH]; [done|]. rewrite str_app_cons. cbn. by rewrite IH. Qed.

Lemma str_drop_app n s t : str_drop (String.length s + n) (s +:+ t) = str_drop n t.
Proof. induction s as [|c s IH]; [done|]. rewrite str_app_cons. cbn. exact IH. Qed.

Lemma str_take_app s t : str_take (String.length s) (s +:+ t) = s.
Proof. induction s as [|c s IH]; cbn; [by destruct t|]. f_equal. exact IH. Qed.
Lemma drop_contains n s c : str_drop n s = String c "" -> ContainsByte s c = true.
Proof.
  revert n. induction s as [|a s IH]; intros n; [by destruct n|]. destruct n as [|n]; cbn.
  - intros [= -> ->]. rewrite ContainsByte_cons. by rewrite Ascii.eqb_refl.
  - intros H. rewrite ContainsByte_cons, (IH n H). apply orb_true_r.
Qed.

Lemma no_suffix s t c :
  t <> "" -> ContainsByte t c = false -> HasSuffix (s +:+ t) (String c "") = false.
Proof.
  intros Hne Hc. unfold HasSuffix. cbn [String.length]. destruct (String.eqb _ _) eqn:E; [|apply andb_false_r].
  apply String.eqb_eq in E. rewrite str_length_app in E.
  assert (exists k, String.length t = S k) as [k Hk] by (destruct t; [done|by eexists]).
  replace (String.length s + String.length t - 1)%nat with (String.length s + k)%nat in E by lia.
  rewrite str_drop_app in E. apply drop_contains in E. congruence.
Qed.

Lemma app_nonempty_r s t : t <> "" -> s +:+ t <> "".
Proof. by destruct s. Qed.

Lemma count_byte_app s t c : count_byte (s +:+ t) c = (count_byte s c + count_byte t c)%nat.
Proof. induction s as [|a s IH]; [done|]. rewrite str_app_cons. cbn. rewrite IH. destruct (Ascii.eqb a c); lia. Qed.

Lemma count_byte_contains s c : ContainsByte s c = true -> (1 <= count_byte s c)%nat.
Proof.
  induction s as [|a s IH]; [done|]. rewrite ContainsByte_cons. cbn. destruct (Ascii.eqb a c); cbn; [lia|].
  intros H%IH. lia.
Qed.

Lemma splitQuery_app rest q :
  ContainsByte rest "?" = false -> q <> "" -> splitQuery (rest +:+ "?" +:+ q) = (false, rest, q).
Proof.
  intros Hr Hne. unfold splitQuery.
  assert (HasSuffix (rest +:+ "?" +:+ q) "?" && (count_byte (rest +:+ "?" +:+ q) "?" =? 1)%nat = false) as ->.
  { destruct (ContainsByte q "?") eqn:Hq.
    - apply count_byte_contains in Hq. apply andb_false_iff. right. apply Nat.eqb_neq.
      rewrite !count_byte_app. change (count_byte "?" "?") with 1%nat. lia.
    - by rewrite <- str_app_assoc, no_suffix. }
  change ("?" +:+ q) with (String "?" q). by rewrite Cut_app.
Qed.

Lemma splitQuery_none rest : ContainsByte rest "?" = false -> splitQuery rest = (false, rest, "").
Proof.
  intros Hr. unfold splitQuery. destruct (HasSuffix rest "?") eqn:E; [|by rewrite Cut_none].
  exfalso. unfold HasSuffix in E. apply andb_prop in E as [_ E]. apply String.eqb_eq, drop_contains in E.
  congruence.
Qed.

(** [Parse] of an absolute URL without query and fragment, with one appended. *)
Lemma Parse_with_query base u q :
  Parse base = Some u -> IsAbs u = true ->
  ContainsByte base "#" = false -> ContainsByte base "?" = false ->
  ContainsByte q "#" = false -> containsCTL q = false -> q <> "" ->
  Parse (base +:+ "?" +:+ q) = Some (u <| RawQuery := q |>).
Proof.
  intros Hp Habs Hb1 Hb2 Hq1 Hctl Hne. unfold Parse in *.
  rewrite (Cut_none base) in Hp by done.
  rewrite (Cut_none (base +:+ "?" +:+ q)) by (by rewrite !ContainsByte_app, Hb1, Hq1).
  cbn [String.eqb] in *. destruct (parse base) as [u0|] eqn:E; [|done]. injection Hp as ->.
  enough (parse (base +:+ "?" +:+ q) = Some (u <| RawQuery := q |>)) as -> by done.
  unfold parse in *. unfold containsCTL in *. rewrite !str_forallb_app.
  destruct (str_forallb _ base); [|done]. apply negb_false_iff in Hctl. rewrite Hctl. cbn [negb andb] in *.
  change (str_forallb (fun c => negb (is_ctl c)) "?") with true. cbn [negb andb].
  destruct (String.eqb base "*") eqn:Es.
  { injection E as <-. done. }
  assert (String.eqb (base +:+ "?" +:+ q) "*" = false) as ->.
  { apply String.eqb_neq. destruct base as [|c base]; [done|]. rewrite str_app_cons. intros [= -> Hx].
    by apply (app_nonempty_r base ("?" +:+ q)) in Hx. }
  unfold getScheme in *. destruct (getScheme_from true base) as [[[sch rest]|]|] eqn:Eg; [|cycle 1|done].
  2: { cbn in E. exfalso. destruct (splitQuery base) as [[f r] q0].
       assert (Hs : Scheme u = ""); [|unfold IsAbs in Habs; by rewrite Hs in Habs].
       destruct (HasPrefix r "/"); cbn [negb] in E; [|destruct (ContainsByte _ _); [done|]];
         unfold parseHierarchy, setPath in E; repeat case_match; simplify_eq; done. }
  rewrite (getScheme_from_app _ _ _ _ _ Eg).
  destruct (getScheme_suffix _ _ _ _ Eg) as [pre Hpre].
  assert (Hr : ContainsByte rest "?" = false).
  { rewrite Hpre, ContainsByte_app in Hb2. by apply orb_false_elim in Hb2 as [_ ?]. }
  rewrite splitQuery_app by done. rewrite splitQuery_none in E by done.
  set (u1 := emptyURL <| Scheme := lower_ascii sch |> <| ForceQuery := false |>) in *.
  change (u1 <| RawQuery := "" |>) with u1 in E.
  destruct (HasPrefix rest "/"); cbn [negb] in *.
  - by rewrite parseHierarchy_query, E.
  - destruct (negb (String.eqb (lower_ascii sch) "")); [by injection E as <-|].
    destruct (ContainsByte _ _); [done|]. by rewrite parseHierarchy_query, E.
Qed.

Lemma Encode_safe v :
  ContainsByte (Encode v) "#" = false /\ ContainsByte (Encode v) "?" = false /\
  containsCTL (Encode v) = false.
Proof.
  pose proof (encodePairs_safe (flatPairs v (sortedKeys v))) as Hs. fold (Encode v) in Hs.
  split; [by eapply forallb_no_byte|]. split; [by eapply forallb_no_byte|].
  unfold containsCTL. apply negb_false_iff. eapply str_forallb_impl; [|exact Hs].
  intros c. by destruct c as [[] [] [] [] [] [] [] []].
Qed.
