(* ===== verification/GoEncoding.v ===== *)
(** Go's [encoding/base64] (RawURLEncoding) and [encoding/json] (decoding into
    [map[string]any]), as far as the library uses them. *)
From S2P Require Import Prelude GoStrings.
From Stdlib Require Import Ascii SpecFloat.

(** ** Base64, URL alphabet, no padding *)

Definition b64_digit (n : N) : ascii :=
  (if n <? 26 then ascii_of_N (65 + n)
   else if n <? 52 then ascii_of_N (71 + n)
   else if n <? 62 then ascii_of_N (n - 4)
   else if n =? 62 then "-" else "_")%N%char.

Definition b64_value (c : ascii) : option N :=
  (if is_upper c then Some (byte_of c - 65)
   else if is_lower c then Some (byte_of c - 71)
   else if is_digit c then Some (byte_of c + 4)
   else if Ascii.eqb c "-" then Some 62
   else if Ascii.eqb c "_" then Some 63
   else None)%N.

(** [RawURLEncoding.EncodeToString]. *)
Fixpoint b64_encode (s : string) : string :=
  match s with
  | EmptyString => EmptyString
  | String a EmptyString =>
      let x := byte_of a in
      String (b64_digit (x / 4)) (String (b64_digit (x mod 4 * 16)) EmptyString)
  | String a (String b EmptyString) =>
      let x := byte_of a in let y := byte_of b in
      String (b64_digit (x / 4)) (String (b64_digit (x mod 4 * 16 + y / 16))
        (String (b64_digit (y mod 16 * 4)) EmptyString))
  | String a (String b (String c rest)) =>
      let x := byte_of a in let y := byte_of b in let z := byte_of c in
      String (b64_digit (x / 4)) (String (b64_digit (x mod 4 * 16 + y / 16))
        (String (b64_digit (y mod 16 * 4 + z / 64))
          (String (b64_digit (z mod 64)) (b64_encode rest))))
  end%N.

(** The values of the significant characters; carriage returns and newlines
    are skipped, any other character is corrupt input. *)
Fixpoint b64_values (s : string) : option (list N) :=
  match s with
  | EmptyString => Some []
  | String c s =>
      match b64_value c with
      | Some v => cons v <$> b64_values s
      | None =>
          if (byte_of c =? 10)%N || (byte_of c =? 13)%N then b64_values s else None
      end
  end.

Fixpoint b64_bytes (vs : list N) : option string :=
  match vs with
  | [] => Some EmptyString
  | [_] => None
  | [p; q] => Some (String (ascii_of_N (p * 4 + q / 16)) EmptyString)
  | [p; q; r] =>
      Some (String (ascii_of_N (p * 4 + q / 16))
              (String (ascii_of_N (q mod 16 * 16 + r / 4)) EmptyString))
  | p :: q :: r :: t :: rest =>
      (fun s => String (ascii_of_N (p * 4 + q / 16))
                  (String (ascii_of_N (q mod 16 * 16 + r / 4))
                     (String (ascii_of_N (r mod 4 * 64 + t)) s)))
        <$> b64_bytes rest
  end%N.

(** [RawURLEncoding.DecodeString] (not strict: trailing bits are ignored). *)
Definition b64_decode (s : string) : option string :=
  match b64_values s with Some vs => b64_bytes vs | None => None end.

(** ** JSON values *)

(** Go's [any] as produced by the decoder; objects keep their members in
    source order, and a lookup finds the last one with the key. *)
Inductive any :=
| ANull
| ABool (b : bool)
| ANumber (f : spec_float)             (* float64 *)
| AString (s : string)
| AArray (l : list any)
| AObject (members : list (string * any)).

Definition skip_ws_char (c : ascii) : bool :=
  let n := byte_of c in ((n =? 32) || (n =? 9) || (n =? 10) || (n =? 13))%N.
Fixpoint skip_ws (s : string) : string :=
  match s with
  | String c s' => if skip_ws_char c then skip_ws s' else s
  | EmptyString => s
  end.

(** UTF-8 *)
Definition utf8 (r : N) : string :=
  (if r <? 0x80 then String (ascii_of_N r) EmptyString
   else if r <? 0x800 then
     String (ascii_of_N (0xC0 + r / 64)) (String (ascii_of_N (0x80 + r mod 64)) EmptyString)
   else if r <? 0x10000 then
     String (ascii_of_N (0xE0 + r / 4096)) (String (ascii_of_N (0x80 + r / 64 mod 64))
       (String (ascii_of_N (0x80 + r mod 64)) EmptyString))
   else
     String (ascii_of_N (0xF0 + r / 262144)) (String (ascii_of_N (0x80 + r / 4096 mod 64))
       (String (ascii_of_N (0x80 + r / 64 mod 64))
         (String (ascii_of_N (0x80 + r mod 64)) EmptyString))))%N.
Definition replacement : string := utf8 0xFFFD.

Definition hex_value (c : ascii) : option N :=
  if is_digit c then Some (byte_of c - 48)%N
  else if in_range "a" "f" c then Some (byte_of c - 87)%N
  else if in_range "A" "F" c then Some (byte_of c - 55)%N
  else None.
Definition hex4 (s : string) : option (N * string) :=
  match s with
  | String a (String b (String c (String d rest))) =>
      match hex_value a, hex_value b, hex_value c, hex_value d with
      | Some a, Some b, Some c, Some d => Some (((a * 16 + b) * 16 + c) * 16 + d, rest)%N
      | _, _, _, _ => None
      end
  | _ => None
  end.

Definition cont (c : ascii) : bool := in_range (ascii_of_N 0x80) (ascii_of_N 0xBF) c.

(** Length of the valid multi-byte rune at the head of [s]; 0 if invalid. *)
Definition rune_len (s : string) : nat :=
  match s with
  | String a (String b rest) =>
      let x := byte_of a in let y := byte_of b in
      if ((0xC2 <=? x) && (x <=? 0xDF))%N then (if cont b then 2 else 0)%nat
      else if ((0xE0 <=? x) && (x <=? 0xEF))%N then
        match rest with
        | String c _ =>
            if cont b && cont c && (negb (x =? 0xE0) || (0xA0 <=? y))%N &&
               (negb (x =? 0xED) || (y <=? 0x9F))%N then 3%nat else O
        | EmptyString => O
        end
      else if ((0xF0 <=? x) && (x <=? 0xF4))%N then
        match rest with
        | String c (String d _) =>
            if cont b && cont c && cont d && (negb (x =? 0xF0) || (0x90 <=? y))%N &&
               (negb (x =? 0xF4) || (y <=? 0x8F))%N then 4%nat else O
        | _ => O
        end
      else O
  | _ => O
  end.

(** A string literal after its opening quote: the decoded text and the rest.
    [n] is at least the length of [s]. *)
Fixpoint json_string (n : nat) (s : string) : option (string * string) :=
  match n, s with
  | S n, String c rest =>
      let emit (x : string) (rest : string) :=
        (fun '(t, r) => (x +:+ t, r)) <$> json_string n rest in
      if (byte_of c =? 34)%N then Some (EmptyString, rest)
      else if (byte_of c <? 32)%N then None
      else if Ascii.eqb c "\" then
        match rest with
        | String e rest' =>
            if (byte_of e =? 34)%N || Ascii.eqb e "\" || Ascii.eqb e "/"
            then emit (String e EmptyString) rest'
            else if Ascii.eqb e "b" then emit (utf8 8) rest'
            else if Ascii.eqb e "f" then emit (utf8 12) rest'
            else if Ascii.eqb e "n" then emit (utf8 10) rest'
            else if Ascii.eqb e "r" then emit (utf8 13) rest'
            else if Ascii.eqb e "t" then emit (utf8 9) rest'
            else if Ascii.eqb e "u" then
              match hex4 rest' with
              | None => None
              | Some (r, rest2) =>
                  if ((0xD800 <=? r) && (r <? 0xDC00))%N then
                    match rest2 with
                    | String b (String u rest3) =>
                        if Ascii.eqb b "\" && Ascii.eqb u "u" then
                          match hex4 rest3 with
                          | Some (r2, rest4) =>
                              if ((0xDC00 <=? r2) && (r2 <? 0xE000))%N
                              then emit (utf8 ((r - 0xD800) * 1024 + (r2 - 0xDC00) + 0x10000)%N) rest4
                              else emit replacement rest2
                          | None => None
                          end
                        else emit replacement rest2
                    | _ => emit replacement rest2
                    end
                  else if ((0xDC00 <=? r) && (r <? 0xE000))%N then emit replacement rest2
                  else emit (utf8 r) rest2
              end
            else None
        | EmptyString => None
        end
      else if (byte_of c <? 128)%N then emit (String c EmptyString) rest
      else match rune_len s with
           | O => emit replacement rest
           | k => emit (str_take k s) (str_drop k s)
           end
  | _, _ => None
  end.

(** ** Numbers *)

Fixpoint digits (s : string) (acc : Z) (count : nat) : Z * nat * string :=
  match s with
  | String c s' =>
      if is_digit c then digits s' (acc * 10 + Z.of_N (byte_of c - 48)) (S count)
      else (acc, count, s)
  | EmptyString => (acc, count, s)
  end.

(** The float64 nearest to [± m * 10^e]; [None] when it overflows. *)
Definition decimal_to_float (neg : bool) (m e : Z) : option spec_float :=
  let f :=
    match m with
    | Zpos p =>
        if 400 <? e then S754_infinity neg
        else if e <? - 400 - Z.log2 m then S754_zero neg
        else if 0 <=? e then
          binary_normalize 53 1024 (if neg then - (m * 10 ^ e) else m * 10 ^ e) 0 neg
        else
          let '(q, ex, l) := SFdiv_core_binary 53 1024 m 0 (10 ^ (- e)) 0 in
          binary_round_aux 53 1024 neg q ex l
    | _ => S754_zero neg
    end in
  match f with
  | S754_infinity _ | S754_nan => None
  | _ => Some f
  end.

(** A number literal; the value is [None] when it is out of range. *)
Definition json_number (s : string) : option (option spec_float * string) :=
  let '(neg, s) :=
    match s with
    | String c s' => if Ascii.eqb c "-" then (true, s') else (false, s)
    | EmptyString => (false, s)
    end in
  let int_part :=
    match s with
    | String c s' =>
        if Ascii.eqb c "0" then Some (0, s')
        else if is_digit c then let '(v, _, r) := digits s 0 O in Some (v, r)
        else None
    | EmptyString => None
    end in
  match int_part with
  | None => None
  | Some (m, s) =>
      let frac :=
        match s with
        | String c s' =>
            if Ascii.eqb c "." then
              let '(v, k, r) := digits s' m O in
              match k with O => None | _ => Some (v, (- Z.of_nat k), r) end
            else Some (m, 0, s)
        | EmptyString => Some (m, 0, s)
        end in
      match frac with
      | None => None
      | Some (m, e0, s) =>
          match s with
          | String c s' =>
              if Ascii.eqb c "e" || Ascii.eqb c "E" then
                let '(eneg, s'') :=
                  match s' with
                  | String d t =>
                      if Ascii.eqb d "-" then (true, t)
                      else if Ascii.eqb d "+" then (false, t) else (false, s')
                  | EmptyString => (false, s')
                  end in
                let '(v, k, r) := digits s'' 0 O in
                match k with
                | O => None
                | _ => Some (decimal_to_float neg m (e0 + (if (eneg : bool) then - v else v)), r)
                end
              else Some (decimal_to_float neg m e0, s)
          | EmptyString => Some (decimal_to_float neg m e0, s)
          end
      end
  end.

(** ** Values *)

(** One JSON value after white space: the value (with [false] when a number
    inside is out of range, which makes Unmarshal fail) and the rest.  [n] is
    the recursion's fuel; [depth] counts open arrays and objects, of which the
    scanner allows 10000. *)
Fixpoint json_value (n : nat) (depth : Z) (s : string) : option (any * bool * string) :=
  match n with
  | O => None
  | S n =>
      match skip_ws s with
      | EmptyString => None
      | String c rest as s =>
          if HasPrefix s "null" then Some (ANull, true, str_drop 4 s)
          else if HasPrefix s "true" then Some (ABool true, true, str_drop 4 s)
          else if HasPrefix s "false" then Some (ABool false, true, str_drop 5 s)
          else if (byte_of c =? 34)%N then
            (fun '(t, r) => (AString t, true, r)) <$> json_string (String.length rest) rest
          else if (Ascii.eqb c "[" || Ascii.eqb c "{") && (10000 <=? depth) then None
          else if Ascii.eqb c "[" then
            match skip_ws rest with
            | String d r => if Ascii.eqb d "]" then Some (AArray [], true, r)
                            else (fun '(l, ok, r) => (AArray l, ok, r)) <$> json_array n (depth + 1) rest
            | EmptyString => None
            end
          else if Ascii.eqb c "{" then
            match skip_ws rest with
            | String d r => if Ascii.eqb d "}" then Some (AObject [], true, r)
                            else (fun '(l, ok, r) => (AObject l, ok, r)) <$> json_members n (depth + 1) rest
            | EmptyString => None
            end
          else
            (fun '(f, r) => match f with
                            | Some f => (ANumber f, true, r)
                            | None => (ANull, false, r)
                            end) <$> json_number s
      end
  end
with json_array (n : nat) (depth : Z) (s : string) : option (list any * bool * string) :=
  match n with
  | O => None
  | S n =>
      match json_value n depth s with
      | None => None
      | Some (v, ok, r) =>
          match skip_ws r with
          | String c r =>
              if Ascii.eqb c "," then
                (fun '(l, ok', r) => (v :: l, ok && ok', r)) <$> json_array n depth r
              else if Ascii.eqb c "]" then Some ([v], ok, r) else None
          | EmptyString => None
          end
      end
  end
with json_members (n : nat) (depth : Z) (s : string) : option (list (string * any) * bool * string) :=
  match n with
  | O => None
  | S n =>
      match skip_ws s with
      | String q r =>
          if (byte_of q =? 34)%N then
            match json_string (String.length r) r with
            | None => None
            | Some (k, r) =>
                match skip_ws r with
                | String col r =>
                    if Ascii.eqb col ":" then
                      match json_value n depth r with
                      | None => None
                      | Some (v, ok, r) =>
                          match skip_ws r with
                          | String c r =>
                              if Ascii.eqb c "," then
                                (fun '(l, ok', r) => ((k, v) :: l, ok && ok', r))
                                  <$> json_members n depth r
                              else if Ascii.eqb c "}" then Some ([(k, v)], ok, r) else None
                          | EmptyString => None
                          end
                      end
                    else None
                | EmptyString => None
                end
            end
          else None
      | EmptyString => None
      end
  end.

(** [json.Unmarshal(data, &m)] for [m map[string]any]: [None] is an error; a
    top-level [null] leaves the map nil.  The fuel
    covers every text: each level of the recursion consumes a byte, and each
    byte is visited at most twice. *)
Definition json_Unmarshal_map (data : string) : option (list (string * any)) :=
  match json_value (2 * String.length data + 2) 0 data with
  | Some (v, true, r) =>
      match skip_ws r with
      | EmptyString =>
          match v with
          | AObject l => Some l
          | ANull => Some []
          | _ => None
          end
      | _ => None
      end
  | _ => None
  end.

(** Map lookup: the last member with the key. *)
Definition any_lookup (m : list (string * any)) (k : string) : option any :=
  snd <$> last (filter (fun kv => kv.1 = k) m).

(** [int64(v)] of a float64: truncation; out of range the amd64 result. *)
Definition float_to_int64 (f : spec_float) : Z :=
  match f with
  | S754_finite s m e =>
      let t := if 0 <=? e then Zpos m * 2 ^ e else Zpos m / 2 ^ (- e) in
      let v := if s then - t else t in
      if (min_i64 <=? v) && (v <=? max_i64) then v else min_i64
  | S754_zero _ => 0
  | _ => min_i64
  end.

(** ** Sanity checks *)

Example json_example :
  json_Unmarshal_map (String.concat "" ["{"; String (ascii_of_N 34) "sub"; String (ascii_of_N 34) ": [1700000000.9, true, null]}"])
  = Some [("sub", AArray [ANumber (S754_finite false 7130316803774874 (-22)); ABool true; ANull])].
Proof. vm_compute. reflexivity. Qed.

Example float_example : float_to_int64 (S754_finite false 7130316803774874 (-22)) = 1700000000.
Proof. vm_compute. reflexivity. Qed.
