(* ===== verification/GoJson.v ===== *)
(** Go's [encoding/json.Marshal] of a string, and what decoding it gives back. *)
From S2P Require Import Prelude GoStrings UrlProps GoEncoding.
From Stdlib Require Import Ascii.

(** ** Encoding *)

Definition quote : ascii := ascii_of_N 34.
Definition hexDigit (n : N) : ascii := ascii_of_N (if (n <? 10)%N then 48 + n else 87 + n)%N.

(** A byte below 0x80: the bytes of [htmlSafeSet] stand for themselves. *)
Definition escapeByte (c : ascii) : string :=
  let n := byte_of c in
  if (n =? 34)%N || (n =? 92)%N then String "\" (String c "")
  else if (n =? 8)%N then "\b"
  else if (n =? 12)%N then "\f"
  else if (n =? 10)%N then "\n"
  else if (n =? 13)%N then "\r"
  else if (n =? 9)%N then "\t"
  else if (n <? 32)%N || (n =? 60)%N || (n =? 62)%N || (n =? 38)%N
  then "\u00" +:+ String (hexDigit (n / 16)) (String (hexDigit (n mod 16)) "")
  else String c "".

(** [appendString] without its quotes; an invalid byte becomes the replacement
    character, and the separators U+2028 and U+2029 are escaped.  [n] is at least the
    length of [s]. *)
Fixpoint appendString (n : nat) (s : string) : string :=
  match n, s with
  | S n, String c rest =>
      if (byte_of c <? 128)%N then escapeByte c +:+ appendString n rest
      else match rune_len s with
           | O => "\ufffd" +:+ appendString n rest
           | k => (if String.eqb (str_take k s) (utf8 0x2028) then "\u2028"
                   else if String.eqb (str_take k s) (utf8 0x2029) then "\u2029"
                   else str_take k s) +:+ appendString n (str_drop k s)
           end
  | _, _ => ""
  end.

Definition Marshal (s : string) : string :=
  String quote (appendString (String.length s) s +:+ String quote "").

(** ** Decoding what was encoded *)

(** [s] with every byte that is not part of a valid rune replaced. *)
Fixpoint toValid (n : nat) (s : string) : string :=
  match n, s with
  | S n, String c rest =>
      if (byte_of c <? 128)%N then String c (toValid n rest)
      else match rune_len s with
           | O => replacement +:+ toValid n rest
           | k => str_take k s +:+ toValid n (str_drop k s)
           end
  | _, _ => ""
  end.
Definition ToValidUTF8 (s : string) : string := toValid (String.length s) s.

Example Marshal_example : Marshal "a<b\" = String quote ("a\u003cb\\" +:+ String quote "").
Proof. vm_compute. reflexivity. Qed.

Definition emit (x : string) (r : option (string * string)) : option (string * string) :=
  (fun '(t, r) => (x +:+ t, r)) <$> r.

Lemma json_string_byte m c t :
  (byte_of c <? 128)%N = true -> json_string (S m) (escapeByte c +:+ t) = emit (String c "") (json_string m t).
Proof.
  destruct c as [[|] [|] [|] [|] [|] [|] [|] [|]]; intros Hc; try (vm_compute in Hc; discriminate Hc); reflexivity.
Qed.

Lemma json_string_escaped m r t (esc := ("\u" +:+ r)) :
  r = "fffd" \/ r = "2028" \/ r = "2029" ->
  json_string (S m) (esc +:+ t) = emit (match r with "fffd" => replacement | "2028" => utf8 0x2028 | _ => utf8 0x2029 end) (json_string m t).
Proof. by intros [-> | [-> | ->]]. Qed.

(** Whether a rune is valid only depends on its own bytes. *)
Lemma rune_len_split s k :
  rune_len s = k -> k <> O ->
  exists p r, s = p +:+ r /\ String.length p = k /\ forall t, rune_len (p +:+ t) = k.
Proof.
  intros Hk Hne. destruct s as [|a [|b rest]]; [by subst..|]. unfold rune_len in Hk. cbv zeta in Hk.
  destruct ((0xC2 <=? byte_of a) && _)%N eqn:E1; [|destruct ((0xE0 <=? byte_of a) && _)%N eqn:E2;
    [|destruct ((0xF0 <=? byte_of a) && _)%N eqn:E3; [|by subst]]].
  - destruct (cont b) eqn:Eb; [|by subst]. subst k. exists (String a (String b "")), rest. split; [done|]. split; [done|].
    intros t. rewrite !str_app_cons, str_app_empty. unfold rune_len. cbv zeta. by rewrite E1, Eb.
  - destruct rest as [|c rest]; [by subst|]. destruct (cont b && _ && _ && _) eqn:Eb; [|by subst].
    subst k. exists (String a (String b (String c ""))), rest. split; [done|]. split; [done|].
    intros t. rewrite !str_app_cons, str_app_empty. unfold rune_len. cbv zeta. by rewrite E1, E2, Eb.
  - destruct rest as [|c [|d rest]]; [by subst..|]. destruct (cont b && _ && _ && _ && _) eqn:Eb; [|by subst].
    subst k. exists (String a (String b (String c (String d "")))), rest. split; [done|]. split; [done|].
    intros t. rewrite !str_app_cons, str_app_empty. unfold rune_len. cbv zeta. by rewrite E1, E2, E3, Eb.
Qed.

Lemma rune_len_head c s : rune_len (String c s) <> O -> (194 <= byte_of c)%N.
Proof.
  destruct s as [|b s]; [done|]. unfold rune_len. cbv zeta.
  destruct ((0xC2 <=? byte_of c) && _)%N eqn:E1; [apply andb_prop in E1 as [?%N.leb_le _]; intros _; lia|].
  destruct ((0xE0 <=? byte_of c) && _)%N eqn:E2; [apply andb_prop in E2 as [?%N.leb_le _]; intros _; lia|].
  destruct ((0xF0 <=? byte_of c) && _)%N eqn:E3; [apply andb_prop in E3 as [?%N.leb_le _]; intros _; lia|done].
Qed.

Lemma str_drop_exact p r : str_drop (String.length p) (p +:+ r) = r.
Proof. rewrite <- (Nat.add_0_r (String.length p)), str_drop_app. by destruct r. Qed.

(** A valid rune stands for itself. *)
Lemma json_string_rune m p k t :
  String.length p = S k -> (forall t, rune_len (p +:+ t) = S k) ->
  json_string (S m) (p +:+ t) = emit p (json_string m t).
Proof.
  intros Hp Hr. pose proof (Hr t) as Hl. pose proof (str_take_app p t) as Ht. pose proof (str_drop_exact p t) as Hd.
  rewrite Hp in Ht, Hd. destruct p as [|c p]; [done|]. pose proof (rune_len_head c p) as Hc.
  rewrite <- (str_app_nil_r p), <- str_app_cons, Hr in Hc. specialize (Hc ltac:(done)).
  rewrite str_app_cons in *. cbn [json_string]. rewrite Hl, Ht, Hd.
  assert ((byte_of c =? 34)%N = false) as -> by (apply N.eqb_neq; lia).
  assert ((byte_of c <? 32)%N = false) as -> by (apply N.ltb_ge; lia).
  assert ((byte_of c <? 128)%N = false) as -> by (apply N.ltb_ge; lia).
  assert (Ascii.eqb c "\" = false) as -> by (apply Ascii.eqb_neq; intros ->; vm_compute in Hc; by apply Hc).
  done.
Qed.

Lemma emit_Some x t r : emit x (Some (t, r)) = Some (x +:+ t, r).
Proof. done. Qed.

Lemma appendString_cons n c s :
  appendString (S n) (String c s) =
  if (byte_of c <? 128)%N then escapeByte c +:+ appendString n s
  else let k := rune_len (String c s) in let p := str_take k (String c s) in
    if (k =? 0)%nat then "\ufffd" +:+ appendString n s
    else (if String.eqb p (utf8 0x2028) then "\u2028" else if String.eqb p (utf8 0x2029) then "\u2029" else p)
           +:+ appendString n (str_drop k (String c s)).
Proof. cbn [appendString]. case_match; [done|]. by destruct (rune_len (String c s)). Qed.

Lemma toValid_cons n c s :
  toValid (S n) (String c s) =
  if (byte_of c <? 128)%N then String c (toValid n s)
  else let k := rune_len (String c s) in
    if (k =? 0)%nat then replacement +:+ toValid n s
    else str_take k (String c s) +:+ toValid n (str_drop k (String c s)).
Proof. cbn [toValid]. case_match; [done|]. by destruct (rune_len (String c s)). Qed.

(** The decoder reads back what [appendString] wrote, up to the closing quote. *)
Lemma json_string_appendString n : forall m s rest,
  (String.length s <= n)%nat -> (String.length s < m)%nat ->
  json_string m (appendString n s +:+ String quote rest) = Some (toValid n s, rest).
Proof.
  induction n as [|n IH]; intros [|m] s rest Hn Hm; try lia.
  - destruct s; [done|cbn in Hn; lia].
  - destruct s as [|c s]; [done|]. rewrite appendString_cons, toValid_cons. cbn [String.length] in *.
    destruct (byte_of c <? 128)%N eqn:Hc.
    { rewrite str_app_assoc, (json_string_byte _ _ _ Hc), IH by lia. by rewrite emit_Some, str_app_cons, str_app_empty. }
    destruct (rune_len (String c s)) as [|k] eqn:Hk.
    { cbn zeta iota. cbn [Nat.eqb]. rewrite str_app_assoc. change "\ufffd" with ("\u" +:+ "fffd").
      rewrite (json_string_escaped m "fffd") by auto. by rewrite IH, emit_Some by lia. }
    destruct (rune_len_split _ _ Hk ltac:(done)) as (p & r & Hs & Hp & Hr). cbv zeta. cbn [Nat.eqb]. rewrite Hs, <- Hp, str_take_app, str_drop_exact.
    assert (String.length r <= String.length s)%nat.
    { apply (f_equal String.length) in Hs. rewrite str_length_app, Hp in Hs. cbn in Hs. lia. }
    rewrite str_app_assoc. case_match eqn:E1; [|case_match eqn:E2].
    + apply String.eqb_eq in E1. rewrite E1 in *. change "\u2028" with ("\u" +:+ "2028").
      rewrite (json_string_escaped m "2028") by auto. by rewrite IH, emit_Some by lia.
    + apply String.eqb_eq in E2. rewrite E2 in *. change "\u2029" with ("\u" +:+ "2029").
      rewrite (json_string_escaped m "2029") by auto. by rewrite IH, emit_Some by lia.
    + rewrite (json_string_rune m p k) by done. by rewrite IH, emit_Some by lia.
Qed.

Lemma escapeByte_length c : (1 <= String.length (escapeByte c))%nat.
Proof. destruct c as [[|] [|] [|] [|] [|] [|] [|] [|]]; vm_compute; lia. Qed.

(** Nothing is encoded by fewer bytes than it has. *)
Lemma appendString_length n : forall s, (String.length s <= n)%nat ->
  (String.length s <= String.length (appendString n s))%nat.
Proof.
  induction n as [|n IH]; intros s Hn; [destruct s; cbn in *; lia|].
  destruct s as [|c s]; [done|]. rewrite appendString_cons. cbn [String.length] in Hn. cbv zeta.
  destruct (byte_of c <? 128)%N.
  { rewrite str_length_app. cbn [String.length]. pose proof (escapeByte_length c). specialize (IH s). lia. }
  destruct (rune_len (String c s)) as [|k] eqn:Hk; cbn [Nat.eqb].
  { rewrite str_length_app. cbn [String.length]. specialize (IH s). lia. }
  destruct (rune_len_split _ _ Hk ltac:(done)) as (p & r & Hs & Hp & _). rewrite Hs, <- Hp, str_take_app, str_drop_exact.
  apply (f_equal String.length) in Hs. rewrite str_length_app in Hs. cbn [String.length] in Hs.
  rewrite !str_length_app. specialize (IH r).
  case_match eqn:E1; [|case_match eqn:E2]; try apply String.eqb_eq in E1 as ->; try apply String.eqb_eq in E2 as ->;
    cbn [String.length] in *; try change (String.length (utf8 _)) with 3%nat in *; lia.
Qed.

(** A marshalled string, wherever it is decoded, gives that string, up to
    the bytes that are not UTF-8. *)
Lemma json_value_Marshal n depth s rest :
  json_value (S n) depth (Marshal s +:+ rest) = Some (AString (ToValidUTF8 s), true, rest).
Proof.
  unfold Marshal. rewrite str_app_cons, str_app_assoc. cbn [json_value].
  change (skip_ws (String quote ?t)) with (String quote t).
  set (t := appendString _ _ +:+ _). change (HasPrefix (String quote t) "null") with false.
  change (HasPrefix (String quote t) "true") with false. change (HasPrefix (String quote t) "false") with false.
  change (byte_of quote =? 34)%N with true. cbv iota. unfold t. rewrite str_app_cons, str_app_empty.
  rewrite (json_string_appendString (String.length s)); [done|lia|].
  rewrite str_length_app. cbn [String.length]. pose proof (appendString_length (String.length s) s). lia.
Qed.

(** Bytes below 0x80 are valid by themselves. *)
Fixpoint isASCII (s : string) : bool :=
  match s with String c s => (byte_of c <? 128)%N && isASCII s | EmptyString => true end.

Lemma ToValidUTF8_ascii s : isASCII s = true -> ToValidUTF8 s = s.
Proof.
  unfold ToValidUTF8. induction s as [|c s IH]; [done|]. intros [Hc Hs]%andb_prop. cbn [String.length].
  rewrite toValid_cons, Hc. by rewrite (IH Hs).
Qed.

Lemma Marshal_not_empty s : Marshal s <> "".
Proof. done. Qed.
