(* ===== verification/GoHttp.v ===== *)
(** Go's [net/http], as far as the test provider uses it: the parsing of the
    parameters of a request, and the responses handlers write. *)
From S2P Require Import Prelude GoStrings GoUrl GoEncoding.

(** A request to one endpoint: its method, the raw query of its URL, the raw body
    when it is a form, whether it carries HTTP Basic credentials, and the
    parameters once they are parsed. *)
Record Request := mkRequest {
  Method : string;
  rawQuery : string;
  formBody : option string;
  basicAuth : bool;
  PostForm : option Values;
  Form : option Values
}.
#[export] Instance Request_settable : Settable Request :=
  fun r => mkRequest (Method r) (rawQuery r) (formBody r) (basicAuth r) (PostForm r) (Form r).

Definition newRequest (meth rawQuery : string) (body : option string) (basic : bool) : Request :=
  mkRequest meth rawQuery body basic None None.

(** [r.URL.Query()]. *)
Definition urlQuery (r : Request) : Values := (parseQueryAll (rawQuery r)).1.

(** [parsePostForm], for the methods with a body; larger bodies than ten
    megabytes are left out. *)
Definition parsePostForm (r : Request) : Values * bool :=
  match formBody r with Some body => parseQueryAll body | None => (∅, true) end.
Definition hasBody (r : Request) : bool :=
  String.eqb (Method r) "POST" || String.eqb (Method r) "PUT" || String.eqb (Method r) "PATCH".

(** [copyValues]: the values of [src] after those of [dst]. *)
Definition copyValues (dst src : Values) : Values := union_with (fun a b => Some (a ++ b)) dst src.

(** [Request.ParseForm]: whether it returns nil.  What is parsed already is not
    parsed again. *)
Definition ParseForm (r : Request) : bool * Request :=
  let '(post, ok1) := match PostForm r with
                      | Some post => (post, true)
                      | None => if hasBody r then parsePostForm r else (∅, true)
                      end in
  let '(form, ok2) := match Form r with
                      | Some form => (form, true)
                      | None => let '(query, ok) := parseQueryAll (rawQuery r) in (copyValues post query, ok)
                      end in
  (ok1 && ok2, r <| PostForm := Some post |> <| Form := Some form |>).

(** [Request.FormValue]. *)
Definition FormValue (r : Request) (key : string) : string :=
  match Form (ParseForm r).2 with Some form => Values_Get form key | None => "" end.

Lemma ParseForm_again r : (ParseForm (ParseForm r).2).1 = true.
Proof.
  unfold ParseForm. destruct (match PostForm r with Some post => (post, true) | None => _ end) as [post ok1].
  destruct (match Form r with Some form => (form, true) | None => _ end) as [form ok2]. done.
Qed.

Lemma ParseForm_idem r : (ParseForm (ParseForm r).2).2 = (ParseForm r).2.
Proof.
  unfold ParseForm. destruct (match PostForm r with Some post => (post, true) | None => _ end) as [post ok1].
  destruct (match Form r with Some form => (form, true) | None => _ end) as [form ok2]. done.
Qed.

(** Parsing first does not change the values. *)
Lemma FormValue_parsed r key : FormValue (ParseForm r).2 key = FormValue r key.
Proof. unfold FormValue. by rewrite ParseForm_idem. Qed.
