(* ===== verification/GoText.v ===== *)
(** Parts of Go's [bufio], [path], [strconv] and [sort] packages that the
    coverage gate uses. *)
From stdpp Require Import sorting pretty.
From Stdlib Require Import Ascii.
From S2P Require Import Prelude GoStrings.

(** ** bufio.Scanner over lines *)

Definition newline : ascii := ascii_of_N 10.
Definition carriageReturn : string := String (ascii_of_N 13) "".

(** [dropCR]. *)
Definition dropCR (line : string) : string :=
  if HasSuffix line carriageReturn then str_take (String.length line - 1) line else line.

(** The tokens of a scanner whose buffer grows to [max] bytes, and whether the
    scan came to the end: a line that does not fit together with its newline ends
    it.  The argument is the text between newlines. *)
Fixpoint scanTokens (max : Z) (segments : list string) : list string * bool :=
  match segments with
  | [] => ([], true)
  | segment :: rest =>
      if max <=? Z.of_nat (String.length segment) then ([], false)
      else match rest with
      | [] => if String.eqb segment "" then ([], true) else ([dropCR segment], true)
      | _ => let '(tokens, complete) := scanTokens max rest in (dropCR segment :: tokens, complete)
      end
  end.
Definition ScanLines (max : Z) (data : string) : list string * bool := scanTokens max (Split data newline).

(** ** strconv, in base ten *)

Fixpoint digitsValue (s : string) (acc : Z) : option Z :=
  match s with
  | EmptyString => Some acc
  | String c s => if is_digit c then digitsValue s (acc * 10 + Z.of_N (byte_of c - 48)) else None
  end.

(** [strconv.ParseUint(s, 10, 64)]. *)
Definition ParseUint (s : string) : option Z :=
  match s with
  | EmptyString => None
  | _ => match digitsValue s 0 with Some v => if v <=? u64_max then Some v else None | None => None end
  end.

(** [strconv.ParseInt(s, 10, 64)]. *)
Definition ParseInt (s : string) : option Z :=
  let '(neg, digits) :=
    match s with
    | String c rest => if Ascii.eqb c "-" then (true, rest) else if Ascii.eqb c "+" then (false, rest) else (false, s)
    | EmptyString => (false, s)
    end in
  match ParseUint digits with
  | None => None
  | Some v =>
      if negb neg && (max_i64 <? v) then None
      else if neg && (- min_i64 <? v) then None
      else Some (if neg then - v else v)
  end.

(** ** path *)

(** The elements [path.Clean] keeps, the last one first. *)
Definition cleanStep (rooted : bool) (kept : list string) (element : string) : list string :=
  if String.eqb element "" || String.eqb element "." then kept
  else if String.eqb element ".." then
    match kept with
    | [] => if rooted then [] else [".."]
    | last :: rest => if String.eqb last ".." then ".." :: kept else rest
    end
  else element :: kept.

(** [path.Clean] and [path.Dir]. *)
Definition Clean (path : string) : string :=
  let rooted := HasPrefix path "/" in
  let cleaned := (if rooted then "/" else "") +:+ String.concat "/" (rev (foldl (cleanStep rooted) [] (Split path "/"))) in
  if String.eqb cleaned "" then "." else cleaned.
Definition Dir (path : string) : string :=
  Clean (match LastIndexByte path "/" with Some i => str_take (S i) path | None => "" end).

Example Dir_examples :
  Dir "example.com/project/pkg/pkg.go" = "example.com/project/pkg" /\ Dir "a.go" = "." /\ Dir "/a.go" = "/" /\
  Dir "a//./b/../c/x.go" = "a/c" /\ Dir "../x/a.go" = "../x" /\ Dir "/../a.go" = "/".
Proof. vm_compute. done. Qed.

Example ParseInt_examples :
  ParseInt "-9223372036854775808" = Some min_i64 /\ ParseInt "9223372036854775808" = None /\
  ParseInt "+7" = Some 7 /\ ParseInt "" = None /\ ParseInt "-" = None /\ ParseInt "1_0" = None /\
  ParseUint "18446744073709551615" = Some u64_max /\ ParseUint "18446744073709551616" = None.
Proof. vm_compute. done. Qed.

Lemma digitsValue_nonneg s : forall acc v, 0 <= acc -> digitsValue s acc = Some v -> 0 <= v.
Proof.
  induction s as [|c s IH]; intros acc v Ha; cbn; [by intros [= <-]|].
  destruct (is_digit c); [|done]. apply IH. lia.
Qed.

Lemma ParseUint_range s v : ParseUint s = Some v -> 0 <= v <= u64_max.
Proof.
  unfold ParseUint. destruct s as [|c s]; [done|]. destruct (digitsValue _ 0) as [w|] eqn:E; [|done].
  apply digitsValue_nonneg in E; [|done]. case_match eqn:Hb; [|done]. apply Z.leb_le in Hb. intros [= <-]. lia.
Qed.

Lemma ParseInt_range s v : ParseInt s = Some v -> min_i64 <= v <= max_i64.
Proof.
  unfold ParseInt. destruct (match s with String c rest => _ | EmptyString => _ end) as [neg digits].
  destruct (ParseUint digits) as [w|] eqn:E; [|done]. apply ParseUint_range in E.
  unfold min_i64, max_i64 in *. destruct neg; cbn [negb andb];
    case_match eqn:Hb; try done; apply Z.ltb_ge in Hb; intros [= <-]; lia.
Qed.

(** ** sort.Strings *)

(** Equal strings are the same value, so every sorting algorithm agrees. *)
Definition SortStrings (l : list string) : list string := merge_sort String.le l.

Lemma SortStrings_perm l : SortStrings l ≡ₚ l.
Proof. apply merge_sort_Permutation. Qed.

Lemma SortStrings_unique l l' : l ≡ₚ l' -> SortStrings l = SortStrings l'.
Proof.
  intros Hp. apply (Sorted_unique String.le); [apply Sorted_merge_sort, _..|]. by rewrite !SortStrings_perm.
Qed.

Lemma SortStrings_elem x l : x ∈ SortStrings l <-> x ∈ l.
Proof. by rewrite SortStrings_perm. Qed.
