(* ===== verification/Errors.v ===== *)
(** Go errors and [errors.go]: the sentinel errors, [AuthError], the
    classification of refresh failures and the sanitising conversion of
    token-endpoint errors. *)
From S2P Require Import Prelude.

(** ** Error values *)

(** The error values that are compared by identity: the package sentinels and
    the two context errors. *)
Inductive sentinel :=
| ErrNotInitialized
| ErrStateMismatch
| ErrNonceMismatch
| ErrFlowCancelled
| ErrNotAuthenticated
| errSessionIntegrity
| errRefreshPermanentlyBlocked
| errScheduledRefreshExpired
| errAzpMismatch
| context_Canceled
| context_DeadlineExceeded.

#[export] Instance sentinel_eq_dec : EqDecision sentinel.
Proof. solve_decision. Defined.

(** [AuthError]: an OAuth2/OIDC error returned by the identity provider. *)
Record AuthError := mkAuthError { Code : string; Message : string }.

(** What [errors.go] reads of [golang.org/x/oauth2]'s [*RetrieveError]; [Text]
    is that library's [Error()], which may include the raw response body. *)
Record RetrieveError := mkRetrieveError {
  ErrorCode : string;
  ErrorDescription : string;
  ResponseStatus : option string;      (* [re.Response.Status], if any response *)
  Text : string
}.

(** Error trees.  [EWrap pre e] is [fmt.Errorf("pre: %w", e)]; [EWrapBoth e1 mid e2]
    is [fmt.Errorf("%w: mid: %w", e1, e2)]; [ESuffix e post] is
    [fmt.Errorf("%w: post", e)]; [EPair e1 e2] is [fmt.Errorf("%w: %w", e1, e2)];
    [EText] is an error without a cause, from this program or a library. *)
Inductive error :=
| ESentinel (s : sentinel)
| EText (msg : string)
| EAuth (a : AuthError)
| ERetrieve (re : RetrieveError)
| ERestore (cause : error)
| EWrap (pre : string) (e : error)
| ESuffix (e : error) (post : string)
| EPair (e1 e2 : error)
| EWrapBoth (e1 : error) (mid : string) (e2 : error).

#[export] Instance AuthError_eq_dec : EqDecision AuthError.
Proof. solve_decision. Defined.
#[export] Instance RetrieveError_eq_dec : EqDecision RetrieveError.
Proof. solve_decision. Defined.
#[export] Instance error_eq_dec : EqDecision error.
Proof. solve_decision. Defined.

(** [errors.Is] against a sentinel. *)
Fixpoint errors_Is (e : error) (s : sentinel) : bool :=
  match e with
  | ESentinel s' => bool_decide (s' = s)
  | EText _ | EAuth _ | ERetrieve _ => false
  | ERestore c => errors_Is c s
  | EWrap _ c | ESuffix c _ => errors_Is c s
  | EPair c1 c2 | EWrapBoth c1 _ c2 => errors_Is c1 s || errors_Is c2 s
  end.

Definition first_some {A} (x y : option A) : option A :=
  match x with Some _ => x | None => y end.

(** [errors.As] into an [*AuthError], depth first as in the library. *)
Fixpoint errors_AsAuth (e : error) : option AuthError :=
  match e with
  | EAuth a => Some a
  | ESentinel _ | EText _ | ERetrieve _ => None
  | ERestore c | EWrap _ c | ESuffix c _ => errors_AsAuth c
  | EPair c1 c2 | EWrapBoth c1 _ c2 => first_some (errors_AsAuth c1) (errors_AsAuth c2)
  end.

(** [errors.As] into an [*oauth2.RetrieveError]. *)
Fixpoint errors_AsRetrieve (e : error) : option RetrieveError :=
  match e with
  | ERetrieve re => Some re
  | ESentinel _ | EText _ | EAuth _ => None
  | ERestore c | EWrap _ c | ESuffix c _ => errors_AsRetrieve c
  | EPair c1 c2 | EWrapBoth c1 _ c2 =>
      first_some (errors_AsRetrieve c1) (errors_AsRetrieve c2)
  end.

Definition sentinel_text (s : sentinel) : string :=
  match s with
  | ErrNotInitialized => "pkceflow: client not initialized (call Init first)"
  | ErrStateMismatch => "pkceflow: state parameter mismatch"
  | ErrNonceMismatch => "pkceflow: nonce mismatch"
  | ErrFlowCancelled => "pkceflow: auth flow cancelled"
  | ErrNotAuthenticated => "pkceflow: not authenticated (no ID token available)"
  | errSessionIntegrity => "pkceflow: session integrity check failed"
  | errRefreshPermanentlyBlocked => "pkceflow: token generation is permanently blocked"
  | errScheduledRefreshExpired => "pkceflow: scheduled refresh reached access-token expiry"
  | errAzpMismatch => "pkceflow: ID token azp claim does not authorize this client"
  | context_Canceled => "context canceled"
  | context_DeadlineExceeded => "context deadline exceeded"
  end.

(** [AuthError.Error]. *)
Definition AuthError_Error (a : AuthError) : string :=
  if negb (String.eqb (Message a) "")
  then "pkceflow: auth error: " +:+ Code a +:+ ": " +:+ Message a
  else "pkceflow: auth error: " +:+ Code a.

(** [restoreSessionError.Error]: independent of the cause. *)
Definition restoreSessionError_Error : string :=
  "pkceflow: failed to restore persisted session".

Fixpoint Error (e : error) : string :=
  match e with
  | ESentinel s => sentinel_text s
  | EText m => m
  | EAuth a => AuthError_Error a
  | ERetrieve re => Text re
  | ERestore _ => restoreSessionError_Error
  | EWrap pre c => pre +:+ ": " +:+ Error c
  | ESuffix c post => Error c +:+ ": " +:+ post
  | EPair c1 c2 => Error c1 +:+ ": " +:+ Error c2
  | EWrapBoth c1 mid c2 => Error c1 +:+ ": " +:+ mid +:+ ": " +:+ Error c2
  end.

(** ** Classification *)

Definition permanentErrorCodes (code : string) : bool :=
  String.eqb code "invalid_grant" || String.eqb code "invalid_client" ||
  String.eqb code "unauthorized_client".

Definition credentialRefusedCode : string := "invalid_grant".

Definition isSessionIntegrityError (e : error) : bool := errors_Is e errSessionIntegrity.

Definition isCredentialRefusedError (e : error) : bool :=
  if isSessionIntegrityError e then false
  else match errors_AsAuth e with
       | Some a => String.eqb (Code a) credentialRefusedCode
       | None => false
       end.

Definition IsPermanentError (e : error) : bool :=
  if errors_Is e errSessionIntegrity || errors_Is e errRefreshPermanentlyBlocked then true
  else match errors_AsAuth e with
       | Some a => permanentErrorCodes (Code a)
       | None => false
       end.

Definition newSessionIntegrityError (message : string) (cause : option error) : error :=
  match cause with
  | Some c => EWrapBoth (ESentinel errSessionIntegrity) message c
  | None => ESuffix (ESentinel errSessionIntegrity) message
  end.

(** [asAuthError]: a token-endpoint error becomes an [*AuthError] that keeps
    the OAuth2 code and drops the response body. *)
Definition asAuthError (e : error) : error :=
  match errors_AsRetrieve e with
  | None => e
  | Some re =>
      let code := if String.eqb (ErrorCode re) "" then "token_endpoint_error" else ErrorCode re in
      let message :=
        match String.eqb (ErrorDescription re) "", ResponseStatus re with
        | true, Some status => "token endpoint returned " +:+ status
        | _, _ => ErrorDescription re
        end in
      EAuth (mkAuthError code message)
  end.

(** ** Lemmas *)

Lemma newSessionIntegrityError_integrity m c :
  isSessionIntegrityError (newSessionIntegrityError m c) = true.
Proof. by destruct c. Qed.

Lemma integrity_permanent e : isSessionIntegrityError e = true -> IsPermanentError e = true.
Proof. unfold isSessionIntegrityError, IsPermanentError. by intros ->. Qed.

Lemma credential_refused_permanent e :
  isCredentialRefusedError e = true -> IsPermanentError e = true.
Proof.
  unfold isCredentialRefusedError, IsPermanentError, isSessionIntegrityError.
  destruct (errors_Is e errSessionIntegrity); [done|].
  destruct (errors_AsAuth e) as [a|]; [|done]. intros Hc. apply String.eqb_eq in Hc.
  unfold permanentErrorCodes. rewrite Hc. by destruct (errors_Is e _).
Qed.

Lemma credential_refused_not_integrity e :
  isCredentialRefusedError e = true -> isSessionIntegrityError e = false.
Proof. unfold isCredentialRefusedError. by destruct (isSessionIntegrityError e). Qed.

#[export] Hint Resolve newSessionIntegrityError_integrity integrity_permanent
  credential_refused_permanent credential_refused_not_integrity : go.

(** ** Properties *)

(** The error the refresh path reports for a failed token request. *)
Definition refreshRequestError (e : error) : error :=
  EWrap "pkceflow: token refresh failed" (asAuthError e).

(** Converting a token-endpoint failure never lets the raw response body
    through: two failures that agree on the OAuth2 code, the description and
    the response status are converted to the same error value, hence to the
    same text, whatever library text (with the body) they carried. *)
Theorem asAuthError_hides_body e1 e2 re1 re2 :
  errors_AsRetrieve e1 = Some re1 -> errors_AsRetrieve e2 = Some re2 ->
  ErrorCode re1 = ErrorCode re2 -> ErrorDescription re1 = ErrorDescription re2 ->
  ResponseStatus re1 = ResponseStatus re2 ->
  asAuthError e1 = asAuthError e2 /\
  Error (refreshRequestError e1) = Error (refreshRequestError e2).
Proof.
  intros H1 H2 Hc Hd Hs. unfold refreshRequestError, asAuthError.
  rewrite H1, H2, Hc, Hd, Hs. done.
Qed.

Lemma asAuthError_hides_body_witness :
  asAuthError (ERetrieve (mkRetrieveError "" "" (Some "500") "secret body")) =
  asAuthError (EWrap "oauth2" (ERetrieve (mkRetrieveError "" "" (Some "500") "other")))
  /\ Error (refreshRequestError (ERetrieve (mkRetrieveError "" "" (Some "500") "secret body"))) =
     Error (refreshRequestError (EWrap "oauth2" (ERetrieve (mkRetrieveError "" "" (Some "500") "other")))).
Proof. eapply asAuthError_hides_body; reflexivity. Defined.

(** A refresh failure answered by the token endpoint with an OAuth2 code is
    permanent exactly for the three permanent codes, and refuses the credential
    exactly for [invalid_grant]; it is never a session-integrity failure. *)
Theorem refresh_error_classification e re :
  errors_AsRetrieve e = Some re -> ErrorCode re <> "" ->
  IsPermanentError (refreshRequestError e) = permanentErrorCodes (ErrorCode re) /\
  isCredentialRefusedError (refreshRequestError e) =
    String.eqb (ErrorCode re) "invalid_grant" /\
  isSessionIntegrityError (refreshRequestError e) = false.
Proof.
  intros He Hc. unfold refreshRequestError, asAuthError. rewrite He.
  apply String.eqb_neq in Hc. rewrite Hc. done.
Qed.

Lemma refresh_error_classification_witness :
  let e := EWrap "transport" (ERetrieve (mkRetrieveError "invalid_client" "no" None "body")) in
  IsPermanentError (refreshRequestError e) = true /\
  isCredentialRefusedError (refreshRequestError e) = false /\
  isSessionIntegrityError (refreshRequestError e) = false.
Proof.
  apply (refresh_error_classification _ (mkRetrieveError "invalid_client" "no" None "body"));
    [reflexivity | discriminate].
Defined.
