(* ===== verification/Tokens.v ===== *)
(** [state.go] and the [TokenPersistence] interface of [interfaces.go]: the
    token state, the status result, the persistence contract as a type class
    with its laws, and its in-memory implementations ([memoryStore] of
    [client.go]; [MemoryStore] and [FailingStore] of [oidctest]). *)
From S2P Require Import Prelude GoTime Errors.

(** ** Token state *)

Record TokenState := mkTokenState {
  AccessToken : string;
  RefreshToken : string;
  IDToken : string;
  ExpiresAt : Time;
  LastAuthAt : Time
}.

#[export] Instance TokenState_eq_dec : EqDecision TokenState.
Proof. solve_decision. Defined.
#[export] Instance TokenState_countable : Countable TokenState.
Proof.
  by refine (inj_countable'
    (fun ts => (AccessToken ts, RefreshToken ts, IDToken ts, ExpiresAt ts, LastAuthAt ts))
    (fun '(a, r, i, e, l) => mkTokenState a r i e l) _); intros [].
Defined.

Definition zeroTokenState : TokenState := mkTokenState "" "" "" zeroTime zeroTime.

Definition strEmpty (s : string) : bool := String.eqb s "".

(** [TokenState.IsZero]. *)
Definition IsZero (ts : TokenState) : bool :=
  strEmpty (AccessToken ts) && strEmpty (RefreshToken ts) && strEmpty (IDToken ts).

Record AuthStatusResult := mkAuthStatusResult {
  Valid : bool;
  GraceMode : bool;
  GraceDaysLeft : Z;
  CanUseApp : bool
}.

Definition zeroAuthStatus : AuthStatusResult := mkAuthStatusResult false false 0 false.

(** ** The persistence interface *)

(** A backend's methods on its own state (which may hide faults to come).
    [Load]'s state is meaningful only when its error is [None]. *)
Class TokenPersistence (S : Type) := {
  Save : S -> TokenState -> option error * S;
  Load : S -> (TokenState * option error) * S;
  Delete : S -> option error * S
}.

(** The contract of [interfaces.go]: once Save returns nil, a later Load that
    succeeds returns that state until a newer Save or Delete, if it is one the medium
    can represent ([kept]); a Load never mutates what is stored, so what one Load
    returns the next one returns; a Delete that returns nil leaves no state. *)
Class TokenPersistenceLaws (S : Type) `{TokenPersistence S} := {
  holds : S -> TokenState -> Prop;
  kept : TokenState -> Prop;
  save_holds s ts : (Save s ts).1 = None -> holds (Save s ts).2 ts;
  load_holds s ts : kept ts -> holds s ts -> (Load s).1.2 = None -> (Load s).1.1 = ts;
  load_keeps s ts : holds s ts -> holds (Load s).2 ts;
  load_found s : (Load s).1.2 = None -> holds (Load s).2 (Load s).1.1;
  delete_holds s : (Delete s).1 = None -> holds (Delete s).2 zeroTokenState
}.

(** ** In-memory implementations *)

(** [memoryStore] of [client.go] and [oidctest.MemoryStore] (their mutex makes
    each method one atomic action). *)
Record memoryStore := mkMemoryStore { ms_state : TokenState }.

Definition memoryStore_Save (s : memoryStore) (ts : TokenState) : option error * memoryStore :=
  (None, mkMemoryStore ts).
Definition memoryStore_Load (s : memoryStore) : (TokenState * option error) * memoryStore :=
  ((ms_state s, None), s).
Definition memoryStore_Delete (s : memoryStore) : option error * memoryStore :=
  (None, mkMemoryStore zeroTokenState).

#[export] Instance memoryStore_persistence : TokenPersistence memoryStore := {
  Save := memoryStore_Save;
  Load := memoryStore_Load;
  Delete := memoryStore_Delete
}.

#[export, program] Instance memoryStore_laws : TokenPersistenceLaws memoryStore := {
  holds s ts := ms_state s = ts;
  kept _ := True
}.
Solve Obligations with by intros; cbn in *; subst.

(** [oidctest.FailingStore]: an in-memory store with injectable errors. *)
Record FailingStore := mkFailingStore {
  fs_state : TokenState;
  saveErr : option error;
  loadErr : option error;
  deleteErr : option error
}.

#[export] Instance FailingStore_settable : Settable FailingStore :=
  fun s => mkFailingStore (fs_state s) (saveErr s) (loadErr s) (deleteErr s).

Definition SetSaveErr (e : option error) (s : FailingStore) : FailingStore := s <| saveErr := e |>.
Definition SetLoadErr (e : option error) (s : FailingStore) : FailingStore := s <| loadErr := e |>.
Definition SetDeleteErr (e : option error) (s : FailingStore) : FailingStore := s <| deleteErr := e |>.

Definition FailingStore_Save (s : FailingStore) (ts : TokenState) : option error * FailingStore :=
  match saveErr s with
  | Some e => (Some e, s)
  | None => (None, s <| fs_state := ts |>)
  end.
Definition FailingStore_Load (s : FailingStore) : (TokenState * option error) * FailingStore :=
  match loadErr s with
  | Some e => ((zeroTokenState, Some e), s)
  | None => ((fs_state s, None), s)
  end.
Definition FailingStore_Delete (s : FailingStore) : option error * FailingStore :=
  match deleteErr s with
  | Some e => (Some e, s)
  | None => (None, s <| fs_state := zeroTokenState |>)
  end.

#[export] Instance FailingStore_persistence : TokenPersistence FailingStore := {
  Save := FailingStore_Save;
  Load := FailingStore_Load;
  Delete := FailingStore_Delete
}.

#[export, program] Instance FailingStore_laws : TokenPersistenceLaws FailingStore := {
  holds s ts := fs_state s = ts;
  kept _ := True
}.
Next Obligation. intros s ts. cbn. unfold FailingStore_Save. by destruct (saveErr s). Qed.
Next Obligation. intros s ts _ Hs. cbn. unfold FailingStore_Load. by destruct (loadErr s). Qed.
Next Obligation. intros s ts Hs. cbn. unfold FailingStore_Load. by destruct (loadErr s). Qed.
Next Obligation. intros s. cbn. unfold FailingStore_Load. by destruct (loadErr s). Qed.
Next Obligation. intros s. cbn. unfold FailingStore_Delete. by destruct (deleteErr s). Qed.

Lemma IsZero_zero : IsZero zeroTokenState = true.
Proof. reflexivity. Qed.

Lemma strEmpty_true s : strEmpty s = true <-> s = "".
Proof. apply String.eqb_eq. Qed.
Lemma strEmpty_false s : strEmpty s = false <-> s <> "".
Proof. apply String.eqb_neq. Qed.
