(* ===== verification/Config.v ===== *)
(** [config.go]: the client configuration, its validation and its defaults. *)
From S2P Require Import Prelude GoTime GoStrings GoUrl.

Record Config := mkConfig {
  IssuerURL : string;
  ClientID : string;
  Scopes : list string;
  GracePeriod : Z;
  LoginTimeout : Z;
  LogoutTimeout : Z;
  ExtraAuthParams : gmap string string;
  ExtraTokenParams : gmap string string
}.

#[export] Instance Config_settable : Settable Config :=
  fun c => mkConfig (IssuerURL c) (ClientID c) (Scopes c) (GracePeriod c) (LoginTimeout c)
             (LogoutTimeout c) (ExtraAuthParams c) (ExtraTokenParams c).

#[export] Instance Config_eq_dec : EqDecision Config.
Proof. solve_decision. Defined.

Definition defaultScopes : list string := ["openid"; "profile"; "email"; "offline_access"].

Definition reservedExtraAuthParams : list string :=
  ["client_id"; "client_secret"; "code_challenge"; "code_challenge_method"; "nonce";
   "redirect_uri"; "response_type"; "scope"; "state"].

Definition reservedExtraTokenParams : list string :=
  ["client_assertion"; "client_assertion_type"; "client_id"; "client_secret"; "code";
   "code_verifier"; "grant_type"; "redirect_uri"].

(** Why [Validate] rejects a configuration. *)
Inductive configError :=
| IssuerRequired
| IssuerNotURL
| IssuerNotAbsolute
| ClientIDRequired
| ReservedParam (map_name : string).

#[export] Instance configError_eq_dec : EqDecision configError.
Proof. solve_decision. Defined.

Definition normalizedKey (key : string) : string := ToLower (TrimSpace key).

Definition reservedKey (reserved : list string) (key : string) : bool :=
  bool_decide (normalizedKey key ∈ reserved).

(** [validateExtraParams]: the error does not depend on which offending key
    the map iteration meets first, except for the key quoted in its text. *)
Definition validateExtraParams (name : string) (params : gmap string string)
    (reserved : list string) : option configError :=
  if existsb (reservedKey reserved) (map_to_list params).*1
  then Some (ReservedParam name) else None.

(** Maps are values here, so cloning one is the identity; the nil map and an
    empty map are the same value, as they are to every reader of the config. *)
Definition cloneStringMap (m : gmap string string) : gmap string string := m.

Definition applyDefaults (c : Config) : Config :=
  c <| Scopes := match Scopes c with [] => defaultScopes | _ => Scopes c end |>
    <| ExtraAuthParams := cloneStringMap (ExtraAuthParams c) |>
    <| ExtraTokenParams := cloneStringMap (ExtraTokenParams c) |>
    <| LoginTimeout := if LoginTimeout c =? 0 then 2 * Minute else LoginTimeout c |>
    <| LogoutTimeout := if LogoutTimeout c =? 0 then 30 * Second else LogoutTimeout c |>.

(** [Config.Validate]: the checks in order, then the defaults. *)
Definition Validate (c : Config) : result configError Config :=
  if String.eqb (TrimSpace (IssuerURL c)) "" then Err IssuerRequired
  else match Parse (IssuerURL c) with
  | None => Err IssuerNotURL
  | Some u =>
      if (negb (String.eqb (Scheme u) "http") && negb (String.eqb (Scheme u) "https"))
         || String.eqb (Host u) "" then Err IssuerNotAbsolute
      else if String.eqb (TrimSpace (ClientID c)) "" then Err ClientIDRequired
      else match validateExtraParams "ExtraAuthParams" (ExtraAuthParams c) reservedExtraAuthParams with
      | Some e => Err e
      | None =>
          match validateExtraParams "ExtraTokenParams" (ExtraTokenParams c) reservedExtraTokenParams with
          | Some e => Err e
          | None => Ok (applyDefaults c)
          end
      end
  end.

(** ** Lemmas *)

Lemma validateExtraParams_None name params reserved :
  validateExtraParams name params reserved = None <->
  forall k v, params !! k = Some v -> normalizedKey k ∉ reserved.
Proof.
  unfold validateExtraParams. destruct (existsb _ _) eqn:E.
  - split; [done|]. intros Hall. exfalso.
    apply existsb_exists in E. destruct E as (k & Hin & Hk).
    apply list_elem_of_In in Hin. apply list_elem_of_fmap in Hin.
    destruct Hin as ([k' v] & -> & Hin). apply elem_of_map_to_list in Hin.
    apply bool_decide_eq_true in Hk. by eapply Hall.
  - split; [|done]. intros _ k v Hk Hres.
    assert (existsb (reservedKey reserved) (map_to_list params).*1 = true) as Ht; [|congruence].
    apply existsb_exists. exists k. split; [|by apply bool_decide_eq_true].
    apply list_elem_of_In, list_elem_of_fmap. exists (k, v). split; [done|].
    by apply elem_of_map_to_list.
Qed.

Lemma applyDefaults_idempotent c : applyDefaults (applyDefaults c) = applyDefaults c.
Proof.
  destruct c as [i ci sc g li lo ea et]. unfold applyDefaults. cbn -[Z.mul].
  f_equal.
  - by destruct sc.
  - destruct (li =? 0) eqn:E; [done|by rewrite E].
  - destruct (lo =? 0) eqn:E; [done|by rewrite E].
Qed.

Definition exampleConfig : Config :=
  mkConfig "https://idp.example/realms/r" "app" [] (24 * Hour) 0 0
    {[ "prompt" := "login" ]} ∅.

Example Validate_rejects_reserved :
  Validate (exampleConfig <| ExtraAuthParams := {[ " Nonce " := "x" ]} |>)
  = Err (ReservedParam "ExtraAuthParams").
Proof. vm_compute. reflexivity. Qed.
