(* ===== verification/Claims.v ===== *)
(** [claims.go] and the authorized-party rules of [verify.go]: decoding an ID
    token's payload, and checking its [azp] claim. *)
From S2P Require Import Prelude GoTime GoStrings GoEncoding Errors Config.
From Stdlib Require Import Ascii.

Record Claims := mkClaims {
  Subject : string;
  Name : string;
  GivenName : string;
  FamilyName : string;
  PreferredUsername : string;
  Email : string;
  EmailVerified : bool;
  Issuer : string;
  Audience : list string;
  ClaimsExpiresAt : Time;
  IssuedAt : Time;
  AuthTime : Time;
  Raw : list (string * any)
}.

Definition ClaimsGet (c : Claims) (name : string) : option any := any_lookup (Raw c) name.

Definition stringClaim (m : list (string * any)) (key : string) : string :=
  match any_lookup m key with Some (AString v) => v | _ => "" end.

Definition boolClaim (m : list (string * any)) (key : string) : bool :=
  match any_lookup m key with Some (ABool v) => v | _ => false end.

Fixpoint strings_of (l : list any) : list string :=
  match l with
  | [] => []
  | AString s :: l => s :: strings_of l
  | _ :: l => strings_of l
  end.

Definition audienceClaim (m : list (string * any)) (key : string) : list string :=
  match any_lookup m key with
  | Some (AString v) => [v]
  | Some (AArray l) => strings_of l
  | _ => []
  end.

(** Seconds from the zero Time to the Unix epoch. *)
Definition unixToInternal : Z := 62135596800.

(** [time.Unix(sec, 0).UTC()]. *)
Definition UnixUTC (sec : Z) : Time := mkTime (wrap_i64 (sec + unixToInternal) * Second) 0.

Definition timeClaim (m : list (string * any)) (key : string) : Time :=
  match any_lookup m key with
  | Some (ANumber f) => UnixUTC (float_to_int64 f)
  | _ => zeroTime
  end.

Definition claimsOf (m : list (string * any)) : Claims :=
  mkClaims (stringClaim m "sub") (stringClaim m "name") (stringClaim m "given_name")
    (stringClaim m "family_name") (stringClaim m "preferred_username") (stringClaim m "email")
    (boolClaim m "email_verified") (stringClaim m "iss") (audienceClaim m "aud")
    (timeClaim m "exp") (timeClaim m "iat") (timeClaim m "auth_time") m.

(** [DecodeIDToken]: no signature check; the payload is the second of exactly
    three dot-separated segments. *)
Definition DecodeIDToken (raw : string) : result error Claims :=
  match Split raw "." with
  | [_; payload64; _] =>
      match b64_decode payload64 with
      | None => Err (EText "pkceflow: decoding ID token payload")
      | Some payload =>
          match json_Unmarshal_map payload with
          | None => Err (EText "pkceflow: parsing ID token claims")
          | Some m => Ok (claimsOf m)
          end
      end
  | _ => Err (EText "pkceflow: malformed ID token: expected 3 JWT segments")
  end.

(** ** The authorized party ([verify.go]) *)

(** What the library reads of a go-oidc [*IDToken]; [idClaims] is what decoding
    its verified claim set into a map yields. *)
Record IDTokenInfo := mkIDToken {
  idSubject : string;
  idNonce : string;
  idAudience : list string;
  idClaims : result error (list (string * any))
}.

Definition azpError (post : string) : error := ESuffix (ESentinel errAzpMismatch) post.

(** [checkAuthorizedParty]; [None] accepts. *)
Definition checkAuthorizedParty (clientID : string) (claims : list (string * any))
    (audience : list string) : option error :=
  match any_lookup claims "azp" with
  | None =>
      if (1 <? length audience)%nat
      then Some (azpError "multiple audiences require azp") else None
  | Some (AString azp) =>
      if String.eqb azp clientID then None
      else Some (azpError "azp names another client")
  | Some _ => Some (azpError "azp is not a string")
  end.

(** [verifyIDToken], given go-oidc's answer for the raw token. *)
Definition verifyIDToken (clientID : string) (verified : result error IDTokenInfo)
    : result error IDTokenInfo :=
  match verified with
  | inl e => Err e
  | inr t =>
      match idClaims t with
      | inl e => Err (EWrap "pkceflow: reading ID token claims" e)
      | inr claims =>
          match checkAuthorizedParty clientID claims (idAudience t) with
          | Some e => Err e
          | None => Ok t
          end
      end
  end.
