(* ===== verification/ClientState.v ===== *)
(** The part of [Client] (client.go) that [Client.mu] protects: the token state
    and its revision, the discovery snapshot, the refresh schedule, the
    persistence retry record and the wake channel; with the helpers that run
    under that mutex and the pure status queries. *)
From S2P Require Import Prelude GoTime GoEncoding Errors Tokens Config.
From Stdlib Require Import SpecFloat.

(** ** Data *)

Inductive AuthStyle := AuthStyleAutoDetect | AuthStyleInParams | AuthStyleInHeader.

Record Endpoint := mkEndpoint { AuthURL : string; TokenURL : string; Style : AuthStyle }.

Record oauth2Config := mkOAuth2 {
  oaClientID : string;
  oaEndpoint : Endpoint;
  oaRedirectURL : string;
  oaScopes : list string
}.

(** What the library observes of a go-oidc [*Provider]: its identity, its
    endpoint and the members of its discovery document ([None] when decoding
    them fails). *)
Record Provider := mkProvider {
  provID : nat;
  provEndpoint : Endpoint;
  provClaims : option (list (string * any))
}.

(** [provider.Verifier(&oidc.Config{ClientID: ...})]. *)
Record IDTokenVerifier := mkVerifier { verProvider : Provider; verClientID : string }.

Inductive refreshLoopDisposition :=
| refreshLoopActive
| refreshLoopBlockedExpired
| refreshLoopBlockedPermanent
| refreshLoopBlockedIntegrity.

#[export] Instance disposition_eq_dec : EqDecision refreshLoopDisposition.
Proof. solve_decision. Defined.

(** [refreshLoopSchedule] (pkceflow.go). *)
Record refreshLoopSchedule := mkSchedule {
  sValid : bool;
  sRevision : Z;
  nextStage : Z;
  retryNotBefore : Time;
  sClaimID : Z;
  disposition : refreshLoopDisposition;
  eventAt : Time;
  eventEmitted : bool;
  inconclusive : bool
}.

#[export] Instance refreshLoopSchedule_settable : Settable refreshLoopSchedule :=
  fun s => mkSchedule (sValid s) (sRevision s) (nextStage s) (retryNotBefore s) (sClaimID s)
             (disposition s) (eventAt s) (eventEmitted s) (inconclusive s).

Definition zeroSchedule : refreshLoopSchedule :=
  mkSchedule false 0 0 zeroTime 0 refreshLoopActive zeroTime false false.

(** [persistenceRetryState] (persistence.go). *)
Record persistenceRetryState := mkRetry {
  pValid : bool;
  pRevision : Z;
  failures : Z;
  retryAt : Time;
  pClaimID : Z
}.

#[export] Instance persistenceRetryState_settable : Settable persistenceRetryState :=
  fun p => mkRetry (pValid p) (pRevision p) (failures p) (retryAt p) (pClaimID p).

Definition zeroRetry : persistenceRetryState := mkRetry false 0 0 zeroTime 0.

(** The fields of [Client] under [mu].  [refreshWake] is a channel; the
    channels made so far are those below [wakeNext], the closed ones are in
    [wakeClosed]. *)
Record ClientState := mkClientState {
  config : Config;
  state : TokenState;
  stateRevision : Z;
  provider : option Provider;
  verifier : option IDTokenVerifier;
  oauth2 : option oauth2Config;
  endSessionEndpoint : string;
  revocationEndpoint : string;
  refreshRun : option nat;
  refreshWake : option nat;
  wakeNext : nat;
  wakeClosed : gset nat;
  refreshSchedule : refreshLoopSchedule;
  refreshClaimSeq : Z;
  persistenceRetry : persistenceRetryState;
  persistenceClaimSeq : Z;
  restoreBlocked : bool
}.

#[export] Instance ClientState_settable : Settable ClientState :=
  fun c => mkClientState (config c) (state c) (stateRevision c) (provider c) (verifier c)
    (oauth2 c) (endSessionEndpoint c) (revocationEndpoint c) (refreshRun c) (refreshWake c)
    (wakeNext c) (wakeClosed c) (refreshSchedule c) (refreshClaimSeq c) (persistenceRetry c)
    (persistenceClaimSeq c) (restoreBlocked c).

(** The state [New] builds from a validated configuration. *)
Definition newClientState (cfg : Config) : ClientState :=
  mkClientState cfg zeroTokenState 0 None None None "" "" None None 0 ∅ zeroSchedule 0
    zeroRetry 0 false.

(** ** Helpers under [mu] *)

(** [signalRefreshLoopLocked]: close and replace the broadcast channel. *)
Definition signalRefreshLoopLocked (c : ClientState) : ClientState :=
  c <| wakeClosed := match refreshWake c with
                     | Some ch => {[ch]} ∪ wakeClosed c
                     | None => wakeClosed c
                     end |>
    <| refreshWake := Some (wakeNext c) |>
    <| wakeNext := S (wakeNext c) |>.

(** [refreshWakeLocked]: the current channel, made on first use. *)
Definition refreshWakeLocked (c : ClientState) : nat * ClientState :=
  match refreshWake c with
  | Some ch => (ch, c)
  | None => (wakeNext c, c <| refreshWake := Some (wakeNext c) |> <| wakeNext := S (wakeNext c) |>)
  end.

(** [advanceStateLocked]: install a new token generation. *)
Definition advanceStateLocked (ts : TokenState) (c : ClientState) : ClientState :=
  signalRefreshLoopLocked
    (c <| state := ts |>
       <| stateRevision := wrap_u64 (stateRevision c + 1) |>
       <| refreshSchedule := zeroSchedule |>
       <| persistenceRetry := zeroRetry |>
       <| restoreBlocked := false |>).

(** [setStateLocked]: advance only when the state materially changes. *)
Definition setStateLocked (ts : TokenState) (c : ClientState) : ClientState :=
  if bool_decide (state c = ts) then c else advanceStateLocked ts c.

Definition refreshIntegrityBlockedLocked (c : ClientState) : bool :=
  sValid (refreshSchedule c) && (sRevision (refreshSchedule c) =? stateRevision c) &&
  bool_decide (disposition (refreshSchedule c) = refreshLoopBlockedIntegrity).

Definition refreshPermanentlyBlockedLocked (c : ClientState) : bool :=
  sValid (refreshSchedule c) && (sRevision (refreshSchedule c) =? stateRevision c) &&
  bool_decide (disposition (refreshSchedule c) = refreshLoopBlockedPermanent).

(** [initialized]. *)
Definition initialized (c : ClientState) : bool :=
  match provider c with Some _ => true | None => false end.

(** ** Status queries *)

Definition tokenExpiryBuffer : Z := 30 * Second.

Definition float_of_Z (z : Z) : spec_float := binary_normalize 53 1024 z 0 false.

(** [int(d.Hours() / 24)] for a duration, in float64 arithmetic. *)
Definition wholeDays (d : Z) : Z :=
  let hours := SFadd 53 1024 (float_of_Z (Z.quot d Hour))
                 (SFdiv 53 1024 (float_of_Z (Z.rem d Hour)) (float_of_Z Hour)) in
  float_to_int64 (SFdiv 53 1024 hours (float_of_Z 24)).

(** The token is valid: it expires more than the buffer from now. *)
Definition tokenValid (now : Time) (c : ClientState) : bool :=
  Before now (AddDur (ExpiresAt (state c)) (- tokenExpiryBuffer)).

(** The token generation is within its grace period. *)
Definition inGrace (now : Time) (c : ClientState) : bool :=
  (0 <? GracePeriod (config c)) && negb (IsZeroTime (LastAuthAt (state c))) &&
  Before now (AddDur (LastAuthAt (state c)) (GracePeriod (config c))).

(** [AuthStatus], at the clock reading [now]. *)
Definition AuthStatus (now : Time) (c : ClientState) : AuthStatusResult :=
  if IsZero (state c) then zeroAuthStatus
  else if refreshIntegrityBlockedLocked c then zeroAuthStatus
  else
    let valid := tokenValid now c in
    let '(graceMode, graceDaysLeft) :=
      if negb valid && (0 <? GracePeriod (config c)) &&
         negb (IsZeroTime (LastAuthAt (state c))) then
        let graceEnd := AddDur (LastAuthAt (state c)) (GracePeriod (config c)) in
        if Before now graceEnd then (true, wholeDays (SubTime graceEnd now)) else (false, 0)
      else (false, 0) in
    mkAuthStatusResult valid graceMode graceDaysLeft (valid || graceMode).

(** [usableAccessToken]. *)
Definition usableAccessToken (now : Time) (c : ClientState) : string :=
  if IsZero (state c) || refreshIntegrityBlockedLocked c then ""
  else if tokenValid now c then AccessToken (state c)
  else if inGrace now c then AccessToken (state c)
  else "".

(** ** Invariant: the records are keyed to the current generation *)

(** A valid schedule or persistence retry always belongs to the current token
    generation; stages and revisions are unsigned; the current wake channel is
    open and every closed one was made before. *)
Record state_wf (c : ClientState) : Prop := {
  wf_schedule : sValid (refreshSchedule c) = true -> sRevision (refreshSchedule c) = stateRevision c;
  wf_retry : pValid (persistenceRetry c) = true -> pRevision (persistenceRetry c) = stateRevision c;
  wf_stage : 0 <= nextStage (refreshSchedule c);
  wf_revision : is_u64 (stateRevision c);
  wf_wake : forall ch, refreshWake c = Some ch -> (ch < wakeNext c)%nat /\ ch ∉ wakeClosed c;
  wf_closed : forall ch, ch ∈ wakeClosed c -> (ch < wakeNext c)%nat
}.

Lemma newClientState_wf cfg : state_wf (newClientState cfg).
Proof. by split. Qed.

Lemma signalRefreshLoopLocked_wf c : state_wf c -> state_wf (signalRefreshLoopLocked c).
Proof.
  intros [? ? ? ? Hw Hc]. split; cbn; try done.
  - intros ch [= <-]. split; [lia|]. intros Hin.
    destruct (refreshWake c) as [ch|].
    + apply elem_of_union in Hin. destruct Hin as [Hin|Hin].
      * apply elem_of_singleton in Hin. destruct (Hw _ eq_refl). lia.
      * apply Hc in Hin. lia.
    + apply Hc in Hin. lia.
  - intros ch Hin. destruct (refreshWake c) as [ch'|].
    + apply elem_of_union in Hin. destruct Hin as [Hin|Hin].
      * apply elem_of_singleton in Hin. subst. destruct (Hw _ eq_refl). lia.
      * apply Hc in Hin. lia.
    + apply Hc in Hin. lia.
Qed.

Lemma refreshWakeLocked_wf c : state_wf c -> state_wf (refreshWakeLocked c).2.
Proof.
  intros [? ? ? ? Hw Hc]. unfold refreshWakeLocked.
  destruct (refreshWake c) eqn:E; cbn; [by split; rewrite ?E|]. split; cbn; try done.
  - intros ch [= <-]. split; [lia|]. intros Hin. apply Hc in Hin. lia.
  - intros ch Hin. apply Hc in Hin. lia.
Qed.

Lemma advanceStateLocked_wf ts c : state_wf c -> state_wf (advanceStateLocked ts c).
Proof.
  intros [? ? ? ? Hw Hc]. apply signalRefreshLoopLocked_wf. split; cbn; try done.
  apply wrap_u64_range.
Qed.

Lemma setStateLocked_wf ts c : state_wf c -> state_wf (setStateLocked ts c).
Proof. intros H. unfold setStateLocked. case_bool_decide; [done|by apply advanceStateLocked_wf]. Qed.

#[export] Hint Resolve newClientState_wf signalRefreshLoopLocked_wf refreshWakeLocked_wf
  advanceStateLocked_wf setStateLocked_wf : go.

(** What the helpers leave alone. *)
Lemma signal_state c : state (signalRefreshLoopLocked c) = state c.
Proof. reflexivity. Qed.
Lemma signal_revision c : stateRevision (signalRefreshLoopLocked c) = stateRevision c.
Proof. reflexivity. Qed.
Lemma signal_schedule c : refreshSchedule (signalRefreshLoopLocked c) = refreshSchedule c.
Proof. reflexivity. Qed.
Lemma signal_retry c : persistenceRetry (signalRefreshLoopLocked c) = persistenceRetry c.
Proof. reflexivity. Qed.
Lemma wake_state c : state (refreshWakeLocked c).2 = state c.
Proof. unfold refreshWakeLocked. by destruct (refreshWake c). Qed.
Lemma wake_revision c : stateRevision (refreshWakeLocked c).2 = stateRevision c.
Proof. unfold refreshWakeLocked. by destruct (refreshWake c). Qed.
Lemma wake_schedule c : refreshSchedule (refreshWakeLocked c).2 = refreshSchedule c.
Proof. unfold refreshWakeLocked. by destruct (refreshWake c). Qed.
Lemma wake_retry c : persistenceRetry (refreshWakeLocked c).2 = persistenceRetry c.
Proof. unfold refreshWakeLocked. by destruct (refreshWake c). Qed.
Lemma wake_config c : config (refreshWakeLocked c).2 = config c.
Proof. unfold refreshWakeLocked. by destruct (refreshWake c). Qed.
Lemma wake_blocked c : restoreBlocked (refreshWakeLocked c).2 = restoreBlocked c.
Proof. unfold refreshWakeLocked. by destruct (refreshWake c). Qed.

#[export] Hint Rewrite wake_state wake_revision wake_schedule wake_retry wake_config
  wake_blocked : gorw.

(** Every channel handed out before a signal is closed after it. *)
Lemma signal_closes c ch c' :
  state_wf c -> refreshWakeLocked c = (ch, c') -> ch ∈ wakeClosed (signalRefreshLoopLocked c').
Proof.
  unfold refreshWakeLocked. intros _. destruct (refreshWake c) eqn:E; intros [= <- <-]; cbn; rewrite ?E; set_solver.
Qed.

(** The two token queries agree: a token is handed out without a refresh
    exactly when the status says the session is usable. *)
Lemma usable_iff_CanUseApp now c :
  AccessToken (state c) <> "" ->
  usableAccessToken now c <> "" <-> CanUseApp (AuthStatus now c) = true.
Proof.
  intros Hne. unfold usableAccessToken, AuthStatus, inGrace.
  destruct (IsZero (state c)); [by split|].
  destruct (refreshIntegrityBlockedLocked c); [by split|]. cbn [orb].
  destruct (tokenValid now c); cbn [negb andb]; [by split|].
  destruct (0 <? GracePeriod (config c)); cbn [andb]; [|by split].
  destruct (negb (IsZeroTime (LastAuthAt (state c)))); cbn [andb]; [|by split].
  destruct (Before now _); by split.
Qed.
