(* ===== verification/Schedule.v ===== *)
(** The background refresh scheduler of [pkceflow.go], as the critical sections
    it runs under [Client.mu]: choosing the next action, finishing an attempt,
    and the blocking of a token generation. *)
From S2P Require Import Prelude GoTime Errors Tokens Config ClientState.

Definition minRefreshInterval : Z := 10 * Second.

(** ** Stage times *)

(** [for range stage { remaining /= 2; if remaining <= 0 {...} }]. *)
Fixpoint halve (fuel : nat) (stage remaining : Z) : option Z :=
  if stage <=? 0 then Some remaining
  else
    let remaining := Z.quot remaining 2 in
    if remaining <=? 0 then None
    else match fuel with
         | O => None
         | S fuel => halve fuel (stage - 1) remaining
         end.

(** A Duration is below 2^63, so 63 halvings reach zero. *)
Definition halve_fuel : nat := 63.

(** [refreshStageTime]: the absolute threshold of a one-based stage. *)
Definition refreshStageTime (ts : TokenState) (stage : Z) : Time * bool :=
  if (stage =? 0) || IsZeroTime (ExpiresAt ts) || IsZeroTime (LastAuthAt ts)
  then (zeroTime, false)
  else
    let lifetime := SubTime (ExpiresAt ts) (LastAuthAt ts) in
    if lifetime <=? 0 then (zeroTime, false)
    else match halve halve_fuel stage lifetime with
         | None => (zeroTime, false)
         | Some remaining =>
             let due := AddDur (ExpiresAt ts) (- remaining) in
             (due, Before due (ExpiresAt ts))
         end.

(** ** Actions *)

Inductive refreshLoopAction :=
| refreshLoopWait (due : Time) (wake : nat)
| refreshLoopAttempt (revision : Z) (st : TokenState) (stage claimID : Z)
| refreshLoopEmitSessionExpired (revision : Z).

Inductive refreshLoopAttemptResult :=
| refreshLoopAttemptSucceeded
| refreshLoopAttemptTemporary
| refreshLoopAttemptPermanent
| refreshLoopAttemptIntegrity
| refreshLoopAttemptCanceledBeforeStart
| refreshLoopAttemptCanceledAfterStart
| refreshLoopAttemptExpiredBeforeStart.

Definition activeSchedule (revision : Z) : refreshLoopSchedule :=
  zeroSchedule <| sValid := true |> <| sRevision := revision |> <| nextStage := 1 |>
    <| disposition := refreshLoopActive |>.

(** [refreshScheduleLocked]: make the schedule belong to [revision]. *)
Definition refreshScheduleLocked (revision : Z) (c : ClientState) : ClientState :=
  if negb (sValid (refreshSchedule c)) || negb (sRevision (refreshSchedule c) =? revision)
  then c <| refreshSchedule := activeSchedule revision |> else c.

(** Claim numbers skip zero when the counter wraps. *)
Definition nextClaim (seq : Z) : Z :=
  let seq := wrap_u64 (seq + 1) in
  if seq =? 0 then wrap_u64 (seq + 1) else seq.

Definition setSchedule (f : refreshLoopSchedule -> refreshLoopSchedule) (c : ClientState) : ClientState :=
  c <| refreshSchedule := f (refreshSchedule c) |>.

(** Park the generation as expired and hand out a fresh wake channel. *)
Definition parkExpired (c : ClientState) : refreshLoopAction * ClientState :=
  let c := signalRefreshLoopLocked
             (setSchedule (fun s => s <| disposition := refreshLoopBlockedExpired |>) c) in
  let '(wake, c) := refreshWakeLocked c in
  (refreshLoopWait zeroTime wake, c).

(** [nextRefreshLoopAction], at the clock reading [now]. *)
Definition nextRefreshLoopAction (now : Time) (c0 : ClientState)
    : refreshLoopAction * ClientState :=
  let '(wake, c1) := refreshWakeLocked c0 in
  let c := refreshScheduleLocked (stateRevision c1) c1 in
  let s := refreshSchedule c in
  let ts := state c in
  let wait := (refreshLoopWait zeroTime wake, c) in
  if negb (sClaimID s =? 0) then wait
  else match disposition s with
  | refreshLoopBlockedExpired => wait
  | refreshLoopBlockedPermanent | refreshLoopBlockedIntegrity =>
      if eventEmitted s then wait
      else if Before now (eventAt s) then (refreshLoopWait (eventAt s) wake, c)
      else (refreshLoopEmitSessionExpired (stateRevision c),
            signalRefreshLoopLocked (setSchedule (fun s => s <| eventEmitted := true |>) c))
  | refreshLoopActive =>
      let ready := match oauth2 c, verifier c with Some _, Some _ => true | _, _ => false end in
      if IsZero ts || strEmpty (RefreshToken ts) || negb ready then wait
      else if IsZeroTime (ExpiresAt ts) then wait
      else if negb (Before now (ExpiresAt ts)) then parkExpired c
      else if IsZeroTime (LastAuthAt ts) || negb (Before (LastAuthAt ts) (ExpiresAt ts)) then wait
      else
        let '(due0, ok) := refreshStageTime ts (nextStage s) in
        let due := if After (retryNotBefore s) due0 then retryNotBefore s else due0 in
        if negb ok || negb (Before due (ExpiresAt ts)) then parkExpired c
        else if Before now due then (refreshLoopWait due wake, c)
        else
          let claim := nextClaim (refreshClaimSeq c) in
          (refreshLoopAttempt (stateRevision c) ts (nextStage s) claim,
           signalRefreshLoopLocked
             (setSchedule (fun s => s <| sClaimID := claim |>) (c <| refreshClaimSeq := claim |>)))
  end.

(** ** Finishing an attempt *)

(** [advanceRefreshStageLocked]. *)
Definition advanceRefreshStageLocked (completedStage : Z) (completedAt : Time)
    (s : refreshLoopSchedule) : refreshLoopSchedule :=
  let next := wrap_u64 (completedStage + 1) in
  if next <=? completedStage then s <| disposition := refreshLoopBlockedExpired |>
  else s <| nextStage := next |> <| retryNotBefore := AddDur completedAt minRefreshInterval |>.

(** [sessionExpiredEventTime]. *)
Definition sessionExpiredEventTime (cfg : Config) (ts : TokenState) (now : Time) : Time :=
  if (0 <? GracePeriod cfg) && negb (IsZeroTime (LastAuthAt ts)) then
    let graceEnd := AddDur (LastAuthAt ts) (GracePeriod cfg) in
    if Before now graceEnd then graceEnd else now
  else now.

(** What each result does to the schedule whose claim it ends. *)
Definition applyAttemptResult (cfg : Config) (ts : TokenState) (stage : Z)
    (result : refreshLoopAttemptResult) (completedAt : Time)
    (s : refreshLoopSchedule) : refreshLoopSchedule :=
  match result with
  | refreshLoopAttemptTemporary | refreshLoopAttemptCanceledAfterStart
  | refreshLoopAttemptSucceeded => advanceRefreshStageLocked stage completedAt s
  | refreshLoopAttemptPermanent =>
      s <| disposition := refreshLoopBlockedPermanent |>
        <| eventAt := sessionExpiredEventTime cfg ts completedAt |>
  | refreshLoopAttemptIntegrity =>
      s <| disposition := refreshLoopBlockedIntegrity |> <| eventAt := completedAt |>
  | refreshLoopAttemptCanceledBeforeStart => s
  | refreshLoopAttemptExpiredBeforeStart => s <| disposition := refreshLoopBlockedExpired |>
  end.

(** [finishRefreshLoopAttempt] for the attempt action with these fields. *)
Definition finishRefreshLoopAttempt (revision : Z) (ts : TokenState) (stage claimID : Z)
    (result : refreshLoopAttemptResult) (completedAt : Time) (c : ClientState) : ClientState :=
  let s := refreshSchedule c in
  if negb (sValid s) || negb (sRevision s =? revision) || negb (stateRevision c =? revision) ||
     negb (sClaimID s =? claimID)
  then c
  else signalRefreshLoopLocked
         (setSchedule (fun s => applyAttemptResult (config c) ts stage result completedAt
                                  (s <| sClaimID := 0 |>)) c).

(** ** Blocking a generation *)

(** [markRefreshInconclusiveLocked]. *)
Definition markRefreshInconclusiveLocked (revision : Z) (c : ClientState) : ClientState :=
  if negb (stateRevision c =? revision) then c
  else setSchedule (fun s => s <| inconclusive := true |>) (refreshScheduleLocked revision c).

(** [refreshInconclusiveLocked]. *)
Definition refreshInconclusiveLocked (revision : Z) (c : ClientState) : bool :=
  sValid (refreshSchedule c) && (sRevision (refreshSchedule c) =? revision) &&
  inconclusive (refreshSchedule c).

(** [blockRefreshIntegrityLocked], the body of [blockRefreshIntegrity]. *)
Definition blockRefreshIntegrityLocked (revision : Z) (now : Time) (c : ClientState) : ClientState :=
  if negb (stateRevision c =? revision) then c
  else
    let c := refreshScheduleLocked revision c in
    signalRefreshLoopLocked
      (setSchedule
         (fun s =>
            (if negb (bool_decide (disposition s = refreshLoopBlockedIntegrity)) ||
                IsZeroTime (eventAt s) || Before now (eventAt s)
             then s <| eventAt := now |> else s)
            <| disposition := refreshLoopBlockedIntegrity |>) c).

(** [blockRefreshPermanentLocked], the body of [blockRefreshPermanent]. *)
Definition blockRefreshPermanentLocked (revision : Z) (ts : TokenState) (now : Time)
    (c : ClientState) : ClientState :=
  if negb (stateRevision c =? revision) then c
  else
    let c := refreshScheduleLocked revision c in
    if bool_decide (disposition (refreshSchedule c) = refreshLoopBlockedIntegrity) then c
    else
      let at_ := sessionExpiredEventTime (config c) ts now in
      signalRefreshLoopLocked
        (setSchedule
           (fun s =>
              (if negb (bool_decide (disposition s = refreshLoopBlockedPermanent)) ||
                  IsZeroTime (eventAt s) || Before at_ (eventAt s)
               then s <| eventAt := at_ |> else s)
              <| disposition := refreshLoopBlockedPermanent |>) c).

(** ** Frame: scheduling never touches the token state *)

Record same_tokens (c c' : ClientState) : Prop := {
  st_state : state c' = state c;
  st_revision : stateRevision c' = stateRevision c;
  st_retry : persistenceRetry c' = persistenceRetry c;
  st_blocked : restoreBlocked c' = restoreBlocked c;
  st_config : config c' = config c;
  st_provider : provider c' = provider c;
  st_oauth2 : oauth2 c' = oauth2 c;
  st_verifier : verifier c' = verifier c
}.

#[export] Instance same_tokens_refl : Reflexive same_tokens.
Proof. by split. Qed.
#[export] Instance same_tokens_trans : Transitive same_tokens.
Proof. intros a b c [] []. split; congruence. Qed.

Lemma wake_same c : same_tokens c (refreshWakeLocked c).2.
Proof. unfold refreshWakeLocked. destruct (refreshWake c); by split. Qed.
Lemma signal_same c : same_tokens c (signalRefreshLoopLocked c).
Proof. by split. Qed.
Lemma setSchedule_same f c : same_tokens c (setSchedule f c).
Proof. by split. Qed.
Lemma refreshScheduleLocked_same r c : same_tokens c (refreshScheduleLocked r c).
Proof. unfold refreshScheduleLocked. destruct (_ || _); by split. Qed.

Lemma parkExpired_same c : same_tokens c (parkExpired c).2.
Proof. by split. Qed.

#[export] Hint Resolve wake_same signal_same setSchedule_same refreshScheduleLocked_same
  parkExpired_same : go.

Lemma nextRefreshLoopAction_same now c : same_tokens c (nextRefreshLoopAction now c).2.
Proof.
  unfold nextRefreshLoopAction. destruct (refreshWakeLocked c) as [wake c1] eqn:Ew.
  assert (S1 : same_tokens c (refreshScheduleLocked (stateRevision c1) c1)).
  { transitivity c1; [|auto with go]. pose proof (wake_same c) as Hw. by rewrite Ew in Hw. }
  revert S1. generalize (refreshScheduleLocked (stateRevision c1) c1). intros c2 S1.
  repeat case_goal; cbn [snd]; try exact S1; (transitivity c2; [exact S1|]); by split.
Qed.

Lemma finishRefreshLoopAttempt_same r ts st cl res at_ c :
  same_tokens c (finishRefreshLoopAttempt r ts st cl res at_ c).
Proof. unfold finishRefreshLoopAttempt. destruct (_ || _); by split. Qed.

Lemma markRefreshInconclusiveLocked_same r c : same_tokens c (markRefreshInconclusiveLocked r c).
Proof.
  unfold markRefreshInconclusiveLocked, refreshScheduleLocked.
  repeat case_goal; by split.
Qed.

Lemma blockRefreshIntegrityLocked_same r now c : same_tokens c (blockRefreshIntegrityLocked r now c).
Proof.
  unfold blockRefreshIntegrityLocked, refreshScheduleLocked.
  repeat case_goal; by split.
Qed.

Lemma blockRefreshPermanentLocked_same r ts now c :
  same_tokens c (blockRefreshPermanentLocked r ts now c).
Proof.
  unfold blockRefreshPermanentLocked, refreshScheduleLocked.
  repeat case_goal; by split.
Qed.

#[export] Hint Resolve nextRefreshLoopAction_same finishRefreshLoopAttempt_same
  markRefreshInconclusiveLocked_same blockRefreshIntegrityLocked_same
  blockRefreshPermanentLocked_same : go.

(** ** Well-formedness is preserved *)

Lemma setSchedule_wf f c :
  (forall s, sValid (f s) = sValid s /\ sRevision (f s) = sRevision s /\
             (0 <= nextStage s -> 0 <= nextStage (f s))) ->
  state_wf c -> state_wf (setSchedule f c).
Proof.
  intros Hf [Hs ? ? ? ? ?]. destruct (Hf (refreshSchedule c)) as (E1 & E2 & E3).
  split; cbn; try done; [|auto]. rewrite E1, E2. done.
Qed.

Lemma refreshScheduleLocked_wf c : state_wf c -> state_wf (refreshScheduleLocked (stateRevision c) c).
Proof. intros []. unfold refreshScheduleLocked. destruct (_ || _); by split; cbn. Qed.

Lemma refreshScheduleLocked_current r c :
  stateRevision c = r -> refreshScheduleLocked r c = refreshScheduleLocked (stateRevision c) c.
Proof. by intros ->. Qed.

(** After [refreshScheduleLocked] the schedule is valid and current. *)
Lemma refreshScheduleLocked_valid r c :
  sValid (refreshSchedule (refreshScheduleLocked r c)) = true /\
  sRevision (refreshSchedule (refreshScheduleLocked r c)) = r.
Proof.
  unfold refreshScheduleLocked. destruct (negb _ || _) eqn:E; cbn; [done|].
  apply orb_false_elim in E. destruct E as [E1 E2].
  apply negb_false_iff in E1. apply negb_false_iff, Z.eqb_eq in E2. done.
Qed.

Ltac sched_wf :=
  repeat first
    [ done
    | apply signalRefreshLoopLocked_wf
    | apply setSchedule_wf; [cbn; intros []; cbn; repeat case_match; by repeat split|]
    | apply refreshWakeLocked_wf ].

Lemma parkExpired_wf c : state_wf c -> state_wf (parkExpired c).2.
Proof. intros H. unfold parkExpired. cbn [snd refreshWakeLocked]. cbn. sched_wf. Qed.

Lemma nextRefreshLoopAction_wf now c : state_wf c -> state_wf (nextRefreshLoopAction now c).2.
Proof.
  intros H. unfold nextRefreshLoopAction. destruct (refreshWakeLocked c) as [wake c1] eqn:Ew.
  assert (H1 : state_wf (refreshScheduleLocked (stateRevision c1) c1)).
  { apply refreshScheduleLocked_wf. pose proof (refreshWakeLocked_wf _ H) as Hw. by rewrite Ew in Hw. }
  revert H1. generalize (refreshScheduleLocked (stateRevision c1) c1). intros c2 H1.
  repeat case_goal; cbn [snd]; try exact H1; try (by apply parkExpired_wf); sched_wf.
  all: destruct H1; by split.
Qed.

Lemma applyAttemptResult_key cfg ts st res at_ s :
  sValid (applyAttemptResult cfg ts st res at_ s) = sValid s /\
  sRevision (applyAttemptResult cfg ts st res at_ s) = sRevision s /\
  (0 <= nextStage s -> 0 <= nextStage (applyAttemptResult cfg ts st res at_ s)).
Proof.
  pose proof (wrap_u64_range (st + 1)) as Hw. unfold is_u64 in Hw.
  destruct res; cbn; try done; unfold advanceRefreshStageLocked; case_match; cbn; repeat split; lia.
Qed.

Lemma finishRefreshLoopAttempt_wf r ts st cl res at_ c :
  state_wf c -> state_wf (finishRefreshLoopAttempt r ts st cl res at_ c).
Proof.
  intros H. unfold finishRefreshLoopAttempt. destruct (_ || _); [done|].
  apply signalRefreshLoopLocked_wf, setSchedule_wf; [|done].
  intros s. exact (applyAttemptResult_key (config c) ts st res at_ (s <| sClaimID := 0 |>)).
Qed.

Lemma markRefreshInconclusiveLocked_wf r c :
  state_wf c -> state_wf (markRefreshInconclusiveLocked r c).
Proof.
  intros H. unfold markRefreshInconclusiveLocked. destruct (negb _) eqn:E; [done|].
  bool_to_prop. subst. sched_wf. by apply refreshScheduleLocked_wf.
Qed.

Lemma blockRefreshIntegrityLocked_wf r now c :
  state_wf c -> state_wf (blockRefreshIntegrityLocked r now c).
Proof.
  intros H. unfold blockRefreshIntegrityLocked. destruct (negb _) eqn:E; [done|].
  bool_to_prop. subst. sched_wf. by apply refreshScheduleLocked_wf.
Qed.

Lemma blockRefreshPermanentLocked_wf r ts now c :
  state_wf c -> state_wf (blockRefreshPermanentLocked r ts now c).
Proof.
  intros H. unfold blockRefreshPermanentLocked. destruct (negb _) eqn:E; [done|].
  bool_to_prop. subst. case_bool_decide; [by apply refreshScheduleLocked_wf|].
  sched_wf. by apply refreshScheduleLocked_wf.
Qed.

#[export] Hint Resolve nextRefreshLoopAction_wf finishRefreshLoopAttempt_wf
  markRefreshInconclusiveLocked_wf blockRefreshIntegrityLocked_wf
  blockRefreshPermanentLocked_wf : go.
