(* ===== verification/ScheduleProps.v ===== *)
(** What the background refresh scheduler guarantees: stage times, when an
    attempt may start, its exclusivity and spacing, how many attempts a token
    generation can see, and when and how often it reports the session expired. *)
From S2P Require Import Prelude GoTime Errors Tokens Config ClientState Schedule.

(** ** Stage times *)

Lemma halve_spec fuel : forall stage r,
  0 <= stage -> 0 < r < 2 ^ (Z.of_nat fuel) ->
  halve fuel stage r = if 2 ^ stage <=? r then Some (r / 2 ^ stage) else None.
Proof.
  induction fuel as [|f IH]; intros stage r Hs Hr; [cbn in Hr; lia|].
  rewrite Nat2Z.inj_succ, Z.pow_succ_r in Hr by lia.
  cbn [halve]. destruct (stage <=? 0) eqn:E; bool_to_prop.
  { replace stage with 0 by lia. change (2 ^ 0) with 1. rewrite Z.div_1_r.
    destruct (1 <=? r) eqn:E1; bool_to_prop; [done|lia]. }
  rewrite Z.quot_div_nonneg by lia.
  assert (Hp : 2 ^ stage = 2 * 2 ^ (stage - 1)).
  { rewrite <- Z.pow_succ_r by lia. f_equal. lia. }
  rewrite Hp. set (p := 2 ^ (stage - 1)).
  assert (0 < p) by (apply Z.pow_pos_nonneg; lia).
  rewrite <- Z.div_div by lia.
  pose proof (Z.div_mod r 2 ltac:(lia)). pose proof (Z.mod_pos_bound r 2 ltac:(lia)).
  destruct (r / 2 <=? 0) eqn:E2; bool_to_prop.
  - destruct (2 * p <=? r) eqn:E3; bool_to_prop; [lia|done].
  - rewrite IH by lia. fold p.
    destruct (p <=? r / 2) eqn:E3, (2 * p <=? r) eqn:E4; bool_to_prop; done || lia.
Qed.

(** A token generation with usable lifetime metadata. *)
Definition lifetime (ts : TokenState) : Z := inst (ExpiresAt ts) - inst (LastAuthAt ts).
Definition schedulable (ts : TokenState) : Prop :=
  IsZeroTime (ExpiresAt ts) = false /\ IsZeroTime (LastAuthAt ts) = false /\
  0 < lifetime ts <= max_i64.

Lemma lifetime_SubTime ts :
  0 < lifetime ts <= max_i64 -> SubTime (ExpiresAt ts) (LastAuthAt ts) = lifetime ts.
Proof. intros H. apply SubTime_exact. unfold lifetime, min_i64, max_i64 in *. lia. Qed.

(** Stage [k] is due exactly when [lifetime / 2^k] nanoseconds of the
    original lifetime remain (half of it for stage 1, a quarter for stage 2),
    as long as that is at least one nanosecond; later stages do not exist.  The
    loop's fuel therefore always suffices. *)
Theorem refreshStageTime_spec ts stage :
  schedulable ts -> 0 < stage ->
  refreshStageTime ts stage =
    if 2 ^ stage <=? lifetime ts
    then (AddDur (ExpiresAt ts) (- (lifetime ts / 2 ^ stage)), true)
    else (zeroTime, false).
Proof.
  intros (H1 & H2 & H3) Hs. unfold refreshStageTime. rewrite H1, H2, lifetime_SubTime by done.
  destruct (stage =? 0) eqn:E; bool_to_prop; [lia|]. cbn [orb].
  destruct (lifetime ts <=? 0) eqn:E1; bool_to_prop; [lia|].
  rewrite halve_spec; [|lia|unfold halve_fuel, max_i64 in *; cbn; lia].
  destruct (2 ^ stage <=? lifetime ts) eqn:E2; bool_to_prop; [|done]. f_equal.
  apply Before_spec. rewrite AddDur_inst.
  assert (0 < lifetime ts / 2 ^ stage); [|lia].
  apply Z.div_str_pos. split; [apply Z.pow_pos_nonneg; lia|lia].
Qed.

Definition exampleTokens : TokenState :=
  mkTokenState "at" "rt" "id" (mkTime (1000 * Second) 0) (mkTime (700 * Second) 0).

Lemma refreshStageTime_spec_witness :
  refreshStageTime exampleTokens 2 = (mkTime (925 * Second) 0, true).
Proof.
  rewrite (refreshStageTime_spec exampleTokens 2); [reflexivity| |lia].
  repeat split; vm_compute; congruence || reflexivity.
Defined.

(** ** The schedule the next action works with *)

Definition currentSchedule (c : ClientState) : refreshLoopSchedule :=
  refreshSchedule (refreshScheduleLocked (stateRevision c) c).

Lemma currentSchedule_valid c :
  sValid (refreshSchedule c) = true -> sRevision (refreshSchedule c) = stateRevision c ->
  currentSchedule c = refreshSchedule c.
Proof.
  intros Hv Hr. unfold currentSchedule, refreshScheduleLocked. by rewrite Hv, Hr, Z.eqb_refl.
Qed.

Lemma currentSchedule_of c s :
  refreshSchedule c = s -> sValid s = true -> sRevision s = stateRevision c ->
  currentSchedule c = s.
Proof. intros <- ? ?. by apply currentSchedule_valid. Qed.

Lemma currentSchedule_key c :
  sValid (currentSchedule c) = true /\ sRevision (currentSchedule c) = stateRevision c.
Proof. apply refreshScheduleLocked_valid. Qed.

Definition discoveryReady (c : ClientState) : bool :=
  match oauth2 c, verifier c with Some _, Some _ => true | _, _ => false end.

Lemma currentSchedule_wake c : currentSchedule (refreshWakeLocked c).2 = currentSchedule c.
Proof.
  unfold currentSchedule, refreshScheduleLocked, refreshWakeLocked.
  destruct (refreshWake c); cbn; [done|]. by destruct (_ || _).
Qed.

(** The threshold of the next attempt: the stage time, or the retry spacing
    when that is later. *)
Definition nextDue (ts : TokenState) (s : refreshLoopSchedule) : Time :=
  let due := (refreshStageTime ts (nextStage s)).1 in
  if After (retryNotBefore s) due then retryNotBefore s else due.

(** Everything the decision reads says that an attempt is due. *)
Record attempt_due (now : Time) (c : ClientState) : Prop := {
  ad_unclaimed : sClaimID (currentSchedule c) = 0;
  ad_active : disposition (currentSchedule c) = refreshLoopActive;
  ad_tokens : IsZero (state c) = false;
  ad_refresh : RefreshToken (state c) <> "";
  ad_ready : discoveryReady c = true;
  ad_expires : IsZeroTime (ExpiresAt (state c)) = false;
  ad_last : IsZeroTime (LastAuthAt (state c)) = false;
  ad_order : Before (LastAuthAt (state c)) (ExpiresAt (state c)) = true;
  ad_stage : (refreshStageTime (state c) (nextStage (currentSchedule c))).2 = true;
  ad_now : Before now (ExpiresAt (state c)) = true;
  ad_before_expiry : Before (nextDue (state c) (currentSchedule c)) (ExpiresAt (state c)) = true;
  ad_due : Before now (nextDue (state c) (currentSchedule c)) = false
}.

(** One decision, with the wake channel and the schedule normalisation named. *)
Lemma next_unfold now c :
  exists wake c2,
    same_tokens c c2 /\ refreshSchedule c2 = currentSchedule c /\
    oauth2 c2 = oauth2 c /\ verifier c2 = verifier c /\ refreshClaimSeq c2 = refreshClaimSeq c /\
    nextRefreshLoopAction now c =
      (let s := currentSchedule c in let ts := state c in
       let wait := (refreshLoopWait zeroTime wake, c2) in
       if negb (sClaimID s =? 0) then wait
       else match disposition s with
       | refreshLoopBlockedExpired => wait
       | refreshLoopBlockedPermanent | refreshLoopBlockedIntegrity =>
           if eventEmitted s then wait
           else if Before now (eventAt s) then (refreshLoopWait (eventAt s) wake, c2)
           else (refreshLoopEmitSessionExpired (stateRevision c),
                 signalRefreshLoopLocked (setSchedule (fun s => s <| eventEmitted := true |>) c2))
       | refreshLoopActive =>
           if IsZero ts || strEmpty (RefreshToken ts) || negb (discoveryReady c) then wait
           else if IsZeroTime (ExpiresAt ts) then wait
           else if negb (Before now (ExpiresAt ts)) then parkExpired c2
           else if IsZeroTime (LastAuthAt ts) || negb (Before (LastAuthAt ts) (ExpiresAt ts)) then wait
           else if negb (refreshStageTime ts (nextStage s)).2 ||
                   negb (Before (nextDue ts s) (ExpiresAt ts)) then parkExpired c2
           else if Before now (nextDue ts s) then (refreshLoopWait (nextDue ts s) wake, c2)
           else
             let claim := nextClaim (refreshClaimSeq c) in
             (refreshLoopAttempt (stateRevision c) ts (nextStage s) claim,
              signalRefreshLoopLocked
                (setSchedule (fun s => s <| sClaimID := claim |>) (c2 <| refreshClaimSeq := claim |>)))
       end).
Proof.
  destruct (refreshWakeLocked c) as [wake c1] eqn:Ew.
  pose proof (wake_same c) as Hw. rewrite Ew in Hw. cbn in Hw.
  assert (Hc : currentSchedule c = refreshSchedule (refreshScheduleLocked (stateRevision c1) c1)).
  { rewrite <- (currentSchedule_wake c), Ew. done. }
  assert (Ho : oauth2 c1 = oauth2 c /\ verifier c1 = verifier c /\ refreshClaimSeq c1 = refreshClaimSeq c).
  { revert Ew. unfold refreshWakeLocked. by destruct (refreshWake c); intros [= <- <-]. }
  destruct Ho as (Ho1 & Ho2 & Ho3).
  exists wake, (refreshScheduleLocked (stateRevision c1) c1).
  assert (Hs : same_tokens c1 (refreshScheduleLocked (stateRevision c1) c1)) by auto with go.
  split; [by transitivity c1|]. split; [done|].
  assert (Hx : oauth2 (refreshScheduleLocked (stateRevision c1) c1) = oauth2 c /\
               verifier (refreshScheduleLocked (stateRevision c1) c1) = verifier c /\
               refreshClaimSeq (refreshScheduleLocked (stateRevision c1) c1) = refreshClaimSeq c).
  { unfold refreshScheduleLocked. by destruct (_ || _). }
  destruct Hx as (Hx1 & Hx2 & Hx3). split; [done|]. split; [done|]. split; [done|].
  unfold nextRefreshLoopAction, discoveryReady. rewrite Ew, <- Hc, Hx1, Hx2, Hx3.
  destruct Hw as [Hw1 Hw2 _ _ _ _ _ _], Hs as [Hs1 Hs2 _ _ _ _ _ _]. rewrite Hs1, Hs2, Hw1, Hw2.
  destruct (disposition (currentSchedule c)); try reflexivity.
  unfold nextDue. destruct (refreshStageTime _ _) as [due ok]. cbn [fst snd]. done.
Qed.

Ltac next_cases now c :=
  let wake := fresh "wake" in let c2 := fresh "c2" in
  let Heq := fresh "Heq" in
  destruct (next_unfold now c) as (wake & c2 & Hsame & Hsched & Ho & Hv & Hseq & Heq).

(** Inversion of the three outcomes. *)
Lemma next_attempt_inv now c rev ts stage claim c' :
  nextRefreshLoopAction now c = (refreshLoopAttempt rev ts stage claim, c') ->
  attempt_due now c /\ rev = stateRevision c /\ ts = state c /\
  stage = nextStage (currentSchedule c) /\ claim = nextClaim (refreshClaimSeq c) /\
  same_tokens c c' /\ refreshClaimSeq c' = claim /\
  refreshSchedule c' = (currentSchedule c) <| sClaimID := claim |>.
Proof.
  next_cases now c. rewrite Heq. clear Heq. cbv zeta.
  destruct (negb (sClaimID _ =? 0)) eqn:E0; [done|].
  destruct (disposition _) eqn:Ed; [|done|repeat case_match; done|repeat case_match; done].
  destruct (_ || _ || _) eqn:E1; [done|]. destruct (IsZeroTime _) eqn:E2; [done|].
  destruct (negb (Before _ _)) eqn:E3; [done|]. destruct (_ || negb (Before _ _)) eqn:E4; [done|].
  destruct (negb _ || _) eqn:E5; [done|]. destruct (Before now (nextDue _ _)) eqn:E6; [done|].
  intros [= <- <- <- <- <-]. bool_to_prop.
  split; [split; try done; by apply strEmpty_false|].
  repeat (split; [done|]). split.
  { destruct Hsame. by split. }
  split; [done|]. cbn. by rewrite Hsched.
Qed.

Lemma next_emit_inv now c rev c' :
  nextRefreshLoopAction now c = (refreshLoopEmitSessionExpired rev, c') ->
  rev = stateRevision c /\ sClaimID (currentSchedule c) = 0 /\
  (disposition (currentSchedule c) = refreshLoopBlockedPermanent \/
   disposition (currentSchedule c) = refreshLoopBlockedIntegrity) /\
  eventEmitted (currentSchedule c) = false /\ Before now (eventAt (currentSchedule c)) = false /\
  same_tokens c c' /\ refreshSchedule c' = (currentSchedule c) <| eventEmitted := true |>.
Proof.
  next_cases now c. rewrite Heq. clear Heq. cbv zeta.
  destruct (negb (sClaimID _ =? 0)) eqn:E0; [done|].
  destruct (disposition _) eqn:Ed; [repeat case_match; done|done| |];
    (destruct (eventEmitted _) eqn:E1; [done|]; destruct (Before _ _) eqn:E2; [done|];
     intros [= <- <-]; bool_to_prop; split; [done|]; split; [done|]; split; [by auto|];
     split; [done|]; split; [done|]; split; [destruct Hsame; by split|];
     cbn; by rewrite Hsched).
Qed.

Lemma next_wait_inv now c due wake c' :
  nextRefreshLoopAction now c = (refreshLoopWait due wake, c') ->
  same_tokens c c' /\
  (refreshSchedule c' = currentSchedule c \/
   disposition (currentSchedule c) = refreshLoopActive /\ sClaimID (currentSchedule c) = 0 /\
   refreshSchedule c' = (currentSchedule c) <| disposition := refreshLoopBlockedExpired |>).
Proof.
  intros H. split.
  { pose proof (nextRefreshLoopAction_same now c) as Hs. by rewrite H in Hs. }
  revert H. next_cases now c. rewrite Heq. clear Heq. cbv zeta.
  destruct (negb (sClaimID _ =? 0)) eqn:E0; [intros [= <- <- <-]; by left|]. bool_to_prop.
  destruct (disposition _) eqn:Ed;
    repeat (case_goal; [intros [= <- <- <-]; cbn; rewrite ?Hsched; by auto|]);
    intros [= <- <- <-]; cbn; rewrite ?Hsched; by auto.
Qed.

(** ** When an attempt starts *)

(** The supervisor starts a refresh exactly when one is due: the generation
    is active and unclaimed, has a refresh token and sound lifetime metadata,
    discovery is complete, the clock has reached the stage threshold and the
    retry spacing, and the token has not expired. *)
Theorem attempt_iff_due now c :
  (exists rev ts stage claim c',
     nextRefreshLoopAction now c = (refreshLoopAttempt rev ts stage claim, c')) <->
  attempt_due now c.
Proof.
  split.
  - intros (rev & ts & stage & claim & c' & H). by apply next_attempt_inv in H as [? _].
  - intros []. next_cases now c. rewrite Heq. cbv zeta.
    assert (strEmpty (RefreshToken (state c)) = false) as Er by by apply strEmpty_false.
    rewrite ad_unclaimed0, ad_active0, ad_tokens0, Er, ad_ready0, ad_expires0, ad_last0,
      ad_order0, ad_stage0, ad_now0, ad_before_expiry0, ad_due0.
    cbn. by eauto 10.
Qed.

Lemma attempt_bounds now c rev ts stage claim c' :
  state_wf c -> lifetime (state c) <= max_i64 ->
  nextRefreshLoopAction now c = (refreshLoopAttempt rev ts stage claim, c') ->
  inst (ExpiresAt ts) - lifetime ts / 2 ^ stage <= inst now < inst (ExpiresAt ts) /\
  inst (retryNotBefore (currentSchedule c)) <= inst now /\
  1 <= stage <= Z.log2 (lifetime ts) /\ claim <> 0.
Proof.
  intros Hwf Hmax H. apply next_attempt_inv in H as ([] & -> & -> & -> & -> & _).
  assert (Hst : 0 <= nextStage (currentSchedule c)).
  { apply (wf_stage (refreshScheduleLocked (stateRevision c) c)). by apply refreshScheduleLocked_wf. }
  assert (Hl : 0 < lifetime (state c)).
  { unfold lifetime. time_to_Z. lia. }
  assert (Hs : 0 < nextStage (currentSchedule c)).
  { unfold refreshStageTime in ad_stage0. destruct (nextStage (currentSchedule c) =? 0) eqn:E;
      bool_to_prop; [done|lia]. }
  unfold nextDue in *.
  rewrite refreshStageTime_spec in * by done. destruct (2 ^ _ <=? _) eqn:E; [|done]. bool_to_prop.
  cbn [fst snd] in *. split; [|split; [|split; [split; [lia|]|]]].
  - destruct (After _ _) eqn:Ea; time_to_Z; lia.
  - destruct (After _ _) eqn:Ea; time_to_Z; lia.
  - apply Z.log2_le_pow2; lia.
  - unfold nextClaim. destruct (wrap_u64 (refreshClaimSeq c + 1) =? 0) eqn:E0; bool_to_prop; [|done].
    rewrite E0. done.
Qed.

(** C35: A background refresh never starts at or after the access token's
    expiry, nor before the stage's share of the lifetime has elapsed, nor
    within the spacing after a failed attempt; and it holds a nonzero claim. *)
Theorem attempt_window now c rev ts stage claim c' :
  state_wf c -> lifetime (state c) <= max_i64 ->
  nextRefreshLoopAction now c = (refreshLoopAttempt rev ts stage claim, c') ->
  inst (ExpiresAt ts) - lifetime ts / 2 ^ stage <= inst now < inst (ExpiresAt ts) /\
  inst (retryNotBefore (currentSchedule c)) <= inst now /\
  1 <= stage <= Z.log2 (lifetime ts) /\ claim <> 0.
Proof. apply attempt_bounds. Qed.

(** A client state with example tokens, ready for refresh. *)
Definition exampleConfig' : Config :=
  mkConfig "https://idp.example" "app" defaultScopes (24 * Hour) (2 * Minute) (30 * Second) ∅ ∅.
Definition exampleEndpoint : Endpoint :=
  mkEndpoint "https://idp.example/auth" "https://idp.example/token" AuthStyleInParams.
Definition exampleProvider : Provider := mkProvider 1 exampleEndpoint None.
Definition exampleClient : ClientState :=
  advanceStateLocked exampleTokens
    ((newClientState exampleConfig')
       <| provider := Some exampleProvider |>
       <| verifier := Some (mkVerifier exampleProvider "app") |>
       <| oauth2 := Some (mkOAuth2 "app" exampleEndpoint "http://127.0.0.1:1/cb" defaultScopes) |>).

Lemma exampleClient_wf : state_wf exampleClient.
Proof. apply advanceStateLocked_wf. by split. Qed.

Lemma attempt_window_witness :
  let r := nextRefreshLoopAction (mkTime (900 * Second) 0) exampleClient in
  exists rev ts stage claim,
    r.1 = refreshLoopAttempt rev ts stage claim /\
    inst (ExpiresAt ts) - lifetime ts / 2 ^ stage <= 900 * Second < inst (ExpiresAt ts).
Proof.
  eexists _, _, _, _. split; [vm_compute; reflexivity|].
  eapply (attempt_window (mkTime (900 * Second) 0) exampleClient);
    [exact exampleClient_wf | vm_compute; congruence | vm_compute; reflexivity].
Defined.

(** An attempt is exclusive: until it is finished, every further decision
    of the supervisor (of this runner or of a replacement) at any time only
    waits. *)
Theorem attempt_exclusive now c rev ts stage claim c' :
  state_wf c -> lifetime (state c) <= max_i64 ->
  nextRefreshLoopAction now c = (refreshLoopAttempt rev ts stage claim, c') ->
  forall now', exists wake c'',
    nextRefreshLoopAction now' c' = (refreshLoopWait zeroTime wake, c'') /\
    refreshSchedule c'' = refreshSchedule c'.
Proof.
  intros Hwf Hmax H now'.
  pose proof (attempt_bounds _ _ _ _ _ _ _ Hwf Hmax H) as (_ & _ & _ & Hclaim).
  apply next_attempt_inv in H as (_ & _ & _ & _ & _ & Hsame & _ & Hs).
  assert (Hcur : currentSchedule c' = refreshSchedule c').
  { destruct (currentSchedule_key c) as [Hv Hr].
    apply currentSchedule_valid; rewrite Hs; [done|]. by rewrite (st_revision _ _ Hsame). }
  destruct (next_unfold now' c') as (wake & c2 & _ & Hsched & _ & _ & _ & Heq).
  rewrite Heq. cbv zeta. rewrite Hcur, Hs. cbn.
  destruct (claim =? 0) eqn:E; bool_to_prop; [done|]. cbn.
  eexists _, _. split; [done|]. by rewrite Hsched, Hcur.
Qed.

Lemma attempt_exclusive_witness :
  let c' := (nextRefreshLoopAction (mkTime (900 * Second) 0) exampleClient).2 in
  exists wake c'',
    nextRefreshLoopAction (mkTime (901 * Second) 0) c' = (refreshLoopWait zeroTime wake, c'') /\
    refreshSchedule c'' = refreshSchedule c'.
Proof.
  eapply (attempt_exclusive (mkTime (900 * Second) 0) exampleClient);
    [exact exampleClient_wf | vm_compute; congruence | vm_compute; reflexivity].
Defined.

(** ** Runs of scheduler operations within one token generation *)

(** Whatever a loop runner, its replacement, or a caller of [AccessToken] can
    do to the schedule while the token state stays the same.  [OpFinish] ends
    the claimed attempt, if any, with a result. *)
Inductive sched_op :=
| OpNext (now : Time)
| OpFinish (result : refreshLoopAttemptResult) (completedAt : Time)
| OpBlockIntegrity (now : Time)
| OpBlockPermanent (now : Time)
| OpInconclusive.

Definition sched_step (op : sched_op) (c : ClientState) : list refreshLoopAction * ClientState :=
  match op with
  | OpNext now => let '(a, c') := nextRefreshLoopAction now c in ([a], c')
  | OpFinish res t =>
      let s := refreshSchedule c in
      ([], if sClaimID s =? 0 then c
           else finishRefreshLoopAttempt (stateRevision c) (state c) (nextStage s) (sClaimID s) res t c)
  | OpBlockIntegrity now => ([], blockRefreshIntegrityLocked (stateRevision c) now c)
  | OpBlockPermanent now => ([], blockRefreshPermanentLocked (stateRevision c) (state c) now c)
  | OpInconclusive => ([], markRefreshInconclusiveLocked (stateRevision c) c)
  end.

Fixpoint sched_run (ops : list sched_op) (c : ClientState) : list refreshLoopAction * ClientState :=
  match ops with
  | [] => ([], c)
  | op :: ops =>
      let '(out, c') := sched_step op c in
      let '(outs, c'') := sched_run ops c' in (out ++ outs, c'')
  end.

Definition is_attempt (a : refreshLoopAction) : bool :=
  match a with refreshLoopAttempt _ _ _ _ => true | _ => false end.
Definition is_emit (a : refreshLoopAction) : bool :=
  match a with refreshLoopEmitSessionExpired _ => true | _ => false end.
Definition is_cancel_before_start (op : sched_op) : bool :=
  match op with OpFinish refreshLoopAttemptCanceledBeforeStart _ => true | _ => false end.

Definition count {A} (f : A -> bool) (l : list A) : Z := Z.of_nat (length (List.filter f l)).

Lemma count_nil {A} (f : A -> bool) : count f [] = 0.
Proof. reflexivity. Qed.
Lemma count_app {A} (f : A -> bool) l1 l2 : count f (l1 ++ l2) = count f l1 + count f l2.
Proof. unfold count. rewrite List.filter_app, length_app. lia. Qed.
Lemma count_cons {A} (f : A -> bool) x l : count f (x :: l) = (if f x then 1 else 0) + count f l.
Proof. unfold count. cbn. destruct (f x); cbn [length]; lia. Qed.

(** How a step rewrites the current schedule; the token state never changes. *)
Lemma sched_step_same op c : same_tokens c (sched_step op c).2.
Proof.
  destruct op; cbn.
  - pose proof (nextRefreshLoopAction_same now c). by destruct (nextRefreshLoopAction now c).
  - destruct (_ =? 0); auto with go. reflexivity.
  - auto with go.
  - auto with go.
  - auto with go.
Qed.

(** The effect of one operation on the current schedule. *)
Definition sched_effect (cfg : Config) (ts : TokenState) (s s' : refreshLoopSchedule)
    (op : sched_op) : Prop :=
  match op with
  | OpNext _ =>
      s' = s \/
      (disposition s = refreshLoopActive /\ s' = s <| disposition := refreshLoopBlockedExpired |>) \/
      (sClaimID s = 0 /\ disposition s = refreshLoopActive /\ exists claim, s' = s <| sClaimID := claim |>) \/
      (eventEmitted s = false /\ s' = s <| eventEmitted := true |>)
  | OpFinish res t =>
      s' = s \/
      (sClaimID s <> 0 /\
       s' = applyAttemptResult cfg ts (nextStage s) res t (s <| sClaimID := 0 |>))
  | OpBlockIntegrity _ =>
      exists at_, s' = s <| eventAt := at_ |> <| disposition := refreshLoopBlockedIntegrity |>
  | OpBlockPermanent _ =>
      s' = s \/ exists at_, s' = s <| eventAt := at_ |> <| disposition := refreshLoopBlockedPermanent |>
  | OpInconclusive => s' = s <| inconclusive := true |>
  end.

(** A schedule that stays valid and keyed to the generation is the current one. *)
Lemma currentSchedule_keep c c' s' :
  same_tokens c c' -> refreshSchedule c' = s' ->
  sValid s' = sValid (currentSchedule c) -> sRevision s' = sRevision (currentSchedule c) ->
  currentSchedule c' = s'.
Proof.
  intros Hsame Hs Hv Hr. destruct (currentSchedule_key c) as [Kv Kr].
  apply currentSchedule_of; [done|congruence|]. rewrite (st_revision _ _ Hsame). congruence.
Qed.

Lemma next_effect now c :
  sched_effect (config c) (state c) (currentSchedule c)
    (currentSchedule (nextRefreshLoopAction now c).2) (OpNext now).
Proof.
  pose proof (nextRefreshLoopAction_same now c) as Hsame.
  destruct (nextRefreshLoopAction now c) as [a c'] eqn:E. cbn [snd] in *.
  destruct a as [due wake|rev ts stage claim|rev].
  - apply next_wait_inv in E as (_ & [Hs|(Hd & Hc & Hs)]);
      rewrite (currentSchedule_keep c c' _ Hsame Hs) by done; cbn; by auto.
  - apply next_attempt_inv in E as ([] & _ & _ & _ & _ & _ & _ & Hs).
    rewrite (currentSchedule_keep c c' _ Hsame Hs) by done. cbn. by eauto 8.
  - apply next_emit_inv in E as (_ & _ & _ & He & _ & _ & Hs).
    rewrite (currentSchedule_keep c c' _ Hsame Hs) by done. cbn. by auto.
Qed.

Lemma finish_effect res t c :
  sched_effect (config c) (state c) (currentSchedule c)
    (currentSchedule (sched_step (OpFinish res t) c).2) (OpFinish res t).
Proof.
  pose proof (sched_step_same (OpFinish res t) c) as Hsame. revert Hsame. cbn.
  destruct (sClaimID (refreshSchedule c) =? 0) eqn:E0; [by auto|].
  unfold finishRefreshLoopAttempt. destruct (_ || _) eqn:E1; [by auto|]. bool_to_prop.
  assert (Hc : currentSchedule c = refreshSchedule c) by by apply currentSchedule_valid.
  intros Hsame. right. rewrite Hc. split; [done|].
  destruct (applyAttemptResult_key (config c) (state c) (nextStage (refreshSchedule c)) res t
              ((refreshSchedule c) <| sClaimID := 0 |>)) as (K1 & K2 & _).
  apply (currentSchedule_keep c _ _ Hsame); [done| |]; rewrite Hc; assumption.
Qed.

Lemma sched_step_effect op c :
  sched_effect (config c) (state c) (currentSchedule c) (currentSchedule (sched_step op c).2) op.
Proof.
  pose proof (sched_step_same op c) as Hsame.
  destruct op as [now|res t|now|now|].
  - pose proof (next_effect now c) as H. cbn in *. by destruct (nextRefreshLoopAction now c).
  - apply finish_effect.
  - revert Hsame. cbn. unfold blockRefreshIntegrityLocked. rewrite Z.eqb_refl. cbn [negb]. intros Hsame.
    match type of Hsame with same_tokens _ ?c' =>
      rewrite (currentSchedule_keep c c' _ Hsame eq_refl) by (cbn; by case_match) end.
    cbn. fold (currentSchedule c). destruct (_ || _); by eexists.
  - revert Hsame. cbn. unfold blockRefreshPermanentLocked. rewrite Z.eqb_refl. cbn [negb].
    case_bool_decide as Hb; intros Hsame.
    + left. by apply (currentSchedule_keep c _ _ Hsame).
    + right. match type of Hsame with same_tokens _ ?c' =>
        rewrite (currentSchedule_keep c c' _ Hsame eq_refl) by (cbn; by case_match) end.
      cbn. fold (currentSchedule c). destruct (_ || _); by eexists.
  - revert Hsame. cbn. unfold markRefreshInconclusiveLocked. rewrite Z.eqb_refl. cbn [negb].
    intros Hsame. by apply (currentSchedule_keep c _ _ Hsame).
Qed.

(** Potentials of a generation: the attempts and events it may still produce. *)
Definition attempts_left (c : ClientState) : Z :=
  let s := currentSchedule c in
  if bool_decide (disposition s = refreshLoopActive)
  then Z.max 0 (Z.log2 (lifetime (state c)) + 1 - nextStage s - (if sClaimID s =? 0 then 0 else 1))
  else 0.
Definition events_left (c : ClientState) : Z :=
  if eventEmitted (currentSchedule c) then 0 else 1.

Lemma emit_step op c :
  count is_emit (sched_step op c).1 + events_left (sched_step op c).2 <= events_left c.
Proof.
  pose proof (sched_step_effect op c) as He. unfold events_left.
  destruct op as [now|res t|now|now|].
  - cbn in He |- *. destruct (nextRefreshLoopAction now c) as [a c'] eqn:E.
    destruct a as [due wake|rev ts stage claim|rev]; cbn in He |- *.
    + assert (count is_emit [refreshLoopWait due wake] = 0) as -> by done.
      destruct He as [->|[(_&->)|[(_&_&?&->)|(Ef&->)]]];
        rewrite Z.add_0_l; cbn; rewrite ?Ef; repeat case_match; lia.
    + assert (count is_emit [refreshLoopAttempt rev ts stage claim] = 0) as -> by done.
      destruct He as [->|[(_&->)|[(_&_&?&->)|(Ef&->)]]];
        rewrite Z.add_0_l; cbn; rewrite ?Ef; repeat case_match; lia.
    + apply next_emit_inv in E as (_ & _ & _ & Hf & _ & Hs' & Hs). rewrite Hf.
      rewrite (currentSchedule_keep c c' _ Hs' Hs) by done.
      assert (count is_emit [refreshLoopEmitSessionExpired rev] = 1) as -> by done. cbn. lia.
  - change (count is_emit (sched_step (OpFinish res t) c).1) with 0. rewrite Z.add_0_l.
    assert (eventEmitted (currentSchedule (sched_step (OpFinish res t) c).2) =
            eventEmitted (currentSchedule c)) as ->; [|done].
    destruct He as [->|[_ ->]]; [done|].
    destruct res; cbn; unfold advanceRefreshStageLocked; by repeat case_match.
  - destruct He as [at_ He]. rewrite He. change (count is_emit _) with 0; by rewrite Z.add_0_l.
  - destruct He as [He|[at_ He]]; rewrite He; change (count is_emit _) with 0; by rewrite Z.add_0_l.
  - cbn [sched_effect] in He. rewrite He. change (count is_emit _) with 0; by rewrite Z.add_0_l.
Qed.

Lemma attempts_left_nonneg c : 0 <= attempts_left c.
Proof. unfold attempts_left. case_bool_decide; lia. Qed.

Lemma attempts_left_expired c c' s' :
  currentSchedule c' = s' -> disposition s' <> refreshLoopActive ->
  attempts_left c' <= attempts_left c.
Proof.
  intros <- Hd. pose proof (attempts_left_nonneg c).
  unfold attempts_left at 1. by rewrite bool_decide_false.
Qed.

Definition is_attempt_op (op : sched_op) : Z := if is_cancel_before_start op then 1 else 0.

Lemma finish_potential res t c :
  attempts_left (sched_step (OpFinish res t) c).2
    <= attempts_left c + is_attempt_op (OpFinish res t).
Proof.
  pose proof (sched_step_effect (OpFinish res t) c) as He.
  pose proof (sched_step_same (OpFinish res t) c) as Hsame.
  destruct (sched_step (OpFinish res t) c) as [o c'] eqn:E. cbn [snd] in *. clear E.
  assert (Hop : 0 <= is_attempt_op (OpFinish res t)) by (destruct res; done).
  destruct He as [He|[Hcl He]].
  { unfold attempts_left. rewrite He, (st_state _ _ Hsame). lia. }
  apply Z.eqb_neq in Hcl.
  pose proof (wrap_u64_range (nextStage (currentSchedule c) + 1)) as [Hw _].
  assert (Hadv : currentSchedule c' =
            advanceRefreshStageLocked (nextStage (currentSchedule c)) t
              ((currentSchedule c) <| sClaimID := 0 |>) -> attempts_left c' <= attempts_left c).
  { intros Ha. unfold advanceRefreshStageLocked in Ha.
    destruct (_ <=? _) eqn:El; [|apply Z.leb_gt in El];
      [by apply (attempts_left_expired c _ _ Ha)|].
    unfold attempts_left. rewrite Ha, (st_state _ _ Hsame), Hcl. cbn.
    case_bool_decide; lia. }
  destruct res; cbn [applyAttemptResult] in He;
    try (apply Hadv in He; lia);
    try (apply (attempts_left_expired c) in He; [lia|done]).
  change (is_attempt_op (OpFinish refreshLoopAttemptCanceledBeforeStart t)) with 1.
  unfold attempts_left. rewrite He, (st_state _ _ Hsame), Hcl.
  cbn -[Z.add Z.sub Z.max Z.log2]. case_bool_decide; lia.
Qed.

Lemma next_potential now c :
  state_wf c -> lifetime (state c) <= max_i64 ->
  let r := nextRefreshLoopAction now c in
  (if is_attempt r.1 then 1 else 0) + attempts_left r.2 <= attempts_left c.
Proof.
  intros Hwf Hmax. pose proof (nextRefreshLoopAction_same now c) as Hsame.
  destruct (nextRefreshLoopAction now c) as [a c'] eqn:E. cbv zeta. cbn [fst snd] in *.
  destruct a as [due wake|rev ts stage claim|rev]; cbn [is_attempt].
  - apply next_wait_inv in E as (_ & [Hs|(Hd & Hc & Hs)]).
    + unfold attempts_left. by rewrite (currentSchedule_keep c c' _ Hsame Hs), (st_state _ _ Hsame).
    + pose proof (attempts_left_expired c c' _ (currentSchedule_keep c c' _ Hsame Hs eq_refl eq_refl) ltac:(done)).
      lia.
  - pose proof (attempt_bounds _ _ _ _ _ _ _ Hwf Hmax E) as (_ & _ & Hst & Hcl).
    apply next_attempt_inv in E as ([] & _ & -> & -> & _ & _ & _ & Hs).
    unfold attempts_left. rewrite (currentSchedule_keep c c' _ Hsame Hs), (st_state _ _ Hsame) by done.
    cbn -[Z.add Z.sub Z.max Z.log2]. rewrite ad_active0, ad_unclaimed0. apply Z.eqb_neq in Hcl.
    rewrite Hcl, bool_decide_true by done. cbn -[Z.add Z.sub Z.max Z.log2]. lia.
  - apply next_emit_inv in E as (_ & _ & Hd & _ & _ & _ & Hs).
    assert (attempts_left c' <= attempts_left c); [|lia].
    eapply attempts_left_expired; [by apply (currentSchedule_keep c c' _ Hsame Hs)|].
    cbn. by destruct Hd as [-> | ->].
Qed.

Lemma attempt_step op c :
  state_wf c -> lifetime (state c) <= max_i64 ->
  count is_attempt (sched_step op c).1 + attempts_left (sched_step op c).2
    <= attempts_left c + is_attempt_op op.
Proof.
  intros Hwf Hmax. pose proof (sched_step_effect op c) as He.
  pose proof (sched_step_same op c) as Hsame.
  destruct op as [now|res t|now|now|].
  - pose proof (next_potential now c Hwf Hmax) as Hn. cbn [sched_step].
    destruct (nextRefreshLoopAction now c) as [a c']. cbn [fst snd] in *.
    rewrite count_cons, count_nil. change (is_attempt_op _) with 0. cbv zeta in Hn. lia.
  - change (count is_attempt (sched_step (OpFinish res t) c).1) with 0. rewrite Z.add_0_l.
    apply finish_potential.
  - destruct He as [at_ He]. change (count is_attempt _) with 0. change (is_attempt_op _) with 0.
    pose proof (attempts_left_expired c _ _ He ltac:(done)). lia.
  - change (count is_attempt _) with 0. change (is_attempt_op _) with 0.
    destruct He as [He|[at_ He]].
    + unfold attempts_left. rewrite He, (st_state _ _ Hsame). lia.
    + pose proof (attempts_left_expired c _ _ He ltac:(done)). lia.
  - change (count is_attempt _) with 0. change (is_attempt_op _) with 0.
    unfold attempts_left. cbn [sched_effect] in He. rewrite He, (st_state _ _ Hsame).
    cbn -[Z.add Z.sub Z.max Z.log2]. lia.
Qed.

Lemma sched_step_wf op c : state_wf c -> state_wf (sched_step op c).2.
Proof.
  intros H. destruct op; cbn; try (destruct (_ =? 0)); auto with go.
  pose proof (nextRefreshLoopAction_wf now c H). by destruct (nextRefreshLoopAction now c).
Qed.

(** ** Liveness and safety of whole runs *)

Lemma sched_run_app ops1 : forall ops2 c,
  sched_run (ops1 ++ ops2) c =
  let '(o1, c1) := sched_run ops1 c in let '(o2, c2) := sched_run ops2 c1 in (o1 ++ o2, c2).
Proof.
  induction ops1 as [|op ops1 IH]; intros ops2 c; cbn; [by destruct (sched_run ops2 c)|].
  destruct (sched_step op c) as [o1 c1]. rewrite IH. destruct (sched_run ops1 c1) as [o2 c2].
  destruct (sched_run ops2 c2). by rewrite app_assoc.
Qed.

Lemma sched_run_events ops : forall c,
  count is_emit (sched_run ops c).1 + events_left (sched_run ops c).2 <= events_left c.
Proof.
  induction ops as [|op ops IH]; intros c; [done|].
  cbn [sched_run]. pose proof (emit_step op c) as H1.
  destruct (sched_step op c) as [o1 c1]. specialize (IH c1). destruct (sched_run ops c1) as [o2 c2].
  cbn [fst snd] in *. rewrite count_app. lia.
Qed.

(** C36: Within one token generation the supervisor decides to emit
    [EventSessionExpired] at most once, whatever the interleaving of loop
    runners, restarts and on-demand callers, and whatever the clock does. *)
Theorem session_expired_at_most_once ops c :
  count is_emit (sched_run ops c).1 <= 1 /\
  (eventEmitted (currentSchedule c) = true -> count is_emit (sched_run ops c).1 = 0).
Proof.
  pose proof (sched_run_events ops c) as H.
  assert (0 <= events_left (sched_run ops c).2) by (unfold events_left; by case_match).
  assert (0 <= count is_emit (sched_run ops c).1) by (unfold count; lia).
  unfold events_left in H at 2. split; [destruct (eventEmitted _); lia|].
  intros E. rewrite E in H. lia.
Qed.

Lemma sched_run_attempts ops : forall c,
  state_wf c -> lifetime (state c) <= max_i64 ->
  count is_attempt (sched_run ops c).1 <= attempts_left c + count is_cancel_before_start ops.
Proof.
  induction ops as [|op ops IH]; intros c Hwf Hmax.
  { pose proof (attempts_left_nonneg c). change (count _ _) with 0.
    change (count is_cancel_before_start []) with 0. lia. }
  cbn [sched_run]. pose proof (attempt_step op c Hwf Hmax) as H1.
  pose proof (sched_step_wf op c Hwf) as H2. pose proof (sched_step_same op c) as H3.
  destruct (sched_step op c) as [o1 c1]. cbn [fst snd] in *.
  specialize (IH c1 H2). rewrite (st_state _ _ H3) in IH. specialize (IH Hmax).
  destruct (sched_run ops c1) as [o2 c2]. cbn [fst snd] in *.
  rewrite count_app, count_cons. unfold is_attempt_op in H1. lia.
Qed.

(** C37: A token generation sees at most [log2 lifetime] background attempts
    (at most 62), not counting attempts cancelled before their request started,
    however the operations are ordered: the loop cannot spin. *)
Theorem attempts_bounded ops c :
  state_wf c -> lifetime (state c) <= max_i64 -> refreshSchedule c = zeroSchedule ->
  count is_attempt (sched_run ops c).1 <=
    Z.log2 (lifetime (state c)) + count is_cancel_before_start ops.
Proof.
  intros Hwf Hmax Hz. pose proof (sched_run_attempts ops c Hwf Hmax) as H.
  assert (Hs : currentSchedule c = activeSchedule (stateRevision c)).
  { unfold currentSchedule, refreshScheduleLocked. by rewrite Hz. }
  assert (attempts_left c = Z.log2 (lifetime (state c))); [|lia].
  pose proof (Z.log2_nonneg (lifetime (state c))). unfold attempts_left. rewrite Hs.
  rewrite bool_decide_true by done. cbn -[Z.add Z.sub Z.max Z.log2]. lia.
Qed.

Lemma attempts_bounded_witness :
  let ops := [OpNext (mkTime (900 * Second) 0); OpFinish refreshLoopAttemptTemporary (mkTime (901 * Second) 0);
              OpNext (mkTime (905 * Second) 0); OpNext (mkTime (930 * Second) 0)] in
  count is_attempt (sched_run ops exampleClient).1 = 2 /\
  count is_attempt (sched_run ops exampleClient).1 <=
    Z.log2 (lifetime (state exampleClient)) + count is_cancel_before_start ops.
Proof.
  split; [vm_compute; reflexivity|].
  apply (attempts_bounded _ exampleClient exampleClient_wf); [|reflexivity].
  vm_compute. discriminate.
Defined.

Definition is_finish (op : sched_op) : bool := match op with OpFinish _ _ => true | _ => false end.

(** Between two finished attempts nothing moves the stage or the spacing. *)
Lemma spacing_step op c :
  is_finish op = false ->
  nextStage (currentSchedule (sched_step op c).2) = nextStage (currentSchedule c) /\
  retryNotBefore (currentSchedule (sched_step op c).2) = retryNotBefore (currentSchedule c).
Proof.
  intros Hf. pose proof (sched_step_effect op c) as He.
  destruct op as [now|res t|now|now|]; [|done| | |].
  - destruct He as [->|[(_&->)|[(_&_&?&->)|(_&->)]]]; done.
  - by destruct He as [? ->].
  - by destruct He as [->|[? ->]].
  - by rewrite He.
Qed.

Lemma spacing_run ops : forall c,
  existsb is_finish ops = false ->
  nextStage (currentSchedule (sched_run ops c).2) = nextStage (currentSchedule c) /\
  retryNotBefore (currentSchedule (sched_run ops c).2) = retryNotBefore (currentSchedule c).
Proof.
  induction ops as [|op ops IH]; intros c; [done|]. cbn [existsb]. intros Hf.
  apply orb_false_elim in Hf as [Hf1 Hf2]. destruct (spacing_step op c Hf1) as [E1 E2].
  cbn [sched_run]. destruct (sched_step op c) as [o1 c1]. destruct (IH c1 Hf2) as [E3 E4].
  destruct (sched_run ops c1) as [o2 c2]. cbn [fst snd] in *. split; congruence.
Qed.

(** After a temporarily failed (or abandoned) attempt at stage [k] the next
    attempt of the generation, whatever happens in between, is for stage [k+1]
    and starts at least ten seconds after the failed one completed. *)
Theorem retry_spacing c res t ops now rev ts stage claim c' :
  let s := refreshSchedule c in
  sValid s = true -> sRevision s = stateRevision c -> sClaimID s <> 0 ->
  0 <= nextStage s < u64_max ->
  res = refreshLoopAttemptTemporary \/ res = refreshLoopAttemptCanceledAfterStart ->
  existsb is_finish ops = false ->
  nextRefreshLoopAction now (sched_run ops (sched_step (OpFinish res t) c).2).2
    = (refreshLoopAttempt rev ts stage claim, c') ->
  stage = nextStage s + 1 /\ inst t + 10 * Second <= inst now.
Proof.
  intros s Hv Hr Hc Hst Hres Hops Hn.
  set (c1 := (sched_step (OpFinish res t) c).2) in *.
  destruct (spacing_run ops c1 Hops) as [E1 E2].
  assert (Hs : currentSchedule c1 = s <| sClaimID := 0 |> <| nextStage := nextStage s + 1 |>
                 <| retryNotBefore := AddDur t minRefreshInterval |>).
  { pose proof (sched_step_same (OpFinish res t) c) as Hsame. fold c1 in Hsame.
    assert (Hk : currentSchedule c = s) by by apply currentSchedule_valid.
    apply (currentSchedule_keep c c1 _ Hsame); rewrite ?Hk; try done.
    unfold c1. cbn. fold s. destruct (sClaimID s =? 0) eqn:E0; bool_to_prop; [done|].
    unfold finishRefreshLoopAttempt. fold s. rewrite Hv, Hr, !Z.eqb_refl. cbn [negb orb].
    assert (wrap_u64 (nextStage s + 1) = nextStage s + 1) as Hw.
    { apply wrap_u64_id. unfold is_u64, u64_modulus, u64_max in *. lia. }
    assert ((nextStage s + 1 <=? nextStage s) = false) as Hle by (apply Z.leb_gt; lia).
    cbn -[Z.add wrap_u64 advanceRefreshStageLocked].
    destruct Hres as [-> | ->]; cbn -[Z.add]; unfold advanceRefreshStageLocked; fold s;
      rewrite Hw, Hle; cbn; by rewrite ?Hv, ?Hr. }
  apply next_attempt_inv in Hn as ([] & _ & _ & -> & _).
  rewrite E1, Hs. split; [done|].
  unfold nextDue in ad_due0. rewrite E2, Hs in ad_due0. cbn [retryNotBefore] in ad_due0.
  unfold minRefreshInterval in *. cbn in ad_due0.
  destruct (After _ _) eqn:Ea; time_to_Z; lia.
Qed.

Lemma retry_spacing_witness :
  let c := (nextRefreshLoopAction (mkTime (900 * Second) 0) exampleClient).2 in
  let ops := [OpNext (mkTime (905 * Second) 0)] in
  let t := mkTime (980 * Second) 0 in
  exists rev ts stage claim c',
    nextRefreshLoopAction (mkTime (990 * Second) 0)
      (sched_run ops (sched_step (OpFinish refreshLoopAttemptTemporary t) c).2).2
      = (refreshLoopAttempt rev ts stage claim, c') /\
    stage = 2 /\ 980 * Second + 10 * Second <= 990 * Second.
Proof.
  eexists _, _, _, _, _. split; [vm_compute; reflexivity|].
  eapply (retry_spacing (nextRefreshLoopAction (mkTime (900 * Second) 0) exampleClient).2
            refreshLoopAttemptTemporary (mkTime (980 * Second) 0)
            [OpNext (mkTime (905 * Second) 0)] (mkTime (990 * Second) 0));
    [reflexivity|reflexivity|discriminate| |by left|reflexivity|vm_compute; reflexivity].
  split; [vm_compute; discriminate|vm_compute; reflexivity].
Defined.

(** A parked generation stays parked. *)
Lemma parked_step op c :
  disposition (currentSchedule c) <> refreshLoopActive ->
  disposition (currentSchedule (sched_step op c).2) <> refreshLoopActive /\
  count is_attempt (sched_step op c).1 = 0.
Proof.
  intros Hd. pose proof (sched_step_effect op c) as He. split.
  - destruct op as [now|res t|now|now|].
    + destruct He as [->|[(_&->)|[(_&?&?&->)|(_&->)]]]; done.
    + destruct He as [->|[_ ->]]; [done|].
      destruct res; cbn; unfold advanceRefreshStageLocked; repeat case_match; done.
    + by destruct He as [? ->].
    + by destruct He as [->|[? ->]].
    + by rewrite He.
  - destruct op as [now|res t|now|now|]; [|done..]. cbn [sched_step].
    destruct (nextRefreshLoopAction now c) as [a c'] eqn:E. destruct a; [done| |done].
    apply next_attempt_inv in E as ([] & _). done.
Qed.

(** A token generation parked as expired, refused or compromised never
    starts another background attempt: only a new generation does. *)
Theorem parked_generation ops : forall c,
  disposition (currentSchedule c) <> refreshLoopActive ->
  count is_attempt (sched_run ops c).1 = 0.
Proof.
  induction ops as [|op ops IH]; intros c Hd; [done|].
  destruct (parked_step op c Hd) as [Hd' Hc]. cbn [sched_run].
  destruct (sched_step op c) as [o1 c1]. specialize (IH c1 Hd').
  destruct (sched_run ops c1) as [o2 c2]. cbn [fst snd] in *. rewrite count_app. lia.
Qed.

Lemma parked_generation_witness :
  count is_attempt
    (sched_run [OpNext (mkTime (900 * Second) 0); OpNext (mkTime (910 * Second) 0)]
       (sched_step (OpBlockPermanent (mkTime (890 * Second) 0)) exampleClient).2).1 = 0.
Proof. apply (parked_generation _ _). vm_compute. discriminate. Defined.

(** ** When the terminal event is due *)

(** The generation's grace deadline, if it has one. *)
Definition graceDeadline (cfg : Config) (ts : TokenState) : option Z :=
  if (0 <? GracePeriod cfg) && negb (IsZeroTime (LastAuthAt ts))
  then Some (inst (LastAuthAt ts) + GracePeriod cfg) else None.

Lemma sessionExpiredEventTime_spec cfg ts now :
  inst (sessionExpiredEventTime cfg ts now) =
    match graceDeadline cfg ts with Some g => Z.max g (inst now) | None => inst now end.
Proof.
  unfold sessionExpiredEventTime, graceDeadline. destruct (_ && _); [|done].
  destruct (Before now _) eqn:E; time_to_Z; rewrite ?AddDur_inst in *; lia.
Qed.

(** After a refused client registration, and with no newer generation, the
    supervisor emits [EventSessionExpired] exactly once the grace deadline (if
    any) has passed; after a session-integrity failure it emits without
    waiting for grace. *)
Theorem terminal_event_time c res t now :
  let s := refreshSchedule c in
  sValid s = true -> sRevision s = stateRevision c -> sClaimID s <> 0 ->
  eventEmitted s = false ->
  res = refreshLoopAttemptPermanent \/ res = refreshLoopAttemptIntegrity ->
  let c1 := (sched_step (OpFinish res t) c).2 in
  (exists c', nextRefreshLoopAction now c1 = (refreshLoopEmitSessionExpired (stateRevision c), c')) <->
  inst t <= inst now /\
  (res = refreshLoopAttemptPermanent ->
   forall g, graceDeadline (config c) (state c) = Some g -> g <= inst now).
Proof.
  intros s Hv Hr Hc He Hres c1.
  assert (Hs : currentSchedule c1 = applyAttemptResult (config c) (state c) (nextStage s) res t
                 (s <| sClaimID := 0 |>)).
  { pose proof (sched_step_same (OpFinish res t) c) as Hsame. fold c1 in Hsame.
    assert (Hk : currentSchedule c = s) by by apply currentSchedule_valid.
    destruct (applyAttemptResult_key (config c) (state c) (nextStage s) res t
                (s <| sClaimID := 0 |>)) as (K1 & K2 & _).
    apply (currentSchedule_keep c c1 _ Hsame); [|by rewrite Hk|by rewrite Hk].
    unfold c1. cbn. fold s. apply Z.eqb_neq in Hc. rewrite Hc.
    unfold finishRefreshLoopAttempt. fold s. rewrite Hv, Hr, !Z.eqb_refl; cbn; fold s; by rewrite Hv, Hr. }
  assert (Hrev : stateRevision c1 = stateRevision c) by apply (st_revision _ _ (sched_step_same (OpFinish res t) c)).
  destruct (next_unfold now c1) as (wake & c2 & _ & _ & _ & _ & _ & Heq). rewrite Heq. clear Heq.
  cbv zeta. rewrite Hs, Hrev. destruct Hres as [-> | ->]; cbn -[sessionExpiredEventTime]; rewrite He.
  - destruct (Before now _) eqn:Eb.
    + split; [by intros [? [=]]|]. intros [H1 H2]. exfalso.
      apply Before_spec in Eb. rewrite sessionExpiredEventTime_spec in Eb.
      destruct (graceDeadline _ _) as [g|]; [specialize (H2 eq_refl g eq_refl)|]; lia.
    + split; [|by eauto]. intros _. apply Before_ge in Eb.
      rewrite sessionExpiredEventTime_spec in Eb.
      destruct (graceDeadline _ _) as [g|]; split; try lia; intros _ g'; intros [=]; lia.
  - destruct (Before now t) eqn:Eb.
    + apply Before_spec in Eb. split; [by intros [? [=]]|]. intros [H1 _]. lia.
    + apply Before_ge in Eb. split; [|by eauto]. intros _. by split.
Qed.

Lemma terminal_event_time_witness :
  let c := (nextRefreshLoopAction (mkTime (900 * Second) 0) exampleClient).2 in
  let c1 := (sched_step (OpFinish refreshLoopAttemptPermanent (mkTime (901 * Second) 0)) c).2 in
  let graceEnd := 700 * Second + 24 * Hour in
  exists c', nextRefreshLoopAction (mkTime graceEnd 0) c1
             = (refreshLoopEmitSessionExpired (stateRevision c), c').
Proof.
  apply (terminal_event_time (nextRefreshLoopAction (mkTime (900 * Second) 0) exampleClient).2
           refreshLoopAttemptPermanent (mkTime (901 * Second) 0) (mkTime (700 * Second + 24 * Hour) 0));
    [reflexivity|reflexivity|discriminate|reflexivity|by left|].
  split; [vm_compute; discriminate|]. intros _ g [= <-]. vm_compute. discriminate.
Defined.
