(* ===== verification/Persistence.v ===== *)
(** [persistence.go]: the record of a failed Save, its retry delays and the
    critical sections of the recovery supervisor. *)
From S2P Require Import Prelude GoTime Errors Tokens Config ClientState Schedule.

Definition minPersistenceRetryInterval : Z := Second.
Definition maxPersistenceRetryInterval : Z := Minute.

(** ** Delays *)

(** The loop [for attempt := 1; attempt < failures; attempt++]. *)
Fixpoint retryDelayLoop (fuel : nat) (attempt failures delay : Z) : option Z :=
  if failures <=? attempt then Some delay
  else if Z.quot maxPersistenceRetryInterval 2 <=? delay then Some maxPersistenceRetryInterval
  else match fuel with
       | O => None
       | S fuel => retryDelayLoop fuel (attempt + 1) failures (delay * 2)
       end.

(** Five doublings take one second past half a minute. *)
Definition retryDelayFuel : nat := 5.

Definition persistenceRetryDelay (failures : Z) : Z :=
  match retryDelayLoop retryDelayFuel 1 failures minPersistenceRetryInterval with
  | Some delay => delay
  | None => 0
  end.

(** ** Critical sections under [Client.mu] *)

Inductive persistenceRetryAction :=
| retryWait (due : Time) (wake : nat)
| retryClaimed (revision claimID : Z).

(** The section of [recordPersistenceSaveResult]. *)
Definition recordPersistenceSaveResult (revision : Z) (err : option error) (completedAt : Time)
    (c : ClientState) : ClientState :=
  match err with
  | None => c
  | Some _ =>
      if stateRevision c =? revision
      then signalRefreshLoopLocked
             (c <| persistenceRetry :=
                     mkRetry true revision 1 (AddDur completedAt (persistenceRetryDelay 1)) 0 |>)
      else c
  end.

(** [nextPersistenceRetryAction]. *)
Definition nextPersistenceRetryAction (now : Time) (c0 : ClientState)
    : persistenceRetryAction * ClientState :=
  let '(wake, c) := refreshWakeLocked c0 in
  let pending := persistenceRetry c in
  if negb (pValid pending) then (retryWait zeroTime wake, c)
  else if negb (pRevision pending =? stateRevision c)
  then (retryWait zeroTime wake, c <| persistenceRetry := zeroRetry |>)
  else if negb (pClaimID pending =? 0) then (retryWait zeroTime wake, c)
  else if Before now (retryAt pending) then (retryWait (retryAt pending) wake, c)
  else
    let claim := nextClaim (persistenceClaimSeq c) in
    (retryClaimed (pRevision pending) claim,
     signalRefreshLoopLocked
       (c <| persistenceClaimSeq := claim |>
          <| persistenceRetry := pending <| pClaimID := claim |> |>)).

(** [persistenceRetryMatchesLocked] for the claim [(revision, claimID)]. *)
Definition persistenceRetryMatchesLocked (revision claimID : Z) (c : ClientState) : bool :=
  pValid (persistenceRetry c) && (pRevision (persistenceRetry c) =? revision) &&
  (pClaimID (persistenceRetry c) =? claimID) && (stateRevision c =? revision).

(** The first section of [retryPersistence]: the state to save, or nothing
    when the claim is stale or the supervisor was cancelled. *)
Definition retryPersistenceBegin (revision claimID : Z) (cancelled : bool) (c : ClientState)
    : option TokenState * ClientState :=
  if negb (persistenceRetryMatchesLocked revision claimID c) then (None, c)
  else if cancelled then
    (None, signalRefreshLoopLocked
             (c <| persistenceRetry := (persistenceRetry c) <| pClaimID := 0 |> |>))
  else (Some (state c), c).

(** What [retryPersistence] logs in the end. *)
Inductive retryOutcome := retryNothing | retryRecovered | retryFailed (retryIn : Z).

(** Its second section, after Save returned [err] at [completedAt]. *)
Definition retryPersistenceEnd (revision claimID : Z) (err : option error) (completedAt : Time)
    (c : ClientState) : retryOutcome * ClientState :=
  if negb (persistenceRetryMatchesLocked revision claimID c) then (retryNothing, c)
  else match err with
  | None => (retryRecovered, signalRefreshLoopLocked (c <| persistenceRetry := zeroRetry |>))
  | Some _ =>
      let p := persistenceRetry c in
      let n := if failures p <? u64_max then failures p + 1 else failures p in
      let retryIn := persistenceRetryDelay n in
      (retryFailed retryIn,
       signalRefreshLoopLocked
         (c <| persistenceRetry :=
                 p <| failures := n |> <| retryAt := AddDur completedAt retryIn |>
                   <| pClaimID := 0 |> |>))
  end.

(** ** Frame: persistence recovery never touches the tokens or the schedule *)

Record same_session (c c' : ClientState) : Prop := {
  ss_state : state c' = state c;
  ss_revision : stateRevision c' = stateRevision c;
  ss_schedule : refreshSchedule c' = refreshSchedule c;
  ss_blocked : restoreBlocked c' = restoreBlocked c;
  ss_config : config c' = config c;
  ss_provider : provider c' = provider c;
  ss_oauth2 : oauth2 c' = oauth2 c;
  ss_verifier : verifier c' = verifier c
}.

#[export] Instance same_session_refl : Reflexive same_session.
Proof. by split. Qed.
#[export] Instance same_session_trans : Transitive same_session.
Proof. intros a b c [] []. split; congruence. Qed.

Lemma recordPersistenceSaveResult_same r e t c :
  same_session c (recordPersistenceSaveResult r e t c).
Proof. unfold recordPersistenceSaveResult. destruct e; [destruct (_ =? _)|]; by split. Qed.

Lemma nextPersistenceRetryAction_same now c :
  same_session c (nextPersistenceRetryAction now c).2.
Proof.
  unfold nextPersistenceRetryAction, refreshWakeLocked.
  destruct (refreshWake c); repeat case_goal; by split.
Qed.

Lemma retryPersistenceBegin_same r cl b c : same_session c (retryPersistenceBegin r cl b c).2.
Proof. unfold retryPersistenceBegin. repeat case_goal; by split. Qed.

Lemma retryPersistenceEnd_same r cl e t c : same_session c (retryPersistenceEnd r cl e t c).2.
Proof.
  unfold retryPersistenceEnd. destruct (negb _); [by split|]. destruct e; by split.
Qed.

#[export] Hint Resolve recordPersistenceSaveResult_same nextPersistenceRetryAction_same
  retryPersistenceBegin_same retryPersistenceEnd_same : go.

(** ** Well-formedness is preserved *)

Lemma set_retry_wf p c :
  (pValid p = true -> pRevision p = stateRevision c) -> state_wf c ->
  state_wf (c <| persistenceRetry := p |>).
Proof. intros Hp []. by split. Qed.

Lemma recordPersistenceSaveResult_wf r e t c :
  state_wf c -> state_wf (recordPersistenceSaveResult r e t c).
Proof.
  intros H. unfold recordPersistenceSaveResult. destruct e; [|done].
  destruct (_ =? _) eqn:E; [|done]. bool_to_prop.
  apply signalRefreshLoopLocked_wf, set_retry_wf; [by cbn|done].
Qed.

Lemma set_claimSeq_wf z c : state_wf c -> state_wf (c <| persistenceClaimSeq := z |>).
Proof. intros []. by split. Qed.

Lemma nextPersistenceRetryAction_wf now c :
  state_wf c -> state_wf (nextPersistenceRetryAction now c).2.
Proof.
  intros H. unfold nextPersistenceRetryAction.
  pose proof (refreshWakeLocked_wf _ H) as Hw.
  destruct (refreshWakeLocked c) as [wake c1]. cbn in Hw.
  repeat case_goal; try exact Hw.
  - by apply set_retry_wf.
  - cbn [snd]. apply signalRefreshLoopLocked_wf, set_retry_wf; [cbn|by apply set_claimSeq_wf].
    apply (wf_retry _ Hw).
Qed.

Lemma retryPersistenceBegin_wf r cl b c :
  state_wf c -> state_wf (retryPersistenceBegin r cl b c).2.
Proof.
  intros H. unfold retryPersistenceBegin. repeat case_goal; try exact H.
  apply signalRefreshLoopLocked_wf, set_retry_wf; [apply (wf_retry _ H)|done].
Qed.

Lemma retryPersistenceEnd_wf r cl e t c :
  state_wf c -> state_wf (retryPersistenceEnd r cl e t c).2.
Proof.
  intros H. unfold retryPersistenceEnd. destruct (negb _); [exact H|].
  destruct e; cbn [snd]; apply signalRefreshLoopLocked_wf, set_retry_wf; try done.
  apply (wf_retry _ H).
Qed.

#[export] Hint Resolve recordPersistenceSaveResult_wf nextPersistenceRetryAction_wf
  retryPersistenceBegin_wf retryPersistenceEnd_wf : go.

(** ** The retry delays *)

Lemma retryDelayLoop_spec fuel : forall attempt failures delay,
  0 < attempt -> minPersistenceRetryInterval <= delay <= maxPersistenceRetryInterval ->
  maxPersistenceRetryInterval <= delay * 2 ^ (Z.of_nat fuel + 1) ->
  retryDelayLoop fuel attempt failures delay =
    Some (Z.min maxPersistenceRetryInterval (delay * 2 ^ Z.max 0 (failures - attempt))).
Proof.
  induction fuel as [|fuel IH]; intros attempt failures delay Ha Hd Hf;
    cbn [retryDelayLoop]; destruct (failures <=? attempt) eqn:E; bool_to_prop;
    try (rewrite Z.max_l by lia; f_equal; lia).
  all: change (Z.quot maxPersistenceRetryInterval 2) with 30000000000.
  all: change maxPersistenceRetryInterval with 60000000000 in *.
  all: change minPersistenceRetryInterval with 1000000000 in *.
  all: assert (2 <= 2 ^ (failures - attempt)) by
      (change 2 with (2 ^ 1) at 1; apply Z.pow_le_mono_r; lia).
  all: destruct (_ <=? delay) eqn:E2; bool_to_prop;
    [f_equal; rewrite Z.max_r by lia; nia|].
  - change (2 ^ (Z.of_nat 0 + 1)) with 2 in Hf. lia.
  - replace (Z.of_nat (S fuel) + 1) with (Z.succ (Z.of_nat fuel + 1)) in Hf by lia.
    rewrite Z.pow_succ_r in Hf by lia.
    rewrite IH by lia.
    replace (Z.max 0 (failures - attempt)) with (Z.succ (Z.max 0 (failures - (attempt + 1)))) by lia.
    rewrite Z.pow_succ_r by lia. f_equal. f_equal. lia.
Qed.

(** The delay before the retry after [n] consecutive failures is [2^(n-1)]
    seconds, capped at one minute; in particular the loop's fuel suffices and
    the product never overflows. *)
Theorem persistenceRetryDelay_spec n :
  persistenceRetryDelay n = Z.min (60 * Second) (2 ^ Z.max 0 (n - 1) * Second).
Proof.
  unfold persistenceRetryDelay. rewrite retryDelayLoop_spec; [|lia|split; done|done].
  unfold maxPersistenceRetryInterval, minPersistenceRetryInterval, Minute. lia.
Qed.
