(* ===== verification/SessionSpec.v ===== *)
(** The abstract specification of [Client]: a session automaton.  Its
    observations are the points where the program commits something; each rule
    says when the commit is legal and what it does to the abstract session.
    [Interference.v] proves that every interleaving of the program's goroutines
    produces a legal run whose final state is the concrete one. *)
From S2P Require Import Prelude GoTime Errors Tokens Config Claims ClientState.

Inductive lifecycleOperationKind := lifecycleLogin | lifecycleLogout.

#[export] Instance lifecycleOperationKind_eq_dec : EqDecision lifecycleOperationKind.
Proof. solve_decision. Defined.

Inductive observation :=
| OAdmit (kind : lifecycleOperationKind) (op : nat)     (* Login or Logout admitted *)
| OFinish (op : nat)                                    (* it returned *)
| OLogin (op : nat) (ts : TokenState)
| ORefresh (old new : TokenState)
| ORefused (old : TokenState)                           (* refresh token refused *)
| ORestore (ts : TokenState)
| OLogout (op : nat)
| OExpired.                                             (* the supervisor gives up *)

Record Session := mkSession {
  sp_tokens : TokenState;
  sp_blocked : bool;                                    (* locally logged out *)
  sp_op : option (lifecycleOperationKind * nat)         (* the admitted operation *)
}.

(** The session a refused refresh token leaves: only the ID token. *)
Definition refusedState (ts : TokenState) : TokenState :=
  mkTokenState "" "" (IDToken ts) zeroTime zeroTime.

Section Spec.
  (** [verified v raw info]: go-oidc's verifier [v] accepts the raw ID token
      [raw] and reports [info]. *)
  Context (verified : IDTokenVerifier -> string -> IDTokenInfo -> Prop).

(** An ID token that [verifyIDToken] accepted. *)
Definition authorized (clientID raw : string) (info : IDTokenInfo) : Prop :=
  exists v claims, verified v raw info /\ idClaims info = Ok claims /\
    checkAuthorizedParty clientID claims (idAudience info) = None.

(** The rules of a Login commit on its ID token. *)
Definition login_verified (clientID : string) (ts : TokenState) : Prop :=
  IDToken ts <> "" /\ exists info, authorized clientID (IDToken ts) info.

(** A refresh keeps the ID token or replaces it by a verified one with the
    same, non-empty subject. *)
Definition subject_kept (clientID : string) (old new : TokenState) : Prop :=
  IDToken new = IDToken old \/
  exists info claims, authorized clientID (IDToken new) info /\
    DecodeIDToken (IDToken old) = Ok claims /\
    idSubject info = Subject claims /\ Subject claims <> "".

Inductive spec_step (clientID : string) : observation -> Session -> Session -> Prop :=
| spec_admit kind op s :
    spec_step clientID (OAdmit kind op) s (mkSession (sp_tokens s) (sp_blocked s) (Some (kind, op)))
| spec_finish op s :
    spec_step clientID (OFinish op) s
      (mkSession (sp_tokens s) (sp_blocked s)
         (match sp_op s with
          | Some (k, op') => if (op' =? op)%nat then None else Some (k, op')
          | None => None
          end))
| spec_login op ts s :
    sp_op s = Some (lifecycleLogin, op) -> login_verified clientID ts ->
    spec_step clientID (OLogin op ts) s (mkSession ts false (sp_op s))
| spec_refresh new s :
    RefreshToken (sp_tokens s) <> "" -> RefreshToken new <> "" ->
    subject_kept clientID (sp_tokens s) new ->
    spec_step clientID (ORefresh (sp_tokens s) new) s (mkSession new false (sp_op s))
| spec_refused s :
    RefreshToken (sp_tokens s) <> "" ->
    spec_step clientID (ORefused (sp_tokens s)) s
      (mkSession (refusedState (sp_tokens s)) false (sp_op s))
| spec_restore ts s :
    sp_blocked s = false -> IsZero ts = false ->
    spec_step clientID (ORestore ts) s (mkSession ts false (sp_op s))
| spec_logout op s :
    sp_op s = Some (lifecycleLogout, op) ->
    spec_step clientID (OLogout op) s (mkSession zeroTokenState true (sp_op s))
| spec_expired s : spec_step clientID OExpired s s.

Inductive spec_run (clientID : string) : Session -> list observation -> Session -> Prop :=
| spec_nil s : spec_run clientID s [] s
| spec_snoc s1 s2 s3 tr o :
    spec_run clientID s1 tr s2 -> spec_step clientID o s2 s3 ->
    spec_run clientID s1 (tr ++ [o]) s3.

Lemma spec_run_app clientID s1 tr1 s2 tr2 s3 :
  spec_run clientID s1 tr1 s2 -> spec_run clientID s2 tr2 s3 ->
  spec_run clientID s1 (tr1 ++ tr2) s3.
Proof.
  intros H1 H2. induction H2 as [|? ? ? ? ? ? IH Hs]; [by rewrite app_nil_r|].
  rewrite app_assoc. econstructor; eauto.
Qed.

Lemma snoc_inj {A} (l1 l2 : list A) x y : l1 ++ [x] = l2 ++ [y] -> l1 = l2 /\ x = y.
Proof. apply app_inj_tail. Qed.

Lemma spec_run_snoc_inv clientID s1 tr o s3 :
  spec_run clientID s1 (tr ++ [o]) s3 ->
  exists s2, spec_run clientID s1 tr s2 /\ spec_step clientID o s2 s3.
Proof.
  intros H. remember (tr ++ [o]) as t eqn:Et. destruct H as [|? s2 s3' ? ? H1 H2]; [by destruct tr|].
  apply snoc_inj in Et as [-> ->]. eauto.
Qed.

Lemma spec_run_app_inv clientID s1 tr1 tr2 : forall s3,
  spec_run clientID s1 (tr1 ++ tr2) s3 ->
  exists s2, spec_run clientID s1 tr1 s2 /\ spec_run clientID s2 tr2 s3.
Proof.
  induction tr2 as [|o tr2 IH] using rev_ind; intros s3 H.
  - rewrite app_nil_r in H. eauto using spec_run.
  - rewrite app_assoc in H. apply spec_run_snoc_inv in H as (s2 & H1 & H2).
    apply IH in H1 as (s1' & ? & ?). eauto using spec_run.
Qed.

(** The initial session of a new Client. *)
Definition initSession : Session := mkSession zeroTokenState false None.

(** ** What legal runs guarantee *)

(** A locally logged-out session holds no tokens. *)
Lemma spec_blocked_zero clientID tr s :
  spec_run clientID initSession tr s -> sp_blocked s = true -> sp_tokens s = zeroTokenState.
Proof.
  intros H. remember initSession as s0 eqn:E0.
  induction H as [|? ? ? ? ? ? IH Hs]; subst; [done|]. specialize (IH eq_refl).
  destruct Hs; cbn; auto; done.
Qed.

(** The last commit of a run. *)
Definition is_login (o : observation) : bool := match o with OLogin _ _ => true | _ => false end.

Lemma spec_run_logged_out clientID s tr s' :
  spec_run clientID s tr s' -> sp_blocked s = true -> sp_tokens s = zeroTokenState ->
  existsb is_login tr = false -> sp_blocked s' = true /\ sp_tokens s' = zeroTokenState.
Proof.
  intros H Hb Hz. induction H as [|? s2 s3 ? ? ? IH Hs]; intros Hl; [done|].
  rewrite existsb_app in Hl. apply orb_false_elim in Hl as [Hl Ho]. cbn in Ho.
  destruct (IH Hb Hz Hl) as [Hb2 Hz2].
  destruct Hs; cbn in *; try done; rewrite ?Hz2 in *; cbn in *; congruence.
Qed.

Definition is_admit (o : observation) : bool := match o with OAdmit _ _ => true | _ => false end.

(** The current operation is the last one admitted, and it has not returned. *)
Definition last_admitted (tr : list observation) (k : lifecycleOperationKind) (op : nat) : Prop :=
  exists tr1 tr2, tr = tr1 ++ OAdmit k op :: tr2 /\ existsb is_admit tr2 = false /\ OFinish op ∉ tr2.

Lemma last_admitted_snoc tr o k op :
  last_admitted tr k op -> is_admit o = false -> o <> OFinish op -> last_admitted (tr ++ [o]) k op.
Proof.
  intros (tr1 & tr2 & -> & H1 & H2) Ho Hf. exists tr1, (tr2 ++ [o]).
  rewrite <- app_assoc. split; [done|]. rewrite existsb_app, H1. cbn. rewrite Ho. split; [done|].
  rewrite elem_of_app, list_elem_of_singleton. naive_solver.
Qed.

Lemma spec_op_last clientID tr s k op :
  spec_run clientID initSession tr s -> sp_op s = Some (k, op) -> last_admitted tr k op.
Proof.
  intros H. remember initSession as s0 eqn:E0. revert k op.
  induction H as [|? s2 s3 tr o ? IH Hs]; intros k op Hop; subst; [done|]. specialize (IH eq_refl).
  destruct Hs; cbn in Hop; try (apply last_admitted_snoc; [by apply IH|done|done]).
  - injection Hop as <- <-. exists tr, []. split; [done|]. split; [done|]. set_solver.
  - destruct (sp_op s) as [[k' op']|] eqn:E; [|done].
    destruct (op' =? op0)%nat eqn:Eo; [done|]. injection Hop as -> ->.
    apply Nat.eqb_neq in Eo. apply last_admitted_snoc; [by apply IH|done|congruence].
Qed.

End Spec.
