(* ===== verification/World.v ===== *)
(** The shared memory of one [Client] and its callers: everything its
    goroutines read and write, as the world of [Proc], with the contexts, the
    questions the Client asks its environment, and ghost state that records
    what was committed, enqueued and handed to the emitter.

    [Client.mu], [eventMu], [refreshMu] and [initMu] are only held within one
    critical section, which is one atomic action here; [stateCommitMu] and
    [lifecycleMu] are held across store calls and other actions, so they are
    mutexes of [Proc]. *)
From S2P Require Import Prelude GoTime Proc Errors Tokens Config Claims ClientState Schedule.
From S2P Require Import SessionSpec.

(** ** Contexts *)

(** A node of a context tree: the caller's own context, one made by
    [WithTimeout], or one made by [WithCancel]. *)
Inductive ctxKind := CtxCaller | CtxTimeout | CtxCancel.

#[export] Instance ctxKind_eq_dec : EqDecision ctxKind.
Proof. solve_decision. Defined.
#[export] Instance ctxKind_countable : Countable ctxKind.
Proof.
  refine (inj_countable' (fun k => match k with CtxCaller => 0 | CtxTimeout => 1 | CtxCancel => 2 end)%nat
            (fun n => match n with 0 => CtxCaller | 1 => CtxTimeout | _ => CtxCancel end)%nat _).
  by intros [].
Defined.

Abbreviation ctxNode := (ctxKind * nat)%type.

(** A context: its node and those of its ancestors, and whether it carries the
    configured HTTP client ([oidc.ClientContext]). *)
Record Ctx := mkCtx { ctxNodes : list ctxNode; ctxHTTP : bool }.

Inductive ctxError := Canceled | DeadlineExceeded.

#[export] Instance ctxError_eq_dec : EqDecision ctxError.
Proof. solve_decision. Defined.

(** [context.WithoutCancel]: the values stay, the cancellation does not. *)
Definition WithoutCancel (c : Ctx) : Ctx := mkCtx [] (ctxHTTP c).

Definition ctxErrError (e : ctxError) : error :=
  ESentinel match e with Canceled => context_Canceled | DeadlineExceeded => context_DeadlineExceeded end.

#[export] Instance Ctx_eq_dec : EqDecision Ctx.
Proof. solve_decision. Defined.
#[export] Instance Ctx_countable : Countable Ctx.
Proof.
  by refine (inj_countable' (fun c => (ctxNodes c, ctxHTTP c)) (fun p => mkCtx p.1 p.2) _); intros [].
Defined.

(** ** Events *)

Inductive clientEvent :=
| EventLoggedIn
| EventLoggedOut
| EventTokenRefreshed
| EventSessionExpired
| EventInitFailed.

#[export] Instance clientEvent_eq_dec : EqDecision clientEvent.
Proof. solve_decision. Defined.

(** ** Operations in flight *)

(** The objects below are immutable and their addresses ([loPtr], [ioPtr],
    [raPtr]) are never reused, so pointer comparison is equality of records. *)

(** [lifecycleOperation]. *)
Record lifecycleOperation' := mkLifecycleOperation {
  loPtr : nat;
  loID : Z;
  loKind : lifecycleOperationKind;
  loParent : Ctx;
  loCtx : Ctx
}.

(** [initOperation]. *)
Record initOperation' := mkInitOperation {
  ioPtr : nat;
  ioID : Z;
  ioParent : Ctx;
  ioCtx : Ctx
}.

#[export] Instance lifecycleOperation_eq_dec : EqDecision lifecycleOperation'.
Proof. solve_decision. Defined.
#[export] Instance initOperation_eq_dec : EqDecision initOperation'.
Proof. solve_decision. Defined.

(** [refreshAttempt]: the fields that change after its creation. *)
Record attemptCell := mkAttemptCell {
  participants : Z;
  aDone : bool;                 (* [done] is closed *)
  aComplete : bool;             (* [complete] is closed *)
  aState : TokenState;
  aErr : option error
}.

#[export] Instance attemptCell_settable : Settable attemptCell :=
  fun a => mkAttemptCell (participants a) (aDone a) (aComplete a) (aState a) (aErr a).

Definition freshCell : attemptCell := mkAttemptCell 1 false false zeroTokenState None.

(** Its address and the fields fixed at creation. *)
Record refreshAttempt' := mkRefreshAttempt {
  raPtr : nat;
  raRevision : Z;
  raSnapshot : TokenState;
  raCtx : Ctx
}.

#[export] Instance refreshAttempt_eq_dec : EqDecision refreshAttempt'.
Proof. solve_decision. Defined.
#[export] Instance refreshAttempt_countable : Countable refreshAttempt'.
Proof.
  by refine (inj_countable' (fun a => (raPtr a, raRevision a, raSnapshot a, raCtx a))
               (fun '(p, r, s, c) => mkRefreshAttempt p r s c) _); intros [].
Defined.

(** [initSnapshot] (client.go). *)
Record initSnapshot := mkInitSnapshot {
  snProvider : Provider;
  snVerifier : IDTokenVerifier;
  snOAuth2 : oauth2Config;
  snEndSession : string;
  snRevocation : string
}.

(** ** The world *)

Record World (St : Type) := mkWorld {
  cs : ClientState;
  store : St;
  ctxErrs : gmap ctxNode ctxError;
  ctxNext : nat;
  ptrNext : nat;
  initSeq : Z;
  initOperation : option initOperation';
  lifecycleSeq : Z;
  lifecycleOperation : option lifecycleOperation';
  lifecycleFlow : bool;                       (* the one permit is taken *)
  attemptCells : gmap nat attemptCell;
  refreshAttempt : option refreshAttempt';
  handles : gmap nat Ctx;                     (* [refreshLoopHandle]s: their contexts *)
  handlesDone : gset nat;
  pendingEvents : list clientEvent;
  eventDispatching : bool;
  (* ghost state *)
  trace : list observation;
  enqueued : list clientEvent;
  dispatched : list clientEvent
}.

Arguments mkWorld {St}.
Arguments cs {St} w : rename.
Arguments store {St} w : rename.
Arguments ctxErrs {St} w : rename.
Arguments ctxNext {St} w : rename.
Arguments ptrNext {St} w : rename.
Arguments initSeq {St} w : rename.
Arguments initOperation {St} w : rename.
Arguments lifecycleSeq {St} w : rename.
Arguments lifecycleOperation {St} w : rename.
Arguments lifecycleFlow {St} w : rename.
Arguments attemptCells {St} w : rename.
Arguments refreshAttempt {St} w : rename.
Arguments handles {St} w : rename.
Arguments handlesDone {St} w : rename.
Arguments pendingEvents {St} w : rename.
Arguments eventDispatching {St} w : rename.
Arguments trace {St} w : rename.
Arguments enqueued {St} w : rename.
Arguments dispatched {St} w : rename.

#[export] Instance World_settable St : Settable (World St) :=
  fun w => mkWorld (cs w) (store w) (ctxErrs w) (ctxNext w) (ptrNext w) (initSeq w)
    (initOperation w) (lifecycleSeq w) (lifecycleOperation w) (lifecycleFlow w)
    (attemptCells w) (refreshAttempt w) (handles w) (handlesDone w) (pendingEvents w)
    (eventDispatching w) (trace w) (enqueued w) (dispatched w).

(** The mutexes held across actions, and the roles the Client's flags, pointers
    and channels give out: the goroutine that drains the event queue
    ([eventDispatching]), the one that runs a refresh attempt (while
    [Client.refreshAttempt] points to it) and the one whose browser flow is running
    ([lifecycleFlow]). *)
Inductive Lk :=
| stateCommitMu | lifecycleMu | drainRole | flowRole
| attemptRole (a : refreshAttempt').

#[export] Instance Lk_eq_dec : EqDecision Lk.
Proof. solve_decision. Defined.
#[export] Instance Lk_countable : Countable Lk.
Proof.
  refine (inj_countable'
    (fun l => match l with
              | attemptRole a => inr a
              | stateCommitMu => inl 0 | lifecycleMu => inl 1 | drainRole => inl 2 | flowRole => inl 3
              end%nat)
    (fun s : nat + refreshAttempt' =>
       match s with
       | inr a => attemptRole a
       | inl 0 => stateCommitMu | inl 1 => lifecycleMu | inl 2 => drainRole | inl _ => flowRole
       end%nat) _).
  by intros [].
Defined.

(** ** Questions to the environment *)

(** What the library reads of an [oauth2.Token]; [tokenExtraID] is
    [Extra("id_token").(string)], empty when absent or not a string. *)
Record Token := mkToken {
  tAccessToken : string;
  tRefreshToken : string;
  tExpiry : Time;
  tokenExtraID : string
}.

Inductive selected := SelDone | SelWake | SelTimer | SelPermit | SelComplete.

Inductive logLevel := LogDebug | LogInfo | LogWarn.

Inductive query : Type -> Type :=
| QNow : query Time
| QNewProvider (ctx : Ctx) (issuer : string) : query (result error Provider)
| QGenerateVerifier : query string
| QRandRead : query (result error string)             (* 32 bytes *)
| QAuthCodeURL (cfg : oauth2Config) (state pkceVerifier : string)
    (params : list (string * string)) : query string
| QRedirectURI : query string
| QPostLogoutRedirectURI : query string
| QStartAuthFlow (ctx : Ctx) (authURL : string) : query (result error string)
| QStartLogoutFlow (ctx : Ctx) (logoutURL : string) : query (result error string)
| QExchange (ctx : Ctx) (cfg : oauth2Config) (code pkceVerifier : string)
    (params : gmap string string) : query (result error Token)
| QTokenSource (ctx : Ctx) (cfg : oauth2Config) (refreshToken : string) : query (result error Token)
| QVerify (ctx : Ctx) (v : IDTokenVerifier) (raw : string) : query (result error IDTokenInfo)
| QRevocationPost (ctx : Ctx) (endpoint body : string) : query (result error Z)
| QEmit (e : clientEvent) : query unit
| QLog (level : logLevel) (msg : string) : query unit
| QSelect : query selected
| QPanic (msg : string) : query Empty_set.            (* a run-time panic *)

Section World.
  Context {St : Type}.
  Abbreviation World := (World St).
  Abbreviation prog := (@prog World Lk query).

Definition onCS (f : ClientState -> ClientState) (w : World) : World := w <| cs := f (cs w) |>.

(** An action of the mutex-protected state that returns a value. *)
Definition actCS {X} (f : ClientState -> X * ClientState) : prog X :=
  act (fun w => let '(x, c) := f (cs w) in (x, w <| cs := c |>)).

Definition observe (o : observation) (w : World) : World := w <| trace := trace w ++ [o] |>.

(** ** Context operations *)

(** [ctx.Err()]: the error of the nearest node that has one.  A node is only
    given an error while its context has none, so this is the first error. *)
Fixpoint nodesErr (errs : gmap ctxNode ctxError) (ns : list ctxNode) : option ctxError :=
  match ns with
  | [] => None
  | n :: ns => match errs !! n with Some e => Some e | None => nodesErr errs ns end
  end.

Definition ctxErr (c : Ctx) (w : World) : option ctxError := nodesErr (ctxErrs w) (ctxNodes c).
Definition ctxErrored (c : Ctx) (w : World) : bool :=
  match ctxErr c w with Some _ => true | None => false end.

(** A child context made by [WithCancel] or [WithTimeout]. *)
Definition childCtx (k : ctxKind) (parent : Ctx) (w : World) : Ctx * World :=
  (mkCtx ((k, ctxNext w) :: ctxNodes parent) (ctxHTTP parent), w <| ctxNext := S (ctxNext w) |>).

(** Its [CancelFunc]. *)
Definition cancelCtx (c : Ctx) (w : World) : World :=
  match ctxNodes c with
  | n :: _ => if ctxErrored c w then w else w <| ctxErrs := <[n := Canceled]> (ctxErrs w) |>
  | [] => w
  end.

Definition ctxErrP (c : Ctx) : prog (option ctxError) := read (ctxErr c).

Definition WithCancel (parent : Ctx) : prog Ctx := act (childCtx CtxCancel parent).
Definition WithTimeout (parent : Ctx) : prog Ctx := act (childCtx CtxTimeout parent).
Definition cancel (c : Ctx) : prog unit := modify (cancelCtx c).

(** A nil dereference or any other run-time panic. *)
Definition panic {A} (msg : string) : prog A :=
  Ask (QPanic msg) (fun _ _ => None) (fun x : Empty_set => match x with end).

(** A fresh address. *)
Definition newPtr (w : World) : nat * World := (ptrNext w, w <| ptrNext := S (ptrNext w) |>).

(** [Client.now]. *)
Definition now : prog Time := ask QNow.
Definition log (level : logLevel) (msg : string) : prog unit := ask (QLog level msg).
Definition Warn (msg : string) : prog unit := log LogWarn msg.

(** [httpContext]: [httpClient] says that a client is configured. *)
Definition httpContext (httpClient : bool) (c : Ctx) : Ctx :=
  if httpClient then mkCtx (ctxNodes c) true else c.

(** ** What the environment may do: cancel a caller's context, or let a
    timeout expire *)
Inductive env_step : World -> World -> Prop :=
| env_caller n e w :
    ctxErrs w !! (CtxCaller, n) = None ->
    env_step w (w <| ctxErrs := <[(CtxCaller, n) := e]> (ctxErrs w) |>)
| env_timeout n w :
    ctxErrs w !! (CtxTimeout, n) = None ->
    env_step w (w <| ctxErrs := <[(CtxTimeout, n) := DeadlineExceeded]> (ctxErrs w) |>).

(** A new Client over a store. *)
Definition initWorld (cfg : Config) (s : St) : World :=
  mkWorld (newClientState cfg) s ∅ 0 0 0 None 0 None false ∅ None ∅ ∅ [] false [] [] [].

End World.
