(* ===== verification/Events.v ===== *)
(** [events.go]: the event queue.  Whoever turns [eventDispatching] on must
    drain the queue after releasing the locks. *)
From S2P Require Import Prelude GoTime Proc Errors Tokens Config ClientState SessionSpec World.

Section Events.
  Context {St : Type}.
  Abbreviation World := (World St).
  Abbreviation prog := (@prog World Lk query).

(** [enqueueEvent]: its section under [eventMu]. *)
Definition enqueueEvent (event : clientEvent) (w : World) : bool * World :=
  let w := w <| pendingEvents := pendingEvents w ++ [event] |>
             <| enqueued := enqueued w ++ [event] |> in
  if eventDispatching w then (false, w)
  else (true, w <| eventDispatching := true |>).

(** The section of one iteration of [drainEvents]; the ghost records the event
    as handed to the emitter. *)
Definition popEvent (w : World) : option clientEvent * World :=
  match pendingEvents w with
  | [] => (None, w <| eventDispatching := false |>)
  | event :: rest => (Some event, w <| pendingEvents := rest |> <| dispatched := dispatched w ++ [event] |>)
  end.

(** [drainEvents]. *)
Definition drainEvents : prog unit :=
  loop (fun _ : unit =>
    let* next := act popEvent in
    match next with
    | None => Ret (inr tt)
    | Some event => ask (QEmit event) ;;; Ret (inl tt)
    end) tt.

(** The section of [emitEventIfRevision] under [mu]. *)
Definition checkRevision (revision : Z) (w : World) : bool * World :=
  if stateRevision (cs w) =? revision then (true, observe OExpired w) else (false, w).

(** [emitEventIfRevision], whose only caller emits [EventSessionExpired]. *)
Definition emitEventIfRevision (revision : Z) : prog bool :=
  lock stateCommitMu ;;;
  let* current := act (checkRevision revision) in
  let* shouldDrain := (if current then act (enqueueEvent EventSessionExpired) else Ret false) in
  unlock stateCommitMu ;;;
  when shouldDrain drainEvents ;;;
  Ret current.

End Events.
