(* ===== verification/Lifecycle.v ===== *)
(** [lifecycle.go]: admission, ownership and completion of Login and Logout
    operations, and the permit that serialises their browser flows; and the
    store calls made under [stateCommitMu]. *)
From S2P Require Import Prelude GoTime Proc Errors Tokens Config ClientState SessionSpec World.

Section Lifecycle.
  Context {St : Type} `{TP : TokenPersistence St}.
  Abbreviation World := (World St).
  Abbreviation prog := (@prog World Lk query).

(** ** The store, called under [stateCommitMu] but not [mu] *)

Definition storeSave (ts : TokenState) : prog (option error) :=
  act (fun w => let '(e, s) := Save (store w) ts in (e, w <| store := s |>)).
Definition storeLoad : prog (TokenState * option error) :=
  act (fun w => let '(r, s) := Load (store w) in (r, w <| store := s |>)).
Definition storeDelete : prog (option error) :=
  act (fun w => let '(e, s) := Delete (store w) in (e, w <| store := s |>)).

(** ** Admission *)

(** [beginLifecycleOperationLocked]. *)
Definition beginLifecycleOperationLocked (ctx : Ctx) (kind : lifecycleOperationKind) (w : World)
    : lifecycleOperation' * World :=
  let w := match lifecycleOperation w with Some old => cancelCtx (loCtx old) w | None => w end in
  let w := w <| lifecycleSeq := wrap_u64 (lifecycleSeq w + 1) |> in
  let '(operationCtx, w) := childCtx CtxCancel ctx w in
  let '(ptr, w) := newPtr w in
  let operation := mkLifecycleOperation ptr (lifecycleSeq w) kind ctx operationCtx in
  (operation, observe (OAdmit kind ptr) (w <| lifecycleOperation := Some operation |>)).

(** [beginLifecycleOperation]. *)
Definition beginLifecycleOperation (ctx : Ctx) (kind : lifecycleOperationKind)
    : prog (option lifecycleOperation') :=
  lock lifecycleMu ;;;
  let* operation := act (fun w =>
    if ctxErrored ctx w then (None, w)
    else let '(operation, w) := beginLifecycleOperationLocked ctx kind w in (Some operation, w)) in
  unlock lifecycleMu ;;;
  Ret operation.

(** The section of [finishLifecycleOperation]. *)
Definition clearLifecycleOperation (operation : lifecycleOperation') (w : World) : World :=
  if bool_decide (lifecycleOperation w = Some operation)
  then observe (OFinish (loPtr operation)) (w <| lifecycleOperation := None |>) else w.

(** [finishLifecycleOperation]. *)
Definition finishLifecycleOperation (operation : lifecycleOperation') : prog unit :=
  lock lifecycleMu ;;;
  modify (clearLifecycleOperation operation) ;;;
  unlock lifecycleMu ;;;
  cancel (loCtx operation).

(** ** Ownership *)

(** [lifecycleOperationOwned]. *)
Definition lifecycleOperationOwned (operation : lifecycleOperation') : prog bool :=
  lock lifecycleMu ;;;
  let* owned := read (fun w => bool_decide (lifecycleOperation w = Some operation)) in
  unlock lifecycleMu ;;;
  Ret owned.

(** [lifecycleOperationCurrentLocked]. *)
Definition lifecycleOperationCurrentLocked (operation : lifecycleOperation') (w : World) : bool :=
  bool_decide (lifecycleOperation w = Some operation) &&
  negb (ctxErrored (loParent operation) w) && negb (ctxErrored (loCtx operation) w).

(** [lifecycleOperationCurrent]. *)
Definition lifecycleOperationCurrent (operation : lifecycleOperation') : prog bool :=
  lock lifecycleMu ;;;
  let* current := read (lifecycleOperationCurrentLocked operation) in
  unlock lifecycleMu ;;;
  Ret current.

(** [flowCancelledCause]. *)
Definition flowCancelledCause (cause : option ctxError) : error :=
  match cause with
  | None => ESentinel ErrFlowCancelled
  | Some e => EPair (ESentinel ErrFlowCancelled) (ctxErrError e)
  end.

(** [flowCancelledError]. *)
Definition flowCancelledError (operation : lifecycleOperation') : prog error :=
  let* cause := ctxErrP (loParent operation) in Ret (flowCancelledCause cause).

(** [lifecycleOperationError]. *)
Definition lifecycleOperationError (operation : lifecycleOperation') (err : error) : prog error :=
  let* current := lifecycleOperationCurrent operation in
  if negb current then flowCancelledError operation else Ret err.

(** ** The browser flow permit *)

(** The select of [runLifecycleFlow]: send on the permit channel, or the
    operation's context is done. *)
Definition permitReady (operation : lifecycleOperation') (w : World) (x : selected) : option World :=
  match x with
  | SelPermit => if lifecycleFlow w then None else Some (w <| lifecycleFlow := true |>)
  | SelDone => if ctxErrored (loCtx operation) w then Some w else None
  | _ => None
  end.

Definition releasePermit (w : World) : World := w <| lifecycleFlow := false |>.

(** [runLifecycleFlow]. *)
Definition runLifecycleFlow (operation : lifecycleOperation')
    (start : Ctx -> prog (result error string)) : prog (result error string) :=
  let* current := lifecycleOperationCurrent operation in
  if negb current then let* e := flowCancelledError operation in Ret (Err e)
  else
    let* sel := select QSelect (permitReady operation) in
    match sel with
    | SelPermit =>
        deferred (modify releasePermit)
          (let* current := lifecycleOperationCurrent operation in
           if negb current then let* e := flowCancelledError operation in Ret (Err e)
           else
             let* r := start (loCtx operation) in
             let* current := lifecycleOperationCurrent operation in
             if negb current then let* e := flowCancelledError operation in Ret (Err e)
             else Ret r)
    | _ => let* e := flowCancelledError operation in Ret (Err e)
    end.

End Lifecycle.
