(* ===== verification/Refresh.v ===== *)
(** [refresh.go] and [verifyIDToken] of [verify.go]: the single-flight refresh
    attempt, its waiters, the commit of its result, and the commit of a refused
    credential. *)
From S2P Require Import Prelude GoTime Proc GoEncoding Errors Tokens Config Claims ClientState.
From S2P Require Import Schedule Persistence SessionSpec World Events Lifecycle.

(** [supersededRefreshToken]. *)
Definition supersededRefreshToken (persisted attempted : TokenState) : bool :=
  negb (strEmpty (RefreshToken persisted)) &&
  negb (String.eqb (RefreshToken persisted) (RefreshToken attempted)) &&
  After (LastAuthAt persisted) (LastAuthAt attempted).

(** What [checkAuthorizedParty] logs when it rejects. *)
Definition authorizedPartyWarning (clientID : string) (claims : list (string * any))
    (audience : list string) : option string :=
  match checkAuthorizedParty clientID claims audience with
  | None => None
  | Some _ =>
      Some match any_lookup claims "azp" with
           | None => "ID token has multiple audiences but no azp claim"
           | Some (AString _) => "ID token azp claim names a different client"
           | Some _ => "ID token azp claim is not a string"
           end
  end.

(** The checks of [performRefresh] on the subjects, given the accepted new ID
    token. *)
Definition checkSubject (oldIDToken : string) (newSubject : string) : option error :=
  if String.eqb newSubject ""
  then Some (newSessionIntegrityError "refreshed ID token subject is empty" None)
  else if String.eqb oldIDToken ""
  then Some (newSessionIntegrityError "current ID token unavailable during refresh" None)
  else match DecodeIDToken oldIDToken with
  | inl e => Some (newSessionIntegrityError "current ID token claims unavailable during refresh" (Some e))
  | inr claims =>
      if String.eqb (Subject claims) ""
      then Some (newSessionIntegrityError "current ID token subject is empty during refresh" None)
      else if negb (String.eqb newSubject (Subject claims))
      then Some (newSessionIntegrityError "refreshed ID token subject changed" None)
      else None
  end.

Section Refresh.
  Context {St : Type} `{TP : TokenPersistence St}.
  (** Whether [WithHTTPClient] configured a client. *)
  Context (httpClient : bool).
  Abbreviation World := (World St).
  Abbreviation prog := (@prog World Lk query).

Definition logPersistenceSaveFailure : prog unit :=
  Warn "token state persistence failed; retry pending".

(** [verifyIDToken]: go-oidc's verification, then the authorized party. *)
Definition verifyIDTokenP (ctx : Ctx) (v : IDTokenVerifier) (raw : string)
    : prog (result error IDTokenInfo) :=
  let* verified := ask (QVerify ctx v raw) in
  let* clientID := read (fun w => ClientID (config (cs w))) in
  let* _ :=
    match verified with
    | inr t =>
        match idClaims t with
        | inr claims =>
            match authorizedPartyWarning clientID claims (idAudience t) with
            | Some msg => Warn msg
            | None => skip
            end
        | inl _ => skip
        end
    | inl _ => skip
    end in
  Ret (verifyIDToken clientID verified).

(** [advanceStateLocked] in a commit section: the new revision is returned. *)
Definition advanceAt (o : observation) (ts : TokenState) (w : World) : Z * World :=
  let w := observe o (onCS (advanceStateLocked ts) w) in (stateRevision (cs w), w).

(** [Save], the record of its result and the event of a commit, in the order
    every commit path performs them under [stateCommitMu]. *)
Definition persistCommit (ts : TokenState) (revision : Z) (event : clientEvent)
    : prog (option error * bool) :=
  let* persistErr := storeSave ts in
  let* completedAt := now in
  modify (onCS (recordPersistenceSaveResult revision persistErr completedAt)) ;;;
  let* shouldDrain := act (enqueueEvent event) in
  Ret (persistErr, shouldDrain).

(** [refreshFailure]: stale failures are suppressed. *)
Definition refreshFailure (revision : Z) (err : error) : prog (TokenState * bool * option error) :=
  let* r := read (fun w =>
    if negb (stateRevision (cs w) =? revision) then (state (cs w), None)
    else (zeroTokenState, Some err)) in
  Ret (r.1, false, r.2).

(** The section of [performRefresh] that installs the new generation. *)
Definition commitRefresh (snapshot newState : TokenState) (revision : Z) (w : World)
    : (TokenState + Z) * World :=
  if negb (stateRevision (cs w) =? revision) then (inl (state (cs w)), w)
  else let '(committed, w) := advanceAt (ORefresh snapshot newState) newState w in (inr committed, w).

(** The last part of [performRefresh]. *)
Definition commitRefreshed (snapshot newState : TokenState) (revision : Z)
    : prog (TokenState * bool * option error) :=
  lock stateCommitMu ;;;
  let* r := act (commitRefresh snapshot newState revision) in
  match r with
  | inl current => unlock stateCommitMu ;;; Ret (current, false, None)
  | inr committedRevision =>
      let* p := persistCommit newState committedRevision EventTokenRefreshed in
      unlock stateCommitMu ;;;
      when (match p.1 with Some _ => true | None => false end) logPersistenceSaveFailure ;;;
      Ret (newState, p.2, None)
  end.

(** The middle part: the new ID token, if any, must be verified and name the
    same subject.  [inl] is a failure. *)
Definition refreshedIDToken (ctx : Ctx) (v : IDTokenVerifier) (snapshot : TokenState)
    (newToken : Token) : prog (error + string) :=
  let idToken := tokenExtraID newToken in
  if String.eqb idToken "" then Ret (inr (IDToken snapshot))
  else
    let* verified := verifyIDTokenP ctx v idToken in
    match verified with
    | inl err =>
        Ret (inl (newSessionIntegrityError "refreshed ID token validation failed" (Some err)))
    | inr t =>
        match checkSubject (IDToken snapshot) (idSubject t) with
        | Some err => Ret (inl err)
        | None => Ret (inr idToken)
        end
    end.

(** [performRefresh]: the resulting state, whether events must be drained, and
    the error. *)
Definition performRefresh (ctx : Ctx) (snapshot : TokenState) (revision : Z)
    : prog (TokenState * bool * option error) :=
  let* snap := read (fun w => (oauth2 (cs w), verifier (cs w))) in
  match snap with
  | (Some oauthCfg, Some v) =>
      let ctx := httpContext httpClient ctx in
      let* r := ask (QTokenSource ctx oauthCfg (RefreshToken snapshot)) in
      match r with
      | inl err => refreshFailure revision (refreshRequestError err)
      | inr newToken =>
          let refreshToken :=
            if String.eqb (tRefreshToken newToken) "" then RefreshToken snapshot
            else tRefreshToken newToken in
          let* id := refreshedIDToken ctx v snapshot newToken in
          match id with
          | inl err => refreshFailure revision err
          | inr idToken =>
              let* now := now in
              commitRefreshed snapshot
                (mkTokenState (tAccessToken newToken) refreshToken idToken (tExpiry newToken) now)
                revision
          end
      end
  | _ => Ret (zeroTokenState, false, Some (ESentinel ErrNotInitialized))
  end.

(** ** A refused credential *)

Inductive refusalCheck := RefusalStale | RefusalInconclusive | RefusalProceed.

(** The first section of [commitCredentialRefusal]. *)
Definition checkRefusal (revision : Z) (w : World) : refusalCheck :=
  if negb (stateRevision (cs w) =? revision) then RefusalStale
  else if refreshInconclusiveLocked revision (cs w) then RefusalInconclusive
  else RefusalProceed.

(** Its second section. *)
Definition commitRefused (snapshot : TokenState) (revision : Z) (w : World) : option Z * World :=
  if negb (stateRevision (cs w) =? revision) then (None, w)
  else let '(committed, w) := advanceAt (ORefused snapshot) (refusedState snapshot) w in
       (Some committed, w).

(** [commitCredentialRefusal]: whether events must be drained. *)
Definition commitCredentialRefusal (attempt : refreshAttempt') (refreshErr : option error) : prog bool :=
  let refused := match refreshErr with Some e => isCredentialRefusedError e | None => false end in
  if negb refused then Ret false
  else
    lock stateCommitMu ;;;
    let* check := read (checkRefusal (raRevision attempt)) in
    match check with
    | RefusalStale => unlock stateCommitMu ;;; Ret false
    | RefusalInconclusive =>
        unlock stateCommitMu ;;;
        Warn "treating refresh refusal as inconclusive" ;;;
        Ret false
    | RefusalProceed =>
        let* loaded := storeLoad in
        let loadFailed := match loaded.2 with Some _ => true | None => false end in
        if negb loadFailed && supersededRefreshToken loaded.1 (raSnapshot attempt) then
          unlock stateCommitMu ;;;
          Warn "treating refresh refusal as superseded" ;;;
          Ret false
        else
          deferred (when loadFailed (Warn "could not read persisted state"))
            (let* committed := act (commitRefused (raSnapshot attempt) (raRevision attempt)) in
             match committed with
             | None => unlock stateCommitMu ;;; Ret false
             | Some committedRevision =>
                 let* p := persistCommit (refusedState (raSnapshot attempt)) committedRevision
                             EventSessionExpired in
                 unlock stateCommitMu ;;;
                 when (match p.1 with Some _ => true | None => false end) logPersistenceSaveFailure ;;;
                 Ret p.2
             end)
    end.

(** ** The attempt *)

Definition cell (ptr : nat) (w : World) : attemptCell := default freshCell (attemptCells w !! ptr).
Definition updCell (ptr : nat) (f : attemptCell -> attemptCell) (w : World) : World :=
  w <| attemptCells := <[ptr := f (cell ptr w)]> (attemptCells w) |>.

Inductive beginResult :=
| BeginReturn (current : TokenState) (err : option error)
| BeginLead (attempt : refreshAttempt')
| BeginJoin (attempt : refreshAttempt')
| BeginWait (active : refreshAttempt').

(** The schedule still holds the claim of a supervisor's attempt. *)
Definition claimHeld (revision claimID : Z) (c : ClientState) : bool :=
  let s := refreshSchedule c in
  sValid s && (sRevision s =? revision) && (sClaimID s =? claimID) &&
  bool_decide (disposition s = refreshLoopActive).

(** One iteration of [beginRefreshAttempt], under [refreshMu] and [mu], at the
    clock reading [t]. *)
Definition beginSection (ctx : Ctx) (snapshot : TokenState) (expectedRevision : option Z)
    (expectedClaimID : Z) (t : Time) (w : World) : beginResult * World :=
  let c := cs w in
  let current := state c in
  let revision := stateRevision c in
  if (match expectedRevision with Some r => negb (revision =? r) | None => false end)
  then (BeginReturn current None, w)
  else if negb (bool_decide (current = snapshot)) then (BeginReturn current None, w)
  else if refreshIntegrityBlockedLocked c then
    (BeginReturn current
       (Some (newSessionIntegrityError "token generation is blocked after an integrity failure" None)), w)
  else if refreshPermanentlyBlockedLocked c then
    (BeginReturn current (Some (ESentinel errRefreshPermanentlyBlocked)), w)
  else if negb (expectedClaimID =? 0) && negb (claimHeld revision expectedClaimID c) then
    (BeginReturn current None, w)
  else if negb (expectedClaimID =? 0) && negb (Before t (ExpiresAt snapshot)) then
    (BeginReturn current (Some (ESentinel errScheduledRefreshExpired)), w)
  else match oauth2 c, verifier c with
  | Some _, Some _ =>
      match refreshAttempt w with
      | None =>
          let '(attemptCtx, w) := childCtx CtxCancel (WithoutCancel ctx) w in
          let '(ptr, w) := newPtr w in
          let attempt := mkRefreshAttempt ptr revision snapshot attemptCtx in
          (BeginLead attempt,
           updCell ptr (fun _ => freshCell) (w <| refreshAttempt := Some attempt |>))
      | Some active =>
          if (raRevision active =? revision) && (0 <? participants (cell (raPtr active) w)) then
            (BeginJoin active,
             updCell (raPtr active) (fun a => a <| participants := participants a + 1 |>) w)
          else (BeginWait active, w)
      end
  | _, _ => (BeginReturn zeroTokenState (Some (ESentinel ErrNotInitialized)), w)
  end.

Definition doneReady (ctx : Ctx) (ptr : nat) (w : World) (x : selected) : option World :=
  match x with
  | SelComplete => if aDone (cell ptr w) then Some w else None
  | SelDone => if ctxErrored ctx w then Some w else None
  | _ => None
  end.

(** [beginRefreshAttempt]: an attempt with its leadership, or what to return. *)
Definition beginRefreshAttempt (ctx : Ctx) (snapshot : TokenState) (expectedRevision : option Z)
    (expectedClaimID : Z) : prog ((TokenState * option error) + (refreshAttempt' * bool)) :=
  let* e := ctxErrP ctx in
  match e with
  | Some e => Ret (inl (zeroTokenState, Some (ctxErrError e)))
  | None =>
      loop (fun _ : unit =>
        let* t := now in
        let* r := act (beginSection ctx snapshot expectedRevision expectedClaimID t) in
        match r with
        | BeginReturn current err => Ret (inr (inl (current, err)))
        | BeginLead attempt => Ret (inr (inr (attempt, true)))
        | BeginJoin attempt => Ret (inr (inr (attempt, false)))
        | BeginWait active =>
            let* sel := select QSelect (doneReady ctx (raPtr active)) in
            match sel with
            | SelDone =>
                let* e := ctxErrP ctx in
                Ret (inr (inl (zeroTokenState, option_map ctxErrError e)))
            | _ => Ret (inl tt)
            end
        end) tt
  end.

(** [releaseRefreshParticipant]: the last participant to leave cancels the
    attempt. *)
Definition releaseRefreshParticipant (attempt : refreshAttempt') (w : World) : World :=
  let w := updCell (raPtr attempt) (fun a => a <| participants := participants a - 1 |>) w in
  if (participants (cell (raPtr attempt) w) =? 0) && bool_decide (refreshAttempt w = Some attempt)
  then cancelCtx (raCtx attempt) w else w.

Definition completeReady (ctx : Ctx) (ptr : nat) (w : World) (x : selected) : option World :=
  match x with
  | SelComplete => if aComplete (cell ptr w) then Some w else None
  | SelDone => if ctxErrored ctx w then Some w else None
  | _ => None
  end.

(** [waitForRefreshAttempt]. *)
Definition waitForRefreshAttempt (ctx : Ctx) (attempt : refreshAttempt')
    : prog (TokenState * option error) :=
  let* sel := select QSelect (completeReady ctx (raPtr attempt)) in
  match sel with
  | SelComplete =>
      modify (releaseRefreshParticipant attempt) ;;;
      let* a := read (cell (raPtr attempt)) in
      match aErr a with
      | Some e => Ret (aState a, Some e)
      | None => let* current := read (fun w => state (cs w)) in Ret (current, None)
      end
  | _ =>
      modify (releaseRefreshParticipant attempt) ;;;
      let* e := ctxErrP ctx in
      Ret (zeroTokenState, option_map ctxErrError e)
  end.

(** How [finishRefreshAttempt] records a failure, at the clock reading [t]. *)
Definition recordRefreshFailure (attempt : refreshAttempt') (err : error) (t : Time) (w : World)
    : ClientState :=
  if isSessionIntegrityError err
  then blockRefreshIntegrityLocked (raRevision attempt) t (cs w)
  else if IsPermanentError err
  then blockRefreshPermanentLocked (raRevision attempt) (raSnapshot attempt) t (cs w)
  else if ctxErrored (raCtx attempt) w &&
          match errors_AsAuth err with Some _ => false | None => true end
  then markRefreshInconclusiveLocked (raRevision attempt) (cs w)
  else cs w.

(** [finishRefreshAttempt]: under [refreshMu]. *)
Definition finishRefreshAttempt (attempt : refreshAttempt') (ts : TokenState) (err : option error)
    (t : Time) (w : World) : World :=
  let w := match err with
           | Some e => w <| cs := recordRefreshFailure attempt e t w |>
           | None => w
           end in
  let w := updCell (raPtr attempt) (fun a => a <| aState := ts |> <| aErr := err |> <| aDone := true |>) w in
  let w := if bool_decide (refreshAttempt w = Some attempt)
           then w <| refreshAttempt := None |> else w in
  cancelCtx (raCtx attempt) w.

(** [runRefreshAttempt]: the goroutine of the leader. *)
Definition runRefreshAttempt (attempt : refreshAttempt') : prog unit :=
  let* r := performRefresh (raCtx attempt) (raSnapshot attempt) (raRevision attempt) in
  let '(ts, performDrain, refreshErr) := r in
  let* refusalDrain := commitCredentialRefusal attempt refreshErr in
  let* t := now in
  modify (finishRefreshAttempt attempt ts refreshErr t) ;;;
  when (refusalDrain || performDrain) drainEvents ;;;
  modify (updCell (raPtr attempt) (fun a => a <| aComplete := true |>)).

(** [refreshAtRevision]: the state, whether a request was started, the error. *)
Definition refreshAtRevision (ctx : Ctx) (snapshot : TokenState) (expectedRevision : option Z)
    (expectedClaimID : Z) : prog (TokenState * bool * option error) :=
  let* r := beginRefreshAttempt ctx snapshot expectedRevision expectedClaimID in
  match r with
  | inl (current, err) => Ret (current, false, err)
  | inr (attempt, leader) =>
      when leader (fork (runRefreshAttempt attempt)) ;;;
      let* r := waitForRefreshAttempt ctx attempt in
      Ret (r.1, true, r.2)
  end.

(** [refreshForRevision] and [refreshForSchedule]. *)
Definition refreshForRevision (ctx : Ctx) (snapshot : TokenState) (revision : Z)
    : prog (TokenState * bool * option error) := refreshAtRevision ctx snapshot (Some revision) 0.
Definition refreshForSchedule (ctx : Ctx) (snapshot : TokenState) (revision claimID : Z)
    : prog (TokenState * bool * option error) := refreshAtRevision ctx snapshot (Some revision) claimID.

(** [refresh]. *)
Definition refresh (ctx : Ctx) (snapshot : TokenState) : prog (TokenState * option error) :=
  let* r := refreshAtRevision ctx snapshot None 0 in Ret (r.1.1, r.2).

(** ** [AccessToken] (accesstoken.go) *)

(** [AccessToken]. *)
Definition AccessToken (ctx : Ctx) : prog string :=
  let* snap := read (fun w => (state (cs w), stateRevision (cs w),
                               refreshIntegrityBlockedLocked (cs w),
                               refreshPermanentlyBlockedLocked (cs w))) in
  let '(ts, revision, integrityBlocked, permanentlyBlocked) := snap in
  if IsZero ts || integrityBlocked then Ret ""
  else
    let* t := now in
    if Before t (AddDur (ExpiresAt ts) (- tokenExpiryBuffer)) then Ret (Tokens.AccessToken ts)
    else
      let fallback := let* t := now in read (fun w => usableAccessToken t (cs w)) in
      if negb (strEmpty (RefreshToken ts)) && negb permanentlyBlocked then
        let* isInit := read (fun w => initialized (cs w)) in
        if isInit then
          let* r := refreshForRevision ctx ts revision in
          match r.2 with
          | None => Ret (Tokens.AccessToken r.1.1)
          | Some err =>
              if isSessionIntegrityError err then
                Warn "token refresh failed a session integrity check" ;;;
                let* t := now in
                modify (onCS (blockRefreshIntegrityLocked revision t)) ;;;
                Ret ""
              else if IsPermanentError err then
                Warn "token refresh permanently failed" ;;;
                let* t := now in
                modify (onCS (blockRefreshPermanentLocked revision ts t)) ;;;
                fallback
              else
                log LogDebug "token refresh failed in AccessToken" ;;;
                fallback
          end
        else fallback
      else fallback.

End Refresh.
