(* ===== verification/Login.v ===== *)
(** [login.go]: the authorization code flow with PKCE. *)
From S2P Require Import Prelude GoTime Proc GoStrings GoUrl GoEncoding Errors Tokens Config.
From S2P Require Import Claims ClientState Schedule Persistence SessionSpec World Events.
From S2P Require Import Lifecycle Refresh.

(** ** The callback *)

(** The checks of [Login] on the callback URL, in order: well-formedness, the
    state correlation, the provider's error, the code. *)
Definition checkCallback (state callbackURL : string) : result error string :=
  match Parse callbackURL with
  | None => Err (EText "pkceflow: invalid callback URL")
  | Some parsed =>
      if negb (IsAbs parsed) then Err (EText "pkceflow: invalid callback URL")
      else match ParseQuery (RawQuery parsed) with
      | None => Err (EText "pkceflow: invalid callback URL query")
      | Some query =>
          match Values_lookup query "state" with
          | [returnedState] =>
              if strEmpty returnedState then Err (ESentinel ErrStateMismatch)
              else if negb (String.eqb state returnedState) then Err (ESentinel ErrStateMismatch)
              else
                let errCode := Values_Get query "error" in
                if negb (strEmpty errCode)
                then Err (EAuth (mkAuthError errCode (Values_Get query "error_description")))
                else match Values_lookup query "code" with
                | [code] =>
                    if strEmpty code
                    then Err (EText "pkceflow: callback missing authorization code") else Ok code
                | _ => Err (EText "pkceflow: callback missing authorization code")
                end
          | _ => Err (ESentinel ErrStateMismatch)
          end
      end
  end.

Section Login.
  Context {St : Type} `{TP : TokenPersistence St}.
  (** Whether [WithHTTPClient] configured a client. *)
  Context (httpClient : bool).
  Abbreviation World := (World St).
  Abbreviation prog := (@prog World Lk query).

(** [randomState]. *)
Definition randomState : prog (result error string) :=
  let* r := ask QRandRead in
  Ret match r with
      | inl err => Err (EWrap "pkceflow: failed to generate state" err)
      | inr b => Ok (b64_encode b)
      end.

(** [commitLoginState]: whether it committed, and the persistence error. *)
Definition commitLoginState (operation : lifecycleOperation') (newState : TokenState)
    : prog (bool * option error) :=
  lock lifecycleMu ;;;
  let* current := read (lifecycleOperationCurrentLocked operation) in
  if negb current then unlock lifecycleMu ;;; Ret (false, None)
  else
    lock stateCommitMu ;;;
    let* current := read (lifecycleOperationCurrentLocked operation) in
    if negb current then unlock stateCommitMu ;;; unlock lifecycleMu ;;; Ret (false, None)
    else
      let* revision := act (advanceAt (OLogin (loPtr operation) newState) newState) in
      let* p := persistCommit newState revision EventLoggedIn in
      unlock stateCommitMu ;;;
      unlock lifecycleMu ;;;
      when p.2 drainEvents ;;;
      Ret (true, p.1).

(** Return [err] unless the operation is no longer current. *)
Definition failLogin (operation : lifecycleOperation') (err : error) : prog (option error) :=
  let* e := lifecycleOperationError operation err in Ret (Some e).
Definition cancelledLogin (operation : lifecycleOperation') : prog (option error) :=
  let* e := flowCancelledError operation in Ret (Some e).

(** The last part of [Login]: the nonce, the new state and its commit. *)
Definition finishLogin (operation : lifecycleOperation') (nonce rawIDToken : string)
    (token : Token) (idToken : IDTokenInfo) : prog (option error) :=
  if negb (String.eqb nonce (idNonce idToken))
  then failLogin operation (EWrap "pkceflow" (ESentinel ErrNonceMismatch))
  else
    let* now := now in
    let newState := mkTokenState (tAccessToken token) (tRefreshToken token) rawIDToken
                      (tExpiry token) now in
    let* r := commitLoginState operation newState in
    if negb r.1 then cancelledLogin operation
    else
      when (match r.2 with Some _ => true | None => false end) logPersistenceSaveFailure ;;;
      Ret None.

(** The middle part of [Login]: exchange the code, take and verify the ID
    token. *)
Definition exchangeLogin (operation : lifecycleOperation') (ctx : Ctx) (cfg : Config)
    (oauthCfg : oauth2Config) (v : IDTokenVerifier) (pkceVerifier nonce code : string)
    : prog (option error) :=
  let* r := ask (QExchange ctx oauthCfg code pkceVerifier (ExtraTokenParams cfg)) in
  match r with
  | inl err => failLogin operation (EWrap "pkceflow: token exchange failed" (asAuthError err))
  | inr token =>
      let* current := lifecycleOperationCurrent operation in
      if negb current then cancelledLogin operation
      else
        let rawIDToken := tokenExtraID token in
        if strEmpty rawIDToken
        then failLogin operation (EText "pkceflow: no id_token in token response")
        else
          let* verified := verifyIDTokenP ctx v rawIDToken in
          match verified with
          | inl err => failLogin operation (EWrap "pkceflow: ID token validation failed" err)
          | inr idToken => finishLogin operation nonce rawIDToken token idToken
          end
  end.

(** [Login] once its operation is admitted. *)
Definition runLogin (operation : lifecycleOperation') (cfg : Config) (oauthCfg : oauth2Config)
    (v : IDTokenVerifier) : prog (option error) :=
  let ctx := httpContext httpClient (loCtx operation) in
  let* pkceVerifier := ask QGenerateVerifier in
  let* st := randomState in
  match st with
  | inl err => failLogin operation err
  | inr state =>
      let* nc := randomState in
      match nc with
      | inl err => failLogin operation err
      | inr nonce =>
          let* authURL := ask (QAuthCodeURL oauthCfg state pkceVerifier
                                 (("nonce", nonce) :: map_to_list (ExtraAuthParams cfg))) in
          let* callback := runLifecycleFlow operation
                             (fun flowCtx => ask (QStartAuthFlow flowCtx authURL)) in
          match callback with
          | inl err =>
              if errors_Is err ErrFlowCancelled then cancelledLogin operation
              else failLogin operation (EWrap "pkceflow: auth flow failed" err)
          | inr callbackURL =>
              match checkCallback state callbackURL with
              | inl err => failLogin operation err
              | inr code =>
                  let* current := lifecycleOperationCurrent operation in
                  if negb current then cancelledLogin operation
                  else exchangeLogin operation ctx cfg oauthCfg v pkceVerifier nonce code
              end
          end
      end
  end.

(** [Login]. *)
Definition Login (ctx0 : Ctx) : prog (option error) :=
  let* snap := read (fun w => (initialized (cs w), oauth2 (cs w), verifier (cs w), config (cs w))) in
  let '(isInit, o, v, cfg) := snap in
  if negb isInit then Ret (Some (ESentinel ErrNotInitialized))
  else match o, v with
  | Some oauthCfg, Some v =>
      let timed := 0 <? LoginTimeout cfg in
      let* ctx := (if timed then WithTimeout ctx0 else Ret ctx0) in
      deferred (when timed (cancel ctx))
        (let* e := ctxErrP ctx in
         match e with
         | Some _ => let* e := ctxErrP ctx in Ret (Some (flowCancelledCause e))
         | None =>
             let* operation := beginLifecycleOperation ctx lifecycleLogin in
             match operation with
             | None => let* e := ctxErrP ctx in Ret (Some (flowCancelledCause e))
             | Some operation =>
                 deferred (finishLifecycleOperation operation)
                   (runLogin operation cfg oauthCfg v)
             end
         end)
  | _, _ => panic "invalid memory address or nil pointer dereference"
  end.

End Login.
