(* ===== verification/Logout.v ===== *)
(** [logout.go]: the local logout commit, token revocation and RP-Initiated
    Logout. *)
From S2P Require Import Prelude GoTime Proc GoStrings GoUrl GoEncoding Errors Tokens Config.
From S2P Require Import Claims ClientState Schedule Persistence SessionSpec World Events.
From S2P Require Import Lifecycle Refresh Login.

Definition revocationTimeout : Z := 3 * Second.

(** [revocationEndpointAllowed]; the string is what it logs. *)
Definition revocationEndpointAllowed (issuerURL endpoint : string) : result string unit :=
  match Parse endpoint with
  | None => Err "skipping token revocation: unusable revocation_endpoint"
  | Some u =>
      if negb (IsAbs u) || String.eqb (Host u) "" ||
         (match User u with Some _ => true | None => false end) ||
         negb (String.eqb (Fragment u) "")
      then Err "skipping token revocation: unusable revocation_endpoint"
      else if String.eqb (Scheme u) "https" then Ok tt
      else if String.eqb (Scheme u) "http" && HasPrefix issuerURL "http://" then Ok tt
      else Err "skipping token revocation: revocation_endpoint is not https"
  end.

(** The form of the revocation request. *)
Definition revocationForm (clientID refreshToken : string) : Values :=
  <["token" := [refreshToken]]> (<["token_type_hint" := ["refresh_token"]]>
    (<["client_id" := [clientID]]> ∅)).

(** [buildLogoutURL]. *)
Definition buildLogoutURL (endpoint idToken postLogoutRedirectURI state : string)
    : result error string :=
  match Parse endpoint with
  | None => Err (EText "pkceflow: invalid end_session_endpoint")
  | Some u =>
      let q := Query u in
      let q := Values_Set q "id_token_hint" idToken in
      let q := Values_Set q "state" state in
      let q := if negb (strEmpty postLogoutRedirectURI)
               then Values_Set q "post_logout_redirect_uri" postLogoutRedirectURI else q in
      Ok (URL_String (u <| RawQuery := Encode q |>))
  end.

(** The validation of the post-logout callback: what is logged. *)
Definition checkLogoutCallback (state callbackURL : string) : option string :=
  if strEmpty callbackURL then None
  else match Parse callbackURL with
  | None => Some "failed to parse logout callback URL"
  | Some parsed =>
      if negb (IsAbs parsed) then Some "failed to parse logout callback URL"
      else match ParseQuery (RawQuery parsed) with
      | None => Some "failed to parse logout callback query"
      | Some query =>
          match query !! "state" with
          | None => None
          | Some [returned] =>
              if strEmpty returned || negb (String.eqb state returned)
              then Some "logout callback state mismatch" else None
          | Some _ => Some "logout callback state mismatch"
          end
      end
  end.

Section Logout.
  Context {St : Type} `{TP : TokenPersistence St}.
  (** Whether the flow handler implements [LogoutFlowHandler]. *)
  Context (logoutFlowHandler : bool).
  Abbreviation World := (World St).
  Abbreviation prog := (@prog World Lk query).

(** [revokeRefreshToken]. *)
Definition revokeRefreshToken (operation : lifecycleOperation') (endpoint refreshToken : string)
    : prog unit :=
  if strEmpty endpoint || strEmpty refreshToken then skip
  else
    let* owned := lifecycleOperationOwned operation in
    if negb owned then Warn "skipping refresh token revocation: logout was superseded"
    else
      let* cfg := read (fun w => config (cs w)) in
      match revocationEndpointAllowed (IssuerURL cfg) endpoint with
      | inl msg => Warn msg
      | inr _ =>
          let* ctx := WithTimeout (WithoutCancel (loCtx operation)) in
          deferred (cancel ctx)
            (let* resp := ask (QRevocationPost ctx endpoint
                                 (Encode (revocationForm (ClientID cfg) refreshToken))) in
             match resp with
             | inl _ => Warn "refresh token revocation request failed"
             | inr status =>
                 when ((status <? 200) || (300 <=? status)) (Warn "token revocation was not confirmed")
             end)
      end.

(** [doRPLogout]. *)
Definition doRPLogout (operation : lifecycleOperation') (endSession idToken : string) : prog unit :=
  let* current := lifecycleOperationCurrent operation in
  if negb current then skip
  else
    let* redirectURI := ask QRedirectURI in
    let* postLogout := (if logoutFlowHandler then ask QPostLogoutRedirectURI else Ret "") in
    let postLogoutURI := if strEmpty postLogout then redirectURI else postLogout in
    let startFlow (flowCtx : Ctx) (logoutURL : string) : prog (result error string) :=
      if logoutFlowHandler then ask (QStartLogoutFlow flowCtx logoutURL)
      else ask (QStartAuthFlow flowCtx logoutURL) in
    let* st := randomState in
    match st with
    | inl _ => Warn "failed to generate logout state"
    | inr state =>
        match buildLogoutURL endSession idToken postLogoutURI state with
        | inl _ => Warn "failed to build logout URL"
        | inr logoutURL =>
            let* r := runLifecycleFlow operation (fun flowCtx => startFlow flowCtx logoutURL) in
            match r with
            | inl err =>
                when (negb (errors_Is err ErrFlowCancelled)) (Warn "RP-Initiated Logout flow failed")
            | inr callbackURL =>
                match checkLogoutCallback state callbackURL with
                | Some msg => Warn msg
                | None => skip
                end
            end
        end
    end.

(** The section of [Logout] under [mu], which commits the local logout: the ID
    token, the refresh token and the two endpoints are returned. *)
Definition logoutLocked (c : ClientState) : (string * string * string * string) * ClientState :=
  let out := (IDToken (state c), RefreshToken (state c), endSessionEndpoint c, revocationEndpoint c) in
  let c := setStateLocked zeroTokenState c in
  let c := c <| persistenceRetry := zeroRetry |> <| restoreBlocked := true |> in
  (out, signalRefreshLoopLocked c).

Definition commitLogout (operation : lifecycleOperation') (w : World)
    : (string * string * string * string) * World :=
  let '(out, c) := logoutLocked (cs w) in
  (out, observe (OLogout (loPtr operation)) (w <| cs := c |>)).

(** The admission of [Logout]: an active Logout absorbs the new one. *)
Definition admitLogout (ctx : Ctx) (w : World) : option lifecycleOperation' * World :=
  if (match lifecycleOperation w with Some o => bool_decide (loKind o = lifecycleLogout) | None => false end)
  then (None, w)
  else let '(operation, w) := beginLifecycleOperationLocked ctx lifecycleLogout w in (Some operation, w).

(** [Logout] after the local commit. *)
Definition finishLogout (operation : lifecycleOperation')
    (out : string * string * string * string) : prog unit :=
  let '(idToken, refreshToken, endSession, revocation) := out in
  revokeRefreshToken operation revocation refreshToken ;;;
  when (negb (strEmpty endSession) && negb (strEmpty idToken)) (doRPLogout operation endSession idToken).

(** [Logout] under [lifecycleMu], which this releases: the admitted operation
    commits the local logout. *)
Definition runLogout (operation : lifecycleOperation') : prog unit :=
  lock stateCommitMu ;;;
  let* out := act (commitLogout operation) in
  let* persistErr := storeDelete in
  let* shouldDrain := act (enqueueEvent EventLoggedOut) in
  unlock stateCommitMu ;;;
  unlock lifecycleMu ;;;
  when (match persistErr with Some _ => true | None => false end)
    (Warn "failed to delete persisted tokens") ;;;
  when shouldDrain drainEvents ;;;
  finishLogout operation out.

(** [Logout].  The length of a timeout is not modelled: a deadline may pass at
    any moment. *)
Definition Logout (ctx0 : Ctx) : prog unit :=
  let* cfg := read (fun w => config (cs w)) in
  let timed := 0 <? LogoutTimeout cfg in
  let* ctx := (if timed then WithTimeout ctx0 else Ret ctx0) in
  deferred (when timed (cancel ctx))
    (lock lifecycleMu ;;;
     let* operation := act (admitLogout ctx) in
     match operation with
     | None => unlock lifecycleMu
     | Some operation => deferred (finishLifecycleOperation operation) (runLogout operation)
     end).

(** The budget of [Logout]'s context: [LogoutTimeout], plus the revocation
    budget when a revocation will be attempted. *)
Definition logoutBudget (c : ClientState) : Z :=
  LogoutTimeout (config c) +
  (if negb (strEmpty (revocationEndpoint c)) && negb (strEmpty (RefreshToken (state c)))
   then revocationTimeout else 0).

End Logout.
