(* ===== verification/Redirects.v ===== *)
(** [revocationHTTPClient] of [logout.go], and what it prevents: [http.Client.Do]
    follows redirects, and replays a request body on some of them. *)
From S2P Require Import Prelude.

(** ** net/http *)

Record Request := mkRequest { Method : string; URL : string; Body : option string }.
Record Response := mkResponse { StatusCode : Z; Location : option string }.

(** [CheckRedirect], given the next request and those made: follow, return the last
    response, or fail. *)
Inductive redirectDecision := Follow | UseLastResponse | Refuse.

(** The fields of [http.Client]; [Transport] is the part of the environment that
    answers a request, given those made before ([None] is an error). *)
Record Client := mkHTTPClient {
  Transport : list Request -> Request -> option Response;
  CheckRedirect : option (Request -> list Request -> redirectDecision)
}.
#[local] Instance Client_settable : Settable Client := fun c => mkHTTPClient (Transport c) (CheckRedirect c).

(** [redirectBehavior]: the method of the next request, and whether the body goes
    with it. *)
Definition redirectBehavior (method : string) (status : Z) : option (string * bool) :=
  if (status =? 301) || (status =? 302) || (status =? 303) then
    Some (if String.eqb method "GET" || String.eqb method "HEAD" then method else "GET", false)
  else if (status =? 307) || (status =? 308) then Some (method, true)
  else None.

(** [defaultCheckRedirect]: at most ten requests. *)
Definition defaultCheckRedirect (via : list Request) : redirectDecision :=
  if (10 <=? length via)%nat then Refuse else Follow.

Definition checkRedirect (c : Client) (req : Request) (via : list Request) : redirectDecision :=
  match CheckRedirect c with
  | Some check => check req via
  | None => defaultCheckRedirect via
  end.

Section Do.
  (** [req.URL.Parse(location)]. *)
  Context (resolve : string -> string -> option string).

(** The loop of [Client.do]: the requests made and what is returned ([None] is an
    error).  [fuel] bounds the requests of a CheckRedirect that never says no. *)
Fixpoint follow (fuel : nat) (c : Client) (first req : Request) (reqs : list Request) : list Request * option Response :=
  match fuel with
  | O => (reqs, None)
  | S fuel =>
      let made := reqs ++ [req] in
      match Transport c reqs req with
      | None => (made, None)
      | Some resp =>
          match redirectBehavior (Method req) (StatusCode resp) with
          | None => (made, Some resp)
          | Some (method, includeBody) =>
              match Location resp with
              | None => (made, Some resp)
              | Some location =>
                  match resolve (URL req) location with
                  | None => (made, None)
                  | Some u =>
                      let next := mkRequest method u (if (includeBody : bool) then Body first else None) in
                      match checkRedirect c next made with
                      | UseLastResponse => (made, Some resp)
                      | Refuse => (made, None)
                      | Follow => follow fuel c first next made
                      end
                  end
              end
          end
      end
  end.
Definition Do (fuel : nat) (c : Client) (req : Request) : list Request * option Response := follow fuel c req req [].

End Do.

(** ** The client of the revocation request *)

(** [http.DefaultClient] over a transport. *)
Definition DefaultClient transport : Client := mkHTTPClient transport None.

(** [revocationHTTPClient]: the base client is copied, not changed. *)
Definition revocationHTTPClient (transport : list Request -> Request -> option Response) (httpClient : option Client) : Client :=
  let base := match httpClient with None => DefaultClient transport | Some c => c end in
  let noRedirect := base in
  noRedirect <| CheckRedirect := Some (fun _ _ => UseLastResponse) |>.

(** The requests made so far stay made, and the next one is. *)
Lemma follow_keeps resolve c first : forall fuel req reqs,
  exists more, (follow resolve fuel c first req reqs).1 = reqs ++ more.
Proof.
  induction fuel as [|fuel IH]; intros req reqs; cbn [follow]; [exists []; by rewrite app_nil_r|].
  repeat case_match; try (by eexists);
    match goal with |- context [follow _ _ _ _ ?next ?made] => destruct (IH next made) as [more ->] end;
    rewrite <- app_assoc; by eexists.
Qed.

Lemma follow_made resolve c first fuel req reqs :
  exists more, (follow resolve (S fuel) c first req reqs).1 = reqs ++ req :: more.
Proof.
  cbn [follow]. repeat case_match; try (by exists []);
    match goal with |- context [follow _ _ ?c ?first ?next ?made] =>
      destruct (follow_keeps resolve c first fuel next made) as [more ->] end; rewrite <- app_assoc; by eexists.
Qed.

(** C15: The refresh token is posted once.  Whatever HTTP client the program was given,
    whatever the servers answer and wherever they redirect to, the client the
    revocation request runs on uses the same transport, makes that one request and
    returns its answer, also when that is a redirect.  The default client does more:
    to a 307 or 308 it replays the body, token and all, at the address it is sent to. *)
Theorem revocation_not_redirected resolve transport httpClient fuel req :
  (let c := revocationHTTPClient transport httpClient in
   Transport c = match httpClient with None => transport | Some base => Transport base end /\
   exists answer, Do resolve (S fuel) c req = ([req], answer) /\
     (forall resp, answer = Some resp -> Transport c [] req = Some resp) /\
     (answer = None -> forall resp, Transport c [] req = Some resp ->
        exists location, Location resp = Some location /\ resolve (URL req) location = None)) /\
  (forall resp location u, transport [] req = Some resp -> StatusCode resp = 307 \/ StatusCode resp = 308 ->
     Location resp = Some location -> resolve (URL req) location = Some u ->
     exists more, (Do resolve (S (S fuel)) (DefaultClient transport) req).1 = req :: mkRequest (Method req) u (Body req) :: more).
Proof.
  split.
  - cbv zeta. split; [by destruct httpClient|]. unfold Do. cbn [follow].
    set (c := revocationHTTPClient transport httpClient).
    assert (Hc : forall next made, checkRedirect c next made = UseLastResponse) by by destruct httpClient.
    destruct (Transport c [] req) as [resp|]; [|by eexists].
    destruct (redirectBehavior _ _) as [[method body]|]; [|by eexists].
    destruct (Location resp) as [location|] eqn:El; [|by eexists].
    destruct (resolve (URL req) location) as [u|] eqn:Er.
    + rewrite Hc. by eexists.
    + eexists. split; [done|]. split; [done|]. intros _ resp' [= <-]. by exists location.
  - intros resp location u Ht Hs Hl Hr. unfold Do. remember (S fuel) as n eqn:En. cbn [follow]. cbn [Transport DefaultClient]. rewrite Ht.
    assert (redirectBehavior (Method req) (StatusCode resp) = Some (Method req, true)) as ->.
    { unfold redirectBehavior. by destruct Hs as [-> | ->]. }
    rewrite Hl, Hr. change (checkRedirect _ _ _) with Follow. cbn iota. subst n. cbn [app].
    destruct (follow_made resolve (DefaultClient transport) req fuel (mkRequest (Method req) u (Body req)) [req]) as [more ->].
    by exists more.
Qed.

Definition exampleRequest : Request := mkRequest "POST" "https://idp.example/revoke" (Some "token=rt").
(** An endpoint that redirects everything to another host. *)
Definition exampleTransport (_ : list Request) (_ : Request) : option Response :=
  Some (mkResponse 307 (Some "https://evil.example/")).

Lemma revocation_not_redirected_witness :
  (Do (fun _ l => Some l) 5 (revocationHTTPClient exampleTransport None) exampleRequest).1 = [exampleRequest] /\
  exists more, (Do (fun _ l => Some l) 6 (DefaultClient exampleTransport) exampleRequest).1 =
    exampleRequest :: mkRequest "POST" "https://evil.example/" (Some "token=rt") :: more.
Proof.
  destruct (revocation_not_redirected (fun _ l => Some l) exampleTransport None 4 exampleRequest) as [[_ (answer & Hd & _)] Hr].
  split; [rewrite Hd; reflexivity|].
  apply (Hr (mkResponse 307 (Some "https://evil.example/")) "https://evil.example/" "https://evil.example/"); [reflexivity|left; reflexivity|reflexivity|reflexivity].
Defined.
