(* ===== verification/FlowProps.v ===== *)
(** What the browser flows accept and send: the callback of [Login], the
    [azp] check on an ID token, the logout URL, the revocation endpoint and the
    configuration. *)
From S2P Require Import Prelude GoTime GoStrings GoUrl UrlProps GoEncoding Errors Tokens Config.
From S2P Require Import Claims ClientState Login Logout.
From Stdlib Require Import Ascii.

(** ** The callback *)

(** When a callback correlates: an absolute URL with a well-formed query whose
    only [state] is the one that was sent. *)
Definition correlated (state callbackURL : string) (q : Values) : Prop :=
  exists u, Parse callbackURL = Some u /\ IsAbs u = true /\ ParseQuery (RawQuery u) = Some q /\
            Values_lookup q "state" = [state] /\ state <> "".

Lemma checkCallback_cases state callbackURL :
  (exists q, correlated state callbackURL q /\
     checkCallback state callbackURL =
       (if negb (strEmpty (Values_Get q "error"))
        then Err (EAuth (mkAuthError (Values_Get q "error") (Values_Get q "error_description")))
        else match Values_lookup q "code" with
             | [code] => if strEmpty code then Err (EText "pkceflow: callback missing authorization code")
                         else Ok code
             | _ => Err (EText "pkceflow: callback missing authorization code")
             end)) \/
  ((forall q, ~ correlated state callbackURL q) /\
   exists e, checkCallback state callbackURL = Err e /\
     (e = ESentinel ErrStateMismatch \/ e = EText "pkceflow: invalid callback URL" \/
      e = EText "pkceflow: invalid callback URL query")).
Proof.
  unfold checkCallback, correlated.
  destruct (Parse callbackURL) as [u|]; [|right; split; [by intros q (? & ? & _)|eauto]].
  destruct (IsAbs u) eqn:Ea; cbn [negb].
  2: { right. split; [|eauto]. intros q (? & [= <-] & ? & _). congruence. }
  destruct (ParseQuery (RawQuery u)) as [q|] eqn:Eq.
  2: { right. split; [|eauto]. intros q (? & [= <-] & _ & ? & _). congruence. }
  assert (Hno : (Values_lookup q "state" = [state] -> state = "") ->
                forall q', ~ exists u', Some u = Some u' /\ IsAbs u' = true /\
                  ParseQuery (RawQuery u') = Some q' /\ Values_lookup q' "state" = [state] /\ state <> "").
  { intros Hs q' (? & [= <-] & _ & Hq & Hl & Hne). rewrite Eq in Hq. injection Hq as <-. auto. }
  destruct (Values_lookup q "state") as [|s [|s' ss]] eqn:Es.
  - right. split; [|eauto]. by apply Hno.
  - destruct (strEmpty s) eqn:Ee.
    { right. split; [|eauto]. apply Hno. intros [= <-]. by apply strEmpty_true. }
    destruct (String.eqb state s) eqn:Eqs; cbn [negb].
    + apply String.eqb_eq in Eqs. subst s. left. exists q. split; [|done].
      exists u. by apply strEmpty_false in Ee.
    + right. split; [|eauto]. apply Hno. intros [= ->]. by rewrite String.eqb_refl in Eqs.
  - right. split; [|eauto]. by apply Hno.
Qed.

(** C17: The callback of Login.  A code is accepted exactly when the callback is an
    absolute URL whose query is well formed and carries exactly the state that was
    sent, no error, and exactly one code, which is not empty. *)
Theorem callback_accepted_iff state callbackURL code :
  checkCallback state callbackURL = Ok code <->
  exists q, correlated state callbackURL q /\ Values_Get q "error" = "" /\
            Values_lookup q "code" = [code] /\ code <> "".
Proof.
  destruct (checkCallback_cases state callbackURL) as [(q & Hc & ->)|[Hn (e & -> & _)]].
  2: { split; [done|]. intros (q & Hc & _). by apply Hn in Hc. }
  assert (Huniq : forall q', correlated state callbackURL q' -> q' = q).
  { intros q' (u' & Hu' & _ & Hq' & _). destruct Hc as (u & Hu & _ & Hq & _). congruence. }
  split.
  - destruct (strEmpty (Values_Get q "error")) eqn:Ee; cbn [negb]; [|done]. apply strEmpty_true in Ee.
    destruct (Values_lookup q "code") as [|c [|]] eqn:El; [done| |done].
    destruct (strEmpty c) eqn:Ec; [done|]. apply strEmpty_false in Ec. intros [= <-]. eauto.
  - intros (q' & Hc' & He & Hl & Hne). apply Huniq in Hc' as ->. rewrite He, Hl. cbn.
    apply strEmpty_false in Hne. by rewrite Hne.
Qed.

(** An error the callback reports is only believed after the state has been
    correlated: an [AuthError] comes from a callback that carries the state, and
    the callback of another flow is rejected without it. *)
Theorem callback_error_is_correlated state callbackURL e :
  checkCallback state callbackURL = Err (EAuth e) <->
  exists q, correlated state callbackURL q /\ Values_Get q "error" <> "" /\
            e = mkAuthError (Values_Get q "error") (Values_Get q "error_description").
Proof.
  destruct (checkCallback_cases state callbackURL) as [(q & Hc & ->)|[Hn (e' & -> & He)]].
  2: { split; [|intros (q & Hc & _); by apply Hn in Hc]. intros [= ->]. naive_solver. }
  assert (Huniq : forall q', correlated state callbackURL q' -> q' = q).
  { intros q' (u' & Hu' & _ & Hq' & _). destruct Hc as (u & Hu & _ & Hq & _). congruence. }
  split.
  - destruct (strEmpty (Values_Get q "error")) eqn:Ee; cbn [negb].
    + repeat case_match; intros; simplify_eq.
    + apply strEmpty_false in Ee. intros [= <-]. eauto.
  - intros (q' & Hc' & He & ->). apply Huniq in Hc' as ->. apply strEmpty_false in He. by rewrite He.
Qed.

(** The query a provider appends to the redirect URI. *)
Definition callbackQuery (state code : string) : Values :=
  <["code" := [code]]> (<["state" := [state]]> ∅).

Lemma callbackQuery_lookup state code k :
  Values_lookup (callbackQuery state code) k =
  if String.eqb k "code" then [code] else if String.eqb k "state" then [state] else [].
Proof.
  unfold callbackQuery, Values_lookup.
  destruct (String.eqb k "code") eqn:E1; [apply String.eqb_eq in E1 as ->; by rewrite lookup_insert_eq|].
  apply String.eqb_neq in E1. rewrite lookup_insert_ne by done.
  destruct (String.eqb k "state") eqn:E2; [apply String.eqb_eq in E2 as ->; by rewrite lookup_insert_eq|].
  apply String.eqb_neq in E2. rewrite lookup_insert_ne by done. by rewrite lookup_empty.
Qed.

Lemma callbackQuery_encoded state code : Encode (callbackQuery state code) <> "".
Proof.
  intros E. destruct (ParseQuery_Encode (callbackQuery state code)) as (q & Hq & Hl).
  rewrite E in Hq. change (Some (∅ : Values) = Some q) in Hq. injection Hq as <-.
  specialize (Hl "code"). rewrite callbackQuery_lookup in Hl. unfold Values_lookup in Hl.
  rewrite lookup_empty in Hl. discriminate.
Qed.

(** What the parameters of a callback say once its state is accepted: the
    provider's error, or exactly one code. *)
Definition authorizationResponse (query : Values) : result error string :=
  if strEmpty (Values_Get query "error")
  then match Values_lookup query "code" with
       | [code] => if strEmpty code then Err (EText "pkceflow: callback missing authorization code") else Ok code
       | _ => Err (EText "pkceflow: callback missing authorization code")
       end
  else Err (EAuth (mkAuthError (Values_Get query "error") (Values_Get query "error_description"))).

(** A callback with parameters that parse: one state, the expected one, or a
    mismatch. *)
Lemma checkCallback_parsed callbackURL u query state :
  Parse callbackURL = Some u -> IsAbs u = true -> ParseQuery (RawQuery u) = Some query -> state <> "" ->
  checkCallback state callbackURL =
    if decide (Values_lookup query "state" = [state]) then authorizationResponse query
    else Err (ESentinel ErrStateMismatch).
Proof.
  intros Hp Ha Hq Hs. unfold checkCallback, authorizationResponse. rewrite Hp, Ha, Hq. cbn [negb].
  destruct (Values_lookup query "state") as [|x [|y l]]; try by rewrite decide_False.
  destruct (decide ([x] = [state])) as [[= ->]|Hn].
  - apply strEmpty_false in Hs. rewrite Hs, String.eqb_refl. cbn [negb].
    by destruct (strEmpty (Values_Get query "error")).
  - destruct (strEmpty x); [done|]. destruct (String.eqb_spec state x); [by subst|done].
Qed.

(** The parameters only matter through their values. *)
Lemma authorizationResponse_ext q q' :
  (forall k, Values_lookup q k = Values_lookup q' k) -> authorizationResponse q = authorizationResponse q'.
Proof. intros Hl. unfold authorizationResponse, Values_Get. by rewrite !Hl. Qed.

(** The callback of an absolute URL extended by encoded values with one state. *)
Lemma checkCallback_encoded redirectURI u state v :
  Parse redirectURI = Some u -> IsAbs u = true ->
  ContainsByte redirectURI "#" = false -> ContainsByte redirectURI "?" = false ->
  Encode v <> "" -> Values_lookup v "state" = [state] -> state <> "" ->
  checkCallback state (redirectURI +:+ "?" +:+ Encode v) = authorizationResponse v.
Proof.
  intros Hp Ha H1 H2 Hne Hst Hs.
  destruct (ParseQuery_Encode v) as (q & Hq & Hl). destruct (Encode_safe v) as (E1 & E2 & E3).
  pose proof (Parse_with_query _ _ _ Hp Ha H1 H2 E1 E3 Hne) as Hparse.
  rewrite (checkCallback_parsed _ _ q state Hparse Ha Hq Hs).
  rewrite decide_True by (by rewrite Hl). by apply authorizationResponse_ext.
Qed.

(** Round trip of the authorization response.  Whatever bytes the state and
    the code consist of, the redirect URI extended by their encoded query is
    accepted and yields the code. *)
Theorem callback_roundtrip redirectURI u state code :
  Parse redirectURI = Some u -> IsAbs u = true ->
  ContainsByte redirectURI "#" = false -> ContainsByte redirectURI "?" = false ->
  state <> "" -> code <> "" ->
  checkCallback state (redirectURI +:+ "?" +:+ Encode (callbackQuery state code)) = Ok code.
Proof.
  intros Hp Ha H1 H2 Hs Hc.
  rewrite (checkCallback_encoded _ u);
    [|exact Hp|exact Ha|exact H1|exact H2|apply callbackQuery_encoded|apply callbackQuery_lookup|exact Hs].
  unfold authorizationResponse, Values_Get. rewrite !callbackQuery_lookup. cbn. apply strEmpty_false in Hc. by rewrite Hc.
Qed.

Lemma callback_roundtrip_witness :
  checkCallback "s&t=#" ("http://127.0.0.1:8000/callback" +:+ "?" +:+ Encode (callbackQuery "s&t=#" "a b/c"))
  = Ok "a b/c".
Proof.
  eapply (callback_roundtrip "http://127.0.0.1:8000/callback"); [vm_compute; reflexivity|reflexivity..|done|done].
Defined.

(** ** The logout URL *)

Lemma lookup_Set q k x k' :
  Values_lookup (Values_Set q k x) k' = if decide (k = k') then [x] else Values_lookup q k'.
Proof.
  unfold Values_Set, Values_lookup. case_decide as E; [by subst; rewrite lookup_insert_eq|].
  by rewrite lookup_insert_ne.
Qed.

(** The logout URL is the end-session endpoint with the same scheme, host,
    path and fragment, whose query, when parsed, holds exactly one ID token hint,
    one state and (when there is one) one post-logout redirect URI, and every
    other parameter of the endpoint unchanged.  It fails only on an endpoint that
    is no URL. *)
Theorem buildLogoutURL_query endpoint idToken uri state :
  match Parse endpoint with
  | None => exists e, buildLogoutURL endpoint idToken uri state = Err e
  | Some u =>
      exists raw q, buildLogoutURL endpoint idToken uri state = Ok (URL_String (u <| RawQuery := raw |>)) /\
        ParseQuery raw = Some q /\
        Values_lookup q "id_token_hint" = [idToken] /\ Values_lookup q "state" = [state] /\
        (uri <> "" -> Values_lookup q "post_logout_redirect_uri" = [uri]) /\
        (forall k, k <> "id_token_hint" -> k <> "state" ->
           (k = "post_logout_redirect_uri" -> uri = "") ->
           Values_lookup q k = Values_lookup (Query u) k)
  end.
Proof.
  unfold buildLogoutURL. destruct (Parse endpoint) as [u|]; [|by eexists].
  set (v := if negb (strEmpty uri)
            then Values_Set (Values_Set (Values_Set (Query u) "id_token_hint" idToken) "state" state)
                   "post_logout_redirect_uri" uri
            else Values_Set (Values_Set (Query u) "id_token_hint" idToken) "state" state).
  destruct (ParseQuery_Encode v) as (q & Hq & Hl). exists (Encode v), q.
  split; [done|]. split; [done|]. rewrite !Hl. unfold v.
  destruct (strEmpty uri) eqn:Eu; cbn [negb].
  - apply strEmpty_true in Eu as ->. rewrite !lookup_Set. split; [done|]. split; [done|].
    split; [done|]. intros k H1 H2 _. rewrite Hl. unfold v. cbn [strEmpty negb].
    rewrite !lookup_Set. by rewrite !decide_False by done.
  - rewrite !lookup_Set. split; [done|]. split; [done|]. split; [done|].
    apply strEmpty_false in Eu. intros k H1 H2 H3. rewrite Hl. unfold v.
    cbn [negb]. rewrite !lookup_Set.
    rewrite !decide_False; [done|done|done|]. intros <-. by apply Eu, H3.
Qed.

(** ** The revocation endpoint *)

(** The refresh token is only posted to an endpoint that is an absolute URL
    with a host, without user information and fragment, and https, or http when
    the issuer is plain http itself. *)
Theorem revocationEndpointAllowed_iff issuerURL endpoint :
  revocationEndpointAllowed issuerURL endpoint = Ok tt <->
  exists u, Parse endpoint = Some u /\ Host u <> "" /\ User u = None /\ Fragment u = "" /\
            (Scheme u = "https" \/ (Scheme u = "http" /\ HasPrefix issuerURL "http://" = true)).
Proof.
  unfold revocationEndpointAllowed, IsAbs. destruct (Parse endpoint) as [u|].
  2: { split; [done|]. by intros (? & ? & _). }
  destruct (String.eqb (Scheme u) "") eqn:E1; cbn [negb orb].
  { apply String.eqb_eq in E1. split; [done|]. intros (? & [= <-] & _ & _ & _ & [H|[H _]]); congruence. }
  destruct (String.eqb (Host u) "") eqn:E2; cbn [orb].
  { apply String.eqb_eq in E2. split; [done|]. by intros (? & [= <-] & ? & _). }
  destruct (User u) as [ui|] eqn:E3; cbn [orb].
  { split; [done|]. intros (? & [= <-] & _ & ? & _). congruence. }
  destruct (String.eqb (Fragment u) "") eqn:E4; cbn [negb].
  2: { apply String.eqb_neq in E4. split; [done|]. by intros (? & [= <-] & _ & _ & ? & _). }
  apply String.eqb_neq in E2. apply String.eqb_eq in E4.
  destruct (String.eqb (Scheme u) "https") eqn:E5.
  { apply String.eqb_eq in E5. split; [|done]. intros _. exists u. auto 10. }
  apply String.eqb_neq in E5. destruct (String.eqb (Scheme u) "http") eqn:E6; cbn [andb].
  - apply String.eqb_eq in E6. destruct (HasPrefix issuerURL "http://") eqn:E7.
    + split; [|done]. intros _. exists u. auto 10.
    + split; [done|]. intros (? & [= <-] & _ & _ & _ & [H|[_ H]]); congruence.
  - apply String.eqb_neq in E6. split; [done|].
    intros (? & [= <-] & _ & _ & _ & [H|[H _]]); congruence.
Qed.

(** ** The authorized party *)

(** An ID token is accepted exactly when go-oidc accepted it, its claims can
    be read, and its [azp] claim is a string that names this client, or is absent
    while there is at most one audience. *)
Theorem verifyIDToken_iff clientID r t :
  verifyIDToken clientID r = Ok t <->
  r = Ok t /\ exists claims, idClaims t = Ok claims /\
    match any_lookup claims "azp" with
    | None => (length (idAudience t) <= 1)%nat
    | Some v => v = AString clientID
    end.
Proof.
  unfold verifyIDToken, checkAuthorizedParty. destruct r as [e|t']; [by split; [|intros [? _]]|].
  destruct (idClaims t') as [e|claims] eqn:Ec.
  { split; [done|]. intros ([= <-] & ? & ? & _). congruence. }
  assert (Hr : forall P : Prop, P -> (Ok t' : result error IDTokenInfo) = Ok t <->
            (Ok t' : result error IDTokenInfo) = Ok t /\ P) by tauto.
  assert (Hcl : t' = t -> (exists claims', idClaims t = Ok claims' /\
            match any_lookup claims' "azp" with
            | None => (length (idAudience t) <= 1)%nat | Some v => v = AString clientID end) <->
            match any_lookup claims "azp" with
            | None => (length (idAudience t') <= 1)%nat | Some v => v = AString clientID end).
  { intros <-. split; [|eauto]. intros (? & Hx & ?). rewrite Ec in Hx. by injection Hx as <-. }
  destruct (any_lookup claims "azp") as [v|] eqn:Ea.
  - destruct v; try (split; [done|]; intros ([= <-] & Hx); by apply Hcl in Hx).
    destruct (String.eqb s clientID) eqn:Es.
    + apply String.eqb_eq in Es as ->. split; [|by intros [? _]]. intros [= <-]. split; [done|]. by apply Hcl.
    + apply String.eqb_neq in Es. split; [done|]. intros ([= <-] & Hx). apply Hcl in Hx; congruence.
  - destruct (1 <? length (idAudience t'))%nat eqn:El.
    + apply Nat.ltb_lt in El. split; [done|]. intros ([= <-] & Hx). apply Hcl in Hx; [lia|done].
    + apply Nat.ltb_ge in El. split; [|by intros [? _]]. intros [= <-]. split; [done|]. by apply Hcl.
Qed.

(** ** The configuration *)

Lemma Validate_ok c c' :
  Validate c = Ok c' <->
  c' = applyDefaults c /\ TrimSpace (IssuerURL c) <> "" /\
  (exists u, Parse (IssuerURL c) = Some u /\ (Scheme u = "http" \/ Scheme u = "https") /\ Host u <> "") /\
  TrimSpace (ClientID c) <> "" /\
  (forall k v, ExtraAuthParams c !! k = Some v -> normalizedKey k ∉ reservedExtraAuthParams) /\
  (forall k v, ExtraTokenParams c !! k = Some v -> normalizedKey k ∉ reservedExtraTokenParams).
Proof.
  rewrite <- (validateExtraParams_None "ExtraAuthParams"), <- (validateExtraParams_None "ExtraTokenParams").
  unfold Validate. destruct (String.eqb (TrimSpace (IssuerURL c)) "") eqn:E1.
  { apply String.eqb_eq in E1. naive_solver. }
  apply String.eqb_neq in E1. destruct (Parse (IssuerURL c)) as [u|]; [|naive_solver].
  destruct (_ || _) eqn:E3.
  { split; [done|]. intros (_ & _ & (? & [= <-] & Hs & Hh) & _). exfalso.
    apply orb_prop in E3 as [E3|E3]; [|by apply String.eqb_eq in E3].
    apply andb_prop in E3 as [E3 E4]. apply negb_true_iff, String.eqb_neq in E3, E4. by destruct Hs. }
  apply orb_false_elim in E3 as [E3 E4]. apply String.eqb_neq in E4.
  apply andb_false_iff in E3. rewrite !negb_false_iff, !String.eqb_eq in E3.
  destruct (String.eqb (TrimSpace (ClientID c)) "") eqn:E5.
  { apply String.eqb_eq in E5. naive_solver. }
  apply String.eqb_neq in E5.
  destruct (validateExtraParams _ _ reservedExtraAuthParams); [naive_solver|].
  destruct (validateExtraParams _ _ reservedExtraTokenParams); [naive_solver|].
  split; [intros [= <-]|by intros (-> & _)]. split; [done|]. split; [done|]. split; [by exists u|done].
Qed.

(** A configuration is accepted exactly when the issuer is an absolute
    http(s) URL with a host, the client ID is not blank, and no extra parameter,
    trimmed and lower-cased, is one the protocol controls; the result is the
    configuration with defaults, which validates to itself. *)
Theorem Validate_iff c c' :
  (Validate c = Ok c' <->
   c' = applyDefaults c /\ TrimSpace (IssuerURL c) <> "" /\
   (exists u, Parse (IssuerURL c) = Some u /\ (Scheme u = "http" \/ Scheme u = "https") /\ Host u <> "") /\
   TrimSpace (ClientID c) <> "" /\
   (forall k v, ExtraAuthParams c !! k = Some v -> normalizedKey k ∉ reservedExtraAuthParams) /\
   (forall k v, ExtraTokenParams c !! k = Some v -> normalizedKey k ∉ reservedExtraTokenParams)) /\
  (Validate c = Ok c' -> Validate c' = Ok c').
Proof.
  split; [apply Validate_ok|]. rewrite !Validate_ok. intros (-> & ? & ? & ? & ? & ?).
  by rewrite applyDefaults_idempotent.
Qed.

Lemma Validate_iff_witness : Validate (applyDefaults exampleConfig) = Ok (applyDefaults exampleConfig).
Proof. apply (proj2 (Validate_iff exampleConfig (applyDefaults exampleConfig))). vm_compute. reflexivity. Defined.
