(* ===== verification/Session.v ===== *)
(** [RestoreSession] and [Init] of [client.go]. *)
From S2P Require Import Prelude GoTime Proc GoEncoding Errors Tokens Config Claims ClientState.
From S2P Require Import Schedule SessionSpec World Events Lifecycle Refresh.

(** [discoveredEndpoint]: one string member of the discovery document. *)
Definition discoveredEndpoint (p : Provider) (name previous : string) : string :=
  match provClaims p with
  | None => previous
  | Some claims =>
      match any_lookup claims name with
      | None => ""
      | Some (AString endpoint) => endpoint
      | Some ANull => ""
      | Some _ => previous
      end
  end.

Section Session.
  Context {St : Type} `{TP : TokenPersistence St}.
  (** Whether [WithHTTPClient] configured a client. *)
  Context (httpClient : bool).
  Abbreviation World := (World St).
  Abbreviation prog := (@prog World Lk query).

(** ** RestoreSession *)

Inductive restoreCheck := RestoreReturn (restored : bool) | RestoreLoad.

(** The first section of [RestoreSession]. *)
Definition checkRestore (c : ClientState) : restoreCheck :=
  if restoreBlocked c then RestoreReturn false
  else if pValid (persistenceRetry c) && (pRevision (persistenceRetry c) =? stateRevision c)
  then RestoreReturn (negb (IsZero (state c)))
  else RestoreLoad.

Definition commitRestore (ts : TokenState) (w : World) : World :=
  observe (ORestore ts) (onCS (setStateLocked ts) w).

(** [RestoreSession]. *)
Definition RestoreSession : prog (bool * option error) :=
  lock stateCommitMu ;;;
  let* check := read (fun w => checkRestore (cs w)) in
  match check with
  | RestoreReturn restored => unlock stateCommitMu ;;; Ret (restored, None)
  | RestoreLoad =>
      let* loaded := storeLoad in
      match loaded.2 with
      | Some err => unlock stateCommitMu ;;; Ret (false, Some (ERestore err))
      | None =>
          if IsZero loaded.1 then unlock stateCommitMu ;;; Ret (false, None)
          else
            modify (commitRestore loaded.1) ;;;
            unlock stateCommitMu ;;;
            Ret (true, None)
      end
  end.

(** ** Init *)

(** [beginInitOperation]: under [initMu]. *)
Definition beginInitOperation (ctx : Ctx) (w : World) : option initOperation' * World :=
  if ctxErrored ctx w then (None, w)
  else
    let w := match initOperation w with Some old => cancelCtx (ioCtx old) w | None => w end in
    let w := w <| initSeq := wrap_u64 (initSeq w + 1) |> in
    let '(operationCtx, w) := childCtx CtxCancel ctx w in
    let '(ptr, w) := newPtr w in
    let operation := mkInitOperation ptr (initSeq w) ctx operationCtx in
    (Some operation, w <| initOperation := Some operation |>).

(** [finishInitOperation]. *)
Definition clearInitOperation (operation : initOperation') (w : World) : World :=
  if bool_decide (initOperation w = Some operation) then w <| initOperation := None |> else w.

Definition finishInitOperation (operation : initOperation') : prog unit :=
  modify (clearInitOperation operation) ;;; cancel (ioCtx operation).

(** [initOperationCurrentLocked]. *)
Definition initOperationCurrentLocked (operation : initOperation') (w : World) : bool :=
  bool_decide (initOperation w = Some operation) &&
  negb (ctxErrored (ioParent operation) w) && negb (ctxErrored (ioCtx operation) w).

(** [initOperationContextError]. *)
Definition initOperationContextError (operation : initOperation') : prog error :=
  let* e := ctxErrP (ioParent operation) in
  match e with
  | Some e => Ret (ctxErrError e)
  | None =>
      let* e := ctxErrP (ioCtx operation) in
      Ret match e with Some e => ctxErrError e | None => ESentinel context_Canceled end
  end.

(** The section of [completeInitFailure] under [initMu] and [eventMu]:
    [None] when the operation lost its result fence. *)
Definition failInit (operation : initOperation') (w : World) : option bool * World :=
  if negb (initOperationCurrentLocked operation w) then (None, w)
  else let '(shouldDrain, w) := enqueueEvent EventInitFailed w in (Some shouldDrain, w).

Definition completeInitFailure (operation : initOperation') (discoveryErr : error) : prog error :=
  let* r := act (failInit operation) in
  match r with
  | None => initOperationContextError operation
  | Some shouldDrain => when shouldDrain drainEvents ;;; Ret discoveryErr
  end.

Definition installDiscovery (s : initSnapshot) (c : ClientState) : ClientState :=
  signalRefreshLoopLocked
    (c <| provider := Some (snProvider s) |> <| verifier := Some (snVerifier s) |>
       <| oauth2 := Some (snOAuth2 s) |> <| endSessionEndpoint := snEndSession s |>
       <| revocationEndpoint := snRevocation s |>).

(** The section of [commitInit] under [initMu] and [mu]. *)
Definition installInit (operation : initOperation') (s : initSnapshot) (w : World) : bool * World :=
  if negb (initOperationCurrentLocked operation w) then (false, w)
  else (true, onCS (installDiscovery s) w).

Definition commitInit (operation : initOperation') (s : initSnapshot) : prog (option error) :=
  let* installed := act (installInit operation s) in
  if installed then Ret None else let* e := initOperationContextError operation in Ret (Some e).

(** [wrapInitError]. *)
Definition wrapInitError (issuerURL : string) (err : option error) : option error :=
  option_map (EWrap ("pkceflow: OIDC discovery failed for " +:+ issuerURL)) err.

(** [AuthStyleInParams] is forced on the discovered endpoint. *)
Definition paramsEndpoint (e : Endpoint) : Endpoint :=
  mkEndpoint (AuthURL e) (TokenURL e) AuthStyleInParams.

(** [Init] once its operation is admitted. *)
Definition runInit (operation : initOperation') (cfg : Config) : prog (option error) :=
  let* r := ask (QNewProvider (httpContext httpClient (ioCtx operation)) (IssuerURL cfg)) in
  match r with
  | inl err => let* e := completeInitFailure operation err in Ret (Some e)
  | inr p =>
      let* redirectURI := ask QRedirectURI in
      let* previous := read (fun w => (endSessionEndpoint (cs w), revocationEndpoint (cs w))) in
      commitInit operation
        (mkInitSnapshot p (mkVerifier p (ClientID cfg))
           (mkOAuth2 (ClientID cfg) (paramsEndpoint (provEndpoint p)) redirectURI (Scopes cfg))
           (discoveredEndpoint p "end_session_endpoint" previous.1)
           (discoveredEndpoint p "revocation_endpoint" previous.2))
  end.

(** [Init]. *)
Definition Init (ctx : Ctx) : prog (option error) :=
  let* cfg := read (fun w => config (cs w)) in
  let* operation := act (beginInitOperation ctx) in
  match operation with
  | None =>
      let* e := ctxErrP ctx in Ret (wrapInitError (IssuerURL cfg) (option_map ctxErrError e))
  | Some operation =>
      deferred (finishInitOperation operation)
        (let* e := runInit operation cfg in Ret (wrapInitError (IssuerURL cfg) e))
  end.

End Session.
