(* ===== verification/Supervisor.v ===== *)
(** The goroutines of [pkceflow.go] and [persistence.go]: the refresh
    supervisor, the persistence recovery, and their start and stop. *)
From S2P Require Import Prelude GoTime Proc Errors Tokens Config ClientState Schedule.
From S2P Require Import Persistence SessionSpec World Events Lifecycle Refresh.

Section Supervisor.
  Context {St : Type} `{TP : TokenPersistence St}.
  (** Whether [WithHTTPClient] configured a client. *)
  Context (httpClient : bool).
  Abbreviation World := (World St).
  Abbreviation prog := (@prog World Lk query).

(** ** Waiting *)

(** The selects of [waitForRefreshLoop]: the loop's context, the wake channel
    and, unless [due] is zero, a timer. *)
Definition wakeReady (ctx : Ctx) (wake : nat) (timer : bool) (w : World) (x : selected)
    : option World :=
  match x with
  | SelDone => if ctxErrored ctx w then Some w else None
  | SelWake => if bool_decide (wake ∈ wakeClosed (cs w)) then Some w else None
  | SelTimer => if timer then Some w else None
  | _ => None
  end.

(** [waitForRefreshLoop]: false when the loop's context ended. *)
Definition waitForRefreshLoop (ctx : Ctx) (wake : nat) (due : Time) : prog bool :=
  if IsZeroTime due then
    let* x := select QSelect (wakeReady ctx wake false) in
    Ret (match x with SelDone => false | _ => true end)
  else
    let* t := now in
    if SubTime due t <=? 0 then Ret true
    else
      let* x := select QSelect (wakeReady ctx wake true) in
      Ret (match x with SelDone => false | _ => true end).

(** ** The refresh supervisor *)

(** [doRefresh], for the attempt action with these fields. *)
Definition doRefresh (ctx : Ctx) (ts : TokenState) (revision claimID : Z)
    : prog refreshLoopAttemptResult :=
  let* r := refreshForSchedule httpClient ctx ts revision claimID in
  let '(_, started, err) := r in
  match err with
  | None => Ret refreshLoopAttemptSucceeded
  | Some err =>
      if errors_Is err errScheduledRefreshExpired then Ret refreshLoopAttemptExpiredBeforeStart
      else if isSessionIntegrityError err then
        Warn "refresh loop: session integrity failure" ;;; Ret refreshLoopAttemptIntegrity
      else if IsPermanentError err then
        Warn "refresh loop: permanent refresh failure" ;;; Ret refreshLoopAttemptPermanent
      else
        let* e := ctxErrP ctx in
        match e with
        | Some _ => Ret (if started then refreshLoopAttemptCanceledAfterStart
                         else refreshLoopAttemptCanceledBeforeStart)
        | None =>
            log LogDebug "refresh loop: temporary refresh failure" ;;;
            Ret refreshLoopAttemptTemporary
        end
  end.

(** [runRefreshLoop]. *)
Definition runRefreshLoop (ctx : Ctx) : prog unit :=
  loop (fun _ : unit =>
    let* e := ctxErrP ctx in
    match e with
    | Some _ => Ret (inr tt)
    | None =>
        let* t := now in
        let* action := actCS (nextRefreshLoopAction t) in
        match action with
        | refreshLoopWait due wake =>
            let* ok := waitForRefreshLoop ctx wake due in
            Ret (if ok then inl tt else inr tt)
        | refreshLoopAttempt revision ts stage claimID =>
            let* result := doRefresh ctx ts revision claimID in
            let* t := now in
            modify (onCS (finishRefreshLoopAttempt revision ts stage claimID result t)) ;;;
            let* e := ctxErrP ctx in
            Ret (match e with Some _ => inr tt | None => inl tt end)
        | refreshLoopEmitSessionExpired revision =>
            let* _ := emitEventIfRevision revision in Ret (inl tt)
        end
    end) tt.

(** ** Persistence recovery *)

(** [retryPersistence]. *)
Definition retryPersistence (ctx : Ctx) (revision claimID : Z) : prog unit :=
  lock stateCommitMu ;;;
  let* e := act (fun w =>
    let '(r, c) := retryPersistenceBegin revision claimID (ctxErrored ctx w) (cs w) in
    (r, w <| cs := c |>)) in
  match e with
  | None => unlock stateCommitMu
  | Some ts =>
      let* err := storeSave ts in
      let* completedAt := now in
      let* outcome := actCS (retryPersistenceEnd revision claimID err completedAt) in
      unlock stateCommitMu ;;;
      match outcome with
      | retryNothing => skip
      | retryRecovered => log LogInfo "token state persistence recovered"
      | retryFailed _ => Warn "token state persistence retry failed"
      end
  end.

(** [runPersistenceRetryLoop]. *)
Definition runPersistenceRetryLoop (ctx : Ctx) : prog unit :=
  loop (fun _ : unit =>
    let* e := ctxErrP ctx in
    match e with
    | Some _ => Ret (inr tt)
    | None =>
        let* t := now in
        let* action := actCS (nextPersistenceRetryAction t) in
        match action with
        | retryWait due wake =>
            let* ok := waitForRefreshLoop ctx wake due in
            Ret (if ok then inl tt else inr tt)
        | retryClaimed revision claimID =>
            retryPersistence ctx revision claimID ;;; Ret (inl tt)
        end
    end) tt.

(** ** Start and stop *)

(** A channel that a finished goroutine closes: [persistenceDone] and
    [refreshLoopHandle.done]. *)
Definition closeDone (h : nat) (w : World) : World := w <| handlesDone := {[h]} ∪ handlesDone w |>.
Definition doneClosed (h : nat) (w : World) (x : selected) : option World :=
  match x with
  | SelComplete => if bool_decide (h ∈ handlesDone w) then Some w else None
  | _ => None
  end.

(** [refreshLoop]: both supervisors; [persistenceDone] is made first. *)
Definition refreshLoop (ctx : Ctx) : prog unit :=
  let* persistenceDone := act newPtr in
  fork (runPersistenceRetryLoop ctx ;;; modify (closeDone persistenceDone)) ;;;
  runRefreshLoop ctx ;;;
  let* _ := select QSelect (doneClosed persistenceDone) in
  skip.

(** The section of [startRefreshLoop]: the new handle replaces the previous
    one, whose context is cancelled. *)
Definition installHandle (ctx : Ctx) (w : World) : (nat * Ctx) * World :=
  let '(loopCtx, w) := childCtx CtxCancel ctx w in
  let '(h, w) := newPtr w in
  let previous := refreshRun (cs w) in
  let w := onCS (fun c => c <| refreshRun := Some h |>) (w <| handles := <[h := loopCtx]> (handles w) |>) in
  let w := match previous with
           | Some p => match handles w !! p with Some pctx => cancelCtx pctx w | None => w end
           | None => w
           end in
  ((h, loopCtx), w).

Definition clearHandle (h : nat) (w : World) : World :=
  onCS (fun c => if bool_decide (refreshRun c = Some h) then c <| refreshRun := None |> else c) w.

(** [StartRefreshLoop]. *)
Definition StartRefreshLoop (ctx : Ctx) : prog unit :=
  let* r := act (installHandle ctx) in
  let '(h, loopCtx) := r in
  fork
    (deferred (modify (clearHandle h) ;;; modify (closeDone h))
       (let* e := ctxErrP loopCtx in
        match e with
        | Some _ => skip
        | None => refreshLoop loopCtx
        end)).

(** [StopRefreshLoop]. *)
Definition stopHandle (w : World) : World :=
  match refreshRun (cs w) with
  | Some h => match handles w !! h with Some ctx => cancelCtx ctx w | None => w end
  | None => w
  end.
Definition StopRefreshLoop : prog unit := modify stopHandle.

End Supervisor.
