(* ===== verification/Interference.v ===== *)
(** The rely/guarantee instance for the Client: what each mutex and role
    protects, the global invariant, the condition under which each question may
    be asked, and the actions that leave all of it alone. *)
From S2P Require Import GoUrl.
From S2P Require Import Prelude GoTime Proc RelyGuarantee Errors Tokens Config Claims.
From S2P Require Import ClientState Schedule Persistence SessionSpec World Events Lifecycle.
From S2P Require Import Refresh Login Logout Session Supervisor.

(** ** Projections of the ghost history *)

(** The events a commit must produce. *)
Definition commit_events_of (o : observation) : list clientEvent :=
  match o with
  | OLogin _ _ => [EventLoggedIn]
  | ORefresh _ _ => [EventTokenRefreshed]
  | ORefused _ => [EventSessionExpired]
  | OLogout _ => [EventLoggedOut]
  | OExpired => [EventSessionExpired]
  | OAdmit _ _ | OFinish _ | ORestore _ => []
  end.
Definition commit_events (tr : list observation) : list clientEvent := tr ≫= commit_events_of.

Lemma commit_events_snoc tr o : commit_events (tr ++ [o]) = commit_events tr ++ commit_events_of o.
Proof. unfold commit_events. rewrite bind_app. cbn. by rewrite app_nil_r. Qed.

(** Every event but that of a failed Init. *)
Definition is_session_event (e : clientEvent) : bool := negb (bool_decide (e = EventInitFailed)).
Definition session_events (l : list clientEvent) : list clientEvent := List.filter is_session_event l.

Lemma session_events_snoc l e :
  session_events (l ++ [e]) = session_events l ++ (if is_session_event e then [e] else []).
Proof. unfold session_events. rewrite List.filter_app. cbn. by destruct (is_session_event e). Qed.

Section Instance.
  Context {St : Type} `{TP : TokenPersistence St} `{TPL : !TokenPersistenceLaws St}.
  Context (httpClient : bool) (cfg : Config).
  Context (verified : IDTokenVerifier -> string -> IDTokenInfo -> Prop).
  Abbreviation World := (World St).

(** ** The invariant *)

Definition abs (w : World) : Session :=
  mkSession (state (cs w)) (restoreBlocked (cs w))
    (option_map (fun o => (loKind o, loPtr o)) (lifecycleOperation w)).

Record inv (w : World) : Prop := {
  inv_wf : state_wf (cs w);
  inv_bound : stateRevision (cs w) < u64_max;
  inv_config : config (cs w) = cfg;
  inv_discovery : initialized (cs w) = true ->
    is_Some (oauth2 (cs w)) /\ is_Some (verifier (cs w));
  inv_spec : spec_run verified (ClientID cfg) initSession (trace w) (abs w);
  inv_queue : enqueued w = dispatched w ++ pendingEvents w;
  inv_idle : eventDispatching w = false -> pendingEvents w = []
}.

(** Without a token-state commit in progress, the store holds the current
    tokens, or a retry of the Save is pending, or the session is logged out, or
    there is nothing to store. *)
Definition coherent (w : World) : Prop :=
  pValid (persistenceRetry (cs w)) = true \/ restoreBlocked (cs w) = true \/
  state (cs w) = zeroTokenState \/ holds (store w) (state (cs w)).

Definition linv (l : Lk) (w : World) : Prop :=
  match l with
  | stateCommitMu => coherent w /\ session_events (enqueued w) = commit_events (trace w)
  | _ => True
  end.

(** ** Protection *)

Record commit_same (w w' : World) : Prop := {
  cm_state : state (cs w') = state (cs w);
  cm_revision : stateRevision (cs w') = stateRevision (cs w);
  cm_blocked : restoreBlocked (cs w') = restoreBlocked (cs w);
  cm_retry : pValid (persistenceRetry (cs w')) = pValid (persistenceRetry (cs w));
  cm_store : store w' = store w;
  cm_commits : commit_events (trace w') = commit_events (trace w);
  cm_events : session_events (enqueued w') = session_events (enqueued w)
}.

Definition prot (l : Lk) (w w' : World) : Prop :=
  match l with
  | stateCommitMu => commit_same w w'
  | lifecycleMu => lifecycleOperation w' = lifecycleOperation w
  | drainRole => eventDispatching w' = eventDispatching w /\ dispatched w' = dispatched w
  | attemptRole a => refreshAttempt w' = Some a <-> refreshAttempt w = Some a
  | flowRole => lifecycleFlow w' = lifecycleFlow w
  end.

(** A token generation keeps its tokens. *)
Definition hist (w w' : World) : Prop :=
  stateRevision (cs w) <= stateRevision (cs w') /\
  (stateRevision (cs w') = stateRevision (cs w) -> state (cs w') = state (cs w)).

Definition role (l : Lk) : bool :=
  match l with stateCommitMu | lifecycleMu => false | _ => true end.
Definition taken (l : Lk) (w : World) : bool :=
  match l with
  | drainRole => eventDispatching w
  | attemptRole a => bool_decide (refreshAttempt w = Some a)
  | flowRole => lifecycleFlow w
  | _ => false
  end.
Definition rank (l : Lk) : nat := match l with stateCommitMu => 1 | _ => 0 end%nat.

(** Runs with fewer than 2^64 - 1 token generations. *)
Definition bound (w : World) : Prop := stateRevision (cs w) <> u64_max.

(** ** When a question may be asked *)

Definition no_locks (H : gset Lk) : Prop := stateCommitMu ∉ H /\ lifecycleMu ∉ H.

(** Outbound requests carry the configured HTTP client. *)
Definition http_ok (ctx : Ctx) : Prop := httpClient = true -> ctxHTTP ctx = true.

(** The refresh token only leaves for a revocation endpoint that is fit for it. *)
Definition revocation_ok (endpoint body : string) : Prop :=
  revocationEndpointAllowed (IssuerURL cfg) endpoint = Ok tt /\
  exists rt, rt <> "" /\ body = Encode (revocationForm (ClientID cfg) rt).

Definition pre (X : Type) (q : query X) (H : gset Lk) (w : World) : Prop :=
  match q with
  | QNow => True
  | QPanic _ => False
  | QEmit e => no_locks H /\ drainRole ∈ H /\ last (dispatched w) = Some e
  | QTokenSource ctx _ _ => no_locks H /\ (exists a, attemptRole a ∈ H) /\ http_ok ctx
  | QStartAuthFlow _ _ | QStartLogoutFlow _ _ => no_locks H /\ flowRole ∈ H
  | QNewProvider ctx _ | QExchange ctx _ _ _ _ | QVerify ctx _ _ => no_locks H /\ http_ok ctx
  | QRevocationPost _ endpoint body => no_locks H /\ revocation_ok endpoint body
  | _ => no_locks H
  end.

(** What the environment may answer: go-oidc only accepts verified tokens. *)
Definition answers (X : Type) (q : query X) : X -> Prop :=
  match q in query X return X -> Prop with
  | QVerify _ v raw => fun r => forall info, r = Ok info -> verified v raw info
  | _ => fun _ => True
  end.

(** ** The laws *)

Lemma hist_refl' w : hist w w.
Proof. by split. Qed.

Lemma commit_same_refl w : commit_same w w.
Proof. by split. Qed.
Lemma commit_same_trans w1 w2 w3 : commit_same w1 w2 -> commit_same w2 w3 -> commit_same w1 w3.
Proof. intros [] []. split; congruence. Qed.

Lemma linv_same l w w' : prot l w w' -> linv l w -> linv l w'.
Proof.
  destruct l; cbn; try done. intros [Es Er Eb Et Est Ec Ee] [Hc He].
  unfold coherent. rewrite Es, Eb, Et, Est, Ec, Ee. done.
Qed.

(** ** Quiet actions *)

(** Actions that touch nothing a mutex, a role or the invariant is about. *)
Record quiet (w w' : World) : Prop := {
  q_state : state (cs w') = state (cs w);
  q_revision : stateRevision (cs w') = stateRevision (cs w);
  q_blocked : restoreBlocked (cs w') = restoreBlocked (cs w);
  q_config : config (cs w') = config (cs w);
  q_wf : state_wf (cs w) -> state_wf (cs w');
  q_retry : state_wf (cs w) -> pValid (persistenceRetry (cs w')) = pValid (persistenceRetry (cs w));
  q_provider : provider (cs w') = provider (cs w);
  q_oauth2 : oauth2 (cs w') = oauth2 (cs w);
  q_verifier : verifier (cs w') = verifier (cs w);
  q_store : store w' = store w;
  q_operation : lifecycleOperation w' = lifecycleOperation w;
  q_flow : lifecycleFlow w' = lifecycleFlow w;
  q_attempt : refreshAttempt w' = refreshAttempt w;
  q_pending : pendingEvents w' = pendingEvents w;
  q_dispatching : eventDispatching w' = eventDispatching w;
  q_trace : trace w' = trace w;
  q_enqueued : enqueued w' = enqueued w;
  q_dispatched : dispatched w' = dispatched w
}.

Lemma quiet_inv w w' : quiet w w' -> inv w -> inv w'.
Proof.
  intros [] [Hwf Hb Hc Hd Hs Hqu Hi].
  split; unfold abs, initialized in *; rewrite ?q_state0, ?q_revision0, ?q_blocked0, ?q_config0,
    ?q_provider0, ?q_oauth3, ?q_verifier0, ?q_operation0, ?q_pending0, ?q_dispatching0, ?q_trace0,
    ?q_enqueued0, ?q_dispatched0; auto.
Qed.

Lemma quiet_prot l w w' : state_wf (cs w) -> quiet w w' -> prot l w w'.
Proof.
  intros Hwf []. destruct l; cbn; try done; [|by rewrite q_attempt0].
  split; rewrite ?q_trace0, ?q_enqueued0; auto.
Qed.

Lemma quiet_hist w w' : quiet w w' -> hist w w'.
Proof. intros []. split; [lia|done]. Qed.

Lemma prot_taken' l w w' : role l = true -> prot l w w' -> taken l w = taken l w'.
Proof.
  destruct l; cbn; try done; [by intros _ [-> _]|]. intros _ Hiff. by apply bool_decide_ext.
Qed.

(** Environment steps are quiet. *)
Lemma env_quiet w w' : env_step w w' -> quiet w w'.
Proof. intros []; by split. Qed.

Lemma laws : RG_laws hist prot inv linv role taken env_step.
Proof.
  split.
  - exact hist_refl'.
  - intros w1 w2 w3 [h1 e1] [h2 e2]. split; [lia|]. intros He.
    rewrite e2 by lia. apply e1. lia.
  - intros [] w; by cbn.
  - intros [] w1 w2 w3; cbn; [apply commit_same_trans|congruence| |congruence|naive_solver].
    intros [? ?] [? ?]. split; congruence.
  - exact prot_taken'.
  - intros l w w' _ Hp _ _. by apply linv_same.
  - intros w w' He. by apply quiet_hist, env_quiet.
  - intros l w w' He. destruct l; cbn; by destruct He.
  - intros w w' He. by apply quiet_inv, env_quiet.
Qed.

Abbreviation trans := (RelyGuarantee.trans hist prot inv role taken bound).
Abbreviation held := (RelyGuarantee.held_roles role taken).

Lemma trans_quiet H w w' (K : gset Lk -> Prop) :
  quiet w w' -> inv w -> held H w -> K H -> trans H w w' K.
Proof.
  intros Hq Hi Hh HK. apply trans_keep; [by apply quiet_hist| | |by eapply quiet_inv|done].
  - intros l _. apply quiet_prot; [apply Hi|done].
  - intros l Hr Hl. rewrite <- (prot_taken' l w w' Hr); [by apply Hh|].
    apply quiet_prot; [apply Hi|done].
Qed.

(** *** Which actions are quiet *)

Lemma quiet_refl w : quiet w w.
Proof. by split. Qed.

Lemma cancelCtx_quiet c w : quiet w (cancelCtx c w).
Proof.
  unfold cancelCtx. destruct (ctxNodes c); [apply quiet_refl|].
  destruct (ctxErrored c w); [apply quiet_refl|]. by split.
Qed.

Lemma childCtx_quiet k c w : quiet w (childCtx k c w).2.
Proof. by split. Qed.

Lemma updCell_quiet p f w : quiet w (updCell p f w).
Proof. by split. Qed.

Lemma newPtr_quiet w : quiet w (newPtr w).2.
Proof. by split. Qed.

Lemma quiet_trans w1 w2 w3 : quiet w1 w2 -> quiet w2 w3 -> quiet w1 w3.
Proof. intros [] []. split; try congruence; auto. intros. rewrite q_retry1; auto. Qed.

End Instance.
