(* ===== verification/Actions.v ===== *)
(** The actions of the Client that commit something or move a role, each with
    the step of the session automaton it takes, and the specifications of the
    shared subprograms: event dispatch, lifecycle admission and the persistence
    of a commit. *)
From S2P Require Import Prelude GoTime Proc RelyGuarantee Errors Tokens Config Claims.
From S2P Require Import ClientState Schedule Persistence SessionSpec World Events Lifecycle.
From S2P Require Import Refresh Login Logout Session Supervisor Interference.

Section Actions.
  Context {St : Type} `{TP : TokenPersistence St} `{TPL : !TokenPersistenceLaws St}.
  Context (httpClient : bool) (cfg : Config).
  Context (verified : IDTokenVerifier -> string -> IDTokenInfo -> Prop).
  Abbreviation World := (World St).
  Abbreviation inv := (Interference.inv (St := St) cfg verified).
  Abbreviation linv := (Interference.linv (St := St)).
  Abbreviation pre := (Interference.pre (St := St) httpClient cfg).
  Abbreviation answers := (Interference.answers verified).
  Abbreviation bound := (Interference.bound (St := St)).
  Abbreviation prot := (Interference.prot (St := St)).
  Abbreviation hist := (Interference.hist (St := St)).
  Abbreviation taken := (Interference.taken (St := St)).
  Abbreviation wp := (RelyGuarantee.wp hist prot inv linv rank role taken pre answers bound).
  Abbreviation trans := (RelyGuarantee.trans hist prot inv role taken bound).
  Abbreviation rely := (RelyGuarantee.rely hist prot).
  Abbreviation held := (RelyGuarantee.held_roles role taken).
  Abbreviation later := (RelyGuarantee.later hist prot inv role taken).
  Abbreviation L := (Interference.laws cfg verified (St := St)).

(** ** Quiet state actions *)

Lemma onCS_quiet_tokens (w : World) c' :
  same_tokens (cs w) c' -> (state_wf (cs w) -> state_wf c') -> quiet w (w <| cs := c' |>).
Proof. intros [] Hwf. split; cbn; try done. by rewrite st_retry. Qed.

Lemma onCS_quiet_session (w : World) c' :
  same_session (cs w) c' -> (state_wf (cs w) -> state_wf c') ->
  (state_wf (cs w) -> pValid (persistenceRetry c') = pValid (persistenceRetry (cs w))) ->
  quiet w (w <| cs := c' |>).
Proof. intros [] Hwf Hp. by split. Qed.

Lemma next_retry_quiet now (w : World) :
  quiet w (w <| cs := (nextPersistenceRetryAction now (cs w)).2 |>).
Proof.
  apply onCS_quiet_session; [auto with go|auto with go|]. intros Hwf.
  unfold nextPersistenceRetryAction. destruct (refreshWakeLocked (cs w)) as [wake c] eqn:E.
  pose proof (wake_retry (cs w)) as Er. pose proof (wake_revision (cs w)) as Ev.
  rewrite E in Er, Ev. cbn in Er, Ev. rewrite Er, Ev.
  destruct (negb (pValid _)) eqn:Ep; [by rewrite <- Er|]. apply negb_false_iff in Ep.
  rewrite (wf_retry _ Hwf Ep), Z.eqb_refl. cbn.
  repeat case_goal; cbn; congruence.
Qed.

Lemma stateful_quiet (w : World) f : 
  (forall c, same_tokens c (f c)) -> (forall c, state_wf c -> state_wf (f c)) ->
  quiet w (onCS f w).
Proof. intros. apply onCS_quiet_tokens; auto. Qed.

(** ** Events *)

Definition after_enqueue (b : bool) (H : gset Lk) : gset Lk := if b then {[drainRole]} ∪ H else H.

Lemma enqueue_trans e H (w : World) :
  inv w -> held H w -> (stateCommitMu ∈ H \/ is_session_event e = false) ->
  trans H w (enqueueEvent e w).2 (fun H' => H' = after_enqueue (enqueueEvent e w).1 H).
Proof.
  intros Hi Hh He. unfold enqueueEvent. cbn.
  assert (Hprot : forall l w', l ∉ H -> l <> drainRole ->
            w' = w <| pendingEvents := pendingEvents w ++ [e] |> <| enqueued := enqueued w ++ [e] |> \/
            w' = w <| pendingEvents := pendingEvents w ++ [e] |> <| enqueued := enqueued w ++ [e] |>
                   <| eventDispatching := true |> -> prot l w w').
  { intros l w' Hl Hne Hw'. destruct l; destruct Hw' as [-> | ->]; cbn; try done.
    all: destruct He as [He|He]; [done|]; split; cbn; try done.
    all: by rewrite session_events_snoc, He, app_nil_r. }
  assert (Hq : enqueued w ++ [e] = dispatched w ++ pendingEvents w ++ [e]).
  { by rewrite (inv_queue _ _ _ Hi), <- app_assoc. }
  destruct (eventDispatching w) eqn:Ed; cbn.
  - apply trans_keep; cbn.
    + split; cbn; [lia|done].
    + intros l Hl. destruct (decide (l = drainRole)) as [->|]; [by cbn|]. apply Hprot; auto.
    + intros l Hr Hl. specialize (Hh l Hl Hr). by destruct l.
    + destruct Hi. by split.
    + done.
  - intros _. exists ({[drainRole]} ∪ H). split; [|split; [|split; [|split]]].
    + split.
      * intros l Hr. rewrite elem_of_union, elem_of_singleton. split; [by auto|].
        intros [-> |?]; [done|done].
      * intros l Hr Hl. apply elem_of_union in Hl. destruct Hl as [->%elem_of_singleton|Hl]; [done|].
        specialize (Hh l Hl Hr). destruct l; try done. 
      * intros l Hr Hl Hn. exfalso. apply Hn, elem_of_union. by right.
      * intros l Hr Hl Hn. apply elem_of_union in Hn. destruct Hn as [->%elem_of_singleton|Hn]; [|done].
        exact Ed.
    + split; cbn; [lia|done].
    + intros l Hl Hl'. apply Hprot; [done| |by right]. intros ->. apply Hl', elem_of_union. left.
      by apply elem_of_singleton.
    + destruct Hi. by split.
    + done.
Qed.

(** Holdings and their restriction. *)
Lemma rely_sub (H1 H2 : gset Lk) (w w' : World) : H2 ⊆ H1 -> rely H1 w w' -> rely H2 w w'.
Proof. intros Hs [h p]. split; [done|]. intros l Hl. by apply p, Hs. Qed.

Lemma diff_sub (H : gset Lk) l : H ∖ {[l]} ⊆ H.
Proof. intros x Hx. apply elem_of_difference in Hx. by destruct Hx. Qed.
Lemma notin_diff (H : gset Lk) l : l ∉ H ∖ {[l]}.
Proof. rewrite elem_of_difference, elem_of_singleton. naive_solver. Qed.
Lemma in_diff (H : gset Lk) l l' : l' ∈ H -> l' <> l -> l' ∈ H ∖ {[l]}.
Proof. rewrite elem_of_difference, elem_of_singleton. naive_solver. Qed.

(** Giving up role [r], which the action clears. *)
Lemma trans_release r H (w w' : World) (K : gset Lk -> Prop) :
  role r = true -> r ∈ H -> taken r w' = false ->
  (forall l, l <> r -> prot l w w') -> hist w w' -> inv w' -> held H w -> K (H ∖ {[r]}) ->
  trans H w w' K.
Proof.
  intros Hr Hin Hf Hp Hh Hi Hheld HK _. exists (H ∖ {[r]}).
  split; [split|split; [done|split; [|done]]].
  - intros l Hl. split; [|by intros ?%diff_sub]. intros HlH. apply in_diff; [done|congruence].
  - intros l Hl HlH. rewrite <- (prot_taken' l w w' Hl); [apply Hheld; [by eapply diff_sub|done]|].
    apply Hp. intros ->. by apply notin_diff in HlH.
  - intros l Hl HlH HlH'. destruct (decide (l = r)) as [->|Hne]; [done|].
    exfalso. by apply HlH', in_diff.
  - intros l Hl HlH HlH'. by apply diff_sub in HlH'.
  - intros l HlH _. apply Hp. by intros ->.
Qed.

(** Taking role [r], which the action sets. *)
Lemma trans_acquire r H (w w' : World) (K : gset Lk -> Prop) :
  role r = true -> taken r w = false -> taken r w' = true ->
  (forall l, l <> r -> prot l w w') -> hist w w' -> inv w' -> held H w -> K ({[r]} ∪ H) ->
  trans H w w' K.
Proof.
  intros Hr Hf Ht Hp Hh Hi Hheld HK _. exists ({[r]} ∪ H).
  split; [split|split; [done|split; [|done]]].
  - intros l Hl. rewrite elem_of_union, elem_of_singleton. split; [by auto|].
    intros [->|?]; [congruence|done].
  - intros l Hl HlH. apply elem_of_union in HlH. rewrite elem_of_singleton in HlH.
    destruct (decide (l = r)) as [->|Hne]; [done|]. destruct HlH as [?|HlH]; [done|].
    rewrite <- (prot_taken' l w w' Hl); [by apply Hheld|by apply Hp].
  - intros l Hl HlH Hn. exfalso. apply Hn, elem_of_union. by right.
  - intros l Hl HlH Hn. apply elem_of_union in Hn. rewrite elem_of_singleton in Hn.
    destruct Hn as [->|Hn]; done.
  - intros l HlH HlH'. apply Hp. intros ->. apply HlH', elem_of_union. left. by apply elem_of_singleton.
Qed.

(** Event actions only touch what the dispatching role protects. *)
Lemma event_action_rely H (w w1 w2 : World) :
  (forall l, l <> drainRole -> prot l w1 w2) -> hist w1 w2 ->
  rely (H ∖ {[drainRole]}) w w1 -> rely (H ∖ {[drainRole]}) w w2.
Proof.
  intros Hp Hh HI. eapply (rely_trans L); [exact HI|]. split; [done|].
  intros l Hl. apply Hp. intros ->. by apply notin_diff in Hl.
Qed.

(** [drainEvents] gives the dispatching role up; it needs no mutex. *)
Lemma wp_drainEvents {A} H (k : unit -> prog A) Post (w : World) :
  no_locks H -> drainRole ∈ H ->
  (forall w', rely (H ∖ {[drainRole]}) w w' -> wp (k tt) (H ∖ {[drainRole]}) Post w') ->
  wp (bind drainEvents k) H Post w.
Proof.
  intros Hn Hd Hk. unfold drainEvents.
  assert (Hweak : forall w1 w2, rely H w1 w2 -> rely (H ∖ {[drainRole]}) w w1 ->
                    rely (H ∖ {[drainRole]}) w w2).
  { intros w1 w2 HR HI. eapply (rely_trans L); [exact HI|]. by apply (rely_sub H); [apply diff_sub|]. }
  refine (wp_loop _ _ _ _ _ (fun w' => rely (H ∖ {[drainRole]}) w w') _ _ _);
    [eauto|apply (rely_refl L)|].
  intros w1 HI. apply wp_act. intros w2 HR Hi Hh. specialize (Hweak _ _ HR HI) as HI2. clear HI HR.
  assert (Hdisp : eventDispatching w2 = true) by (by apply (Hh drainRole)).
  pose proof (inv_queue _ _ _ Hi) as Hq.
  unfold popEvent. destruct (pendingEvents w2) as [|e rest] eqn:Ep; cbn [fst snd].
  - assert (Hp : forall l, l <> drainRole -> prot l w2 (w2 <| eventDispatching := false |>)).
    { intros [] ?; cbn; done || by split. }
    assert (Hhist : hist w2 (w2 <| eventDispatching := false |>)) by (split; [cbn; lia|done]).
    apply (trans_release drainRole); try done.
    + destruct Hi. by split.
    + apply wp_ret. intros w3 HR _ _. apply Hk. eapply (rely_trans L); [|exact HR].
      by apply (event_action_rely _ _ w2).
  - set (w3 := w2 <| pendingEvents := rest |> <| dispatched := dispatched w2 ++ [e] |>).
    assert (Hp : forall l, l <> drainRole -> prot l w2 w3) by (intros [] ?; cbn; done || by split).
    assert (Hhist : hist w2 w3) by (split; [cbn; lia|done]).
    apply trans_keep; [done| | | |].
    + intros l Hl. apply Hp. by intros ->.
    + intros l Hr Hl. specialize (Hh l Hl Hr). by destruct l.
    + destruct Hi. split; try done. cbn. rewrite Hq, <- app_assoc. done. cbn. congruence.
    + apply (wp_ask L). intros w4 HR4 Hi4 _. split.
      * split; [done|]. split; [done|]. destruct HR4 as [_ HR4].
        destruct (HR4 drainRole Hd) as [_ ->]. apply last_snoc.
      * intros [] _. apply wp_ret. intros w5 HR5 _ _. split; [done|].
        apply (Hweak w4); [done|]. apply (Hweak w3); [done|]. by apply (event_action_rely _ _ w2).
Qed.
(** ** Mutexes *)

Lemma union_diff_cancel (H : gset Lk) l : l ∉ H -> ({[l]} ∪ H) ∖ {[l]} = H.
Proof.
  intros Hl. apply set_eq. intros x. rewrite elem_of_difference, elem_of_union, elem_of_singleton.
  naive_solver.
Qed.
Lemma in_union_self (H : gset Lk) l : l ∈ {[l]} ∪ H.
Proof. apply elem_of_union. left. by apply elem_of_singleton. Qed.
Lemma union_sub_r (H : gset Lk) l : H ⊆ {[l]} ∪ H.
Proof. intros x Hx. apply elem_of_union. by right. Qed.
Lemma rely_union H l (w w' : World) : rely ({[l]} ∪ H) w w' -> rely H w w'.
Proof. by apply rely_sub, union_sub_r. Qed.

Lemma after_enqueue_diff b H l :
  l <> drainRole -> after_enqueue b H ∖ {[l]} = after_enqueue b (H ∖ {[l]}).
Proof.
  intros Hne. destruct b; [|done]. apply set_eq. intros x. cbn.
  rewrite elem_of_difference, !elem_of_union, elem_of_difference, !elem_of_singleton. naive_solver.
Qed.
Lemma in_after_enqueue b H l : l ∈ H -> l ∈ after_enqueue b H.
Proof. intros Hl. unfold after_enqueue. destruct b; [|done]. by apply union_sub_r. Qed.
Lemma rely_after_enqueue b H (w w' : World) : rely (after_enqueue b H) w w' -> rely H w w'.
Proof. apply rely_sub. intros x Hx. by apply in_after_enqueue. Qed.
Lemma no_locks_after_enqueue b H : no_locks H -> no_locks (after_enqueue b H).
Proof.
  intros [H1 H2]. unfold after_enqueue. destruct b; [|done].
  split; (intros Hin; apply elem_of_union in Hin; rewrite elem_of_singleton in Hin; naive_solver).
Qed.

Lemma wp_lock_commit {A} (k : unit -> prog A) H Post (w : World) :
  stateCommitMu ∉ H ->
  (forall w', rely H w w' -> inv w' -> linv stateCommitMu w' -> wp (k tt) ({[stateCommitMu]} ∪ H) Post w') ->
  wp (bind (lock stateCommitMu) k) H Post w.
Proof.
  intros Hn Hk. apply wp_lock; [done|done| |].
  - intros l Hl Hr. destruct l; try done. cbn. lia.
  - intros w' HR Hi Hh Hl. by apply Hk.
Qed.

Lemma wp_unlock_commit {A} (k : unit -> prog A) H Post (w : World) :
  stateCommitMu ∈ H -> linv stateCommitMu w ->
  (forall w', rely H w w' -> wp (k tt) (H ∖ {[stateCommitMu]}) Post w') ->
  wp (bind (unlock stateCommitMu) k) H Post w.
Proof.
  intros Hin Hl Hk. apply wp_unlock; [done|done|]. intros w' HR Hi Hh. split; [|by apply Hk].
  destruct HR as [_ HR]. eapply linv_same; [by apply HR|done].
Qed.

Lemma wp_lock_lifecycle {A} (k : unit -> prog A) H Post (w : World) :
  no_locks H ->
  (forall w', rely H w w' -> wp (k tt) ({[lifecycleMu]} ∪ H) Post w') ->
  wp (bind (lock lifecycleMu) k) H Post w.
Proof.
  intros [Hn1 Hn2] Hk. apply wp_lock; [done|done| |].
  - intros l Hl Hr. destruct l; done.
  - intros w' HR Hi Hh _. by apply Hk.
Qed.

Lemma wp_unlock_lifecycle {A} (k : unit -> prog A) H Post (w : World) :
  lifecycleMu ∈ H ->
  (forall w', rely H w w' -> wp (k tt) (H ∖ {[lifecycleMu]}) Post w') ->
  wp (bind (unlock lifecycleMu) k) H Post w.
Proof. intros Hin Hk. apply wp_unlock; [done|done|]. intros w' HR Hi Hh. split; [done|by apply Hk]. Qed.

(** A quiet action, and a question that only asks for no mutex. *)
Lemma wp_quiet {X A} (f : World -> X * World) (k : X -> prog A) H Post (w : World) :
  (forall w, quiet w (f w).2) ->
  (forall x w', rely H w w' -> wp (k x) H Post w') -> wp (bind (act f) k) H Post w.
Proof.
  intros Hq Hk. apply wp_act. intros w' HR Hi Hh. apply trans_quiet; [apply Hq|done|done|].
  apply Hk. eapply (rely_trans L); [exact HR|]. split; [by apply quiet_hist|].
  intros l _. apply quiet_prot; [apply Hi|done].
Qed.

Lemma wp_quiet_modify {A} (f : World -> World) (k : unit -> prog A) H Post (w : World) :
  (forall w, quiet w (f w)) ->
  (forall w', rely H w w' -> wp (k tt) H Post w') -> wp (bind (modify f) k) H Post w.
Proof. intros Hq Hk. apply (wp_quiet (fun w => (tt, f w))); [exact Hq|]. intros []. apply Hk. Qed.

Lemma wp_query {X A} (q : query X) (k : X -> prog A) H Post (w : World) :
  (forall w', pre X q H w') ->
  (forall x w', rely H w w' -> answers X q x -> wp (k x) H Post w') -> wp (bind (ask q) k) H Post w.
Proof. intros Hp Hk. apply (wp_ask L). intros w' HR Hi Hh. split; [done|]. intros x Ha. by apply Hk. Qed.

Lemma wp_look {X A} (f : World -> X) (k : X -> prog A) H Post (w : World) :
  (forall w', rely H w w' -> inv w' -> wp (k (f w')) H Post w') -> wp (bind (read f) k) H Post w.
Proof. intros Hk. apply (wp_read L). intros w' HR Hi Hh. by apply Hk. Qed.

(** ** Token-state commits *)

(** Between the section that installs a generation and the release of
    [stateCommitMu]. *)
Record committing (e : clientEvent) (ts : TokenState) (rev : Z) (w : World) : Prop := {
  ci_state : state (cs w) = ts;
  ci_revision : stateRevision (cs w) = rev;
  ci_event : is_session_event e = true;
  ci_events : session_events (enqueued w) ++ [e] = commit_events (trace w)
}.

Lemma committing_rely e ts rev H (w w' : World) :
  stateCommitMu ∈ H -> rely H w w' -> committing e ts rev w -> committing e ts rev w'.
Proof.
  intros Hin [_ HR] [C1 C2 C3 C4]. specialize (HR _ Hin). cbn in HR.
  destruct HR as [Es Er Eb Et Est Ec Ee]. split; congruence.
Qed.

Lemma advance_revision (w : World) :
  inv w -> wrap_u64 (stateRevision (cs w) + 1) = stateRevision (cs w) + 1.
Proof.
  intros Hi. apply wrap_u64_id. pose proof (inv_bound _ _ _ Hi). pose proof (wf_revision _ (inv_wf _ _ _ Hi)).
  unfold is_u64, u64_modulus, u64_max in *. lia.
Qed.

Lemma advance_trans o e ts H (w : World) K :
  inv w -> held H w -> stateCommitMu ∈ H ->
  session_events (enqueued w) = commit_events (trace w) ->
  commit_events_of o = [e] -> is_session_event e = true ->
  spec_step verified (ClientID cfg) o (abs w) (mkSession ts false (sp_op (abs w))) ->
  (committing e ts (advanceAt o ts w).1 (advanceAt o ts w).2 -> K H) ->
  trans H w (advanceAt o ts w).2 K.
Proof.
  intros Hi Hh Hin He Ho Hs Hst HK Hb. pose proof (advance_revision _ Hi) as Hrev.
  revert Hb HK. unfold advanceAt. cbn [snd fst]. intros Hb0 HK. pose proof Hb0 as Hb. unfold Interference.bound in Hb.
  cbn in Hb. rewrite Hrev in Hb.
  assert (HKH : K H).
  { apply HK. split; [done|done|done|].
    change (session_events (enqueued w) ++ [e] = commit_events (trace w ++ [o])).
    by rewrite commit_events_snoc, Ho, He. }
  refine (trans_keep _ _ _ _ _ _ _ _ HKH Hb0).
  - split; cbn; rewrite Hrev; lia.
  - intros l Hl. destruct l; cbn; done.
  - intros l Hr Hl. specialize (Hh l Hl Hr). by destruct l.
  - destruct Hi as [I1 I2 I3 I4 I5 I6 I7]. pose proof (wf_revision _ I1).
    unfold is_u64, u64_modulus, u64_max in *. split; cbn; try done.
    + by apply advanceStateLocked_wf.
    + rewrite Hrev. unfold u64_max. lia.
    + eapply spec_snoc; [exact I5|exact Hst].
Qed.

(** A store call under [stateCommitMu]. *)
Lemma store_trans (s' : St) H (w : World) (K : gset Lk -> Prop) :
  inv w -> held H w -> stateCommitMu ∈ H -> K H -> trans H w (w <| store := s' |>) K.
Proof.
  intros Hi Hh Hin HK. apply trans_keep; [split; [cbn; lia|done]| | | |done].
  - intros l Hl. destruct l; cbn; done.
  - intros l Hr Hl. specialize (Hh l Hl Hr). by destruct l.
  - by destruct Hi.
Qed.

(** A change of the retry record under [stateCommitMu]. *)
Lemma session_trans c' H (w : World) (K : gset Lk -> Prop) :
  same_session (cs w) c' -> state_wf c' ->
  inv w -> held H w -> stateCommitMu ∈ H -> K H -> trans H w (w <| cs := c' |>) K.
Proof.
  intros [S1 S2 S3 S4 S5 S6 S7 S8] Hwf [I1 I2 I3 I4 I5 I6 I7] Hh Hin HK.
  apply trans_keep; [split; cbn; [lia|done]| | | |done].
  - intros l Hl. destruct l; cbn; done.
  - intros l Hr Hl. specialize (Hh l Hl Hr). by destruct l.
  - split; unfold abs, initialized in *; cbn; rewrite ?S1, ?S2, ?S4, ?S5, ?S6, ?S7, ?S8; done.
Qed.

Lemma save_coherent (s : St) (w : World) ts :
  (Save s ts).1 = None -> state (cs w) = ts -> store w = (Save s ts).2 -> coherent w.
Proof. intros Hs Hst Hw. right; right; right. rewrite Hw, Hst. by apply save_holds. Qed.

Lemma enqueue_linv e (w : World) :
  coherent w -> is_session_event e = true ->
  session_events (enqueued w) ++ [e] = commit_events (trace w) ->
  linv stateCommitMu (enqueueEvent e w).2.
Proof.
  intros Hco He Hev. unfold enqueueEvent.
  match goal with |- context [if ?b then _ else _] => destruct b end;
    (split; [exact Hco|]);
    change (session_events (enqueued w ++ [e]) = commit_events (trace w));
    by rewrite session_events_snoc, He.
Qed.

(** The tail of every commit: the mutex may be released after it. *)
Lemma wp_persistCommit ts rev e H (w : World) :
  stateCommitMu ∈ H -> committing e ts rev w ->
  wp (persistCommit ts rev e) H
    (fun r H' w' => linv stateCommitMu w' /\ H' = after_enqueue r.2 H) w.
Proof.
  intros Hin Hc. unfold persistCommit, storeSave. apply wp_act. intros w1 HR1 Hi1 Hh1.
  apply (committing_rely _ _ _ _ _ _ Hin HR1) in Hc. clear HR1.
  destruct (Save (store w1) ts) as [err s'] eqn:Es. cbn [fst snd].
  apply store_trans; [done..|].
  assert (Hs : err = None -> holds (store (w1 <| store := s' |>)) ts).
  { intros ->. cbn. replace s' with (Save (store w1) ts).2 by (by rewrite Es).
    apply save_holds. by rewrite Es. }
  assert (Hc1 : committing e ts rev (w1 <| store := s' |>)) by (by destruct Hc).
  clear Hc Es. revert Hs Hc1. generalize (w1 <| store := s' |>). clear Hi1 Hh1 w1 s' w.
  intros w Hs Hc. apply (wp_ask L). intros w1 HR1 Hi1 Hh1. split; [done|]. intros completedAt _.
  apply wp_modify. intros w2 HR2 Hi2 Hh2.
  pose proof (rely_trans L _ _ _ _ HR1 HR2) as HR. clear HR1 HR2 Hi1 Hh1 w1.
  assert (Hs2 : err = None -> holds (store w2) ts).
  { destruct HR as [_ HR]. destruct (HR _ Hin) as [_ _ _ _ -> _ _]. exact Hs. }
  apply (committing_rely _ _ _ _ _ _ Hin HR) in Hc. clear HR Hs.
  assert (Hco : coherent (onCS (recordPersistenceSaveResult rev err completedAt) w2)).
  { unfold coherent. cbn. destruct Hc as [C1 C2 _ _]. destruct err as [x|].
    - left. unfold recordPersistenceSaveResult. by rewrite C2, Z.eqb_refl.
    - cbn. right; right; right. rewrite C1. by apply Hs2. }
  pose proof (recordPersistenceSaveResult_same rev err completedAt (cs w2)) as Hsame.
  apply session_trans; [done|auto with go|done..|].
  { apply recordPersistenceSaveResult_wf, Hi2. }
  assert (Hc2 : session_events (enqueued w2) ++ [e] = commit_events (trace w2) /\ is_session_event e = true)
    by (by destruct Hc).
  revert Hco Hc2. unfold onCS.
  set (w3 := w2 <| cs := recordPersistenceSaveResult rev err completedAt (cs w2) |>).
  intros Hco [He1 He2]. change (session_events (enqueued w3) ++ [e] = commit_events (trace w3)) in He1.
  clearbody w3. clear Hc Hsame Hi2 Hh2 Hs2 w2.
  apply wp_act. intros w4 HR Hi Hh.
  assert (Hl4 : coherent w4 /\ session_events (enqueued w4) ++ [e] = commit_events (trace w4)).
  { destruct HR as [_ HR]. destruct (HR _ Hin) as [Es Er Eb Et Est Ec Ee].
    unfold coherent in *. by rewrite Es, Eb, Et, Est, Ec, Ee. }
  eapply trans_mono; [|apply enqueue_trans; [done|done|by left]].
  intros H' ->. apply wp_ret. intros w5 HR5 _ _. split; [|done].
  destruct HR5 as [_ HR5]. eapply linv_same; [apply HR5; by apply in_after_enqueue|].
  by destruct Hl4; apply enqueue_linv.
Qed.

End Actions.
