(* ===== verification/Threads.v ===== *)
(** The specifications of the Client's goroutines in the rely/guarantee logic:
    which mutexes and roles each function needs and leaves, and that every
    commit is a legal step of the session automaton. *)
From S2P Require Import Prelude GoTime Proc RelyGuarantee Errors Tokens Config Claims.
From S2P Require Import ClientState Schedule ScheduleProps Persistence SessionSpec World Events.
From S2P Require Import Lifecycle Refresh Login Logout Session Supervisor Interference Actions.

Section Threads.
  Context {St : Type} `{TP : TokenPersistence St} `{TPL : !TokenPersistenceLaws St}.
  Context (httpClient logoutHandler : bool) (cfg : Config).
  Context (verified : IDTokenVerifier -> string -> IDTokenInfo -> Prop).
  Abbreviation World := (World St).
  Abbreviation inv := (Interference.inv (St := St) cfg verified).
  Abbreviation linv := (Interference.linv (St := St)).
  Abbreviation pre := (Interference.pre (St := St) httpClient cfg).
  Abbreviation answers := (Interference.answers verified).
  Abbreviation bound := (Interference.bound (St := St)).
  Abbreviation prot := (Interference.prot (St := St)).
  Abbreviation hist := (Interference.hist (St := St)).
  Abbreviation taken := (Interference.taken (St := St)).
  Abbreviation wp := (RelyGuarantee.wp hist prot inv linv rank role taken pre answers bound).
  Abbreviation trans := (RelyGuarantee.trans hist prot inv role taken bound).
  Abbreviation rely := (RelyGuarantee.rely hist prot).
  Abbreviation held := (RelyGuarantee.held_roles role taken).
  Abbreviation L := (Interference.laws cfg verified (St := St)).

(** ** Shared steps *)

(** The usual postcondition: the same holdings, in a later world. *)
Definition back {A} (H : gset Lk) (w : World) (P : A -> Prop) (a : A) (H' : gset Lk) (w' : World)
    : Prop := H' = H /\ rely H w w' /\ P a.

Lemma wp_ret_back {A} (a : A) H (w0 w : World) (P : A -> Prop) :
  rely H w0 w -> P a -> wp (Ret a) H (back H w0 P) w.
Proof. intros HR HP. apply wp_ret. intros w' HR' _ _. split; [done|]. split; [|done]. by eapply (rely_trans L). Qed.

(** Calling a function that comes back. *)
Lemma wp_back {A B} (p : prog A) (k : A -> prog B) H Post (w : World) (P : A -> Prop) :
  wp p H (back H w P) w -> (forall a w', rely H w w' -> P a -> wp (k a) H Post w') ->
  wp (bind p k) H Post w.
Proof. intros Hp Hk. eapply (wp_call L); [exact Hp|]. intros a H' w' (-> & HR & HP). by apply Hk. Qed.

Lemma wp_warn {A} lvl msg (k : unit -> prog A) H Post (w : World) :
  no_locks H -> (forall w', rely H w w' -> wp (k tt) H Post w') ->
  wp (bind (log lvl msg) k) H Post w.
Proof. intros Hn Hk. apply wp_query; [done|]. intros [] w' HR _. by apply Hk. Qed.

Lemma wp_warn_last lvl msg H (w : World) :
  no_locks H -> wp (log lvl msg) H (back H w (fun _ => True)) w.
Proof.
  intros Hn w1 HR1 Hi1 Hh1. split; [done|]. intros [] w2 _ [= <-].
  apply (trans_refl L); [done|done|]. by apply wp_ret_back.
Qed.

Lemma wp_when_warn {A} b msg (k : unit -> prog A) H Post (w : World) :
  no_locks H -> (forall w', rely H w w' -> wp (k tt) H Post w') ->
  wp (bind (when b (Warn msg)) k) H Post w.
Proof.
  intros Hn Hk. destruct b; cbn [when]; [by apply wp_warn|].
  apply Hk. apply (rely_refl L).
Qed.

(** The read of an error of a context, and other looks at the world. *)
Lemma wp_look' {X A} (f : World -> X) (k : X -> prog A) H Post (w : World) :
  (forall x w', rely H w w' -> wp (k x) H Post w') -> wp (bind (read f) k) H Post w.
Proof. intros Hk. apply wp_look. intros w' HR _. by apply Hk. Qed.

(** ** Lifecycle *)

Lemma wp_lifecycle_read {X A} (f : World -> X) (k : X -> prog A) H Post (w : World) :
  no_locks H -> (forall x w', rely H w w' -> wp (k x) H Post w') ->
  wp (bind (lock lifecycleMu ;;; let* x := read f in unlock lifecycleMu ;;; Ret x) k) H Post w.
Proof.
  intros Hn Hk.
  apply wp_back with (P := fun _ => True); [|intros; by apply Hk].
  apply wp_lock_lifecycle; [done|]. intros w1 HR1. apply wp_look'. intros x w2 HR2.
  apply wp_unlock_lifecycle; [apply in_union_self|]. intros w3 HR3.
  rewrite union_diff_cancel by apply Hn. apply wp_ret_back; [|done].
  eapply (rely_trans L); [exact HR1|]. apply rely_union in HR2, HR3. by eapply (rely_trans L).
Qed.

Lemma wp_current {A} op (k : bool -> prog A) H Post (w : World) :
  no_locks H -> (forall b w', rely H w w' -> wp (k b) H Post w') ->
  wp (bind (lifecycleOperationCurrent op) k) H Post w.
Proof. apply wp_lifecycle_read. Qed.

Lemma wp_owned {A} op (k : bool -> prog A) H Post (w : World) :
  no_locks H -> (forall b w', rely H w w' -> wp (k b) H Post w') ->
  wp (bind (lifecycleOperationOwned op) k) H Post w.
Proof. apply wp_lifecycle_read. Qed.

Lemma wp_cancelled {A} op (k : error -> prog A) H Post (w : World) :
  (forall e w', rely H w w' -> wp (k e) H Post w') ->
  wp (bind (flowCancelledError op) k) H Post w.
Proof.
  intros Hk. apply wp_back with (P := fun _ => True); [|intros; by apply Hk].
  unfold flowCancelledError, ctxErrP. apply wp_look'. intros x w' HR. by apply wp_ret_back.
Qed.

Lemma wp_operationError {A} op err (k : error -> prog A) H Post (w : World) :
  no_locks H -> (forall e w', rely H w w' -> wp (k e) H Post w') ->
  wp (bind (lifecycleOperationError op err) k) H Post w.
Proof.
  intros Hn Hk. apply wp_back with (P := fun _ => True); [|intros; by apply Hk].
  unfold lifecycleOperationError. apply wp_current; [done|]. intros b w1 HR1.
  destruct b; cbn [negb]; [by apply wp_ret_back|].
  unfold flowCancelledError, ctxErrP. apply wp_look'. intros x w2 HR2.
  apply wp_ret_back; [|done]. by eapply (rely_trans L).
Qed.

(** A change of the current operation under [lifecycleMu]. *)
Lemma lifecycle_rely o x H (w w1 : World) :
  quiet w w1 -> state_wf (cs w) -> lifecycleMu ∉ H -> commit_events_of o = [] ->
  rely H w (observe o (w1 <| lifecycleOperation := x |>)).
Proof.
  intros Hq Hwf Hn Ho. pose proof (quiet_hist _ _ Hq) as [Hq1 Hq2]. split; [by split|].
  intros l Hl. pose proof (quiet_prot l _ _ Hwf Hq) as Hql.
  destruct l; try done. destruct Hql. split; cbn; try done.
  by rewrite commit_events_snoc, Ho, app_nil_r.
Qed.

Lemma lifecycle_trans o x H (w w1 : World) (K : gset Lk -> Prop) :
  quiet w w1 -> inv w -> held H w -> lifecycleMu ∈ H -> commit_events_of o = [] ->
  spec_step verified (ClientID cfg) o (abs w)
    (mkSession (sp_tokens (abs w)) (sp_blocked (abs w)) (option_map (fun o => (loKind o, loPtr o)) x)) ->
  K H -> trans H w (observe o (w1 <| lifecycleOperation := x |>)) K.
Proof.
  intros Hq Hi Hh Hin Ho Hs HK. pose proof (quiet_inv cfg verified _ _ Hq Hi) as Hi1.
  assert (Hp : forall l, l <> lifecycleMu -> prot l w (observe o (w1 <| lifecycleOperation := x |>))).
  { intros l Hl. destruct (lifecycle_rely o x {[l]} w w1 Hq (inv_wf _ _ _ Hi)) as [_ Hpp];
      [intros E; apply elem_of_singleton in E; congruence|done|].
    apply Hpp. by apply elem_of_singleton. }
  apply trans_keep; [| | | |done].
  - destruct (lifecycle_rely o x ∅ w w1 Hq (inv_wf _ _ _ Hi)) as [Hpp _]; [set_solver|done|done].
  - intros l Hl. apply Hp. by intros ->.
  - intros l Hr Hl. rewrite <- (Hh l Hl Hr). symmetry. apply prot_taken'; [done|]. apply Hp. by intros ->.
  - destruct Hi1 as [I1 I2 I3 I4 I5 I6 I7]. split; cbn; try done.
    eapply spec_snoc; [exact I5|]. revert Hs. unfold abs. cbn.
    by rewrite (q_state _ _ Hq), (q_blocked _ _ Hq), (q_operation _ _ Hq).
Qed.

Lemma beginLocked_shape ctx kind (w : World) :
  exists w1, quiet w w1 /\
    let r := beginLifecycleOperationLocked ctx kind w in
    loKind r.1 = kind /\
    r.2 = observe (OAdmit kind (loPtr r.1)) (w1 <| lifecycleOperation := Some r.1 |>).
Proof.
  set (w0 := match lifecycleOperation w with Some old => cancelCtx (loCtx old) w | None => w end).
  exists (w0 <| lifecycleSeq := wrap_u64 (lifecycleSeq w0 + 1) |> <| ctxNext := S (ctxNext w0) |>
         <| ptrNext := S (ptrNext w0) |>).
  split; [|split; reflexivity]. apply quiet_trans with w0; [|by split].
  unfold w0. destruct (lifecycleOperation w); [apply cancelCtx_quiet|apply quiet_refl].
Qed.

Lemma beginLocked_trans ctx kind H (w : World) (K : gset Lk -> Prop) :
  inv w -> held H w -> lifecycleMu ∈ H -> K H ->
  trans H w (beginLifecycleOperationLocked ctx kind w).2 K.
Proof.
  intros Hi Hh Hin HK. destruct (beginLocked_shape ctx kind w) as (w1 & Hq & Hk & ->).
  apply lifecycle_trans; [done..| |done]. cbv zeta in Hk. unfold option_map. rewrite Hk. apply spec_admit.
Qed.

(** What [beginLifecycleOperation] returns to the mutex-free caller. *)
Lemma wp_begin {A} ctx kind (k : option lifecycleOperation' -> prog A) H Post (w : World) :
  no_locks H ->
  (forall r w', rely H w w' -> (forall o, r = Some o -> loKind o = kind) -> wp (k r) H Post w') ->
  wp (bind (beginLifecycleOperation ctx kind) k) H Post w.
Proof.
  intros Hn Hk.
  apply wp_back with (P := fun r => forall o, r = Some o -> loKind o = kind); [|intros; by apply Hk].
  unfold beginLifecycleOperation. apply wp_lock_lifecycle; [done|]. intros w1 HR1.
  apply wp_act. intros w2 HR2 Hi Hh.
  assert (HK : forall r w3, rely H w w3 -> (forall o, r = Some o -> loKind o = kind) ->
    wp (unlock lifecycleMu ;;; Ret r) ({[lifecycleMu]} ∪ H)
      (back H w (fun r => forall o, r = Some o -> loKind o = kind)) w3).
  { intros r w3 HR3 Hr. apply wp_unlock_lifecycle; [apply in_union_self|]. intros w4 HR4.
    rewrite union_diff_cancel by apply Hn. apply wp_ret_back; [|done].
    apply rely_union in HR4. by eapply (rely_trans L). }
  assert (HR : rely H w w2) by (apply rely_union in HR2; by eapply (rely_trans L)).
  destruct (ctxErrored ctx w2) eqn:Ec.
  - cbn [fst snd]. apply (trans_refl L); [done|done|]. by apply HK.
  - pose proof (beginLocked_shape ctx kind w2) as (w3 & Hq & Hkd & Hshape).
    destruct (beginLifecycleOperationLocked ctx kind w2) as [op w4] eqn:Eb. cbn [fst snd] in *.
    replace w4 with (beginLifecycleOperationLocked ctx kind w2).2 by by rewrite Eb.
    apply beginLocked_trans; [done|done|apply in_union_self|]. rewrite Eb. cbn [snd].
    apply HK; [|by intros o [= <-]]. eapply (rely_trans L); [exact HR|]. rewrite Hshape.
    apply lifecycle_rely; [done|apply Hi|apply Hn|done].
Qed.

Lemma clear_trans op H (w : World) (K : gset Lk -> Prop) :
  inv w -> held H w -> lifecycleMu ∈ H -> K H -> trans H w (clearLifecycleOperation op w) K.
Proof.
  intros Hi Hh Hin HK. unfold clearLifecycleOperation.
  case_bool_decide as Ho; [|by apply (trans_refl L)].
  apply lifecycle_trans; [apply quiet_refl|done|done|done|done| |done].
  pose proof (spec_finish verified (ClientID cfg) (loPtr op) (abs w)) as Hs. revert Hs.
  unfold abs. cbn. rewrite Ho. cbn. by rewrite Nat.eqb_refl.
Qed.

Lemma clear_rely op H (w : World) :
  state_wf (cs w) -> lifecycleMu ∉ H -> rely H w (clearLifecycleOperation op w).
Proof.
  intros Hwf Hn. unfold clearLifecycleOperation. case_bool_decide; [|apply (rely_refl L)].
  apply lifecycle_rely; [apply quiet_refl|done|done|done].
Qed.

Lemma wp_cancel {A} c (k : unit -> prog A) H Post (w : World) :
  (forall w', rely H w w' -> wp (k tt) H Post w') -> wp (bind (cancel c) k) H Post w.
Proof. intros Hk. apply wp_quiet_modify; [apply cancelCtx_quiet|done]. Qed.

Lemma wp_finish {A} op (k : unit -> prog A) H Post (w : World) :
  no_locks H -> (forall w', rely H w w' -> wp (k tt) H Post w') ->
  wp (bind (finishLifecycleOperation op) k) H Post w.
Proof.
  intros Hn Hk. apply wp_back with (P := fun _ => True); [|intros []; intros; by apply Hk].
  unfold finishLifecycleOperation. apply wp_lock_lifecycle; [done|]. intros w1 HR1.
  apply wp_modify. intros w2 HR2 Hi Hh. apply clear_trans; [done|done|apply in_union_self|].
  pose proof (clear_rely op H w2 (inv_wf _ _ _ Hi) ltac:(apply Hn)) as HR3.
  apply wp_unlock_lifecycle; [apply in_union_self|]. intros w4 HR4.
  rewrite union_diff_cancel by apply Hn. apply rely_union in HR2, HR4.
  pose proof (rely_trans L _ _ _ _ HR1 HR2) as HR. pose proof (rely_trans L _ _ _ _ HR3 HR4) as HR'.
  intros w5 HR5 Hi5 Hh5. apply trans_quiet; [apply cancelCtx_quiet|done|done|].
  apply wp_ret_back; [|done]. eapply (rely_trans L); [exact HR|]. eapply (rely_trans L); [exact HR'|].
  eapply (rely_trans L); [exact HR5|]. pose proof (cancelCtx_quiet (loCtx op) w5) as Hq.
  split; [by apply quiet_hist|]. intros l _. apply quiet_prot; [apply Hi5|done].
Qed.

(** ** Browser flows *)

Lemma flow_hist (b : bool) (w : World) : hist w (w <| lifecycleFlow := b |>).
Proof. split; [cbn; lia|done]. Qed.
Lemma flow_rely (b : bool) H (w : World) : flowRole ∉ H -> rely H w (w <| lifecycleFlow := b |>).
Proof. intros Hn. split; [split; [cbn; lia|done]|]. intros l Hl. destruct l; try done. Qed.

Lemma wp_runLifecycleFlow {A} op start (k : result error string -> prog A) H Post (w : World) :
  no_locks H -> flowRole ∉ H ->
  (forall ctx w, wp (start ctx) ({[flowRole]} ∪ H) (back ({[flowRole]} ∪ H) w (fun _ => True)) w) ->
  (forall r w', rely H w w' -> wp (k r) H Post w') ->
  wp (bind (runLifecycleFlow op start) k) H Post w.
Proof.
  intros Hn Hf Hstart Hk. apply wp_back with (P := fun _ => True); [|intros; by apply Hk].
  unfold runLifecycleFlow. apply wp_current; [done|]. intros b w1 HR1.
  destruct b; cbn [negb]; [|apply wp_cancelled; intros e w2 HR2;
    apply wp_ret_back; [by eapply (rely_trans L)|done]].
  apply wp_select. intros w2 HR2 Hi2 Hh2. split; [done|]. intros x w3 _ Hr.
  pose proof (rely_trans L _ _ _ _ HR1 HR2) as HR. clear HR1 HR2 w1.
  destruct x; cbn in Hr; try done.
  { destruct (ctxErrored _ _); [|done]. injection Hr as <-. apply (trans_refl L); [done|done|].
    apply wp_cancelled. intros e w4 HR4. apply wp_ret_back; [by eapply (rely_trans L)|done]. }
  destruct (lifecycleFlow w2) eqn:Ef; [done|]. injection Hr as <-.
  apply (trans_acquire _ _ flowRole); [done|done|done|by intros []|by apply flow_hist|by destruct Hi2|done|].
  pose proof (rely_trans L _ _ _ _ HR (flow_rely true H w2 Hf)) as HR2. clear HR.
  assert (Hn' : no_locks ({[flowRole]} ∪ H)).
  { destruct Hn as [N1 N2]. split; rewrite elem_of_union, elem_of_singleton; naive_solver. }
  unfold deferred.
  apply wp_back with (P := fun _ => True).
  - apply wp_current; [done|]. intros b w3 HR3. destruct b; cbn [negb].
    + eapply wp_back; [apply Hstart|]. intros r w4 HR4 _. apply wp_current; [done|].
      intros b w5 HR5. pose proof (rely_trans L _ _ _ _ HR3 (rely_trans L _ _ _ _ HR4 HR5)) as HR'.
      destruct b; cbn [negb]; [by apply wp_ret_back|].
      apply wp_cancelled. intros e w6 HR6. apply wp_ret_back; [by eapply (rely_trans L)|done].
    + apply wp_cancelled. intros e w4 HR4. apply wp_ret_back; [by eapply (rely_trans L)|done].
  - intros r w3 HR3 _. apply wp_modify. intros w4 HR4 Hi4 Hh4.
    apply (trans_release _ _ flowRole); [done|apply in_union_self|done|by intros []|by apply flow_hist|by destruct Hi4|done|].
    rewrite union_diff_cancel by done. apply wp_ret_back; [|done].
    apply rely_union in HR3, HR4. eapply (rely_trans L); [exact HR2|].
    eapply (rely_trans L); [exact HR3|]. eapply (rely_trans L); [exact HR4|]. by apply flow_rely.
Qed.

(** ** ID tokens *)

Lemma wp_verify ctx v raw H (w : World) :
  no_locks H -> http_ok httpClient ctx ->
  wp (verifyIDTokenP ctx v raw) H
    (back H w (fun r => forall info, r = Ok info -> authorized verified (ClientID cfg) raw info)) w.
Proof.
  intros Hn Hc. unfold verifyIDTokenP. apply wp_query; [done|]. intros r w1 HR1 Ha.
  apply wp_look. intros w2 HR2 Hi2. rewrite (inv_config _ _ _ Hi2).
  pose proof (rely_trans L _ _ _ _ HR1 HR2) as HR. clear HR1 HR2 Hi2 w1.
  apply wp_back with (P := fun _ => True).
  - destruct r as [e|t]; [by apply wp_ret_back; [apply (rely_refl L)|]|].
    destruct (idClaims t); [by apply wp_ret_back; [apply (rely_refl L)|]|].
    destruct (authorizedPartyWarning _ _ _).
    + by apply wp_warn_last.
    + by apply wp_ret_back; [apply (rely_refl L)|].
  - intros _ w3 HR3 _. apply wp_ret_back; [by eapply (rely_trans L)|].
    intros info Hv. unfold verifyIDToken in Hv. destruct r as [e|t]; [done|].
    destruct (idClaims t) as [e|claims] eqn:Ec; [done|].
    destruct (checkAuthorizedParty _ _ _) eqn:Ep; [done|]. injection Hv as <-.
    exists v, claims. split; [by apply Ha|]. split; done.
Qed.

(** ** The refresh attempt *)

(** The generation [r] has (or had) the tokens [s]. *)
Definition gen_fact (r : Z) (s : TokenState) (w : World) : Prop :=
  r <= stateRevision (cs w) /\ (stateRevision (cs w) = r -> state (cs w) = s).

Lemma gen_rely r s H (w w' : World) : gen_fact r s w -> rely H w w' -> gen_fact r s w'.
Proof.
  intros [G1 G2] [[h1 h2] _]. split; [lia|]. intros He. rewrite h2 by lia. apply G2. lia.
Qed.

Lemma wp_refreshFailure r err H (w : World) :
  wp (refreshFailure r err) H (fun x H' _ => H' = H /\ x.1.2 = false) w.
Proof. unfold refreshFailure. apply wp_look'. intros x w1 _. by apply wp_ret. Qed.

Definition id_kept (snapshot : TokenState) (id : string) : Prop :=
  id = IDToken snapshot \/
  exists info claims, authorized verified (ClientID cfg) id info /\
    DecodeIDToken (IDToken snapshot) = Ok claims /\
    idSubject info = Subject claims /\ Subject claims <> "".

Lemma checkSubject_ok old new :
  checkSubject old new = None ->
  exists claims, DecodeIDToken old = Ok claims /\ new = Subject claims /\ Subject claims <> "".
Proof.
  unfold checkSubject. destruct (String.eqb new "") eqn:E1; [done|].
  destruct (String.eqb old ""); [done|]. destruct (DecodeIDToken old) as [e|claims]; [done|].
  destruct (String.eqb (Subject claims) "") eqn:E2; [done|].
  destruct (String.eqb new (Subject claims)) eqn:E3; [|done]. intros _.
  exists claims. split; [done|]. split; [by apply String.eqb_eq|by apply String.eqb_neq].
Qed.

Lemma wp_refreshedIDToken ctx v snapshot tok H (w : World) :
  no_locks H -> http_ok httpClient ctx ->
  wp (refreshedIDToken ctx v snapshot tok) H
    (back H w (fun r => forall id, r = inr id -> id_kept snapshot id)) w.
Proof.
  intros Hn Hc. unfold refreshedIDToken. destruct (String.eqb (tokenExtraID tok) "").
  { apply wp_ret_back; [apply (rely_refl L)|]. intros id [= <-]. by left. }
  eapply wp_back; [by apply wp_verify|]. intros r w1 HR1 Hr. destruct r as [e|t].
  { by apply wp_ret_back. }
  destruct (checkSubject _ _) eqn:Es; [by apply wp_ret_back|].
  apply wp_ret_back; [done|]. intros id [= <-]. right.
  apply checkSubject_ok in Es as (claims & ? & ? & ?). exists t, claims. by auto.
Qed.

Lemma httpContext_ok ctx : http_ok httpClient (httpContext httpClient ctx).
Proof. intros Hc. unfold httpContext. by rewrite Hc. Qed.

Lemma wp_commitRefreshed snapshot new r H (w : World) :
  no_locks H -> gen_fact r snapshot w ->
  RefreshToken snapshot <> "" -> RefreshToken new <> "" -> id_kept snapshot (IDToken new) ->
  wp (commitRefreshed snapshot new r) H
    (fun x H' _ => H' = after_enqueue x.1.2 H /\ (x.2 <> None -> x.1.2 = false)) w.
Proof.
  intros Hn Hg Hold Hnew Hid. unfold commitRefreshed.
  apply wp_lock_commit; [apply Hn|]. intros w1 HR1 Hi1 Hl1. apply (gen_rely _ _ _ _ _ Hg) in HR1.
  apply wp_act. intros w2 HR2 Hi2 Hh2. apply (gen_rely _ _ _ _ _ HR1) in HR2 as Hg2.
  assert (Hl2 : linv stateCommitMu w2).
  { destruct HR2 as [_ HR2]. eapply linv_same; [apply HR2, in_union_self|done]. }
  unfold commitRefresh. destruct (stateRevision (cs w2) =? r) eqn:Er; cbn [negb fst snd].
  - apply Z.eqb_eq in Er. destruct Hg2 as [_ Hst]. specialize (Hst Er).
    pose proof (advance_trans cfg verified (ORefresh snapshot new) EventTokenRefreshed new
                  ({[stateCommitMu]} ∪ H) w2) as Ht.
    destruct (advanceAt (ORefresh snapshot new) new w2) as [rev w3] eqn:Ea. cbn [fst snd] in *.
    apply Ht; [done|done|apply in_union_self|apply Hl2|done|done| |].
    { rewrite <- Hst. apply (spec_refresh verified (ClientID cfg) new (abs w2)); cbn; by rewrite ?Hst. }
    intros Hc. eapply (wp_call L); [apply wp_persistCommit; [apply in_union_self|exact Hc]|].
    intros p H' w4 [Hl4 ->]. apply wp_unlock_commit; [apply in_after_enqueue, in_union_self|done|].
    intros w5 _. rewrite after_enqueue_diff, union_diff_cancel by (done || apply Hn).
    apply wp_when_warn; [by apply no_locks_after_enqueue|]. intros w6 _. by apply wp_ret.
  - apply (trans_refl L); [done|done|]. apply wp_unlock_commit; [apply in_union_self|done|].
    intros w3 _. rewrite union_diff_cancel by apply Hn. by apply wp_ret.
Qed.

Lemma wp_performRefresh att ctx snapshot r H (w : World) :
  no_locks H -> attemptRole att ∈ H -> gen_fact r snapshot w -> RefreshToken snapshot <> "" ->
  wp (performRefresh httpClient ctx snapshot r) H
    (fun x H' _ => H' = after_enqueue x.1.2 H /\ (x.2 <> None -> x.1.2 = false)) w.
Proof.
  intros Hn Ha Hg Hold. unfold performRefresh. apply wp_look'. intros [o v] w1 HR1.
  apply (gen_rely _ _ _ _ _ Hg) in HR1. clear Hg.
  destruct o as [oauthCfg|], v as [v|]; try (by apply wp_ret).
  assert (Hfail : forall e w, wp (refreshFailure r e) H
            (fun x H' _ => H' = after_enqueue x.1.2 H /\ (x.2 <> None -> x.1.2 = false)) w).
  { intros e w2. eapply wp_mono; [|apply wp_refreshFailure].
    intros x0 H' w3 [-> ->]. by split. }
  apply wp_query; [intros; split; [done|split; [by exists att|apply httpContext_ok]]|].
  intros res w2 HR2 _. apply (gen_rely _ _ _ _ _ HR1) in HR2. clear HR1 w1 w.
  destruct res as [e|tok]; [apply Hfail|].
  eapply wp_back; [apply wp_refreshedIDToken; [done|apply httpContext_ok]|].
  intros id w3 HR3 Hid. apply (gen_rely _ _ _ _ _ HR2) in HR3. clear HR2 w2.
  destruct id as [e|id]; [apply Hfail|]. specialize (Hid id eq_refl).
  apply wp_query; [done|]. intros t w4 HR4 _. apply (gen_rely _ _ _ _ _ HR3) in HR4.
  apply wp_commitRefreshed; try done. cbn.
  destruct (String.eqb (tRefreshToken tok) "") eqn:E; [done|]. by apply String.eqb_neq.
Qed.

(** Returning from a commit path, possibly with the dispatching role. *)
Definition drained (H : gset Lk) (b : bool) (H' : gset Lk) (_ : World) : Prop :=
  H' = after_enqueue b H.

Lemma wp_unlock_ret H (w : World) :
  no_locks H -> linv stateCommitMu w ->
  wp (unlock stateCommitMu ;;; Ret false) ({[stateCommitMu]} ∪ H) (drained H) w.
Proof.
  intros Hn Hl. apply wp_unlock_commit; [apply in_union_self|done|]. intros w' _.
  rewrite union_diff_cancel by apply Hn. by apply wp_ret.
Qed.

Lemma wp_unlock_warn msg H (w : World) :
  no_locks H -> linv stateCommitMu w ->
  wp (unlock stateCommitMu ;;; Warn msg ;;; Ret false) ({[stateCommitMu]} ∪ H) (drained H) w.
Proof.
  intros Hn Hl. apply wp_unlock_commit; [apply in_union_self|done|]. intros w' _.
  rewrite union_diff_cancel by apply Hn. apply wp_warn; [done|]. intros w2 _. by apply wp_ret.
Qed.

Lemma load_coherent (w : World) : coherent w -> coherent (w <| store := (Load (store w)).2 |>).
Proof.
  unfold coherent. cbn. intros [?|[?|[?|Hh]]]; auto. right; right; right. by apply load_keeps.
Qed.

(** [Load] keeps whatever the mutex protects coherent. *)
Lemma wp_storeLoad {A} (k : TokenState * option error -> prog A) H Post (w : World) :
  stateCommitMu ∈ H -> linv stateCommitMu w ->
  (forall r w', rely (H ∖ {[stateCommitMu]}) w w' -> linv stateCommitMu w' ->
     (state (cs w') = state (cs w) /\ stateRevision (cs w') = stateRevision (cs w) /\
      restoreBlocked (cs w') = restoreBlocked (cs w)) ->
     (r.2 = None -> holds (store w') r.1) -> wp (k r) H Post w') ->
  wp (bind storeLoad k) H Post w.
Proof.
  intros Hin Hl Hk. unfold storeLoad. apply wp_act. intros w1 HR Hi Hh.
  assert (Hl1 : linv stateCommitMu w1).
  { destruct HR as [_ HR]. eapply linv_same; [by apply HR|done]. }
  assert (Hsame : state (cs w1) = state (cs w) /\ stateRevision (cs w1) = stateRevision (cs w) /\
                  restoreBlocked (cs w1) = restoreBlocked (cs w)).
  { destruct HR as [_ HR]. by destruct (HR _ Hin). }
  pose proof (load_found (store w1)) as Hf. pose proof (load_coherent w1) as Hco.
  destruct (Load (store w1)) as [r s'] eqn:El. cbn [fst snd] in *.
  apply store_trans; [done..|]. apply Hk; [|split; [by apply Hco, Hl1|apply Hl1]|done|done].
  eapply (rely_trans L); [eapply rely_sub; [apply diff_sub|exact HR]|].
  split; [split; [cbn; lia|done]|]. intros l Hl'. apply elem_of_difference in Hl'.
  destruct l; try done. destruct Hl' as [_ Hl']. by rewrite elem_of_singleton in Hl'.
Qed.

Lemma wp_commitCredentialRefusal att err H (w : World) :
  no_locks H -> gen_fact (raRevision att) (raSnapshot att) w -> RefreshToken (raSnapshot att) <> "" ->
  wp (commitCredentialRefusal att err) H (drained H) w.
Proof.
  intros Hn Hg Hold. unfold commitCredentialRefusal.
  destruct (negb _); [by apply wp_ret|].
  apply wp_lock_commit; [apply Hn|]. intros w1 HR1 _ Hl1. apply (gen_rely _ _ _ _ _ Hg) in HR1.
  apply wp_look. intros w2 HR2 Hi2. apply (gen_rely _ _ _ _ _ HR1) in HR2 as Hg2.
  assert (Hl2 : linv stateCommitMu w2).
  { destruct HR2 as [_ HR2]. eapply linv_same; [apply HR2, in_union_self|done]. }
  clear Hl1 HR1 HR2 Hg w1 w Hi2.
  destruct (checkRefusal _ w2); [by apply wp_unlock_ret|by apply wp_unlock_warn|].
  apply wp_storeLoad; [apply in_union_self|done|]. intros loaded w3 HR3 Hl3 Hs3 _.
  apply (gen_rely _ _ _ _ _ Hg2) in HR3. clear Hl2 Hg2 Hs3 w2.
  destruct (negb _ && _); [by apply wp_unlock_warn|]. unfold deferred.
  eapply (wp_call L).
  - apply wp_act. intros w4 HR4 Hi4 Hh4. apply (gen_rely _ _ _ _ _ HR3) in HR4 as Hg4.
    assert (Hl4 : linv stateCommitMu w4).
    { destruct HR4 as [_ HR4]. eapply linv_same; [apply HR4, in_union_self|done]. }
    clear HR3 HR4 Hl3 w3. instantiate (1 := drained H). unfold commitRefused.
    destruct (stateRevision (cs w4) =? raRevision att) eqn:Er; cbn [negb fst snd].
    + apply Z.eqb_eq in Er. destruct Hg4 as [_ Hst]. specialize (Hst Er).
      pose proof (advance_trans cfg verified (ORefused (raSnapshot att)) EventSessionExpired
                    (refusedState (raSnapshot att)) ({[stateCommitMu]} ∪ H) w4) as Ht.
      destruct (advanceAt _ _ w4) as [rev w5] eqn:Ea. cbn [fst snd] in *.
      apply Ht; [done|done|apply in_union_self|apply Hl4|done|done| |].
      { rewrite <- Hst. apply (spec_refused verified (ClientID cfg) (abs w4)). cbn. by rewrite Hst. }
      intros Hc. eapply (wp_call L); [apply wp_persistCommit; [apply in_union_self|exact Hc]|].
      intros p H' w6 [Hl6 ->]. apply wp_unlock_commit; [apply in_after_enqueue, in_union_self|done|].
      intros w7 _. rewrite after_enqueue_diff, union_diff_cancel by (done || apply Hn).
      apply wp_when_warn; [by apply no_locks_after_enqueue|]. intros w8 _. by apply wp_ret.
    + apply (trans_refl L); [done|done|]. by apply wp_unlock_ret.
  - intros b H' w4 ->. apply wp_when_warn; [by apply no_locks_after_enqueue|].
    intros w5 _. by apply wp_ret.
Qed.

(** Recording a failure only moves the schedule. *)
Lemma recordRefreshFailure_same att e t (w : World) :
  same_tokens (cs w) (recordRefreshFailure att e t w) /\
  (state_wf (cs w) -> state_wf (recordRefreshFailure att e t w)).
Proof. unfold recordRefreshFailure. repeat case_goal; split; auto with go; reflexivity. Qed.

Lemma finish_shape att ts err t (w : World) :
  exists w1, quiet w w1 /\
    exists w2, finishRefreshAttempt att ts err t w = cancelCtx (raCtx att) w2 /\
      w2 = if bool_decide (refreshAttempt w = Some att) then w1 <| refreshAttempt := None |> else w1.
Proof.
  unfold finishRefreshAttempt.
  set (w0 := match err with Some e => w <| cs := recordRefreshFailure att e t w |> | None => w end).
  assert (Hq0 : quiet w w0).
  { unfold w0. destruct err as [e|]; [|apply quiet_refl].
    destruct (recordRefreshFailure_same att e t w). by apply onCS_quiet_tokens. }
  set (w1 := updCell (raPtr att) _ w0). exists w1.
  assert (Hq1 : quiet w w1) by (eapply quiet_trans; [exact Hq0|apply updCell_quiet]).
  split; [done|]. eexists. split; [reflexivity|]. by rewrite (q_attempt _ _ Hq1).
Qed.

Lemma attempt_rely x H (w : World) :
  (forall a, attemptRole a ∈ H -> (x = Some a <-> refreshAttempt w = Some a)) ->
  rely H w (w <| refreshAttempt := x |>).
Proof.
  intros Hn. split; [split; [cbn; lia|done]|]. intros l Hl. destruct l; try done. cbn. by apply Hn.
Qed.

(** [finishRefreshAttempt] gives the attempt's role up. *)
Lemma finish_trans att ts err t H (w : World) (K : gset Lk -> Prop) :
  inv w -> held H w -> attemptRole att ∈ H -> K (H ∖ {[attemptRole att]}) ->
  trans H w (finishRefreshAttempt att ts err t w) K.
Proof.
  intros Hi Hh Hin HK. pose proof (Hh _ Hin eq_refl) as Ht. cbn in Ht.
  destruct (finish_shape att ts err t w) as (w1 & Hq1 & w2 & -> & ->). rewrite Ht.
  apply bool_decide_eq_true in Ht.
  assert (Hq : quiet (w <| refreshAttempt := None |>) (cancelCtx (raCtx att) (w1 <| refreshAttempt := None |>))).
  { eapply quiet_trans; [|apply cancelCtx_quiet]. destruct Hq1. by split. }
  apply (trans_release _ _ (attemptRole att)); try done.
  - apply bool_decide_eq_false. by rewrite (q_attempt _ _ Hq).
  - intros l Hl. assert (Hp1 : prot l w (w <| refreshAttempt := None |>)).
    { destruct l; try done. cbn. rewrite Ht. split; [done|]. intros [= ->]. done. }
    eapply (prot_trans _ L); [exact Hp1|]. eapply quiet_prot; [|exact Hq]. exact (inv_wf _ _ _ Hi).
  - apply (quiet_hist _ _ Hq).
  - eapply quiet_inv; [exact Hq|]. by destruct Hi.
Qed.

Lemma wp_runRefreshAttempt att (w : World) :
  gen_fact (raRevision att) (raSnapshot att) w -> RefreshToken (raSnapshot att) <> "" ->
  wp (runRefreshAttempt httpClient att) {[attemptRole att]} (fun _ H _ => H = ∅) w.
Proof.
  intros Hg Hold.
  assert (Hn : no_locks {[attemptRole att]}) by (split; by rewrite elem_of_singleton).
  assert (Hin : attemptRole att ∈ ({[attemptRole att]} : gset Lk)) by by apply elem_of_singleton.
  assert (Hgh : forall w w', gen_fact (raRevision att) (raSnapshot att) w -> hist w w' ->
            gen_fact (raRevision att) (raSnapshot att) w').
  { intros w1 w2 G Hh. apply (gen_rely _ _ ∅ _ _ G). split; [done|]. set_solver. }
  unfold runRefreshAttempt.
  eapply (wp_call_hist L); [by apply (wp_performRefresh att)|].
  intros [[ts d] err] H1 w1 Hh1 [-> Hd]. cbn [fst snd] in *. apply (Hgh _ _ Hg) in Hh1. clear Hg w.
  eapply (wp_call L); [apply wp_commitCredentialRefusal; [by apply no_locks_after_enqueue|done|done]|].
  intros rd H2 w2 ->. set (H2 := after_enqueue rd _).
  assert (Hin2 : attemptRole att ∈ H2) by (by apply in_after_enqueue, in_after_enqueue).
  assert (Hn2 : no_locks H2) by (by apply no_locks_after_enqueue, no_locks_after_enqueue).
  assert (HH2 : H2 = after_enqueue (rd || d) {[attemptRole att]}).
  { unfold H2. destruct rd, d; try done. cbn. set_solver. }
  clearbody H2. clear w1 Hh1 Hd.
  apply wp_query; [done|]. intros t w3 _ _. apply wp_modify. intros w4 _ Hi4 Hh4.
  apply finish_trans; [done..|]. rewrite HH2, after_enqueue_diff by done.
  assert (({[attemptRole att]} ∖ {[attemptRole att]} : gset Lk) = ∅) as -> by set_solver.
  destruct (rd || d); cbn [when after_enqueue].
  - apply wp_drainEvents; [split; set_solver|set_solver|]. intros w5 _.
    replace (({[drainRole]} ∪ ∅) ∖ {[drainRole]} : gset Lk) with (∅ : gset Lk) by set_solver.
    intros w6 HR6 Hi6 Hh6. apply trans_quiet; [apply updCell_quiet|done|done|]. by apply wp_ret.
  - intros w6 HR6 Hi6 Hh6. apply trans_quiet; [apply updCell_quiet|done|done|]. by apply wp_ret.
Qed.

(** What one iteration of [beginRefreshAttempt] does. *)
Definition lead_ok (snapshot : TokenState) (att : refreshAttempt') (w : World) : Prop :=
  refreshAttempt w = None /\ raRevision att = stateRevision (cs w) /\
  raSnapshot att = snapshot /\ state (cs w) = snapshot.

Lemma begin_shape ctx snapshot er claim t (w : World) :
  let r := beginSection ctx snapshot er claim t w in
  match r.1 with
  | BeginLead att =>
      lead_ok snapshot att w /\
      exists w1, quiet w w1 /\ quiet (w1 <| refreshAttempt := Some att |>) r.2
  | _ => quiet w r.2
  end.
Proof.
  unfold beginSection. cbv zeta.
  destruct (match er with Some r => _ | None => _ end); [apply quiet_refl|].
  destruct (negb (bool_decide _)) eqn:Es; [apply quiet_refl|]. bool_to_prop.
  destruct (refreshIntegrityBlockedLocked _); [apply quiet_refl|].
  destruct (refreshPermanentlyBlockedLocked _); [apply quiet_refl|].
  destruct (_ && _); [apply quiet_refl|]. destruct (_ && _); [apply quiet_refl|].
  destruct (oauth2 (cs w)), (verifier (cs w)); try apply quiet_refl.
  destruct (refreshAttempt w) as [active|] eqn:Ea.
  - destruct (_ && _); [apply updCell_quiet|apply quiet_refl].
  - cbn. split; [done|].
    exists (w <| ctxNext := S (ctxNext w) |> <| ptrNext := S (ptrNext w) |>).
    split; [by split|apply updCell_quiet].
Qed.

Lemma lead_trans snapshot att H (w w1 w2 : World) (K : gset Lk -> Prop) :
  inv w -> held H w -> lead_ok snapshot att w ->
  quiet w w1 -> quiet (w1 <| refreshAttempt := Some att |>) w2 ->
  K ({[attemptRole att]} ∪ H) -> trans H w w2 K.
Proof.
  intros Hi Hh (Hnone & _) Hq1 Hq2 HK.
  assert (Hi1 : inv (w1 <| refreshAttempt := Some att |>)).
  { destruct (quiet_inv cfg verified _ _ Hq1 Hi). by split. }
  assert (Hs : refreshAttempt w2 = Some att) by (by rewrite (q_attempt _ _ Hq2)).
  apply (trans_acquire _ _ (attemptRole att)); [done|..|done|done].
  - cbn. rewrite Hnone. done.
  - cbn. rewrite Hs. by apply bool_decide_eq_true.
  - intros l Hl. eapply (prot_trans _ L); [apply (quiet_prot l _ _ (inv_wf _ _ _ Hi) Hq1)|].
    eapply (prot_trans _ L); [|apply (quiet_prot l _ _ (inv_wf _ _ _ Hi1) Hq2)].
    destruct l; try done. cbn. rewrite (q_attempt _ _ Hq1), Hnone. split; [|done]. congruence.
  - pose proof (quiet_hist _ _ Hq1) as [h1 e1]. pose proof (quiet_hist _ _ Hq2) as [h2 e2].
    cbn in h2, e2. split; [lia|]. intros He. rewrite e2 by lia. apply e1. lia.
  - eapply quiet_inv; [exact Hq2|done].
Qed.

(** The result of [beginRefreshAttempt]: a leader holds the attempt's role. *)
Definition begun (snapshot : TokenState) (H : gset Lk)
    (r : (TokenState * option error) + (refreshAttempt' * bool)) (H' : gset Lk) (w : World) : Prop :=
  match r with
  | inr (att, true) =>
      H' = {[attemptRole att]} ∪ H /\ attemptRole att ∉ H /\ raSnapshot att = snapshot /\
      gen_fact (raRevision att) snapshot w
  | _ => H' = H
  end.

Lemma wp_beginRefreshAttempt ctx snapshot er claim H (w : World) :
  no_locks H ->
  wp (beginRefreshAttempt ctx snapshot er claim) H (begun snapshot H) w.
Proof.
  intros Hn. unfold beginRefreshAttempt, ctxErrP. apply wp_look'. intros e w1 _.
  destruct e as [e|]; [by apply wp_ret|].
  refine (wp_loop _ Ret _ _ _ (fun _ => True) _ _ _); [done|done|]. intros w2 _.
  apply wp_query; [done|]. intros t w3 _ _. apply wp_act. intros w4 _ Hi4 Hh4.
  pose proof (begin_shape ctx snapshot er claim t w4) as Hb. cbv zeta in Hb.
  destruct (beginSection ctx snapshot er claim t w4) as [r w5]. cbn [fst snd] in *.
  destruct r as [current err|att|att|active].
  - apply trans_quiet; [done|done|done|]. apply wp_ret. intros w6 _ _ _. by apply wp_ret.
  - destruct Hb as [Hlead (w6 & Hq1 & Hq2)].
    apply (lead_trans snapshot att _ _ w6); [done..|].
    destruct Hlead as (Hnone & Hrev & Hsnap & Hst).
    assert (Hnot : attemptRole att ∉ H).
    { intros Hin. specialize (Hh4 _ Hin eq_refl) as Hin2. cbn in Hin2. rewrite Hnone in Hin2. done. }
    assert (Hg : gen_fact (raRevision att) snapshot w5).
    { pose proof (quiet_hist _ _ Hq1) as [h1 e1]. pose proof (quiet_hist _ _ Hq2) as [h2 e2].
      cbn in h2, e2. split; [lia|]. intros He. rewrite e2, e1 by lia. done. }
    apply wp_ret. intros w7 HR7 _ _. apply wp_ret. intros w8 HR8 _ _. cbn.
    split; [done|]. split; [done|]. split; [done|].
    eapply gen_rely; [|exact HR8]. by eapply gen_rely; [|exact HR7].
  - apply trans_quiet; [done|done|done|]. apply wp_ret. intros w6 _ _ _. by apply wp_ret.
  - apply trans_quiet; [done|done|done|]. apply wp_select. intros w6 _ Hi6 Hh6. split; [done|].
    intros x w7 _ Hr. assert (w7 = w6) as ->.
    { destruct x; cbn in Hr; try done; by repeat case_match; simplify_eq. }
    apply (trans_refl L); [done|done|]. destruct x; try (by apply wp_ret).
    apply wp_look'. intros e w7 _. apply wp_ret. intros w8 _ _ _. by apply wp_ret.
Qed.

Lemma release_quiet att (w : World) : quiet w (releaseRefreshParticipant att w).
Proof.
  unfold releaseRefreshParticipant. destruct (_ && _); [|apply updCell_quiet].
  eapply quiet_trans; [apply updCell_quiet|apply cancelCtx_quiet].
Qed.

Lemma wp_waitForRefreshAttempt ctx att H (w : World) :
  no_locks H -> wp (waitForRefreshAttempt ctx att) H (fun _ H' _ => H' = H) w.
Proof.
  intros Hn. unfold waitForRefreshAttempt, ctxErrP. apply wp_select. intros w1 _ Hi Hh.
  split; [done|]. intros x w2 _ Hr. assert (w2 = w1) as ->.
  { destruct x; cbn in Hr; try done; by repeat case_match; simplify_eq. }
  apply (trans_refl L); [done|done|].
  assert (Hend : forall w, wp (modify (releaseRefreshParticipant att) ;;;
            let* e := read (ctxErr ctx) in Ret (zeroTokenState, option_map ctxErrError e)) H
            (fun (_ : TokenState * option error) H' _ => H' = H) w).
  { intros w2. apply wp_quiet_modify; [apply release_quiet|]. intros w3 _.
    apply wp_look'. intros e w4 _. by apply wp_ret. }
  destruct x; try apply Hend.
  apply wp_quiet_modify; [apply release_quiet|]. intros w3 _. apply wp_look'. intros a w4 _.
  destruct (aErr a); [by apply wp_ret|]. apply wp_look'. intros c w5 _. by apply wp_ret.
Qed.

Lemma wp_refreshAtRevision ctx snapshot er claim H (w : World) :
  no_locks H -> RefreshToken snapshot <> "" ->
  wp (refreshAtRevision httpClient ctx snapshot er claim) H (fun _ H' _ => H' = H) w.
Proof.
  intros Hn Hold. unfold refreshAtRevision.
  eapply (wp_call L); [by apply wp_beginRefreshAttempt|].
  intros r H' w1 Hr. destruct r as [[current err]|[att leader]].
  { cbn in Hr. subst H'. by apply wp_ret. }
  assert (Hwait : forall w, wp (let* r := waitForRefreshAttempt ctx att in Ret (r.1, true, r.2)) H
                    (fun (_ : TokenState * bool * option error) H' _ => H' = H) w).
  { intros w2. eapply (wp_call L); [by apply wp_waitForRefreshAttempt|].
    intros x H2 w3 ->. by apply wp_ret. }
  destruct leader; cbn [begun when] in *; [|subst H'; apply Hwait].
  destruct Hr as (-> & Hnot & Hsnap & Hg).
  apply (wp_fork _ _ _ _ _ {[attemptRole att]}); [set_solver|set_solver|].
  intros w2 HR2 _ _. split.
  - apply wp_runRefreshAttempt; rewrite Hsnap; [|done]. by eapply gen_rely.
  - rewrite union_diff_cancel by done. apply Hwait.
Qed.

Lemma wp_AccessToken ctx H (w : World) :
  no_locks H -> wp (AccessToken httpClient ctx) H (fun _ H' _ => H' = H) w.
Proof.
  intros Hn. unfold AccessToken. apply wp_look'. intros [[[ts rev] ib] pb] w1 _.
  destruct (_ || _); [by apply wp_ret|]. apply wp_query; [done|]. intros t w2 _ _.
  destruct (Before _ _); [by apply wp_ret|].
  assert (Hfall : forall w, wp (let* t := now in read (fun w => usableAccessToken t (cs w))) H
            (fun _ H' _ => H' = H) w).
  { intros w3. apply wp_query; [done|]. intros t' w4 _ _ w5 _ Hi5 Hh5. apply (trans_refl L); [done|done|].
    by apply wp_ret. }
  destruct (_ && _) eqn:Er; [|apply Hfall]. apply andb_prop in Er as [Er _].
  assert (Hrt : RefreshToken ts <> "") by (by apply strEmpty_false, negb_true_iff).
  apply wp_look'. intros b w3 _. destruct b; [|apply Hfall].
  eapply (wp_call L); [by apply wp_refreshAtRevision|]. intros r H' w4 ->.
  destruct r.2 as [err|]; [|by apply wp_ret].
  destruct (isSessionIntegrityError err).
  { apply wp_warn; [done|]. intros w5 _. apply wp_query; [done|]. intros t' w6 _ _.
    apply wp_quiet_modify; [intros; apply stateful_quiet; auto with go|]. intros w7 _. by apply wp_ret. }
  destruct (IsPermanentError err).
  - apply wp_warn; [done|]. intros w5 _. apply wp_query; [done|]. intros t' w6 _ _.
    apply wp_quiet_modify; [intros; apply stateful_quiet; auto with go|]. intros w7 _. apply Hfall.
  - apply wp_warn; [done|]. intros w5 _. apply Hfall.
Qed.

(** ** Login *)

Lemma no_locks_empty : no_locks ∅.
Proof. split; set_solver. Qed.

Definition ended {A} (_ : A) (H : gset Lk) (_ : World) : Prop := H = ∅.

Lemma wp_randomState {A} (k : result error string -> prog A) H Post (w : World) :
  no_locks H -> (forall r w', rely H w w' -> wp (k r) H Post w') -> wp (bind randomState k) H Post w.
Proof.
  intros Hn Hk. apply wp_back with (P := fun _ => True); [|intros; by apply Hk].
  unfold randomState. apply wp_query; [done|]. intros r w1 HR1 _. by apply wp_ret_back.
Qed.

Lemma wp_failLogin op err (w : World) : wp (failLogin op err) ∅ ended w.
Proof.
  unfold failLogin. apply wp_operationError; [apply no_locks_empty|]. intros e w1 _. by apply wp_ret.
Qed.
Lemma wp_cancelledLogin op (w : World) : wp (cancelledLogin op) ∅ ended w.
Proof. unfold cancelledLogin. apply wp_cancelled. intros e w1 _. by apply wp_ret. Qed.

Lemma current_operation op (w : World) :
  lifecycleOperationCurrentLocked op w = true -> lifecycleOperation w = Some op.
Proof.
  unfold lifecycleOperationCurrentLocked. intros Hc. apply andb_prop in Hc as [Hc _].
  apply andb_prop in Hc as [Hc _]. by apply bool_decide_eq_true in Hc.
Qed.

Lemma wp_commitLoginState op ts (w : World) :
  loKind op = lifecycleLogin -> login_verified verified (ClientID cfg) ts ->
  wp (commitLoginState op ts) ∅ ended w.
Proof.
  intros Hk Hv. unfold commitLoginState.
  apply wp_lock_lifecycle; [apply no_locks_empty|]. intros w1 _. apply wp_look'. intros b w2 _.
  assert (H1 : ({[lifecycleMu]} ∪ ∅) ∖ {[lifecycleMu]} = (∅ : gset Lk)) by set_solver.
  destruct b; cbn [negb].
  2: { apply wp_unlock_lifecycle; [set_solver|]. intros w3 _. rewrite H1. by apply wp_ret. }
  set (HL := {[lifecycleMu]} ∪ ∅ : gset Lk).
  assert (Hns : stateCommitMu ∉ HL) by set_solver.
  apply wp_lock_commit; [done|]. intros w3 _ Hi3 Hl3.
  apply wp_look. intros w4 HR4 Hi4.
  assert (Hl4 : linv stateCommitMu w4).
  { destruct HR4 as [_ HR4]. eapply linv_same; [apply HR4, in_union_self|done]. }
  destruct (lifecycleOperationCurrentLocked op w4) eqn:Ec; cbn [negb].
  2: { apply wp_unlock_commit; [apply in_union_self|done|]. intros w5 _.
       rewrite union_diff_cancel by done. apply wp_unlock_lifecycle; [set_solver|]. intros w6 _.
       unfold HL. rewrite H1. by apply wp_ret. }
  apply current_operation in Ec.
  apply wp_act. intros w5 HR5 Hi5 Hh5.
  assert (Ho5 : lifecycleOperation w5 = Some op).
  { destruct HR5 as [_ HR5]. specialize (HR5 lifecycleMu ltac:(set_solver)). cbn in HR5. congruence. }
  assert (Hl5 : linv stateCommitMu w5).
  { destruct HR5 as [_ HR5]. eapply linv_same; [apply HR5, in_union_self|done]. }
  apply (advance_trans cfg verified _ EventLoggedIn);
    [done|done|apply in_union_self|apply Hl5|done|done| |].
  { apply spec_login; [|done]. cbn. by rewrite Ho5, <- Hk. }
  intros Hc. eapply (wp_call L); [apply wp_persistCommit; [apply in_union_self|exact Hc]|].
  intros p H' w6 [Hl6 ->]. apply wp_unlock_commit; [apply in_after_enqueue, in_union_self|done|].
  intros w7 _. rewrite after_enqueue_diff, union_diff_cancel by done.
  apply wp_unlock_lifecycle; [apply in_after_enqueue; set_solver|]. intros w8 _.
  rewrite after_enqueue_diff by done. unfold HL. rewrite H1.
  destruct p as [e [|]]; cbn [when after_enqueue fst snd]; [|by apply wp_ret].
  apply wp_drainEvents; [split; set_solver|set_solver|]. intros w9 _.
  replace (({[drainRole]} ∪ ∅) ∖ {[drainRole]} : gset Lk) with (∅ : gset Lk) by set_solver.
  by apply wp_ret.
Qed.

Lemma wp_finishLogin op nonce raw tok info (w : World) :
  loKind op = lifecycleLogin -> raw <> "" -> authorized verified (ClientID cfg) raw info ->
  wp (finishLogin op nonce raw tok info) ∅ ended w.
Proof.
  intros Hk Hne Ha. unfold finishLogin. destruct (negb _); [apply wp_failLogin|].
  apply wp_query; [done|]. intros t w1 _ _.
  eapply (wp_call L); [apply wp_commitLoginState; [done|split; [done|by exists info]]|].
  intros [b pe] H' w2 ->. destruct b; cbn [negb fst snd]; [|apply wp_cancelledLogin].
  apply wp_when_warn; [apply no_locks_empty|]. intros w3 _. by apply wp_ret.
Qed.

Lemma wp_runLogin op cfg' oauthCfg v (w : World) :
  loKind op = lifecycleLogin -> wp (runLogin httpClient op cfg' oauthCfg v) ∅ ended w.
Proof.
  intros Hk. unfold runLogin. pose proof no_locks_empty as Hn.
  apply wp_query; [done|]. intros pkce w1 _ _.
  apply wp_randomState; [done|]. intros st w2 _. destruct st as [e|st]; [apply wp_failLogin|].
  apply wp_randomState; [done|]. intros nonce w3 _. destruct nonce as [e|nonce]; [apply wp_failLogin|].
  apply wp_query; [done|]. intros url w4 _ _.
  apply wp_runLifecycleFlow; [done|set_solver| |].
  { intros ctx w5. intros w6 HR6 Hi6 Hh6. split; [split; [split; set_solver|set_solver]|].
    intros x w7 _ [= <-]. apply (trans_refl L); [done|done|]. by apply wp_ret_back. }
  intros cb w5 _. destruct cb as [e|cb].
  { destruct (errors_Is e ErrFlowCancelled); [apply wp_cancelledLogin|apply wp_failLogin]. }
  destruct (checkCallback st cb) as [e|code]; [apply wp_failLogin|].
  apply wp_current; [done|]. intros b w6 _. destruct b; cbn [negb]; [|apply wp_cancelledLogin].
  unfold exchangeLogin. pose proof (httpContext_ok (loCtx op)) as Hhc.
  apply wp_query; [done|]. intros r w7 _ _. destruct r as [e|tok]; [apply wp_failLogin|].
  apply wp_current; [done|]. intros b w8 _. destruct b; cbn [negb]; [|apply wp_cancelledLogin].
  destruct (strEmpty _) eqn:Ee; [apply wp_failLogin|]. apply strEmpty_false in Ee.
  eapply wp_back; [by apply wp_verify|]. intros info w9 _ Hinfo.
  destruct info as [e|info]; [apply wp_failLogin|]. apply wp_finishLogin; [done|done|by apply Hinfo].
Qed.

Lemma wp_withTimeout {A} (b : bool) ctx (k : Ctx -> prog A) H Post (w : World) :
  (forall c w', wp (k c) H Post w') ->
  wp (bind (if b then WithTimeout ctx else Ret ctx) k) H Post w.
Proof.
  intros Hk. destruct b; [|apply Hk].
  apply wp_quiet; [intros; apply childCtx_quiet|]. intros c w' _. apply Hk.
Qed.

Lemma wp_deferCancel {A} (b : bool) ctx (p : prog A) (w : World) :
  wp p ∅ ended w -> wp (deferred (when b (cancel ctx)) p) ∅ ended w.
Proof.
  intros Hp. unfold deferred. eapply (wp_call L); [exact Hp|]. intros a H' w1 ->.
  destruct b; cbn [when]; [apply wp_cancel; intros w2 _|]; by apply wp_ret.
Qed.

Lemma wp_Login ctx (w : World) : wp (Login httpClient ctx) ∅ ended w.
Proof.
  unfold Login, ctxErrP. pose proof no_locks_empty as Hn. apply wp_look. intros w1 _ Hi1.
  pose proof (inv_discovery _ _ _ Hi1) as Hd. revert Hd.
  destruct (initialized (cs w1)) eqn:Ei; cbn [negb]; [|by intros _; apply wp_ret].
  intros Hd. destruct (Hd eq_refl) as [[o ->] [v ->]]. clear Hd.
  apply wp_withTimeout. intros c w2. apply wp_deferCancel. apply wp_look'. intros e w3 _.
  destruct e as [e|]; [apply wp_look'; intros e' w4 _; by apply wp_ret|].
  apply wp_begin; [done|]. intros op w4 _ Hop.
  destruct op as [op|]; [|apply wp_look'; intros e' w5 _; by apply wp_ret].
  unfold deferred. eapply (wp_call L); [apply wp_runLogin; by apply Hop|].
  intros r H' w5 ->. apply wp_finish; [done|]. intros w6 _. by apply wp_ret.
Qed.

(** ** Logout *)

(** Between the local commit of a logout and its event. *)
Record logging_out (w : World) : Prop := {
  lo_blocked : restoreBlocked (cs w) = true;
  lo_events : session_events (enqueued w) ++ [EventLoggedOut] = commit_events (trace w)
}.

Lemma logging_out_rely H (w w' : World) :
  stateCommitMu ∈ H -> rely H w w' -> logging_out w -> logging_out w'.
Proof.
  intros Hin [_ HR] [H1 H2]. destruct (HR _ Hin) as [Es Er Eb Et Est Ec Ee]. split; congruence.
Qed.

Lemma logoutLocked_wf c : state_wf c -> state_wf (logoutLocked c).2.
Proof.
  intros Hwf. cbn. apply signalRefreshLoopLocked_wf.
  destruct (setStateLocked_wf zeroTokenState c Hwf). by split.
Qed.

Lemma commitLogout_trans op H (w : World) (K : gset Lk -> Prop) :
  inv w -> held H w -> stateCommitMu ∈ H -> session_events (enqueued w) = commit_events (trace w) ->
  lifecycleOperation w = Some op -> loKind op = lifecycleLogout ->
  (logging_out (commitLogout op w).2 -> K H) -> trans H w (commitLogout op w).2 K.
Proof.
  intros Hi Hh Hin He Ho Hk HK Hb0. pose proof Hb0 as Hb. unfold Interference.bound in Hb.
  pose proof (advance_revision cfg verified w Hi) as Hrev.
  assert (Hst : state (logoutLocked (cs w)).2 = zeroTokenState).
  { cbn. unfold setStateLocked. by case_bool_decide. }
  assert (Hr : stateRevision (logoutLocked (cs w)).2 = stateRevision (cs w) /\
               state (cs w) = zeroTokenState \/
               stateRevision (logoutLocked (cs w)).2 = stateRevision (cs w) + 1).
  { cbn. unfold setStateLocked. case_bool_decide; [by left|]. right. cbn. by rewrite Hrev. }
  assert (HKH : K H).
  { apply HK. split; [done|].
    change (session_events (enqueued w) ++ [EventLoggedOut] = commit_events (trace w ++ [OLogout (loPtr op)])).
    by rewrite commit_events_snoc, He. }
  clear HK. pose proof (logoutLocked_wf _ (inv_wf _ _ _ Hi)) as Hwf.
  assert (Hrest : restoreBlocked (logoutLocked (cs w)).2 = true /\
                  config (logoutLocked (cs w)).2 = config (cs w) /\
                  provider (logoutLocked (cs w)).2 = provider (cs w) /\
                  oauth2 (logoutLocked (cs w)).2 = oauth2 (cs w) /\
                  verifier (logoutLocked (cs w)).2 = verifier (cs w)).
  { cbn. unfold setStateLocked. by case_bool_decide. }
  destruct Hrest as (Hrb & Hcf & Hpr & Hoa & Hve).
  revert Hb Hb0 HKH. unfold commitLogout. destruct (logoutLocked (cs w)) as [out c]. cbn [fst snd] in *.
  intros Hb Hb0 HKH. cbn in Hb.
  refine (trans_keep _ _ _ _ _ _ _ _ HKH Hb0).
  - split; cbn; [lia|]. intros E. destruct Hr as [[_ ->]|Hr]; [done|lia].
  - intros l Hl. by destruct l.
  - intros l Hrl Hl. specialize (Hh l Hl Hrl). by destruct l.
  - destruct Hi as [I1 I2 I3 I4 I5 I6 I7]. unfold u64_max in *. split; cbn; try done.
    + unfold u64_max in *. lia.
    + congruence.
    + unfold initialized. by rewrite Hpr, Hoa, Hve.
    + eapply spec_snoc; [exact I5|].
      pose proof (spec_logout verified (ClientID cfg) (loPtr op) (abs w)) as Hs.
      unfold abs in *. cbn in *. rewrite Hst, Hrb. rewrite Ho in *. apply Hs. cbn. by rewrite Hk.
Qed.

Lemma wp_revoke op endpoint rt (w : World) : wp (revokeRefreshToken op endpoint rt) ∅ ended w.
Proof.
  unfold revokeRefreshToken. pose proof no_locks_empty as Hn.
  assert (Hw : forall msg w, wp (Warn msg) ∅ ended w).
  { intros msg w1. eapply wp_mono; [|by apply wp_warn_last]. by intros a H' w2 [-> _]. }
  destruct (strEmpty endpoint || strEmpty rt) eqn:Ee; [by apply wp_ret|].
  apply orb_false_elim in Ee as [_ Ert]. apply strEmpty_false in Ert.
  apply wp_owned; [done|]. intros b w1 _.
  destruct b; cbn [negb]; [|apply Hw]. apply wp_look. intros w2 HR2 Hi2. clear HR2.
  rewrite (inv_config _ _ _ Hi2).
  destruct (revocationEndpointAllowed (IssuerURL cfg) endpoint) as [msg|[]] eqn:Ea; [apply Hw|].
  apply wp_quiet; [intros; apply childCtx_quiet|]. intros ctx w3 _.
  unfold deferred. eapply (wp_call L).
  - apply wp_query; [intros w4; split; [done|]; split; [exact Ea|by exists rt]|].
    intros r w4 _ _. instantiate (1 := ended).
    destruct r as [e|st]; [apply Hw|]. destruct (_ || _); cbn [when]; [apply Hw|by apply wp_ret].
  - intros [] H' w4 ->. apply wp_cancel. intros w5 _. by apply wp_ret.
Qed.

Lemma wp_doRPLogout op es id (w : World) : wp (doRPLogout logoutHandler op es id) ∅ ended w.
Proof.
  unfold doRPLogout. pose proof no_locks_empty as Hn.
  assert (Hw : forall msg w, wp (Warn msg) ∅ ended w).
  { intros msg w1. eapply wp_mono; [|by apply wp_warn_last]. by intros a H' w2 [-> _]. }
  apply wp_current; [done|]. intros b w1 _. destruct b; cbn [negb]; [|by apply wp_ret].
  apply wp_query; [done|]. intros uri w2 _ _.
  assert (Hpost : forall (k : string -> prog unit) w, (forall u w', wp (k u) ∅ ended w') ->
            wp (bind (if logoutHandler then ask QPostLogoutRedirectURI else Ret "") k) ∅ ended w).
  { intros k w3 Hk. destruct logoutHandler; [|apply Hk]. apply wp_query; [done|]. intros; apply Hk. }
  apply Hpost. intros u w3. apply wp_randomState; [done|]. intros st w4 _.
  destruct st as [e|st]; [apply Hw|]. destruct (buildLogoutURL _ _ _ _) as [e|url]; [apply Hw|].
  apply wp_runLifecycleFlow; [done|set_solver| |].
  { intros ctx w5. destruct logoutHandler; intros w6 HR6 Hi6 Hh6;
      (split; [split; [split; set_solver|set_solver]|]);
      intros x w7 _ [= <-]; (apply (trans_refl L); [done|done|]); by apply wp_ret_back. }
  intros r w5 _. destruct r as [e|cb].
  - destruct (errors_Is e ErrFlowCancelled); cbn [negb when]; [by apply wp_ret|apply Hw].
  - destruct (checkLogoutCallback st cb); [apply Hw|by apply wp_ret].
Qed.

Lemma wp_finishLogout op out (w : World) : wp (finishLogout logoutHandler op out) ∅ ended w.
Proof.
  unfold finishLogout. destruct out as [[[id rt] es] rv].
  eapply (wp_call L); [apply wp_revoke|]. intros [] H' w1 ->.
  destruct (_ && _); cbn [when]; [apply wp_doRPLogout|by apply wp_ret].
Qed.

Lemma wp_runLogout op (w : World) :
  lifecycleOperation w = Some op -> loKind op = lifecycleLogout ->
  wp (runLogout logoutHandler op) ({[lifecycleMu]} ∪ ∅) ended w.
Proof.
  intros Ho Hk. unfold runLogout. set (HL := {[lifecycleMu]} ∪ ∅ : gset Lk).
  assert (Hns : stateCommitMu ∉ HL) by set_solver.
  assert (H1 : HL ∖ {[lifecycleMu]} = (∅ : gset Lk)) by set_solver.
  assert (Hop : forall w w', rely HL w w' -> lifecycleOperation w = Some op ->
            lifecycleOperation w' = Some op).
  { intros w1 w2 [_ HR] Hw1. specialize (HR lifecycleMu ltac:(set_solver)). cbn in HR. congruence. }
  apply wp_lock_commit; [done|]. intros w1 HR1 Hi1 Hl1. apply (Hop _ _ HR1) in Ho. clear HR1 w.
  apply wp_act. intros w2 HR2 Hi2 Hh2.
  assert (Hl2 : linv stateCommitMu w2).
  { destruct HR2 as [_ HR2]. eapply linv_same; [apply HR2, in_union_self|done]. }
  apply commitLogout_trans; [done|done|apply in_union_self|apply Hl2| |done|].
  { apply (Hop w1); [by apply rely_union in HR2|done]. }
  intros Hlo. set (w3 := (commitLogout op w2).2) in *. generalize (commitLogout op w2).1. intros out.
  clearbody w3. clear Hl2 Hi2 Hh2 HR2 w2 Hi1 Hl1 Ho w1.
  apply wp_act. intros w4 HR4 Hi4 Hh4. apply (logging_out_rely _ _ _ (in_union_self _ _) HR4) in Hlo.
  destruct (Delete (store w4)) as [perr s'] eqn:Ed. cbn [fst snd].
  apply store_trans; [done|done|apply in_union_self|].
  assert (Hlo2 : logging_out (w4 <| store := s' |>)) by (by destruct Hlo).
  clear Hlo. set (w5 := w4 <| store := s' |>) in *. clearbody w5. clear Hi4 Hh4 HR4 Ed w3 w4 s'.
  apply wp_act. intros w6 HR6 Hi6 Hh6.
  apply (logging_out_rely _ _ _ (in_union_self _ _) HR6) in Hlo2. clear HR6 w5.
  eapply trans_mono; [|apply enqueue_trans; [done|done|left; apply in_union_self]].
  intros H' ->. assert (Hl : linv stateCommitMu (enqueueEvent EventLoggedOut w6).2).
  { destruct Hlo2. apply enqueue_linv; [by right; left|done|done]. }
  destruct (enqueueEvent EventLoggedOut w6) as [b w7]. cbn [fst snd] in *.
  apply wp_unlock_commit; [apply in_after_enqueue, in_union_self|done|].
  intros w8 _. rewrite after_enqueue_diff, union_diff_cancel by done.
  apply wp_unlock_lifecycle; [apply in_after_enqueue; set_solver|]. intros w9 _.
  rewrite after_enqueue_diff, H1 by done.
  apply wp_when_warn; [apply no_locks_after_enqueue, no_locks_empty|]. intros w10 _.
  destruct b; cbn [when after_enqueue]; [|apply wp_finishLogout].
  apply wp_drainEvents; [split; set_solver|set_solver|]. intros w11 _.
  replace (({[drainRole]} ∪ ∅) ∖ {[drainRole]} : gset Lk) with (∅ : gset Lk) by set_solver.
  apply wp_finishLogout.
Qed.

Lemma wp_Logout ctx (w : World) : wp (Logout logoutHandler ctx) ∅ ended w.
Proof.
  unfold Logout. pose proof no_locks_empty as Hn. apply wp_look'. intros c w1 _.
  apply wp_withTimeout. intros ctx' w2. apply wp_deferCancel.
  apply wp_lock_lifecycle; [done|]. intros w3 _. apply wp_act. intros w4 HR4 Hi4 Hh4.
  unfold admitLogout. destruct (match lifecycleOperation w4 with Some _ => _ | None => _ end).
  { cbn [fst snd]. apply (trans_refl L); [done|done|]. intros w5 _ Hi5 Hh5.
    split; [done|]. split; [set_solver|]. split; [done|].
    replace (({[lifecycleMu]} ∪ ∅) ∖ {[lifecycleMu]} : gset Lk) with (∅ : gset Lk) by set_solver.
    by apply wp_ret. }
  destruct (beginLocked_shape ctx' lifecycleLogout w4) as (w5 & Hq & Hkd & Hsh).
  destruct (beginLifecycleOperationLocked ctx' lifecycleLogout w4) as [op w6] eqn:Eb.
  cbn [fst snd] in *. replace w6 with (beginLifecycleOperationLocked ctx' lifecycleLogout w4).2 by by rewrite Eb.
  apply beginLocked_trans; [done|done|apply in_union_self|]. rewrite Eb. cbn [snd].
  unfold deferred. eapply (wp_call L); [apply wp_runLogout; [by rewrite Hsh|done]|].
  intros r H' w7 ->. apply wp_finish; [done|]. intros w8 _. by apply wp_ret.
Qed.

(** ** RestoreSession and Init *)

Lemma commitRestore_trans ts H (w : World) (K : gset Lk -> Prop) :
  inv w -> held H w -> stateCommitMu ∈ H -> linv stateCommitMu w ->
  restoreBlocked (cs w) = false -> IsZero ts = false -> holds (store w) ts ->
  (linv stateCommitMu (commitRestore ts w) -> K H) -> trans H w (commitRestore ts w) K.
Proof.
  intros Hi Hh Hin [_ He] Hb Hz Hf HK Hb0. pose proof Hb0 as Hbd. unfold Interference.bound in Hbd.
  pose proof (advance_revision cfg verified w Hi) as Hrev.
  set (c := setStateLocked ts (cs w)).
  assert (Hc : state c = ts /\ restoreBlocked c = false /\
               (stateRevision c = stateRevision (cs w) /\ state (cs w) = ts \/
                stateRevision c = stateRevision (cs w) + 1) /\
               config c = config (cs w) /\ provider c = provider (cs w) /\
               oauth2 c = oauth2 (cs w) /\ verifier c = verifier (cs w)).
  { unfold c, setStateLocked. case_bool_decide as Hst; [by auto 10|]. cbn. rewrite Hrev. auto 10. }
  destruct Hc as (Hst & Hrb & Hr & Hcf & Hpr & Hoa & Hve).
  assert (Hwf : state_wf c) by apply setStateLocked_wf, Hi.
  revert Hbd Hb0 HK. unfold commitRestore, onCS. fold c. clearbody c. intros Hbd Hb0 HK. cbn in Hbd.
  assert (HKH : K H).
  { apply HK. split; [right; right; right; cbn; by rewrite Hst|].
    change (session_events (enqueued w) = commit_events (trace w ++ [ORestore ts])).
    by rewrite commit_events_snoc, app_nil_r. }
  refine (trans_keep _ _ _ _ _ _ _ _ HKH Hb0).
  - split; cbn; [lia|]. intros E. rewrite Hst. destruct Hr as [[_ ->]|Hr]; [done|lia].
  - intros l Hl. by destruct l.
  - intros l Hrl Hl. specialize (Hh l Hl Hrl). by destruct l.
  - destruct Hi as [I1 I2 I3 I4 I5 I6 I7]. split; cbn; try done.
    + unfold u64_max in *. lia.
    + congruence.
    + unfold initialized. by rewrite Hpr, Hoa, Hve.
    + eapply spec_snoc; [exact I5|]. unfold abs. cbn. rewrite Hst, Hrb.
      by apply (spec_restore verified (ClientID cfg) ts (abs w)).
Qed.

Lemma wp_RestoreSession (w : World) : wp (RestoreSession (St := St)) ∅ ended w.
Proof.
  unfold RestoreSession. pose proof no_locks_empty as Hn.
  apply wp_lock_commit; [apply Hn|]. intros w1 _ Hi1 Hl1. apply wp_look. intros w2 HR2 Hi2.
  assert (Hl2 : linv stateCommitMu w2).
  { destruct HR2 as [_ HR2]. eapply linv_same; [apply HR2, in_union_self|done]. }
  assert (Hend : forall r w, linv stateCommitMu w ->
            wp (unlock stateCommitMu ;;; Ret r) ({[stateCommitMu]} ∪ ∅) (@ended (bool * option error)) w).
  { intros r w3 Hl3. apply wp_unlock_commit; [apply in_union_self|done|]. intros w4 _.
    rewrite union_diff_cancel by apply Hn. by apply wp_ret. }
  destruct (checkRestore (cs w2)) as [r|] eqn:Ec; [by apply Hend|].
  assert (Hb2 : restoreBlocked (cs w2) = false).
  { unfold checkRestore in Ec. destruct (restoreBlocked (cs w2)); [done|done]. }
  apply wp_storeLoad; [apply in_union_self|done|]. intros [ts e] w3 _ Hl3 (_ & _ & Hb3) Hf.
  rewrite Hb2 in Hb3. cbn [fst snd] in *. destruct e as [e|]; [by apply Hend|].
  destruct (IsZero ts) eqn:Ez; [by apply Hend|]. specialize (Hf eq_refl).
  apply wp_modify. intros w4 HR4 Hi4 Hh4.
  assert (Hb4 : restoreBlocked (cs w4) = false /\ holds (store w4) ts /\ linv stateCommitMu w4).
  { destruct HR4 as [_ HR4]. specialize (HR4 _ (in_union_self _ _)).
    split; [|split; [|by eapply linv_same]]; destruct HR4; congruence. }
  destruct Hb4 as (Hb4 & Hf4 & Hl4). clear HR4.
  apply commitRestore_trans; [done|done|apply in_union_self|done..|]. intros Hl5. by apply Hend.
Qed.

Lemma wp_initContextError op H (w : World) :
  wp (initOperationContextError op) H (fun _ H' _ => H' = H) w.
Proof.
  unfold initOperationContextError, ctxErrP. apply wp_look'. intros e w1 _.
  destruct e; [by apply wp_ret|]. apply wp_look'. intros e w2 _. by apply wp_ret.
Qed.

Lemma beginInit_quiet ctx (w : World) : quiet w (beginInitOperation ctx w).2.
Proof.
  unfold beginInitOperation. destruct (ctxErrored ctx w); [apply quiet_refl|].
  set (w0 := match initOperation w with Some old => cancelCtx (ioCtx old) w | None => w end).
  apply quiet_trans with w0; [|by split].
  unfold w0. destruct (initOperation w); [apply cancelCtx_quiet|apply quiet_refl].
Qed.

Lemma installInit_trans op s H (w : World) (K : gset Lk -> Prop) :
  inv w -> held H w -> K H -> trans H w (installInit op s w).2 K.
Proof.
  intros Hi Hh HK. unfold installInit. destruct (negb _); [by apply (trans_refl L)|]. cbn [snd].
  apply trans_keep; [split; [cbn; lia|done]| | | |done].
  - intros l Hl. by destruct l.
  - intros l Hr Hl. specialize (Hh l Hl Hr). by destruct l.
  - destruct Hi as [I1 I2 I3 I4 I5 I6 I7]. split; try done.
    apply signalRefreshLoopLocked_wf. by destruct I1.
Qed.

Lemma wp_runInit op c (w : World) : wp (runInit httpClient op c) ∅ ended w.
Proof.
  unfold runInit. pose proof no_locks_empty as Hn.
  apply wp_query; [intros; split; [done|apply httpContext_ok]|]. intros r w1 _ _.
  destruct r as [e|p].
  - unfold completeInitFailure. eapply (wp_call L).
    + apply wp_act. intros w2 _ Hi2 Hh2. unfold failInit. instantiate (1 := ended).
      destruct (negb _); cbn [fst snd].
      { apply (trans_refl L); [done|done|]. apply wp_initContextError. }
      pose proof (enqueue_trans cfg verified EventInitFailed ∅ w2 Hi2 Hh2 ltac:(by right)) as Ht.
      destruct (enqueueEvent EventInitFailed w2) as [b w3]. cbn [fst snd] in *.
      eapply trans_mono; [|exact Ht]. intros H' ->. destruct b; cbn [when after_enqueue]; [|by apply wp_ret].
      apply wp_drainEvents; [split; set_solver|set_solver|]. intros w4 _.
      replace (({[drainRole]} ∪ ∅) ∖ {[drainRole]} : gset Lk) with (∅ : gset Lk) by set_solver.
      by apply wp_ret.
    + intros a H' w2 ->. by apply wp_ret.
  - apply wp_query; [done|]. intros uri w2 _ _. apply wp_look'. intros prev w3 _.
    unfold commitInit. apply wp_act. intros w4 _ Hi4 Hh4. apply installInit_trans; [done|done|].
    destruct (installInit _ _ w4) as [[|] w5]; cbn [fst snd]; [by apply wp_ret|].
    eapply (wp_call L); [apply wp_initContextError|]. intros e H' w6 ->. by apply wp_ret.
Qed.

Lemma clearInit_quiet op (w : World) : quiet w (clearInitOperation op w).
Proof. unfold clearInitOperation. case_bool_decide; by split. Qed.

Lemma wp_Init ctx (w : World) : wp (Init httpClient ctx) ∅ ended w.
Proof.
  unfold Init, ctxErrP. apply wp_look'. intros c w1 _.
  apply wp_quiet; [intros; apply beginInit_quiet|]. intros op w2 _.
  destruct op as [op|]; [|apply wp_look'; intros e w3 _; by apply wp_ret].
  unfold deferred. eapply (wp_call L).
  - eapply (wp_call L); [apply wp_runInit|]. intros e H' w3 ->. instantiate (1 := ended). by apply wp_ret.
  - intros e H' w3 ->. eapply (wp_call L).
    + unfold finishInitOperation. apply wp_quiet_modify; [apply clearInit_quiet|]. intros w4 _.
      instantiate (1 := ended). intros w5 HR5 Hi5 Hh5.
      apply trans_quiet; [apply cancelCtx_quiet|done|done|]. by apply wp_ret.
    + intros [] H' w4 ->. by apply wp_ret.
Qed.

End Threads.
