(* ===== verification/Supervision.v ===== *)
(** The specifications of the supervisors: emission of an expiry, the refresh
    loop, the recovery of a failed Save, and the start and stop of both. *)
From S2P Require Import Prelude GoTime Proc RelyGuarantee Errors Tokens Config Claims.
From S2P Require Import ClientState Schedule ScheduleProps Persistence SessionSpec World Events.
From S2P Require Import Lifecycle Refresh Login Logout Session Supervisor Interference Actions.
From S2P Require Import Threads.

Section Supervision.
  Context {St : Type} `{TP : TokenPersistence St} `{TPL : !TokenPersistenceLaws St}.
  Context (httpClient : bool) (cfg : Config).
  Context (verified : IDTokenVerifier -> string -> IDTokenInfo -> Prop).
  Abbreviation World := (World St).
  Abbreviation inv := (Interference.inv (St := St) cfg verified).
  Abbreviation linv := (Interference.linv (St := St)).
  Abbreviation pre := (Interference.pre (St := St) httpClient cfg).
  Abbreviation answers := (Interference.answers verified).
  Abbreviation bound := (Interference.bound (St := St)).
  Abbreviation prot := (Interference.prot (St := St)).
  Abbreviation hist := (Interference.hist (St := St)).
  Abbreviation taken := (Interference.taken (St := St)).
  Abbreviation wp := (RelyGuarantee.wp hist prot inv linv rank role taken pre answers bound).
  Abbreviation trans := (RelyGuarantee.trans hist prot inv role taken bound).
  Abbreviation rely := (RelyGuarantee.rely hist prot).
  Abbreviation held := (RelyGuarantee.held_roles role taken).
  Abbreviation L := (Interference.laws cfg verified (St := St)).

Let commit_only : gset Lk := {[stateCommitMu]} ∪ ∅.

Lemma commit_in : stateCommitMu ∈ commit_only.
Proof. apply in_union_self. Qed.

Lemma commit_only_diff : commit_only ∖ {[stateCommitMu]} = ∅.
Proof. apply union_diff_cancel. set_solver. Qed.

Lemma linv_rely (w w' : World) :
  rely commit_only w w' -> linv stateCommitMu w -> linv stateCommitMu w'.
Proof. intros [_ HR]. eapply linv_same. apply HR, commit_in. Qed.

(** Dispatching what a commit enqueued. *)
Lemma wp_drain {A} b (a : A) (w : World) :
  wp (when b drainEvents ;;; Ret a) (after_enqueue b ∅) ended w.
Proof.
  destruct b; cbn [when after_enqueue]; [|by apply wp_ret].
  apply wp_drainEvents; [split; set_solver|set_solver|]. intros w' _.
  replace (({[drainRole]} ∪ ∅) ∖ {[drainRole]} : gset Lk) with (∅ : gset Lk) by set_solver.
  by apply wp_ret.
Qed.

(** ** The expiry of a session *)

Lemma checkRevision_trans r H (w : World) (K : gset Lk -> Prop) :
  inv w -> held H w -> stateCommitMu ∈ H -> K H -> trans H w (checkRevision r w).2 K.
Proof.
  intros Hi Hh Hin HK. unfold checkRevision. destruct (_ =? _); [|by apply (trans_refl L)].
  cbn [snd]. apply trans_keep; [split; [cbn; lia|done]| | | |done].
  - intros l Hl. destruct l; cbn; done.
  - intros l Hr Hl. specialize (Hh l Hl Hr). by destruct l.
  - destruct Hi as [I1 I2 I3 I4 I5 I6 I7]. split; try done. cbn.
    eapply spec_snoc; [exact I5|]. apply spec_expired.
Qed.

Lemma wp_emitEventIfRevision r (w : World) : wp (emitEventIfRevision r) ∅ ended w.
Proof.
  unfold emitEventIfRevision. apply wp_lock_commit; [set_solver|]. intros w1 _ Hi1 Hl1.
  change ({[stateCommitMu]} ∪ ∅) with commit_only. apply wp_act. intros w2 HR2 Hi2 Hh2.
  pose proof (linv_rely _ _ HR2 Hl1) as Hl2. apply checkRevision_trans; [done|done|apply commit_in|].
  unfold checkRevision. destruct (_ =? _); cbn [fst snd].
  - apply wp_act. intros w3 HR3 Hi3 Hh3.
    eapply trans_mono; [|apply enqueue_trans; [done|done|left; apply commit_in]]. intros H' ->.
    apply wp_unlock_commit; [apply in_after_enqueue, commit_in| |].
    + destruct HR3 as [_ HR3]. destruct (HR3 _ commit_in) as [Es Er Eb Et Est Ec Ee].
      destruct Hl2 as [Hco Hev]. apply enqueue_linv; [|done|].
      * unfold coherent in *. by rewrite Es, Eb, Et, Est.
      * rewrite Ec, Ee. cbn. change (session_events (enqueued w2) ++ [EventSessionExpired] =
          commit_events (trace w2 ++ [OExpired])). by rewrite commit_events_snoc, Hev.
    + intros w4 _. rewrite after_enqueue_diff, commit_only_diff by done. apply wp_drain.
  - apply wp_unlock_commit; [apply commit_in|done|]. intros w4 _. rewrite commit_only_diff.
    by apply wp_ret.
Qed.

(** ** Waiting *)

Lemma wp_waitForRefreshLoop ctx wake due (w : World) :
  wp (waitForRefreshLoop ctx wake due) ∅ ended w.
Proof.
  assert (Hsel : forall timer w, wp (let* x := select QSelect (wakeReady ctx wake timer) in
            Ret (match x with SelDone => false | _ => true end)) ∅ ended w).
  { intros timer w0. apply wp_select. intros w1 _ Hi1 Hh1. split; [apply no_locks_empty|].
    intros x w2 _ Hr. assert (w2 = w1) as ->.
    { destruct x; cbn in Hr; try done; by repeat case_match; simplify_eq. }
    apply (trans_refl L); [done|done|]. by apply wp_ret. }
  unfold waitForRefreshLoop. destruct (IsZeroTime due); [apply Hsel|].
  apply wp_query; [done|]. intros t w1 _ _. destruct (_ <=? _); [by apply wp_ret|]. apply Hsel.
Qed.

(** ** The refresh loop *)

Lemma wp_doRefresh ctx ts r claim (w : World) :
  RefreshToken ts <> "" -> wp (doRefresh httpClient ctx ts r claim) ∅ ended w.
Proof.
  intros Hts. unfold doRefresh, refreshForSchedule. pose proof no_locks_empty as Hn.
  eapply (wp_call L); [by apply wp_refreshAtRevision|]. intros [[new started] err] H' w1 ->.
  destruct err as [err|]; [|by apply wp_ret]. destruct (errors_Is _ _); [by apply wp_ret|].
  destruct (isSessionIntegrityError err); [apply wp_warn; [done|]; intros w2 _; by apply wp_ret|].
  destruct (IsPermanentError err); [apply wp_warn; [done|]; intros w2 _; by apply wp_ret|].
  apply wp_look'. intros e w2 _. destruct e as [e|]; [by apply wp_ret|].
  apply wp_warn; [done|]. intros w3 _. by apply wp_ret.
Qed.

Lemma next_quiet now (w : World) : quiet w (w <| cs := (nextRefreshLoopAction now (cs w)).2 |>).
Proof. apply onCS_quiet_tokens; auto with go. Qed.

(** A loop that keeps nothing and knows nothing. *)
Lemma wp_forever (body : unit -> prog (unit + unit)) (w : World) :
  (forall w, wp (body tt) ∅ ended w) -> wp (loop body tt) ∅ ended w.
Proof.
  intros Hb. refine (wp_loop body Ret ∅ ended w (fun _ => True) _ _ _); [done|done|].
  intros w1 _. eapply wp_mono; [|apply Hb]. intros [[]|[]] H' w2 ->; [done|]. by apply wp_ret.
Qed.

Lemma wp_runRefreshLoop ctx (w : World) : wp (runRefreshLoop httpClient ctx) ∅ ended w.
Proof.
  unfold runRefreshLoop. apply wp_forever. intros w1. pose proof no_locks_empty as Hn.
  unfold ctxErrP. apply wp_look'. intros e w2 _. destruct e as [e|]; [by apply wp_ret|].
  apply wp_query; [done|]. intros t w3 _ _. unfold actCS. apply wp_act. intros w4 _ Hi4 Hh4.
  pose proof (next_quiet t w4) as Hq.
  destruct (nextRefreshLoopAction t (cs w4)) as [action c'] eqn:Ea. cbn [fst snd] in *.
  apply trans_quiet; [done|done|done|]. destruct action as [due wake|r ts stage claim|r].
  - eapply (wp_call L); [apply wp_waitForRefreshLoop|]. intros ok H' w5 ->. by apply wp_ret.
  - apply next_attempt_inv in Ea as (Hdue & _ & -> & _). 
    eapply (wp_call L); [apply wp_doRefresh, (ad_refresh _ _ Hdue)|]. intros res H' w5 ->.
    apply wp_query; [done|]. intros t' w6 _ _.
    apply wp_quiet_modify; [intros; apply stateful_quiet; auto with go|]. intros w7 _.
    apply wp_look'. intros e w8 _. by apply wp_ret.
  - eapply (wp_call L); [apply wp_emitEventIfRevision|]. intros b H' w5 ->. by apply wp_ret.
Qed.

(** ** The recovery of a failed Save *)

Lemma begin_quiet r claim b (w : World) :
  quiet w (w <| cs := (retryPersistenceBegin r claim b (cs w)).2 |>).
Proof.
  apply onCS_quiet_session; [auto with go|auto with go|]. intros _.
  unfold retryPersistenceBegin. destruct (negb _); [done|]. by destruct b.
Qed.

(** What is saved is the current state, whose retry is pending. *)
Lemma begin_some r claim b c ts :
  (retryPersistenceBegin r claim b c).1 = Some ts ->
  ts = state c /\ pValid (persistenceRetry c) = true /\ (retryPersistenceBegin r claim b c).2 = c.
Proof.
  unfold retryPersistenceBegin, persistenceRetryMatchesLocked.
  destruct (pValid (persistenceRetry c)); cbn [andb negb]; [|done].
  destruct (_ && _ && _); cbn [negb]; [|done]. destruct b; [done|]. by intros [= <-].
Qed.

Lemma end_coherent r claim err t (w : World) :
  (err = None -> holds (store w) (state (cs w))) -> pValid (persistenceRetry (cs w)) = true ->
  coherent (w <| cs := (retryPersistenceEnd r claim err t (cs w)).2 |>).
Proof.
  intros Hs Hp. unfold coherent, retryPersistenceEnd. destruct (negb _); [by left|].
  destruct err; [by left|]. right; right; right. by apply Hs.
Qed.

(** After the Save, and from the Save on. *)
Abbreviation retryReport r claim err := (
  let* completedAt := now in
  let* outcome := actCS (retryPersistenceEnd r claim err completedAt) in
  unlock stateCommitMu ;;;
  match outcome with
  | retryNothing => skip
  | retryRecovered => log LogInfo "token state persistence recovered"
  | retryFailed _ => Warn "token state persistence retry failed"
  end) (only parsing).

Lemma wp_retryReport r claim err ts (w : World) :
  (err = None -> holds (store w) ts) -> state (cs w) = ts -> pValid (persistenceRetry (cs w)) = true ->
  session_events (enqueued w) = commit_events (trace w) ->
  wp (retryReport r claim err) commit_only ended w.
Proof.
  intros Hs Hst Hp Hev. unfold actCS. pose proof no_locks_empty as Hn.
  apply wp_query; [done|]. intros t w3 HR3 _. apply wp_act. intros w4 HR4 Hi4 Hh4.
  pose proof (rely_trans L _ _ _ _ HR3 HR4) as [_ HR]. clear HR3 HR4 w3.
  destruct (HR _ commit_in) as [Es Er Eb Et Est Ec Ee]. clear HR.
  pose proof (end_coherent r claim err t w4) as Hco. rewrite Es, Est, Hst in Hco.
  specialize (Hco Hs). rewrite Et in Hco. specialize (Hco Hp).
  pose proof (retryPersistenceEnd_same r claim err t (cs w4)) as Hsame.
  pose proof (retryPersistenceEnd_wf r claim err t (cs w4) (inv_wf _ _ _ Hi4)) as Hwf.
  destruct (retryPersistenceEnd _ _ _ _ _) as [outcome c']. cbn [fst snd] in *.
  apply session_trans; [done..|apply commit_in|].
  assert (Hev' : session_events (enqueued w4) = commit_events (trace w4)) by (by rewrite Ee, Ec).
  apply wp_unlock_commit; [apply commit_in|split; [exact Hco|exact Hev']|].
  intros w5 _. rewrite commit_only_diff.
  destruct outcome; [by apply wp_ret| |];
    (eapply wp_mono; [|apply wp_warn_last, no_locks_empty]; by intros a H' w6 [-> _]).
Qed.

Lemma wp_retrySave r claim ts (w : World) :
  linv stateCommitMu w -> state (cs w) = ts -> pValid (persistenceRetry (cs w)) = true ->
  wp (let* err := storeSave ts in retryReport r claim err) commit_only ended w.
Proof.
  intros Hl Hst Hp. unfold storeSave. apply wp_act. intros w1 HR1 Hi1 Hh1. destruct HR1 as [_ HR1].
  destruct (HR1 _ commit_in) as [Es Er Eb Et Est Ec Ee]. clear HR1.
  destruct (Save (store w1) ts) as [err s'] eqn:Esave. cbn [fst snd].
  apply store_trans; [done..|apply commit_in|].
  apply (wp_retryReport r claim err ts); [|by cbn; rewrite ?Es, ?Et..|].
  - intros ->. cbn. replace s' with (Save (store w1) ts).2 by (by rewrite Esave).
    apply save_holds. by rewrite Esave.
  - change (session_events (enqueued w1) = commit_events (trace w1)). destruct Hl as [_ Hl]. by rewrite Ee, Ec.
Qed.

Lemma wp_retryPersistence ctx r claim (w : World) : wp (retryPersistence ctx r claim) ∅ ended w.
Proof.
  unfold retryPersistence. pose proof no_locks_empty as Hn.
  apply wp_lock_commit; [set_solver|]. intros w1 _ Hi1 Hl1.
  change ({[stateCommitMu]} ∪ ∅) with commit_only. apply wp_act. intros w2 HR2 Hi2 Hh2.
  pose proof (linv_rely _ _ HR2 Hl1) as Hl2. clear Hl1 HR2.
  pose proof (begin_quiet r claim (ctxErrored ctx w2) w2) as Hq.
  pose proof (fun ts => begin_some r claim (ctxErrored ctx w2) (cs w2) ts) as Hb.
  destruct (retryPersistenceBegin _ _ _ _) as [e c']. cbn [fst snd] in *.
  apply trans_quiet; [done|done|done|].
  destruct e as [ts|].
  2: { apply wp_unlock_commit; [apply commit_in| |intros w3 _; rewrite commit_only_diff; by apply wp_ret].
       eapply linv_same; [|exact Hl2]. by apply quiet_prot; [apply Hi2|]. }
  destruct (Hb ts eq_refl) as (Hts & Hp & ->). apply wp_retrySave; [by destruct Hl2|done|done].
Qed.

Lemma wp_runPersistenceRetryLoop ctx (w : World) : wp (runPersistenceRetryLoop ctx) ∅ ended w.
Proof.
  unfold runPersistenceRetryLoop. apply wp_forever. intros w1. pose proof no_locks_empty as Hn.
  unfold ctxErrP. apply wp_look'. intros e w2 _. destruct e as [e|]; [by apply wp_ret|].
  apply wp_query; [done|]. intros t w3 _ _. unfold actCS. apply wp_act. intros w4 _ Hi4 Hh4.
  pose proof (next_retry_quiet t w4) as Hq.
  destruct (nextPersistenceRetryAction t (cs w4)) as [action c']. cbn [fst snd] in *.
  apply trans_quiet; [done|done|done|]. destruct action as [due wake|r claim].
  - eapply (wp_call L); [apply wp_waitForRefreshLoop|]. intros ok H' w5 ->. by apply wp_ret.
  - eapply (wp_call L); [apply wp_retryPersistence|]. intros b H' w5 ->. by apply wp_ret.
Qed.

(** ** Start and stop *)

Lemma wp_modify_end (f : World -> World) (w : World) :
  (forall w, quiet w (f w)) -> wp (modify f) ∅ ended w.
Proof. intros Hq w1 _ Hi1 Hh1. apply trans_quiet; [apply Hq|done|done|]. by apply wp_ret. Qed.

Lemma wp_refreshLoop ctx (w : World) : wp (refreshLoop httpClient ctx) ∅ ended w.
Proof.
  unfold refreshLoop. apply wp_quiet; [apply newPtr_quiet|]. intros d w1 _.
  apply (wp_fork _ _ _ _ _ ∅); [done|done|]. intros w2 _ _ _.
  replace (∅ ∖ ∅ : gset Lk) with (∅ : gset Lk) by set_solver. split.
  - eapply (wp_call L); [apply wp_runPersistenceRetryLoop|]. intros [] H' w3 ->.
    by apply wp_modify_end.
  - eapply (wp_call L); [apply wp_runRefreshLoop|]. intros [] H' w3 ->.
    apply wp_select. intros w4 _ Hi4 Hh4. split; [apply no_locks_empty|]. intros x w5 _ Hr.
    assert (w5 = w4) as ->.
    { destruct x; cbn in Hr; try done; by repeat case_match; simplify_eq. }
    apply (trans_refl L); [done|done|]. by apply wp_ret.
Qed.

Lemma installHandle_quiet ctx (w : World) : quiet w (installHandle ctx w).2.
Proof.
  unfold installHandle. destruct (childCtx CtxCancel ctx w) as [lc w1] eqn:E1.
  destruct (newPtr w1) as [h w2] eqn:E2. cbn [snd].
  assert (Hq : quiet w (onCS (fun c => c <| refreshRun := Some h |>)
                  (w2 <| handles := <[h := lc]> (handles w2) |>))).
  { eapply quiet_trans; [|eapply quiet_trans].
    - pose proof (childCtx_quiet CtxCancel ctx w) as Hq. rewrite E1 in Hq. exact Hq.
    - pose proof (newPtr_quiet w1) as Hq. rewrite E2 in Hq. exact Hq.
    - split; try done. by intros []. }
  destruct (refreshRun (cs w2)) as [p|]; [|exact Hq].
  match goal with |- context [handles ?w' !! p] => destruct (handles w' !! p) as [pctx|] end;
    [|exact Hq].
  eapply quiet_trans; [exact Hq|apply cancelCtx_quiet].
Qed.

Lemma clearHandle_quiet h (w : World) : quiet w (clearHandle h w).
Proof.
  apply stateful_quiet; intros c; case_bool_decide; try done. by intros [].
Qed.

Lemma stopHandle_quiet (w : World) : quiet w (stopHandle w).
Proof.
  unfold stopHandle. destruct (refreshRun (cs w)); [|apply quiet_refl].
  destruct (handles w !! n); [apply cancelCtx_quiet|apply quiet_refl].
Qed.

Lemma wp_StopRefreshLoop (w : World) : wp (StopRefreshLoop (St := St)) ∅ ended w.
Proof. apply wp_modify_end, stopHandle_quiet. Qed.

Lemma wp_StartRefreshLoop ctx (w : World) : wp (StartRefreshLoop httpClient ctx) ∅ ended w.
Proof.
  unfold StartRefreshLoop. apply wp_quiet; [apply installHandle_quiet|]. intros [h lc] w1 _.
  assert (Hend : forall w (a : unit),
            wp (modify (clearHandle h) ;;; modify (closeDone h) ;;; Ret a) ∅ ended w).
  { intros w2 a. apply wp_quiet_modify; [apply clearHandle_quiet|]. intros w3 _.
    apply wp_quiet_modify; [intros; by split|]. intros w4 _. by apply wp_ret. }
  intros w2 _ _ _. exists ∅. split; [done|]. split; [set_solver|].
  replace (∅ ∖ ∅ : gset Lk) with (∅ : gset Lk) by set_solver. split; [|by apply wp_ret].
  unfold deferred, ctxErrP. eapply (wp_call L).
  - apply wp_look'. intros e w3 _. instantiate (1 := ended).
    destruct e as [e|]; [by apply wp_ret|apply wp_refreshLoop].
  - intros [] H' w3 ->. eapply wp_mono; [|apply (Hend w3 tt)]. done.
Qed.

End Supervision.
