(* ===== verification/Client.v ===== *)
(** [client.go]: the queries and the entry points of a
    [Client], and what holds in every interleaving of any number of concurrent
    calls of them. *)
From S2P Require Import Prelude GoTime Proc RelyGuarantee Schedules Errors Tokens Config Claims.
From S2P Require Import ClientState Schedule ScheduleProps Persistence SessionSpec World Events.
From S2P Require Import Lifecycle Refresh Login Logout Session Supervisor Interference Actions.
From S2P Require Import Threads Supervision.

Section Client.
  Context {St : Type} `{TP : TokenPersistence St} `{TPL : !TokenPersistenceLaws St}.
  Context (httpClient logoutFlowHandler : bool) (cfg : Config).
  Context (verified : IDTokenVerifier -> string -> IDTokenInfo -> Prop).
  Abbreviation World := (World St).
  Abbreviation prog := (@prog World Lk query).

(** ** Queries *)

(** [Client.AuthStatus]: the clock is read under the same mutex as the state. *)
Definition ClientAuthStatus : prog AuthStatusResult :=
  let* t := now in read (fun w => AuthStatus t (cs w)).

(** [Client.Claims]. *)
Definition ClientClaims : prog (result error Claims) :=
  let* idToken := read (fun w => IDToken (state (cs w))) in
  Ret (if strEmpty idToken then Err (ESentinel ErrNotAuthenticated) else DecodeIDToken idToken).

(** [TokenFn]: the closure it returns. *)
Definition TokenFn (ctx : Ctx) : unit -> prog string :=
  fun _ => AccessToken httpClient ctx.

(** ** The entry points *)

(** A caller may start any of these in a goroutine of its own, any number of
    times, and ignores the result. *)
Inductive api : prog unit -> Prop :=
| api_Login ctx : api (let* _ := Login httpClient ctx in skip)
| api_Logout ctx : api (Logout logoutFlowHandler ctx)
| api_AccessToken ctx : api (let* _ := AccessToken httpClient ctx in skip)
| api_TokenFn ctx : api (let* _ := TokenFn ctx tt in skip)
| api_RestoreSession : api (let* _ := RestoreSession in skip)
| api_Init ctx : api (let* _ := Init httpClient ctx in skip)
| api_StartRefreshLoop ctx : api (StartRefreshLoop httpClient ctx)
| api_StopRefreshLoop : api StopRefreshLoop
| api_AuthStatus : api (let* _ := ClientAuthStatus in skip)
| api_Claims : api (let* _ := ClientClaims in skip).

Abbreviation inv := (Interference.inv (St := St) cfg verified).
Abbreviation linv := (Interference.linv (St := St)).
Abbreviation pre := (Interference.pre (St := St) httpClient cfg).
Abbreviation answers := (Interference.answers verified).
Abbreviation bound := (Interference.bound (St := St)).
Abbreviation prot := (Interference.prot (St := St)).
Abbreviation hist := (Interference.hist (St := St)).
Abbreviation taken := (Interference.taken (St := St)).
Abbreviation wp := (RelyGuarantee.wp hist prot inv linv rank role taken pre answers bound).
Abbreviation held := (RelyGuarantee.held_roles role taken).
Abbreviation L := (Interference.laws cfg verified (St := St)).
Abbreviation config_ok := (RelyGuarantee.config_ok hist prot inv linv rank role taken pre answers bound).

Lemma wp_drop {A} (p : prog A) w : wp p ∅ ended w -> wp (let* _ := p in skip) ∅ ended w.
Proof. intros Hp. eapply (wp_call L); [exact Hp|]. intros a H' w' ->. by apply wp_ret. Qed.

Lemma api_ok p w : api p -> inv w -> wp p ∅ (fun _ H _ => H = ∅) w.
Proof.
  intros Hp _. change (wp p ∅ ended w).
  destruct Hp; try apply wp_drop.
  - by apply wp_Login.
  - by apply wp_Logout.
  - eapply wp_mono; [|apply wp_AccessToken, no_locks_empty]. done.
  - eapply wp_mono; [|apply wp_AccessToken, no_locks_empty]. done.
  - by apply wp_RestoreSession.
  - by apply wp_Init.
  - by apply wp_StartRefreshLoop.
  - by apply wp_StopRefreshLoop.
  - apply wp_query; [done|]. intros t w1 _ _ w2 _ Hi Hh. apply (trans_refl L); [done|done|].
    by apply wp_ret.
  - apply wp_look'. intros x w1 _. by apply wp_ret.
Qed.

(** ** Reachable configurations *)

(** What a new Client over the store [s] and its callers may reach, as long as
    fewer than [2^64 - 1] token generations are committed. *)
Definition reachableClient (s : St) : @Proc.config World Lk _ _ query -> Prop :=
  reachable env_step api answers bound (initWorld cfg s).

Lemma init_inv s : inv (initWorld cfg s).
Proof. split; try done; cbn. constructor. Qed.

Lemma reachable_config_ok s c : reachableClient s c -> config_ok c.
Proof.
  apply (reachable_ok L).
  - exact api_ok.
  - apply init_inv.
  - intros []; cbn; try done. intros _. split; [|done]. by right; right; left.
  - by intros [].
Qed.

(** What is protected by [stateCommitMu] holds whenever nobody holds it. *)
Lemma reachable_linv s c :
  reachableClient s c -> owner c !! stateCommitMu = None -> linv stateCommitMu (world c).
Proof.
  intros Hr Ho. apply reachable_config_ok in Hr as [own Hok].
  apply (ok_linv _ _ Hok); [done|]. by rewrite (ok_mutex _ _ Hok).
Qed.

Lemma reachable_inv s c : reachableClient s c -> inv (world c).
Proof. intros Hr. apply reachable_config_ok in Hr as [own Hok]. apply (ok_inv _ _ Hok). Qed.

(** Where the tokens in memory are when nobody is committing. *)
Lemma reachable_coherent s c :
  reachableClient s c -> owner c !! stateCommitMu = None ->
  holds (store (world c)) (state (cs (world c))) \/
  (pValid (persistenceRetry (cs (world c))) = true /\
   pRevision (persistenceRetry (cs (world c))) = stateRevision (cs (world c))) \/
  (restoreBlocked (cs (world c)) = true /\ state (cs (world c)) = zeroTokenState) \/
  state (cs (world c)) = zeroTokenState.
Proof.
  intros Hr Ho. pose proof (reachable_inv _ _ Hr) as Hi.
  destruct (reachable_linv _ _ Hr Ho) as [[Hp|[Hb|[Hz|Hh]]] _]; auto.
  - right; left. split; [done|]. apply (wf_retry _ (inv_wf _ _ _ Hi) Hp).
  - right; right; left. split; [done|].
    apply (spec_blocked_zero _ _ _ _ (inv_spec _ _ _ Hi) Hb).
Qed.

(** The abstract session between two parts of the history. *)
Lemma reachable_split s c tr1 o tr2 :
  reachableClient s c -> trace (world c) = tr1 ++ o :: tr2 ->
  exists s1 s2, spec_run verified (ClientID cfg) initSession tr1 s1 /\
    spec_step verified (ClientID cfg) o s1 s2 /\
    spec_run verified (ClientID cfg) s2 tr2 (abs (world c)).
Proof.
  intros Hr Ht. pose proof (inv_spec _ _ _ (reachable_inv _ _ Hr)) as Hs.
  rewrite Ht, (app_assoc tr1 [o] tr2 : tr1 ++ o :: tr2 = _) in Hs.
  apply spec_run_app_inv in Hs as (s2 & Hs & H2). apply spec_run_snoc_inv in Hs as (s1 & H1 & Hstep).
  eauto.
Qed.

(** Two goroutines at questions that need the same role. *)
Lemma role_exclusive s c t1 t2 l X1 X2 (q1 : query X1) (q2 : query X2) r1 r2 k1 k2 :
  reachableClient s c ->
  pool c !! t1 = Some (Ask q1 r1 k1) -> pool c !! t2 = Some (Ask q2 r2 k2) ->
  (forall H w, held H w -> pre X1 q1 H w -> l w ∈ H) ->
  (forall H w, held H w -> pre X2 q2 H w -> l w ∈ H) -> t1 = t2.
Proof.
  intros Hr H1 H2 Hl1 Hl2. destruct (decide (t1 = t2)) as [|Hne]; [done|exfalso].
  apply reachable_config_ok in Hr.
  destruct (asking_disjoint L _ _ _ _ _ _ _ _ _ _ _ Hr Hne H1 H2)
    as (G1 & G2 & Hd & [Hh1 Hp1] & [Hh2 Hp2]).
  specialize (Hl1 _ _ Hh1 Hp1). specialize (Hl2 _ _ Hh2 Hp2). set_solver.
Qed.
End Client.
