(* ===== verification/Scenario.v ===== *)
(** A concrete environment and a concrete execution of a [Client] over the
    in-memory store: discovery, a login, two overlapping [AccessToken] calls
    that share one refresh, and a logout that revokes.  The theorems about all
    reachable configurations are applied to it. *)
From Stdlib Require Import Ascii.
From S2P Require Import Prelude GoTime Proc RelyGuarantee Schedules GoEncoding Errors Tokens.
From S2P Require Import Config Claims ClientState SessionSpec World Login Session Interference.
From S2P Require Import Client.

(** ** The environment *)

Definition quoted (s : string) : string :=
  String (ascii_of_nat 34) (s +:+ String (ascii_of_nat 34) "").
Definition exPayload : string := "{" +:+ quoted "sub" +:+ ":" +:+ quoted "u1" +:+ "}".
Definition exIDToken : string := "e30." +:+ b64_encode exPayload +:+ ".c2ln".
Definition exRandom : string := "0123456789abcdef".
Definition exState : string := b64_encode exRandom.

Definition exInfo : IDTokenInfo :=
  mkIDToken "u1" exState ["app"] (Ok [("sub", AString "u1"); ("azp", AString "app")]).
Definition exVerified (v : IDTokenVerifier) (raw : string) (info : IDTokenInfo) : Prop :=
  raw = exIDToken /\ info = exInfo.

Definition exProvider : Provider :=
  mkProvider 0 (mkEndpoint "https://idp.example/auth" "https://idp.example/token" AuthStyleAutoDetect)
    (Some [("end_session_endpoint", AString "https://idp.example/logout");
           ("revocation_endpoint", AString "https://idp.example/revoke")]).

Definition exSeconds (n : Z) : Time := mkTime ((63000000000 + n) * Second) 0.

(** The clock advances by 100 seconds with every commit. *)
Definition exClock {St} (w : World St) : Time := exSeconds (100 * Z.of_nat (length (trace w))).

Definition exSelect {St} (w : World St) : selected :=
  match lifecycleOperation w with Some _ => SelPermit | None => SelComplete end.

Definition exOracle {St} : oracle (W := World St) (Q := query) := fun X q w =>
  match q in query X return option X with
  | QNow => Some (exClock w)
  | QNewProvider _ _ => Some (Ok exProvider)
  | QGenerateVerifier => Some "verifier"
  | QRandRead => Some (Ok exRandom)
  | QAuthCodeURL _ _ _ _ => Some "https://idp.example/auth?x"
  | QRedirectURI => Some "http://127.0.0.1:8000/callback"
  | QPostLogoutRedirectURI => Some "http://127.0.0.1:8000/bye"
  | QStartAuthFlow _ _ => Some (Ok ("http://127.0.0.1:8000/callback?code=c&state=" +:+ exState))
  | QStartLogoutFlow _ _ => Some (Err (EText "no browser"))
  | QExchange _ _ _ _ _ => Some (Ok (mkToken "at1" "rt1" (exSeconds 310) exIDToken))
  | QTokenSource _ _ _ => Some (Ok (mkToken "at2" "rt2" (exSeconds 2000) exIDToken))
  | QVerify _ _ raw =>
      Some (if String.eqb raw exIDToken then Ok exInfo else Err (EText "bad token"))
  | QRevocationPost _ _ _ => Some (Ok 200)
  | QEmit _ | QLog _ _ => Some tt
  | QSelect => Some (exSelect w)
  | QPanic _ => None
  end.

Lemma exOracle_answers {St} X q (w : World St) x :
  exOracle X q w = Some x -> Interference.answers exVerified X q x.
Proof.
  destruct q; try done. cbn. destruct (String.eqb raw exIDToken) eqn:E; intros [= <-] info; [|done].
  intros [= <-]. apply String.eqb_eq in E. done.
Qed.

(** ** The execution *)

Definition exConfig : Config := applyDefaults exampleConfig.
Definition exCtx : Ctx := mkCtx [(CtxCaller, 0%nat)] false.

#[export] Instance bound_decision {St} (w : World St) : Decision (bound w).
Proof. unfold bound. apply _. Defined.

Abbreviation exConfiguration := (@Proc.config (World memoryStore) Lk _ _ query).
Abbreviation runThread := (exec_thread (bound (St := memoryStore)) exOracle).

Definition exInit : exConfiguration := init_config (initWorld exConfig (mkMemoryStore zeroTokenState)).
Definition exReady : exConfiguration :=
  runThread 100 1 0 (call 1 (let* _ := Init false exCtx in skip) exInit).
Definition exLoggedIn : exConfiguration :=
  runThread 200 2 0 (call 2 (let* _ := Login false exCtx in skip) exReady).

(** Two callers find the access token expired; the first starts the refresh in
    goroutine 10, both wait for it. *)
Definition callAccessToken (t : nat) : exConfiguration -> exConfiguration :=
  call t (let* _ := Refresh.AccessToken false exCtx in skip).
Definition exWaiting : exConfiguration :=
  runThread 100 4 11 (callAccessToken 4 (runThread 100 3 10 (callAccessToken 3 exLoggedIn))).
(** Goroutine 10 is about to ask the token endpoint. *)
Definition exGranting : exConfiguration := runThread 1 10 0 exWaiting.
Definition exRefreshed : exConfiguration :=
  runThread 100 4 0 (runThread 100 3 0 (runThread 100 10 0 exGranting)).
(** Logout, up to the revocation request, and to its end. *)
Definition exRevoking : exConfiguration :=
  runThread 20 5 0 (call 5 (Logout.Logout false exCtx) exRefreshed).
Definition exLoggedOut : exConfiguration := runThread 100 5 0 exRevoking.

(** ** All of it is reachable *)

Abbreviation exReachable :=
  (reachableClient false false exConfig exVerified (mkMemoryStore zeroTokenState)).

Lemma run_reachable n t child c : exReachable c -> exReachable (runThread n t child c).
Proof. apply exec_thread_reachable, exOracle_answers. Qed.

Lemma start_reachable t p c : api false false p -> exReachable c -> exReachable (call t p c).
Proof.
  intros Hp Hr. apply call_reachable; [done| |done].
  eapply reachable_bound; [|exact Hr]. done.
Qed.


Lemma exReady_reachable : exReachable exReady.
Proof. apply run_reachable, start_reachable; [constructor|apply rtc_refl]. Qed.
Lemma exLoggedIn_reachable : exReachable exLoggedIn.
Proof. apply run_reachable, start_reachable; [constructor|apply exReady_reachable]. Qed.
Lemma exGranting_reachable : exReachable exGranting.
Proof.
  apply run_reachable, run_reachable, start_reachable; [constructor|].
  apply run_reachable, start_reachable; [constructor|apply exLoggedIn_reachable].
Qed.
Lemma exRefreshed_reachable : exReachable exRefreshed.
Proof. apply run_reachable, run_reachable, run_reachable, exGranting_reachable. Qed.
Lemma exRevoking_reachable : exReachable exRevoking.
Proof. apply run_reachable, start_reachable; [constructor|apply exRefreshed_reachable]. Qed.
Lemma exLoggedOut_reachable : exReachable exLoggedOut.
Proof. apply run_reachable, exRevoking_reachable. Qed.

(** ** Moments of the execution *)

Definition exLogin : exConfiguration := call 2 (let* _ := Login false exCtx in skip) exReady.
(** Login waits for the browser; it commits; its event is being emitted. *)
Definition exBrowsing : exConfiguration := runThread 17 2 0 exLogin.
Definition exCommitting : exConfiguration := runThread 38 2 0 exLogin.
Definition exEmitting : exConfiguration := runThread 45 2 0 exLogin.

Lemma exLogin_reachable n : exReachable (runThread n 2 0 exLogin).
Proof. apply run_reachable, start_reachable; [constructor|apply exReady_reachable]. Qed.

(** What goroutine [t] is about to do. *)
Inductive moment :=
| AtEnd | AtAction | AtLock (l : Lk) | AtUnlock (l : Lk) | AtEmit (e : clientEvent) | AtTokenSource
| AtBrowser | AtRevocation | AtQuestion | AtLoop | AtFork.

Definition moment_of (p : @prog (World memoryStore) Lk query unit) : moment :=
  match p with
  | Ret _ => AtEnd
  | Do _ _ => AtAction
  | Lock l _ => AtLock l
  | Unlock l _ => AtUnlock l
  | Ask q _ _ =>
      match q with
      | QEmit e => AtEmit e
      | QTokenSource _ _ _ => AtTokenSource
      | QStartAuthFlow _ _ | QStartLogoutFlow _ _ => AtBrowser
      | QRevocationPost _ _ _ => AtRevocation
      | _ => AtQuestion
      end
  | Loop _ _ _ => AtLoop
  | Fork _ _ => AtFork
  end.

Definition at_moment (t : nat) (c : exConfiguration) : option moment := moment_of <$> pool c !! t.

Lemma at_emit t c e : at_moment t c = Some (AtEmit e) ->
  exists r k, pool c !! t = Some (Ask (QEmit e) r k).
Proof.
  unfold at_moment. destruct (pool c !! t) as [p|]; [|done]. destruct p as [| | | |X q r k| |]; try done.
  destruct q; try done. intros [= <-]. eauto.
Qed.
Lemma at_tokenSource t c : at_moment t c = Some AtTokenSource ->
  exists ctx o rt r k, pool c !! t = Some (Ask (QTokenSource ctx o rt) r k).
Proof.
  unfold at_moment. destruct (pool c !! t) as [p|]; [|done]. destruct p as [| | | |X q r k| |]; try done.
  destruct q; try done. eauto 6.
Qed.
Lemma at_revocation t c : at_moment t c = Some AtRevocation ->
  exists ctx e b r k, pool c !! t = Some (Ask (QRevocationPost ctx e b) r k).
Proof.
  unfold at_moment. destruct (pool c !! t) as [p|]; [|done]. destruct p as [| | | |X q r k| |]; try done.
  destruct q; try done. eauto 6.
Qed.
Lemma at_browser t c : at_moment t c = Some AtBrowser ->
  exists X (q : query X) r k, pool c !! t = Some (Ask q r k) /\
    match q with QStartAuthFlow _ _ | QStartLogoutFlow _ _ => True | _ => False end.
Proof.
  unfold at_moment. destruct (pool c !! t) as [p|]; [|done]. destruct p as [| | | |X q r k| |]; try done.
  destruct q; try done; intros _; by eexists _, _, _, _.
Qed.

(** The tokens of the execution. *)
Definition exTokens1 : TokenState :=
  mkTokenState "at1" "rt1" exIDToken (exSeconds 310) (exSeconds 100).
Definition exTokens2 : TokenState :=
  mkTokenState "at2" "rt2" exIDToken (exSeconds 2000) (exSeconds 300).

Lemma exLoggedOut_trace : trace (world exLoggedOut) =
  [OAdmit lifecycleLogin 1; OLogin 1 exTokens1; OFinish 1; ORefresh exTokens1 exTokens2;
   OAdmit lifecycleLogout 3; OLogout 3; OFinish 3].
Proof. vm_compute. reflexivity. Qed.
