(* ===== verification/ClientProps.v ===== *)
(** What a [Client] guarantees in every interleaving of its entry points: the
    refinement of the session automaton and its consequences, the coherence of
    the store, the order of events, and the discipline of locks and roles. *)
From S2P Require Import GoUrl.
From S2P Require Import Prelude GoTime Proc RelyGuarantee Schedules Errors Tokens Config Claims.
From S2P Require Import ClientState Schedule ScheduleProps Persistence SessionSpec World Events.
From S2P Require Import Lifecycle Refresh Login Logout Session Supervisor Interference Actions.
From S2P Require Import Threads Supervision Client Scenario.

Section ClientProps.
  Context {St : Type} `{TP : TokenPersistence St} `{TPL : !TokenPersistenceLaws St}.
  Context (httpClient logoutFlowHandler : bool) (cfg : Config).
  Context (verified : IDTokenVerifier -> string -> IDTokenInfo -> Prop).
  Abbreviation L := (Interference.laws cfg verified (St := St)).
  Implicit Types (s : St) (c : @Proc.config (World St) Lk _ _ query).

(** ** The session *)

(** C1: Refinement.  In every interleaving of any number of concurrent calls,
    with any answers of the network, the browser, the clock and the store, the
    commits of the goroutines form a legal run of the session automaton, and the
    tokens, the tombstone and the admitted operation are those it ends in. *)
Theorem session_refinement s c :
  reachableClient httpClient logoutFlowHandler cfg verified s c ->
  spec_run verified (ClientID cfg) initSession (trace (world c)) (abs (world c)).
Proof. intros Hr. apply (inv_spec _ _ _ (reachable_inv _ _ _ _ _ _ Hr)). Qed.

(** C2: Store coherence.  Whenever no commit is in progress, the store holds the
    tokens in memory, unless a retry of the Save is scheduled for exactly this
    token generation, the session is logged out, or there are no tokens. *)
Theorem store_coherent s c :
  reachableClient httpClient logoutFlowHandler cfg verified s c -> owner c !! stateCommitMu = None ->
  holds (store (world c)) (state (cs (world c))) \/
  (pValid (persistenceRetry (cs (world c))) = true /\
   pRevision (persistenceRetry (cs (world c))) = stateRevision (cs (world c))) \/
  (restoreBlocked (cs (world c)) = true /\ state (cs (world c)) = zeroTokenState) \/
  state (cs (world c)) = zeroTokenState.
Proof. apply reachable_coherent. Qed.

(** C4: A Login commits only while it is the last admitted operation and has not
    returned: a Login superseded by another Login or by a Logout never installs
    its tokens.  What it installs has an ID token that go-oidc verified and whose
    authorized party is this client. *)
Theorem login_commits_if_last_admitted s c tr1 op ts tr2 :
  reachableClient httpClient logoutFlowHandler cfg verified s c -> trace (world c) = tr1 ++ OLogin op ts :: tr2 ->
  last_admitted tr1 lifecycleLogin op /\ IDToken ts <> "" /\
  exists info, authorized verified (ClientID cfg) (IDToken ts) info.
Proof.
  intros Hr Ht. destruct (reachable_split _ _ _ _ _ _ _ _ _ Hr Ht) as (s1 & s2 & H1 & Hs & _).
  inversion Hs as [| |? ? ? Hop [Hid Hv]| | | | |]; subst. split; [by eapply spec_op_last|done].
Qed.

(** The next action of [p] leaves the memory alone and ends it with the answer [a]. *)
Definition answersNext {A} (p : @prog (World St) Lk query A) (w : World St) (a : A) : Prop :=
  match p with Do f k => (f w).2 = w /\ k (f w).1 = Ret a | _ => False end.

(** C5: Logout is final.  From the commit of a Logout until the commit of a later
    Login, whatever refreshes, restores, retries and failures happen in between,
    there are no tokens in memory, the status is that of nobody, and a call of
    AccessToken that takes its snapshot of the state in this period returns no token
    at once.  (A call that took its snapshot before the commit may still return
    the token it saw.) *)
Theorem logout_is_final s c tr1 op tr2 now :
  reachableClient httpClient logoutFlowHandler cfg verified s c -> trace (world c) = tr1 ++ OLogout op :: tr2 -> existsb is_login tr2 = false ->
  state (cs (world c)) = zeroTokenState /\ restoreBlocked (cs (world c)) = true /\
  usableAccessToken now (cs (world c)) = "" /\ AuthStatus now (cs (world c)) = zeroAuthStatus /\
  forall ctx, answersNext (Refresh.AccessToken httpClient ctx) (world c) "".
Proof.
  intros Hr Ht Hl. destruct (reachable_split _ _ _ _ _ _ _ _ _ Hr Ht) as (s1 & s2 & _ & Hs & H2).
  assert (Hz : sp_blocked s2 = true /\ sp_tokens s2 = zeroTokenState) by by inversion Hs.
  destruct (spec_run_logged_out _ _ _ _ _ H2 (proj1 Hz) (proj2 Hz) Hl) as [Hb Hst]. cbn in Hb, Hst.
  split; [done|]. split; [done|]. unfold usableAccessToken, AuthStatus. rewrite Hst.
  split; [done|]. split; [done|]. intros ctx. split; [done|]. cbn. by rewrite Hst.
Qed.

(** C6: A refresh never changes the user.  Every committed refresh replaces the
    tokens of the current generation, and its ID token is the old one or a
    verified one, for this client, with the old one's non-empty subject. *)
Theorem refresh_keeps_subject s c tr1 old new tr2 :
  reachableClient httpClient logoutFlowHandler cfg verified s c -> trace (world c) = tr1 ++ ORefresh old new :: tr2 ->
  (exists before, spec_run verified (ClientID cfg) initSession tr1 before /\ sp_tokens before = old) /\
  RefreshToken old <> "" /\ RefreshToken new <> "" /\
  (IDToken new = IDToken old \/
   exists info claims, authorized verified (ClientID cfg) (IDToken new) info /\
     DecodeIDToken (IDToken old) = Ok claims /\ idSubject info = Subject claims /\ Subject claims <> "").
Proof.
  intros Hr Ht. destruct (reachable_split _ _ _ _ _ _ _ _ _ Hr Ht) as (s1 & s2 & H1 & Hs & _).
  inversion Hs; subst. split; [by exists s1|]. done.
Qed.

(** ** Events *)

(** C8: Events are handed to the emitter in the order of the commits, and none is
    lost or duplicated.  Whenever no commit is in progress, what was dispatched,
    followed by the queue, is, apart from the events of failed discoveries, exactly
    the events of the commits in their order: one for every Login, Logout, refresh,
    refused refresh and expiry the supervisor reports, none for a restored session.  And the queue is empty
    whenever nobody drains it. *)
Theorem events_in_commit_order s c :
  reachableClient httpClient logoutFlowHandler cfg verified s c -> owner c !! stateCommitMu = None ->
  session_events (dispatched (world c) ++ pendingEvents (world c)) = commit_events (trace (world c)) /\
  (eventDispatching (world c) = false -> pendingEvents (world c) = []).
Proof.
  intros Hr Ho. pose proof (reachable_inv _ _ _ _ _ _ Hr) as Hi.
  destruct (reachable_linv _ _ _ _ _ _ Hr Ho) as [_ He]. rewrite <- (inv_queue _ _ _ Hi).
  split; [done|apply (inv_idle _ _ _ Hi)].
Qed.

(** C9: The emitter is called by one goroutine at a time, with the event last
    taken from the queue, and never under one of the Client's mutexes. *)
Theorem emit_exclusive s c t1 t2 e1 e2 r1 r2 k1 k2 :
  reachableClient httpClient logoutFlowHandler cfg verified s c ->
  pool c !! t1 = Some (Ask (QEmit e1) r1 k1) -> pool c !! t2 = Some (Ask (QEmit e2) r2 k2) ->
  t1 = t2 /\ last (dispatched (world c)) = Some e1 /\
  owner c !! stateCommitMu <> Some t1 /\ owner c !! lifecycleMu <> Some t1.
Proof.
  intros Hr H1 H2. split.
  - apply (role_exclusive _ _ _ _ _ _ _ _ (fun _ => drainRole) _ _ _ _ _ _ _ _ Hr H1 H2);
      by intros H w _ (_ & Hd & _).
  - apply reachable_config_ok in Hr. destruct (asking_pre L _ _ _ _ _ _ Hr H1) as (H & Hp & _ & Ho).
    destruct Hp as ([Hn1 Hn2] & _ & Hlast). split; [done|].
    split; intros Hown; [apply Hn1|apply Hn2]; by apply Ho.
Qed.

(** ** Locks and roles *)

(** C7: Single flight of refresh grants.  No two goroutines ever wait for the token
    endpoint's answer to a refresh grant at the same time: a refresh token is never
    presented twice concurrently.  (The code exchange of a Login may overlap it.) *)
Theorem refresh_single_flight s c t1 t2 ctx1 ctx2 o1 o2 rt1 rt2 r1 r2 k1 k2 :
  reachableClient httpClient logoutFlowHandler cfg verified s c ->
  pool c !! t1 = Some (Ask (QTokenSource ctx1 o1 rt1) r1 k1) ->
  pool c !! t2 = Some (Ask (QTokenSource ctx2 o2 rt2) r2 k2) -> t1 = t2.
Proof.
  intros Hr H1 H2.
  apply (role_exclusive _ _ _ _ _ _ _ _
    (fun w => match refreshAttempt w with Some a => attemptRole a | None => flowRole end)
    _ _ _ _ _ _ _ _ Hr H1 H2);
    intros H w Hh (_ & [a Ha] & _); specialize (Hh _ Ha eq_refl); cbn in Hh;
    apply bool_decide_eq_true in Hh; by rewrite Hh.
Qed.

(** The questions that open the system browser. *)
Definition browserFlow {X} (q : query X) : bool :=
  match q with QStartAuthFlow _ _ | QStartLogoutFlow _ _ => true | _ => false end.

(** C10: At most one browser flow of Login or Logout is open at a time. *)
Theorem one_browser_flow s c t1 t2 X1 X2 (q1 : query X1) (q2 : query X2) r1 r2 k1 k2 :
  reachableClient httpClient logoutFlowHandler cfg verified s c ->
  pool c !! t1 = Some (Ask q1 r1 k1) -> pool c !! t2 = Some (Ask q2 r2 k2) ->
  browserFlow q1 = true -> browserFlow q2 = true -> t1 = t2.
Proof.
  intros Hr H1 H2 Hb1 Hb2.
  apply (role_exclusive _ _ _ _ _ _ _ _ (fun _ => flowRole) _ _ _ _ _ _ _ _ Hr H1 H2).
  - intros H w _ Hp. destruct q1; try done; by destruct Hp as [_ Hp].
  - intros H w _ Hp. destruct q2; try done; by destruct Hp as [_ Hp].
Qed.

(** The requests that go-oidc or x/oauth2 send. *)
Definition requestContext {X} (q : query X) : option Ctx :=
  match q with
  | QNewProvider ctx _ | QExchange ctx _ _ _ _ | QTokenSource ctx _ _ | QVerify ctx _ _ => Some ctx
  | _ => None
  end.
Definition isClock {X} (q : query X) : bool := match q with QNow => true | _ => false end.

(** C11: Nobody waits under a commit mutex.  A goroutine that sends a request
    (discovery, token endpoint, keys of the provider, revocation), runs a browser flow,
    calls the emitter or the logger, or waits in a select holds neither [stateCommitMu]
    nor [lifecycleMu]; and the requests of go-oidc and x/oauth2 carry the configured
    HTTP client.  (The store is called under [stateCommitMu], and the clock may be
    read under a mutex; the revocation request has a client of its own.) *)
Theorem no_mutex_while_waiting s c t X (q : query X) r k :
  reachableClient httpClient logoutFlowHandler cfg verified s c -> pool c !! t = Some (Ask q r k) -> isClock q = false ->
  owner c !! stateCommitMu <> Some t /\ owner c !! lifecycleMu <> Some t /\
  (forall ctx, requestContext q = Some ctx -> httpClient = true -> ctxHTTP ctx = true).
Proof.
  intros Hr Hq Hc. apply reachable_config_ok in Hr.
  destruct (asking_pre L _ _ _ _ _ _ Hr Hq) as (H & Hp & _ & Ho).
  assert (Hn : no_locks H) by (destruct q; try done; by destruct Hp).
  split; [|split].
  - intros Hown. destruct Hn as [Hn _]. by apply Hn, (Ho stateCommitMu).
  - intros Hown. destruct Hn as [_ Hn]. by apply Hn, (Ho lifecycleMu).
  - intros ctx Hctx. destruct q; try done; injection Hctx as <-; destruct Hp as [_ Hp]; try exact Hp.
    by destruct Hp as [_ Hp].
Qed.

(** C12: No deadlock.  While a mutex is held, some goroutine can move: it is neither
    finished nor waiting for a mutex that somebody holds. *)
Theorem no_lock_deadlock s c l t :
  reachableClient httpClient logoutFlowHandler cfg verified s c -> l = stateCommitMu \/ l = lifecycleMu -> owner c !! l = Some t ->
  exists t' p, pool c !! t' = Some p /\ ~ blocked c p /\ ~ done_prog p.
Proof.
  intros Hr Hl Ho. pose proof (reachable_config_ok _ _ _ _ _ _ Hr) as Hok.
  assert (Hrole : role l = false) by (by destruct Hl as [-> | ->]).
  refine (held_lock_progress L (api_ok httpClient logoutFlowHandler cfg verified) c 2 _ Hok l t Hrole Ho). intros []; cbn; lia.
Qed.

(** C13: No panic.  No nil configuration, provider or verifier is ever dereferenced:
    no goroutine ever stops at a run-time panic. *)
Theorem no_panic s c t m r k :
  reachableClient httpClient logoutFlowHandler cfg verified s c -> ~ pool c !! t = Some (Ask (QPanic m) r k).
Proof.
  intros Hr Hq. apply reachable_config_ok in Hr.
  by destruct (asking_pre L _ _ _ _ _ _ Hr Hq) as (H & Hp & _).
Qed.

(** C14: Revocation requests.  A revocation request only goes to an endpoint that
    is allowed for the issuer, whatever the discovery document said, with a form that
    carries a token and names this client. *)
Theorem revocation_request_safe s c t ctx endpoint body r k :
  reachableClient httpClient logoutFlowHandler cfg verified s c ->
  pool c !! t = Some (Ask (QRevocationPost ctx endpoint body) r k) ->
  revocationEndpointAllowed (IssuerURL cfg) endpoint = Ok tt /\
  exists rt, rt <> "" /\ body = Encode (revocationForm (ClientID cfg) rt).
Proof.
  intros Hr Hq. apply reachable_config_ok in Hr.
  by destruct (asking_pre L _ _ _ _ _ _ Hr Hq) as (H & (_ & Hp) & _).
Qed.

End ClientProps.

(** ** The theorems at the concrete execution *)

Lemma session_refinement_witness :
  length (trace (world exLoggedOut)) = 7%nat /\
  spec_run exVerified "app" initSession (trace (world exLoggedOut)) (abs (world exLoggedOut)).
Proof.
  split; [by rewrite exLoggedOut_trace|].
  exact (session_refinement false false exConfig exVerified _ _ exLoggedOut_reachable).
Defined.

Lemma store_coherent_witness :
  owner exRefreshed !! stateCommitMu = None /\
  (holds (store (world exRefreshed)) (state (cs (world exRefreshed))) \/
   (pValid (persistenceRetry (cs (world exRefreshed))) = true /\
    pRevision (persistenceRetry (cs (world exRefreshed))) = stateRevision (cs (world exRefreshed))) \/
   (restoreBlocked (cs (world exRefreshed)) = true /\
    state (cs (world exRefreshed)) = zeroTokenState) \/
   state (cs (world exRefreshed)) = zeroTokenState).
Proof.
  assert (Ho : owner exRefreshed !! stateCommitMu = None) by (vm_compute; reflexivity).
  split; [exact Ho|].
  exact (store_coherent false false exConfig exVerified _ _ exRefreshed_reachable Ho).
Defined.

Lemma login_commits_if_last_admitted_witness :
  last_admitted [OAdmit lifecycleLogin 1] lifecycleLogin 1 /\ IDToken exTokens1 <> "" /\
  exists info, authorized exVerified "app" (IDToken exTokens1) info.
Proof.
  exact (login_commits_if_last_admitted false false exConfig exVerified _ _ [OAdmit lifecycleLogin 1]
           1 exTokens1 _ exLoggedOut_reachable exLoggedOut_trace).
Defined.

Lemma logout_is_final_witness :
  state (cs (world exLoggedOut)) = zeroTokenState /\ restoreBlocked (cs (world exLoggedOut)) = true /\
  usableAccessToken (exSeconds 400) (cs (world exLoggedOut)) = "" /\
  AuthStatus (exSeconds 400) (cs (world exLoggedOut)) = zeroAuthStatus /\
  forall ctx, answersNext (Refresh.AccessToken false ctx) (world exLoggedOut) "".
Proof.
  exact (logout_is_final false false exConfig exVerified _ _
           [OAdmit lifecycleLogin 1; OLogin 1 exTokens1; OFinish 1; ORefresh exTokens1 exTokens2;
            OAdmit lifecycleLogout 3] 3 [OFinish 3] (exSeconds 400)
           exLoggedOut_reachable exLoggedOut_trace eq_refl).
Defined.

Lemma refresh_keeps_subject_witness :
  RefreshToken exTokens1 <> "" /\ RefreshToken exTokens2 <> "" /\
  (IDToken exTokens2 = IDToken exTokens1 \/
   exists info claims, authorized exVerified "app" (IDToken exTokens2) info /\
     DecodeIDToken (IDToken exTokens1) = Ok claims /\
     idSubject info = Subject claims /\ Subject claims <> "").
Proof.
  exact (proj2 (refresh_keeps_subject false false exConfig exVerified _ _
           [OAdmit lifecycleLogin 1; OLogin 1 exTokens1; OFinish 1] exTokens1 exTokens2 _
           exLoggedOut_reachable exLoggedOut_trace)).
Defined.

Lemma events_in_commit_order_witness :
  commit_events (trace (world exLoggedOut)) = [EventLoggedIn; EventTokenRefreshed; EventLoggedOut] /\
  session_events (dispatched (world exLoggedOut) ++ pendingEvents (world exLoggedOut)) =
    commit_events (trace (world exLoggedOut)).
Proof.
  split; [by rewrite exLoggedOut_trace|].
  assert (Ho : owner exLoggedOut !! stateCommitMu = None) by (vm_compute; reflexivity).
  exact (proj1 (events_in_commit_order false false exConfig exVerified _ _ exLoggedOut_reachable Ho)).
Defined.

Lemma emit_exclusive_witness :
  (exists r k, pool exEmitting !! 2%nat = Some (Ask (QEmit EventLoggedIn) r k)) /\
  last (dispatched (world exEmitting)) = Some EventLoggedIn /\
  (forall t e r k, pool exEmitting !! t = Some (Ask (QEmit e) r k) -> t = 2%nat).
Proof.
  assert (Ha : at_moment 2 exEmitting = Some (AtEmit EventLoggedIn)) by (vm_compute; reflexivity).
  destruct (at_emit _ _ _ Ha) as (r & k & Hp). split; [by exists r, k|].
  pose proof (emit_exclusive false false exConfig exVerified _ _ 2 2 _ _ _ _ _ _
                (exLogin_reachable 45) Hp Hp) as (_ & Hl & _).
  split; [exact Hl|]. intros t e r' k' Ht.
  exact (proj1 (emit_exclusive false false exConfig exVerified _ _ t 2 _ _ _ _ _ _
                  (exLogin_reachable 45) Ht Hp)).
Defined.

Lemma refresh_single_flight_witness :
  (exists ctx o rt r k, pool exGranting !! 10%nat = Some (Ask (QTokenSource ctx o rt) r k)) /\
  (forall t ctx o rt r k, pool exGranting !! t = Some (Ask (QTokenSource ctx o rt) r k) -> t = 10%nat).
Proof.
  assert (Ha : at_moment 10 exGranting = Some AtTokenSource) by (vm_compute; reflexivity).
  destruct (at_tokenSource _ _ Ha) as (ctx & o & rt & r & k & Hp). split; [by exists ctx, o, rt, r, k|].
  intros t ctx' o' rt' r' k' Ht.
  exact (refresh_single_flight false false exConfig exVerified _ _ t 10 _ _ _ _ _ _ _ _ _ _
           exGranting_reachable Ht Hp).
Defined.

Lemma one_browser_flow_witness :
  at_moment 2 exBrowsing = Some AtBrowser /\
  (forall t ctx url r k, pool exBrowsing !! t = Some (Ask (QStartLogoutFlow ctx url) r k) -> t = 2%nat).
Proof.
  assert (Ha : at_moment 2 exBrowsing = Some AtBrowser) by (vm_compute; reflexivity).
  split; [exact Ha|].
  destruct (at_browser _ _ Ha) as (X & q & r & k & Hp & Hq). intros t ctx url r' k' Ht.
  refine (one_browser_flow false false exConfig exVerified _ _ t 2 _ _ _ _ _ _ _ _
            (exLogin_reachable 17) Ht Hp eq_refl _).
  clear -Hq. destruct q; first [reflexivity|destruct Hq].
Defined.

Lemma no_mutex_while_waiting_witness :
  at_moment 10 exGranting = Some AtTokenSource /\
  owner exGranting !! stateCommitMu <> Some 10%nat /\ owner exGranting !! lifecycleMu <> Some 10%nat.
Proof.
  assert (Ha : at_moment 10 exGranting = Some AtTokenSource) by (vm_compute; reflexivity).
  split; [exact Ha|].
  destruct (at_tokenSource _ _ Ha) as (ctx & o & rt & r & k & Hp).
  destruct (no_mutex_while_waiting false false exConfig exVerified _ _ 10 _ _ _ _
              exGranting_reachable Hp eq_refl) as (H1 & H2 & _). by split.
Defined.

Lemma no_lock_deadlock_witness :
  owner exCommitting !! stateCommitMu = Some 2%nat /\
  exists t p, pool exCommitting !! t = Some p /\ ~ blocked exCommitting p /\ ~ done_prog p.
Proof.
  assert (Ho : owner exCommitting !! stateCommitMu = Some 2%nat) by (vm_compute; reflexivity).
  split; [exact Ho|].
  exact (no_lock_deadlock false false exConfig exVerified _ _ stateCommitMu 2
           (exLogin_reachable 38) (or_introl eq_refl) Ho).
Defined.

Lemma no_panic_witness :
  initialized (cs (world exLoggedIn)) = true /\
  (forall t m r k, ~ pool exLoggedIn !! t = Some (Ask (QPanic m) r k)).
Proof.
  split; [vm_compute; reflexivity|]. intros t m r k.
  exact (no_panic false false exConfig exVerified _ _ t m r k exLoggedIn_reachable).
Defined.

Lemma revocation_request_safe_witness :
  exists ctx endpoint body r k,
    pool exRevoking !! 5%nat = Some (Ask (QRevocationPost ctx endpoint body) r k) /\
    revocationEndpointAllowed "https://idp.example/realms/r" endpoint = Ok tt.
Proof.
  assert (Ha : at_moment 5 exRevoking = Some AtRevocation) by (vm_compute; reflexivity).
  destruct (at_revocation _ _ Ha) as (ctx & e & b & r & k & Hp). exists ctx, e, b, r, k.
  split; [exact Hp|].
  exact (proj1 (revocation_request_safe false false exConfig exVerified _ _ 5 ctx e b r k
                  exRevoking_reachable Hp)).
Defined.
