(* ===== verification/Races.v ===== *)
(** A race between the refresh supervisor and an on-demand refresh: the claim of
    a background attempt that ends because the access token expired before it
    could start, while an [AccessToken] caller's attempt fails a session-integrity
    check.  What [finishRefreshLoopAttempt] makes of the block, for every state,
    and a run of the interleaving semantics that gets there. *)
From S2P Require Import Prelude GoTime Proc RelyGuarantee Schedules GoEncoding Errors Tokens.
From S2P Require Import Config Claims ClientState Schedule ScheduleProps SessionSpec World.
From S2P Require Import Login Session Interference Supervisor Client Scenario.

(** The status of a session depends on its tokens, its grace period and whether an
    integrity block is recorded for its generation. *)
Lemma status_same c c' t :
  same_tokens c c' -> refreshIntegrityBlockedLocked c' = refreshIntegrityBlockedLocked c ->
  usableAccessToken t c' = usableAccessToken t c /\ AuthStatus t c' = AuthStatus t c.
Proof.
  intros [Es _ _ _ Ec _ _ _] Eb. unfold usableAccessToken, AuthStatus, tokenValid, inGrace.
  by rewrite Es, Ec, Eb.
Qed.

Lemma status_blocked c t :
  refreshIntegrityBlockedLocked c = true ->
  usableAccessToken t c = "" /\ AuthStatus t c = zeroAuthStatus.
Proof. intros Eb. unfold usableAccessToken, AuthStatus. rewrite Eb. by destruct (IsZero _). Qed.

(** The predicate in terms of the schedule the supervisor works with. *)
Lemma integrity_current c :
  refreshIntegrityBlockedLocked c =
  bool_decide (disposition (currentSchedule c) = refreshLoopBlockedIntegrity).
Proof.
  unfold refreshIntegrityBlockedLocked, currentSchedule, refreshScheduleLocked.
  destruct (sValid (refreshSchedule c)) eqn:Ev, (sRevision (refreshSchedule c) =? stateRevision c) eqn:Er;
    cbn; by rewrite ?Ev, ?Er.
Qed.

(** Ending a claim as expired parks the schedule, whatever its disposition was. *)
Lemma finish_expired rev ts stage claim at_ c :
  sValid (currentSchedule c) = true -> currentSchedule c = refreshSchedule c ->
  stateRevision c = rev -> sClaimID (refreshSchedule c) = claim ->
  let c' := finishRefreshLoopAttempt rev ts stage claim refreshLoopAttemptExpiredBeforeStart at_ c in
  same_tokens c c' /\
  currentSchedule c' = (currentSchedule c) <| sClaimID := 0 |> <| disposition := refreshLoopBlockedExpired |>.
Proof.
  intros Hv Hs <- <- c'. assert (Hsame : same_tokens c c') by apply finishRefreshLoopAttempt_same.
  split; [done|]. destruct (currentSchedule_key c) as [_ Hr].
  apply (currentSchedule_keep c c' _ Hsame); [|done..].
  unfold c', finishRefreshLoopAttempt. rewrite Hs in *. by rewrite Hv, Hr, !Z.eqb_refl.
Qed.

Lemma finished_waits c t :
  sClaimID (currentSchedule c) = 0 -> disposition (currentSchedule c) = refreshLoopBlockedExpired ->
  exists wake, (nextRefreshLoopAction t c).1 = refreshLoopWait zeroTime wake.
Proof.
  intros Hc Hd. next_cases t c. rewrite Heq. cbv zeta. rewrite Hc, Hd. cbn. by eexists.
Qed.

(** An integrity block of a generation that is not blocked yet: its event is due at
    the time of the block. *)
Lemma block_expired rev at_ c :
  stateRevision c = rev -> disposition (currentSchedule c) = refreshLoopBlockedExpired ->
  let c' := blockRefreshIntegrityLocked rev at_ c in
  same_tokens c c' /\
  currentSchedule c' =
    (currentSchedule c) <| eventAt := at_ |> <| disposition := refreshLoopBlockedIntegrity |>.
Proof.
  intros <- Hd c'. assert (Hsame : same_tokens c c') by apply blockRefreshIntegrityLocked_same.
  split; [done|]. destruct (currentSchedule_key c) as [Hv Hr].
  apply (currentSchedule_keep c c' _ Hsame); [|done..].
  unfold c', blockRefreshIntegrityLocked. rewrite Z.eqb_refl. cbn. fold (currentSchedule c).
  by rewrite bool_decide_false by (by rewrite Hd).
Qed.

Lemma blocked_emits c t :
  sClaimID (currentSchedule c) = 0 -> disposition (currentSchedule c) = refreshLoopBlockedIntegrity ->
  eventEmitted (currentSchedule c) = false -> Before t (eventAt (currentSchedule c)) = false ->
  (nextRefreshLoopAction t c).1 = refreshLoopEmitSessionExpired (stateRevision c).
Proof.
  intros Hc Hd He Hb. next_cases t c. rewrite Heq. cbv zeta. by rewrite Hc, Hd, He, Hb.
Qed.

(** C38: An integrity block does not survive the expiry of a claimed attempt.  Let
    the supervisor claim an attempt and, before it ends, an integrity failure
    block the generation, by whatever steps that keep the tokens and the claim:
    the session is then nobody's.  When the claim ends as expired before its
    start, the session has the usable token and the status it had before the claim
    again, and the supervisor, instead of emitting the event of the failure,
    waits without a deadline.  In the other order the block stays and, unless it
    was emitted before, the event is due. *)
Theorem integrity_block_lost_on_expiry_race now c rev ts stage claim claimed blocked blockedAt finishedAt :
  nextRefreshLoopAction now c = (refreshLoopAttempt rev ts stage claim, claimed) ->
  same_tokens claimed blocked -> sClaimID (refreshSchedule blocked) = claim ->
  refreshIntegrityBlockedLocked blocked = true ->
  let expire := finishRefreshLoopAttempt rev ts stage claim refreshLoopAttemptExpiredBeforeStart finishedAt in
  let kept := blockRefreshIntegrityLocked rev blockedAt (expire claimed) in
  forall t,
  (usableAccessToken t blocked = "" /\ AuthStatus t blocked = zeroAuthStatus) /\
  (usableAccessToken t (expire blocked) = usableAccessToken t c /\
   AuthStatus t (expire blocked) = AuthStatus t c /\
   exists wake, (nextRefreshLoopAction t (expire blocked)).1 = refreshLoopWait zeroTime wake) /\
  (usableAccessToken t kept = "" /\ AuthStatus t kept = zeroAuthStatus /\
   (Before t blockedAt = false -> eventEmitted (currentSchedule c) = false ->
    (nextRefreshLoopAction t kept).1 = refreshLoopEmitSessionExpired rev)).
Proof.
  intros (Hdue & -> & _ & _ & _ & Hcl & _ & Hsch)%next_attempt_inv Hbl Hclaim Hint expire kept t.
  destruct (currentSchedule_key c) as [Hv Hr].
  assert (Hcc : currentSchedule claimed = refreshSchedule claimed)
    by by rewrite (currentSchedule_keep c claimed _ Hcl Hsch) by done.
  assert (Hbc : currentSchedule blocked = refreshSchedule blocked).
  { unfold refreshIntegrityBlockedLocked in Hint. bool_to_prop. by apply currentSchedule_valid. }
  assert (Hne : disposition (currentSchedule c) <> refreshLoopBlockedIntegrity) by by rewrite (ad_active _ _ Hdue).
  destruct (finish_expired (stateRevision c) ts stage claim finishedAt blocked) as [Hs1 Hx1];
    [apply currentSchedule_key|done|by rewrite (st_revision _ _ Hbl), (st_revision _ _ Hcl)|done|].
  destruct (finish_expired (stateRevision c) ts stage claim finishedAt claimed) as [Hs2 Hx2];
    [apply currentSchedule_key|done|apply (st_revision _ _ Hcl)|by rewrite Hsch|].
  fold expire in Hs1, Hx1, Hs2, Hx2.
  destruct (block_expired (stateRevision c) blockedAt (expire claimed)) as [Hs3 Hx3];
    [by rewrite (st_revision _ _ Hs2), (st_revision _ _ Hcl)|by rewrite Hx2|]. fold kept in Hs3, Hx3.
  split; [by apply status_blocked|]. split.
  - assert (Hc1 : same_tokens c (expire blocked)) by (etrans; [exact Hcl|]; etrans; [exact Hbl|exact Hs1]).
    destruct (status_same c (expire blocked) t Hc1) as [-> ->].
    { rewrite !integrity_current, Hx1. cbn. by rewrite !bool_decide_false. }
    do 2 (split; [done|]). apply finished_waits; by rewrite Hx1.
  - destruct (status_blocked kept t) as [-> ->].
    { rewrite integrity_current, Hx3. done. }
    do 2 (split; [done|]). intros Hb He.
    assert (Er : stateRevision kept = stateRevision c)
      by by rewrite (st_revision _ _ Hs3), (st_revision _ _ Hs2), (st_revision _ _ Hcl).
    rewrite <- Er. apply blocked_emits; rewrite Hx3; cbn; rewrite ?Hx2; try done.
    cbn. by rewrite Hcc, Hsch.
Qed.

(** ** A run that gets there *)

(** The environment of [Scenario], with the clock at [n] and a token endpoint whose
    ID tokens do not verify. *)
Definition lateOracle (n : Z) : oracle (W := World memoryStore) (Q := query) := fun X q w =>
  match q in query X return option X with
  | QNow => Some (exSeconds n)
  | QVerify _ _ _ => Some (Err (EText "bad signature"))
  | q => exOracle _ q w
  end.

Lemma lateOracle_answers n X q w x :
  lateOracle n X q w = Some x -> Interference.answers exVerified X q x.
Proof. destruct q; try apply exOracle_answers; [by intros [= <-]|by intros [= <-] info]. Qed.

Abbreviation runLate n := (exec_thread (bound (St := memoryStore)) (lateOracle n)).

Lemma runLate_reachable n k t child c : exReachable c -> exReachable (runLate n k t child c).
Proof. apply exec_thread_reachable, lateOracle_answers. Qed.

(** The access token expires at 310.  At 305 the supervisor, goroutine 20, decides
    and claims an attempt; goroutine 4 calls [AccessToken] and leads a refresh
    attempt of its own, whose goroutine is 31.  At 320 the supervisor finds the
    token expired; then the refresh answers and fails its check, the caller gets
    no token, and only then the supervisor ends its claim. *)
Definition raceStarted : exConfiguration :=
  runLate 305 6 20 21 (runLate 305 10 3 20 (call 3 (StartRefreshLoop false exCtx) exLoggedIn)).
Definition raceClaimed : exConfiguration := runLate 305 1 20 0 raceStarted.
Definition raceJudged : exConfiguration :=
  runLate 320 3 20 0 (runLate 305 100 4 31 (callAccessToken 4 (runLate 305 2 20 0 raceClaimed))).
Definition raceBlocked : exConfiguration :=
  runLate 320 100 4 0 (runLate 320 100 31 0 raceJudged).
Definition raceLost : exConfiguration := runLate 320 1 20 0 raceBlocked.

Lemma raceStarted_reachable : exReachable raceStarted.
Proof.
  do 2 apply runLate_reachable. apply start_reachable; [constructor|apply exLoggedIn_reachable].
Qed.
Lemma raceLost_reachable : exReachable raceLost.
Proof.
  do 4 apply runLate_reachable. apply runLate_reachable, start_reachable; [constructor|].
  do 2 apply runLate_reachable. apply raceStarted_reachable.
Qed.

(** The race happens: in a reachable configuration the call of [AccessToken] that
    met the integrity failure has ended and no token was usable; one step of the
    supervisor later the old one is usable again. *)
Lemma integrity_block_lost_on_expiry_race_witness :
  exReachable raceLost /\ at_moment 4 raceLost = Some AtEnd /\
  usableAccessToken (exSeconds 320) (cs (world raceBlocked)) = "" /\
  usableAccessToken (exSeconds 320) (cs (world raceLost)) = "at1".
Proof.
  split; [exact raceLost_reachable|]. split; [vm_compute; reflexivity|].
  destruct (integrity_block_lost_on_expiry_race (exSeconds 305) (cs (world raceStarted)) 1 exTokens1 1 1
    (cs (world raceClaimed)) (cs (world raceBlocked)) (exSeconds 320) (exSeconds 320)
    ltac:(vm_compute; reflexivity) ltac:(split; vm_compute; reflexivity)
    ltac:(vm_compute; reflexivity) ltac:(vm_compute; reflexivity) (exSeconds 320))
    as ([Hb _] & (Hl & _) & _).
  split; [exact Hb|].
  assert (E : cs (world raceLost) = finishRefreshLoopAttempt 1 exTokens1 1 1
    refreshLoopAttemptExpiredBeforeStart (exSeconds 320) (cs (world raceBlocked))) by (vm_compute; reflexivity).
  rewrite E, Hl. vm_compute. reflexivity.
Defined.
