(* ===== verification/Options.v ===== *)
(** [options.go] and [New] of [client.go]: the options, the dependencies a Client
    is built with and their defaults.  The implementations a program hands in
    (its store, emitter, logger and HTTP client) are types of their own; a nil
    one is [None]. *)
From S2P Require Import Prelude GoTime GoStrings GoUrl Proc RelyGuarantee Schedules Errors Tokens Config Claims.
From S2P Require Import ClientState World FlowProps Interference Client Scenario.

(** ** A store that is one of two implementations *)

Section Either.
  Context {A B : Type} `{TokenPersistenceLaws A} `{TokenPersistenceLaws B}.

#[export] Instance either_persistence : TokenPersistence (A + B) := {
  Save s ts := match s with
               | inl a => prod_map id inl (Save a ts)
               | inr b => prod_map id inr (Save b ts)
               end;
  Load s := match s with
            | inl a => prod_map id inl (Load a)
            | inr b => prod_map id inr (Load b)
            end;
  Delete s := match s with
              | inl a => prod_map id inl (Delete a)
              | inr b => prod_map id inr (Delete b)
              end
}.

#[export, program] Instance either_laws : TokenPersistenceLaws (A + B) := {
  holds s ts := match s with inl a => holds a ts | inr b => holds b ts end;
  kept ts := Tokens.kept (S := A) ts /\ Tokens.kept (S := B) ts
}.
Next Obligation. intros [a|b] ts Hs; cbn in *; by apply save_holds. Qed.
Next Obligation. intros [a|b] ts [Ha Hb] Hs Hl; cbn in *; by apply load_holds. Qed.
Next Obligation. intros [a|b] ts Hs; cbn in *; by apply load_keeps. Qed.
Next Obligation. intros [a|b] Hs; cbn in *; by apply load_found. Qed.
Next Obligation. intros [a|b] Hs; cbn in *; by apply delete_holds. Qed.
End Either.

Section Options.
  Context {St Em Lg Hc : Type} `{TP : TokenPersistence St} `{TPL : !TokenPersistenceLaws St}.

(** ** Options *)

Record clientOptions := mkClientOptions {
  optStore : option St;
  optEmitter : option Em;
  optLogger : option Lg;
  optHTTPClient : option Hc
}.

(** The values of [Option] outside the package, where the fields of
    [clientOptions] cannot be named. *)
Inductive Option :=
| WithTokenPersistence (store : option St)
| WithEventEmitter (emitter : option Em)
| WithLogger (logger : option Lg)
| WithHTTPClient (hc : option Hc).

(** Calling the closure an option is. *)
Definition applyOption (o : clientOptions) (opt : Option) : clientOptions :=
  match opt with
  | WithTokenPersistence s => mkClientOptions s (optEmitter o) (optLogger o) (optHTTPClient o)
  | WithEventEmitter e => mkClientOptions (optStore o) e (optLogger o) (optHTTPClient o)
  | WithLogger l => mkClientOptions (optStore o) (optEmitter o) l (optHTTPClient o)
  | WithHTTPClient hc => mkClientOptions (optStore o) (optEmitter o) (optLogger o) hc
  end.

Definition zeroOptions : clientOptions := mkClientOptions None None None None.

(** ** Construction *)

(** The defaults of the dependencies. *)
Inductive EventEmitter := noopEmitter | AnEmitter (e : Em).
Inductive Logger := slogDefault | ALogger (l : Lg).
Definition Store : Type := memoryStore + St.
Definition emptyStore : Store := inl (mkMemoryStore zeroTokenState).

(** The fields of [Client] that [New] sets and nothing changes afterwards, and the
    world its methods share. *)
Record Client := mkClient {
  clientConfig : Config;
  clientStore : option Store;
  clientEmitter : option EventEmitter;
  clientLogger : option Logger;
  clientHTTP : option Hc
}.
#[local] Instance Client_settable : Settable Client :=
  fun c => mkClient (clientConfig c) (clientStore c) (clientEmitter c) (clientLogger c) (clientHTTP c).

Inductive newError := FlowRequired | InvalidConfig (e : configError).

(** [if c.field == nil { c.field = default }]. *)
Definition orDefault {A} (default : A) (field : option A) : option A :=
  match field with None => Some default | Some a => Some a end.

(** [New]; [flow] is false for a nil flow handler. *)
Definition New (flow : bool) (cfg : Config) (opts : list Option) : result newError Client :=
  if negb flow then Err FlowRequired
  else match Validate cfg with
  | inl err => Err (InvalidConfig err)
  | inr cfg =>
      let options := foldl applyOption zeroOptions opts in
      let c := mkClient cfg (inr <$> optStore options) (AnEmitter <$> optEmitter options)
                 (ALogger <$> optLogger options) (optHTTPClient options) in
      Ok (c <| clientStore := orDefault emptyStore (clientStore c) |>
            <| clientEmitter := orDefault noopEmitter (clientEmitter c) |>
            <| clientLogger := orDefault slogDefault (clientLogger c) |>)
  end.

(** ** The options chosen *)

(** The last option of a kind is the one that counts. *)
Definition chosen {A} (kind : Option -> option (option A)) (opts : list Option) : option A :=
  match last (omap kind opts) with Some a => a | None => None end.

Definition storeOption (o : Option) := match o with WithTokenPersistence s => Some s | _ => None end.
Definition emitterOption (o : Option) := match o with WithEventEmitter e => Some e | _ => None end.
Definition loggerOption (o : Option) := match o with WithLogger l => Some l | _ => None end.
Definition httpOption (o : Option) := match o with WithHTTPClient hc => Some hc | _ => None end.

Lemma chosen_snoc {A} (kind : Option -> option (option A)) opts o :
  chosen kind (opts ++ [o]) = match kind o with Some a => a | None => chosen kind opts end.
Proof.
  unfold chosen. rewrite omap_app. cbn. destruct (kind o); [|by rewrite app_nil_r]. by rewrite last_snoc.
Qed.

Lemma options_chosen opts :
  foldl applyOption zeroOptions opts =
  mkClientOptions (chosen storeOption opts) (chosen emitterOption opts) (chosen loggerOption opts) (chosen httpOption opts).
Proof.
  induction opts as [|o opts IH] using rev_ind; [done|]. rewrite foldl_snoc, IH, !chosen_snoc. by destruct o.
Qed.

(** What [New] returns, in terms of the options chosen. *)
Lemma New_Ok flow cfg opts c :
  New flow cfg opts = Ok c <->
  flow = true /\ exists cfg', Validate cfg = Ok cfg' /\
  c = mkClient cfg' (Some (default emptyStore (inr <$> chosen storeOption opts)))
        (Some (default noopEmitter (AnEmitter <$> chosen emitterOption opts)))
        (Some (default slogDefault (ALogger <$> chosen loggerOption opts))) (chosen httpOption opts).
Proof.
  unfold New. rewrite options_chosen. destruct flow; cbn [negb]; [|naive_solver].
  destruct (Validate cfg) as [e|cfg'] eqn:E.
  - split; [done|]. by intros (_ & ? & ? & _).
  - split; [intros [= <-]; split; [done|]|intros (_ & ? & [= <-] & ->); f_equal; cbn];
      [exists cfg'; split; [done|]; cbn|];
      by destruct (chosen storeOption _), (chosen emitterOption _), (chosen loggerOption _).
Qed.

End Options.

Arguments Option : clear implicits.
Arguments Client : clear implicits.

(** A configuration [Validate] has nothing against. *)
Definition validConfig (c : Config) : Prop :=
  TrimSpace (IssuerURL c) <> "" /\
  (exists u, Parse (IssuerURL c) = Some u /\ (Scheme u = "http" \/ Scheme u = "https") /\ Host u <> "") /\
  TrimSpace (ClientID c) <> "" /\
  (forall k v, ExtraAuthParams c !! k = Some v -> normalizedKey k ∉ reservedExtraAuthParams) /\
  (forall k v, ExtraTokenParams c !! k = Some v -> normalizedKey k ∉ reservedExtraTokenParams).

Lemma Validate_valid c : validConfig c -> Validate c = Ok (applyDefaults c).
Proof. intros Hv. by apply Validate_ok. Qed.

Lemma Validate_Ok_inv c c' : Validate c = Ok c' -> validConfig c /\ c' = applyDefaults c.
Proof. intros [-> Hv]%Validate_ok. done. Qed.

Lemma Validate_defaults c : validConfig c -> Validate (applyDefaults c) = Ok (applyDefaults c).
Proof. intros Hv. rewrite <- (applyDefaults_idempotent c) at 2. by apply Validate_valid. Qed.

(** C16: What [New] promises.  It succeeds exactly with a flow handler and a valid
    configuration.  A Client it returns has a configuration that validates to
    itself, a store, an emitter and a logger that are never nil (the last one given,
    or else an empty store in memory, the emitter that drops events and the default
    logger); and in every interleaving of concurrent calls on it its state stays well
    formed: that configuration, a verifier and an OAuth2 configuration as soon as
    it is initialized, a schedule and a pending Save of the current token generation
    only, a generation counter within its 64 bits, and a wake channel that is not
    closed. *)
Theorem New_well_typed {St Em Lg Hc} `{TPL : TokenPersistenceLaws St} flow cfg (opts : list (Option St Em Lg Hc)) :
  ((exists client, New flow cfg opts = Ok client) <-> flow = true /\ validConfig cfg) /\
  (forall client, New flow cfg opts = Ok client ->
   clientConfig client = applyDefaults cfg /\ Validate (clientConfig client) = Ok (clientConfig client) /\
   clientEmitter client = Some (default noopEmitter (AnEmitter <$> chosen emitterOption opts)) /\
   clientLogger client = Some (default slogDefault (ALogger <$> chosen loggerOption opts)) /\
   clientHTTP client = chosen httpOption opts /\
   exists s, clientStore client = Some s /\ s = default emptyStore (inr <$> chosen storeOption opts) /\
   forall logoutFlow verified c,
     reachableClient (bool_decide (is_Some (clientHTTP client))) logoutFlow (clientConfig client) verified s c ->
     config (cs (world c)) = clientConfig client /\ state_wf (cs (world c)) /\
     (initialized (cs (world c)) = true -> is_Some (oauth2 (cs (world c))) /\ is_Some (verifier (cs (world c))))).
Proof.
  split.
  - split.
    + intros (client & (-> & cfg' & Hv & _)%New_Ok). by apply Validate_Ok_inv in Hv as [].
    + intros (-> & Hv). eexists. apply New_Ok. split; [done|]. eexists. split; [by apply Validate_valid|done].
  - intros client (_ & cfg' & [Hv ->]%Validate_Ok_inv & ->)%New_Ok.
    cbn [clientConfig clientStore clientEmitter clientLogger clientHTTP].
    split; [done|]. split; [by apply Validate_defaults|]. do 3 (split; [done|]). eexists. split; [done|]. split; [done|].
    intros lf verified c Hr. destruct (reachable_inv _ _ _ _ _ _ Hr) as [Hwf _ Hcfg Hd _ _ _]. done.
Qed.

(** A Client of two options, the later of which wins, and one of none. *)
Definition exampleOptions : list (Option FailingStore nat nat nat) :=
  [WithLogger (Some 1%nat); WithTokenPersistence (Some (mkFailingStore zeroTokenState None None None)); WithLogger None].

Lemma New_well_typed_witness :
  exists client s, New true exampleConfig exampleOptions = Ok client /\
    clientLogger client = Some slogDefault /\ clientStore client = Some s /\
    Validate (clientConfig client) = Ok (clientConfig client) /\
    state_wf (cs (initWorld (clientConfig client) s)).
Proof.
  destruct (New_well_typed true exampleConfig exampleOptions) as [_ Hnew].
  destruct (New true exampleConfig exampleOptions) as [e|client] eqn:E; [vm_compute in E; discriminate E|].
  destruct (Hnew client eq_refl) as (_ & Hv & _ & Hl & _ & s & Hs & _ & Hr).
  exists client, s. split; [exact eq_refl|]. split; [exact Hl|]. split; [exact Hs|]. split; [exact Hv|].
  exact (proj1 (proj2 (Hr false exVerified _ (rtc_refl _ (init_config (initWorld (clientConfig client) s)))))).
Defined.
