(* ===== verification/Transport.v ===== *)
(** [transport.go]: the round tripper that injects the bearer token.

    Requests are Go pointers whose header map is shared: the caller keeps the
    request it passes in, so the model has a heap of requests and [Clone]
    allocates.  The base round tripper is a parameter: it sees a request
    pointer and may do anything to the heap. *)
From Stdlib Require Import Ascii.
From S2P Require Import Prelude GoStrings.

(** [http.Header]; the keys are canonical ("Authorization"). *)
Abbreviation Header := (gmap string (list string)).

(** What the transport reads and writes of an [*http.Request]; [rest] stands
    for everything else, which [Clone] copies. *)
Record Request := mkRequest { reqHeader : Header; rest : string }.

#[export] Instance Request_settable : Settable Request := fun r => mkRequest (reqHeader r) (rest r).

Abbreviation Heap := (gmap nat Request).

(** [Header.Get], [Header.Set] and [Header.Del]. *)
Definition HeaderGet (h : Header) (k : string) : string :=
  match h !! k with Some (v :: _) => v | _ => "" end.
Definition HeaderSet (h : Header) (k v : string) : Header := <[k := [v]]> h.
Definition HeaderDel (h : Header) (k : string) : Header := delete k h.

(** An address that is not allocated. *)
Definition freshAddress (h : Heap) : nat := fresh (dom h : gset nat).

(** [req.Clone]: a deep copy at a fresh address. *)
Definition Clone (h : Heap) (req : nat) : nat * Heap :=
  let a := freshAddress h in
  (a, match h !! req with Some r => <[a := r]> h | None => h end).

Definition setAuthorization (token : string) (r : Request) : Request :=
  r <| reqHeader := HeaderSet (reqHeader r) "Authorization" ("Bearer " +:+ token) |>.
Definition delAuthorization (r : Request) : Request :=
  r <| reqHeader := HeaderDel (reqHeader r) "Authorization" |>.

Definition authorization (h : Heap) (req : nat) : string :=
  match h !! req with Some r => HeaderGet (reqHeader r) "Authorization" | None => "" end.

(** The request [RoundTrip] hands to the base transport, and the heap then. *)
Definition outgoing (token : string) (h : Heap) (req : nat) : nat * Heap :=
  if negb (String.eqb token "") then
    let '(req', h) := Clone h req in (req', alter (setAuthorization token) req' h)
  else if negb (String.eqb (authorization h req) "") then
    let '(req', h) := Clone h req in (req', alter delAuthorization req' h)
  else (req, h).

Section RoundTrip.
  Context {Response : Type} (tokenFn : Heap -> string) (base : nat -> Heap -> Response * Heap).

(** [bearerTransport.RoundTrip]. *)
Definition RoundTrip (req : nat) (h : Heap) : Response * Heap :=
  let token := tokenFn h in
  let '(req', h) := outgoing token h req in
  base req' h.

(** [BearerTransport] panics without a token function and falls back to the
    default base transport. *)
Definition BearerTransport (token : option (Heap -> string))
    (given : option (nat -> Heap -> Response * Heap)) (default : nat -> Heap -> Response * Heap)
    : option ((Heap -> string) * (nat -> Heap -> Response * Heap)) :=
  match token with
  | None => None
  | Some f => Some (f, match given with Some b => b | None => default end)
  end.

End RoundTrip.

Lemma freshAddress_fresh h : h !! freshAddress h = None.
Proof. apply (not_elem_of_dom (D := gset nat)). unfold freshAddress. apply is_fresh. Qed.

(** What the base transport gets, on every branch. *)
Lemma outgoing_spec token h req r :
  h !! req = Some r ->
  let '(req', h') := outgoing token h req in
  (forall a r', h !! a = Some r' -> h' !! a = Some r') /\
  exists r', h' !! req' = Some r' /\ rest r' = rest r /\
    (forall k, k <> "Authorization" -> reqHeader r' !! k = reqHeader r !! k) /\
    HeaderGet (reqHeader r') "Authorization" =
      (if String.eqb token "" then "" else "Bearer " +:+ token).
Proof.
  intros Hr. unfold outgoing, Clone, authorization. rewrite Hr. pose proof (freshAddress_fresh h) as Hf.
  destruct (String.eqb token "") eqn:Et; cbn [negb].
  - destruct (String.eqb (HeaderGet (reqHeader r) "Authorization") "") eqn:Ea; cbn [negb].
    + apply String.eqb_eq in Ea. split; [done|]. by exists r.
    + split.
      * intros a r' Ha. rewrite lookup_alter_ne, lookup_insert_ne; [done|congruence..].
      * eexists. rewrite lookup_alter_eq, lookup_insert_eq. split; [done|]. split; [done|].
        cbn. unfold HeaderDel, HeaderGet. split; [intros k Hk; by rewrite lookup_delete_ne|].
        by rewrite lookup_delete_eq.
  - split.
    + intros a r' Ha. rewrite lookup_alter_ne, lookup_insert_ne; [done|congruence..].
    + eexists. rewrite lookup_alter_eq, lookup_insert_eq. split; [done|]. split; [done|].
      cbn -[String.append]. unfold HeaderSet, HeaderGet. split; [intros k Hk; by rewrite lookup_insert_ne|].
      by rewrite lookup_insert_eq.
Qed.

(** C34: The bearer transport.  The base transport is called exactly once, with a
    request that equals the caller's except for its Authorization header, which
    carries the token, or nothing when there is no token (even if the caller set
    one); and no request the caller may still hold is changed. *)
Theorem RoundTrip_spec {Response} (tokenFn : Heap -> string) (base : nat -> Heap -> Response * Heap)
    req h r :
  h !! req = Some r ->
  exists req' h', RoundTrip tokenFn base req h = base req' h' /\
    (forall a r', h !! a = Some r' -> h' !! a = Some r') /\
    exists r', h' !! req' = Some r' /\ rest r' = rest r /\
      (forall k, k <> "Authorization" -> reqHeader r' !! k = reqHeader r !! k) /\
      HeaderGet (reqHeader r') "Authorization" =
        (if String.eqb (tokenFn h) "" then "" else "Bearer " +:+ tokenFn h).
Proof.
  intros Hr. unfold RoundTrip. pose proof (outgoing_spec (tokenFn h) h req r Hr) as Ho.
  destruct (outgoing (tokenFn h) h req) as [req' h']. by exists req', h'.
Qed.

(** A base transport that answers with the header it was sent. *)
Definition echoTransport (req : nat) (h : Heap) : string * Heap := (authorization h req, h).

Lemma RoundTrip_spec_witness :
  let h := {[0%nat := mkRequest {[ "Authorization" := ["Basic x"] ]} "GET /"]} : Heap in
  exists req' h', RoundTrip (fun _ => "at") echoTransport 0%nat h = echoTransport req' h' /\
    h' !! 0%nat = Some (mkRequest {[ "Authorization" := ["Basic x"] ]} "GET /").
Proof.
  intros h. assert (Hr : h !! 0%nat = Some (mkRequest {[ "Authorization" := ["Basic x"] ]} "GET /")) by reflexivity.
  destruct (RoundTrip_spec (fun _ => "at") echoTransport 0 h _ Hr) as (req' & h' & He & Hh & _).
  exists req', h'. split; [exact He|exact (Hh _ _ Hr)].
Defined.
