(* ===== verification/Eventbus.v ===== *)
(** [eventbus/deferred.go]: the bus that buffers events until its target is
    set, with its concurrent callers in the rely/guarantee logic.

    [mu] is only held within one critical section, which is one action; [sendMu]
    is held across calls of the target. *)
From S2P Require Import Prelude Proc RelyGuarantee Schedules.

(** ** The bus *)

(** An event's name and the identity of its data. *)
Record bufferedEvent := mkEvent { name : string; data : nat }.

(** How an event reached the target: out of the buffer, or sent directly. *)
Inductive delivery := Flushed (e : bufferedEvent) | Direct (e : bufferedEvent).

(** [target] is an emitter (its identity, not nil once set); the ghost fields record the events
    that were ever buffered and those handed to a target, in order. *)
Record DeferredEventBus := mkBus {
  target : option nat;
  buffered : list bufferedEvent;
  early : list bufferedEvent;
  delivered : list delivery
}.

#[export] Instance DeferredEventBus_settable : Settable DeferredEventBus :=
  fun d => mkBus (target d) (buffered d) (early d) (delivered d).

Definition newBus : DeferredEventBus := mkBus None [] [] [].

Inductive busLock := sendMu.
#[export] Instance busLock_eq_dec : EqDecision busLock.
Proof. solve_decision. Defined.
#[export] Instance busLock_countable : Countable busLock.
Proof. by refine (inj_countable' (fun _ => tt) (fun _ => sendMu) _); intros []. Defined.

(** The call of the target's [Emit]. *)
Inductive busQuery : Type -> Type := QTargetEmit (target : nat) (event : bufferedEvent) : busQuery unit.

Abbreviation prog := (@prog DeferredEventBus busLock busQuery).

(** The section of [Emit] under [mu]. *)
Definition bufferOrTarget (event : bufferedEvent) (d : DeferredEventBus) : option nat * DeferredEventBus :=
  match target d with
  | None => (None, d <| buffered := buffered d ++ [event] |> <| early := early d ++ [event] |>)
  | Some t => (Some t, d)
  end.

Definition record (x : delivery) (d : DeferredEventBus) : DeferredEventBus :=
  d <| delivered := delivered d ++ [x] |>.

(** [Emit]. *)
Definition Emit (event : bufferedEvent) : prog unit :=
  let* t := act (bufferOrTarget event) in
  match t with
  | None => skip
  | Some t =>
      lock sendMu ;;;
      modify (record (Direct event)) ;;;
      ask (QTargetEmit t event) ;;;
      unlock sendMu
  end.

(** The loop of [SetTarget] over what was buffered. *)
Fixpoint flush (t : nat) (events : list bufferedEvent) : prog unit :=
  match events with
  | [] => skip
  | e :: events =>
      modify (record (Flushed e)) ;;;
      ask (QTargetEmit t e) ;;;
      flush t events
  end.

(** The section of [SetTarget] under [mu]. *)
Definition takeBuffered (t : nat) (d : DeferredEventBus) : list bufferedEvent * DeferredEventBus :=
  (buffered d, d <| target := Some t |> <| buffered := [] |>).

(** [SetTarget]. *)
Definition SetTarget (t : nat) : prog unit :=
  lock sendMu ;;;
  let* events := act (takeBuffered t) in
  flush t events ;;;
  unlock sendMu.

Inductive busApi : prog unit -> Prop :=
| api_Emit e : busApi (Emit e)
| api_SetTarget t : busApi (SetTarget t).

(** ** The invariant *)

(** The target has received the events buffered before it was set, in order, and
    then the direct ones. *)
Definition flushed_first (d : DeferredEventBus) : Prop :=
  exists direct, delivered d = (Flushed <$> early d) ++ (Direct <$> direct).

Record inv (d : DeferredEventBus) : Prop := {
  inv_waiting : target d = None -> delivered d = [] /\ buffered d = early d;
  inv_set : target d <> None -> buffered d = [];
  inv_order : exists n direct, delivered d = (Flushed <$> take n (early d)) ++ (Direct <$> direct) /\
    (direct <> [] -> (length (early d) <= n)%nat)
}.

Definition linv (_ : busLock) (d : DeferredEventBus) : Prop := target d <> None -> flushed_first d.
Definition prot (_ : busLock) (d d' : DeferredEventBus) : Prop :=
  target d' = target d /\ delivered d' = delivered d.
Definition hist (d d' : DeferredEventBus) : Prop :=
  target d <> None -> target d' <> None /\ early d' = early d.
Definition role (_ : busLock) : bool := false.
Definition taken (_ : busLock) (_ : DeferredEventBus) : bool := false.
Definition rank (_ : busLock) : nat := 0.
Definition pre (X : Type) (q : busQuery X) (H : gset busLock) (_ : DeferredEventBus) : Prop := sendMu ∈ H.
Definition answers (X : Type) (q : busQuery X) (_ : X) : Prop := True.
Definition env (_ _ : DeferredEventBus) : Prop := False.
Definition bound (_ : DeferredEventBus) : Prop := True.

Lemma bus_linv_prot l d d' : prot l d d' -> hist d d' -> linv l d -> linv l d'.
Proof.
  intros [Ht Hd] Hh Hl Hn. rewrite Ht in Hn. destruct (Hh Hn) as [_ He].
  destruct (Hl Hn) as [ds Hds]. exists ds. congruence.
Qed.

Lemma bus_laws : RG_laws hist prot inv linv role taken env.
Proof.
  split; try done.
  - intros d1 d2 d3 H1 H2 Hn. destruct (H1 Hn) as [Hn2 ->%symmetry]. by apply H2.
  - intros l d1 d2 d3 [? ?] [? ?]. split; congruence.
  - intros l d d' Hh Hp _ _. by apply bus_linv_prot.
Qed.

Abbreviation wp := (RelyGuarantee.wp hist prot inv linv rank role taken pre answers bound).
Abbreviation trans := (RelyGuarantee.trans hist prot inv role taken bound).


(** ** The goroutines *)

(** What the holder of [sendMu] knows, and keeps knowing. *)
Definition sending (P : list bufferedEvent -> list delivery -> Prop) (d : DeferredEventBus) : Prop :=
  target d <> None /\ P (early d) (delivered d).

Lemma sending_rely P d d' :
  RelyGuarantee.rely hist prot {[sendMu]} d d' -> sending P d -> sending P d'.
Proof.
  intros [Hh Hp] [Ht HP]. destruct (Hh Ht) as [Ht' He].
  destruct (Hp sendMu ltac:(set_solver)) as [_ Hd]. split; [done|]. by rewrite He, Hd.
Qed.

Definition sent (es : list bufferedEvent) (ds : list delivery) : Prop :=
  exists direct, ds = (Flushed <$> es) ++ (Direct <$> direct).

Lemma sending_linv d : sending sent d -> linv sendMu d.
Proof. by intros [_ Hs] _. Qed.

(** Recording a delivery under [sendMu]. *)
Lemma record_trans x d (K : gset busLock -> Prop) :
  inv d -> target d <> None ->
  (exists n direct, delivered d ++ [x] = (Flushed <$> take n (early d)) ++ (Direct <$> direct) /\
     (direct <> [] -> (length (early d) <= n)%nat)) ->
  K {[sendMu]} -> trans {[sendMu]} d (record x d) K.
Proof.
  intros [I1 I2 I3] Ht Hx HK. apply trans_keep; [done| |done| |done].
  - intros [] Hl. exfalso. set_solver.
  - split; [intros Hn; by apply Ht in Hn|exact I2|exact Hx].
Qed.

Lemma wp_send {A} x t e (k : unit -> prog A) Post P d :
  (forall es ds, P es ds -> exists n direct,
     ds ++ [x] = (Flushed <$> take n es) ++ (Direct <$> direct) /\ (direct <> [] -> (length es <= n)%nat)) ->
  sending P d ->
  (forall d', sending (fun es ds => exists ds0, ds = ds0 ++ [x] /\ P es ds0) d' -> wp (k tt) {[sendMu]} Post d') ->
  wp (bind (modify (record x) ;;; ask (QTargetEmit t e)) k) {[sendMu]} Post d.
Proof.
  intros HP Hs Hk. cbn [bind modify]. intros d1 HR1 Hi1 _. apply (sending_rely _ _ _ HR1) in Hs.
  destruct Hs as [Ht Hp].
  apply record_trans; [done|done|by apply HP|].
  assert (Hs : sending (fun es ds => exists ds0, ds = ds0 ++ [x] /\ P es ds0) (record x d1)).
  { split; [done|]. by exists (delivered d1). }
  revert Hs. generalize (record x d1). clear -Hk. intros d Hs d2 HR2 Hi2 _.
  split; [unfold pre; set_solver|]. intros [] d3 _ [= <-]. apply (trans_refl bus_laws); [done|done|].
  apply Hk. by eapply sending_rely.
Qed.


(** The loop of [SetTarget]: what is left is delivered in order. *)
Lemma wp_flush t events : forall d,
  (events = [] /\ sending sent d) \/
  (exists sofar, sending (fun es ds => es = sofar ++ events /\ ds = Flushed <$> sofar) d) ->
  wp (flush t events) {[sendMu]} (fun _ H d => H = {[sendMu]} /\ sending sent d) d.
Proof.
  assert (Hnil : forall d sofar, sending (fun es ds => es = sofar ++ [] /\ ds = Flushed <$> sofar) d ->
            sending sent d).
  { intros d done [Ht [He Hd]]. split; [done|]. exists []. by rewrite Hd, He, !app_nil_r. }
  induction events as [|e events IH]; intros d Hd; cbn [flush].
  - apply wp_ret. intros d' HR _ _. split; [done|]. eapply sending_rely; [exact HR|].
    destruct Hd as [[_ Hd]|[sofar Hd]]; [done|by eapply Hnil].
  - destruct Hd as [[? _]|[sofar Hd]]; [done|].
    eapply wp_send; [|exact Hd|].
    + intros es ds [-> ->]. exists (S (length sofar)), []. split; [|done].
      assert (Hsplit : take (S (length sofar)) (sofar ++ e :: events) = sofar ++ [e]).
      { rewrite (app_assoc sofar [e] events : sofar ++ e :: events = _).
        apply take_app_length'. rewrite length_app. cbn. lia. }
      by rewrite Hsplit, app_nil_r, fmap_app.
    + intros d1 [Ht (ds & Hds & He & ->)]. apply IH. right. exists (sofar ++ [e]). split; [done|].
      by rewrite <- app_assoc, fmap_app.
Qed.

Lemma wp_Emit e d : wp (Emit e) ∅ (fun _ H _ => H = ∅) d.
Proof.
  unfold Emit. apply wp_act. intros d1 _ Hi1 _. unfold bufferOrTarget.
  destruct (target d1) as [t|] eqn:Et; cbn [fst snd].
  - apply (trans_refl bus_laws); [done|done|].
    intros d2 HR2 Hi2 _. split; [done|]. split; [set_solver|]. split; [set_solver|]. intros Hl2.
    assert (Ht2 : target d2 <> None) by (destruct HR2 as [Hh _]; apply Hh; congruence).
    replace ({[sendMu]} ∪ ∅ : gset busLock) with ({[sendMu]} : gset busLock) by set_solver.
    assert (Hs : sending sent d2) by (split; [done|by apply Hl2]).
    apply (wp_send (Direct e) t e (fun _ => unlock sendMu) _ sent); [|exact Hs|].
    + intros es ds [ds0 ->]. exists (length es), (ds0 ++ [e]). split; [|done].
      by rewrite firstn_all, fmap_app, app_assoc.
    + intros d3 Hs3 d4 HR4 Hi4 _. apply (sending_rely _ _ _ HR4) in Hs3.
      split; [done|]. split; [set_solver|]. split.
      * apply sending_linv. destruct Hs3 as [Ht (ds & Hds & direct & ->)]. split; [done|].
        exists (direct ++ [e]). by rewrite Hds, fmap_app, app_assoc.
      * replace ({[sendMu]} ∖ {[sendMu]} : gset busLock) with (∅ : gset busLock) by set_solver.
        by apply wp_ret.
  - apply trans_keep; [congruence|by intros []|done| |by apply wp_ret].
    destruct Hi1 as [I1 I2 I3]. destruct (I1 Et) as [Hd Hb]. split.
    + intros _. cbn. by rewrite Hd, Hb.
    + intros Hn. by destruct (Hn Et).
    + exists 0%nat, []. cbn. by rewrite Hd.
Qed.

Lemma wp_SetTarget t d : wp (SetTarget t) ∅ (fun _ H _ => H = ∅) d.
Proof.
  unfold SetTarget. apply wp_lock; [done|set_solver|set_solver|]. intros d1 _ Hi1 _ Hl1.
  replace ({[sendMu]} ∪ ∅ : gset busLock) with ({[sendMu]} : gset busLock) by set_solver.
  apply wp_act. intros d2 HR2 Hi2 _. destruct HR2 as [Hh Hp].
  destruct (Hp sendMu ltac:(set_solver)) as [Ht Hd].
  assert (Hl2 : linv sendMu d2) by (by apply (bus_linv_prot sendMu d1)). clear Hh Hp Hl1 Hi1 Ht Hd d1.
  destruct Hi2 as [I1 I2 I3]. unfold takeBuffered. cbn [fst snd].
  assert (Hi3 : inv (d2 <| target := Some t |> <| buffered := [] |>)) by (by split).
  apply trans_keep; [done|intros [] Hl; exfalso; set_solver|done|exact Hi3|].
  eapply (wp_call bus_laws); [apply wp_flush|].
  - destruct (target d2) as [t0|] eqn:Et.
    + left. assert (Hn : target d2 <> None) by congruence. split; [by apply I2|].
      split; [done|]. exact (Hl2 Hn).
    + right. destruct (I1 eq_refl) as [Hd Hb]. exists []. split; [done|]. cbn. by rewrite Hd, Hb.
  - intros [] H d3 [-> Hs]. apply wp_unlock; [done|set_solver|]. intros d4 HR4 _ _.
    split; [by apply sending_linv; eapply sending_rely|].
    replace ({[sendMu]} ∖ {[sendMu]} : gset busLock) with (∅ : gset busLock) by set_solver.
    by apply wp_ret.
Qed.

(** ** Every interleaving *)

Abbreviation busConfig := (@Proc.config DeferredEventBus busLock _ _ busQuery).
Definition busReachable : busConfig -> Prop := reachable env busApi answers bound newBus.

Lemma busReachable_ok c :
  busReachable c -> config_ok hist prot inv linv rank role taken pre answers bound c.
Proof.
  apply (reachable_ok bus_laws).
  - intros p d [e|t'] _; [apply wp_Emit|apply wp_SetTarget].
  - split; [done|done|]. by exists 0%nat, [].
  - intros [] _ Hn. by destruct Hn.
  - done.
Qed.

(** C32: The deferred bus keeps the order of events.  In every interleaving of any
    number of [Emit] and [SetTarget] calls, the target has received the first of
    the buffered events, in order and once each, followed by direct ones only when
    all of them have been delivered; while nobody delivers, nothing is lost: the
    rest is still buffered. *)
Theorem bus_order c :
  busReachable c ->
  (exists n direct, delivered (world c) = (Flushed <$> take n (early (world c))) ++ (Direct <$> direct) /\
     (direct <> [] -> (length (early (world c)) <= n)%nat)) /\
  (owner c !! sendMu = None ->
     (target (world c) = None /\ delivered (world c) = [] /\ buffered (world c) = early (world c)) \/
     (buffered (world c) = [] /\
      exists direct, delivered (world c) = (Flushed <$> early (world c)) ++ (Direct <$> direct))).
Proof.
  intros Hr. apply busReachable_ok in Hr as [own Hok]. destruct (ok_inv _ _ Hok) as [I1 I2 I3].
  split; [done|]. intros Ho. rewrite <- (ok_mutex _ _ Hok sendMu eq_refl) in Ho.
  pose proof (ok_linv _ _ Hok sendMu eq_refl Ho) as Hl. destruct (target (world c)) as [t|] eqn:Et.
  - right. split; [by apply I2|]. apply Hl. congruence.
  - left. split; [done|]. by apply I1.
Qed.

(** The target is never called by two goroutines at once. *)
Theorem bus_exclusive c t1 t2 e1 e2 i1 i2 r1 r2 k1 k2 :
  busReachable c ->
  pool c !! t1 = Some (Ask (QTargetEmit i1 e1) r1 k1) ->
  pool c !! t2 = Some (Ask (QTargetEmit i2 e2) r2 k2) -> t1 = t2.
Proof.
  intros Hr H1 H2. destruct (decide (t1 = t2)) as [|Hne]; [done|exfalso].
  apply busReachable_ok in Hr.
  destruct (asking_disjoint bus_laws _ _ _ _ _ _ _ _ _ _ _ Hr Hne H1 H2) as (G1 & G2 & Hd & [_ P1] & [_ P2]).
  unfold pre in *. set_solver.
Qed.

(** *** A concrete run: an event before the target is set, one while it is
    being flushed, one after *)

Definition event_a := mkEvent "a" 1.
Definition event_b := mkEvent "b" 2.
Definition event_c := mkEvent "c" 3.

Definition busOracle : oracle (W := DeferredEventBus) (Q := busQuery) := fun X q _ =>
  match q in busQuery X return option X with QTargetEmit _ _ => Some tt end.

#[export] Instance bound_decision d : Decision (bound d).
Proof. left. exact I. Defined.

Abbreviation runBus := (exec_thread bound busOracle).
Definition busFlushing : busConfig :=
  runBus 20 4 0 (call 4 (Emit event_c) (runBus 3 3 0 (call 3 (SetTarget 0)
    (runBus 20 2 0 (call 2 (Emit event_b) (runBus 20 1 0 (call 1 (Emit event_a) (init_config newBus)))))))).
Definition busDone : busConfig := runBus 20 4 0 (runBus 20 3 0 busFlushing).

Lemma busFlushing_reachable : busReachable busFlushing.
Proof.
  repeat (apply exec_thread_reachable; [done|]; apply call_reachable; [constructor|done|]).
  apply rtc_refl.
Qed.

Lemma bus_order_witness :
  delivered (world busFlushing) = [Flushed event_a] /\
  delivered (world busDone) = [Flushed event_a; Flushed event_b; Direct event_c] /\
  exists direct, delivered (world busDone) = (Flushed <$> early (world busDone)) ++ (Direct <$> direct).
Proof.
  split; [vm_compute; reflexivity|]. split; [vm_compute; reflexivity|].
  assert (Hr : busReachable busDone).
  { apply exec_thread_reachable; [done|]. apply exec_thread_reachable; [done|]. apply busFlushing_reachable. }
  assert (Ho : owner busDone !! sendMu = None) by (vm_compute; reflexivity).
  assert (Ht : target (world busDone) <> None) by (vm_compute; discriminate).
  destruct (proj2 (bus_order busDone Hr) Ho) as [[Hx _]|[_ Hx]]; [by apply Ht in Hx|exact Hx].
Defined.

Lemma bus_exclusive_witness :
  (exists k r, pool busFlushing !! 3%nat = Some (Ask (QTargetEmit 0 event_a) r k)) /\
  (forall t i e r k, pool busFlushing !! t = Some (Ask (QTargetEmit i e) r k) -> t = 3%nat).
Proof.
  assert (Hp : exists k r, pool busFlushing !! 3%nat = Some (Ask (QTargetEmit 0 event_a) r k)) by
    (eexists _, _; vm_compute; reflexivity).
  split; [exact Hp|]. destruct Hp as (k0 & r0 & Hp). intros t i e r k Ht.
  exact (bus_exclusive busFlushing t 3 _ _ _ _ _ _ _ _ busFlushing_reachable Ht Hp).
Defined.
