(* ===== verification/Filesystem.v ===== *)
(** A directory of a file system that may crash: what package [filestore] relies
    on of the operating system.

    File contents are durable once they are synced; the entries of the directory
    are durable once the directory is synced, and until then a crash may leave any
    of the directories there were since. *)
From S2P Require Import Prelude GoStrings.

Inductive fileKind := Regular | Symlink (target : nat) | OtherKind.
#[export] Instance fileKind_eq_dec : EqDecision fileKind.
Proof. solve_decision. Defined.

Record inode := mkInode { data : string; synced : bool; kind : fileKind; mode : N }.
#[export] Instance inode_settable : Settable inode :=
  fun n => mkInode (data n) (synced n) (kind n) (mode n).

Abbreviation namespace := (gmap string nat).

(** [names]: the directory now, and the ones since it was last synced. *)
Record FS := mkFS {
  inodes : gmap nat inode;
  current : namespace;
  unsynced : list namespace;
  nextInode : nat
}.
#[export] Instance FS_settable : Settable FS :=
  fun f => mkFS (inodes f) (current f) (unsynced f) (nextInode f).

(** The errors that the program tells apart. *)
Inductive fsError := ENotExist | EExist | EOther (cause : string).
#[export] Instance fsError_eq_dec : EqDecision fsError.
Proof. solve_decision. Defined.

(** The directories a crash may leave. *)
Definition possible (f : FS) (ns : namespace) : Prop := ns = current f \/ ns ∈ unsynced f.

Definition setNames (ns : namespace) (f : FS) : FS :=
  f <| current := ns |> <| unsynced := current f :: unsynced f |>.
Definition setInode (i : nat) (n : inode) (f : FS) : FS := f <| inodes := <[i := n]> (inodes f) |>.

(** *** System calls *)

Definition create (name : string) (perm : N) (f : FS) : nat * FS :=
  let i := nextInode f in
  (i, (setNames (<[name := i]> (current f)) (setInode i (mkInode "" false Regular perm) f))
        <| nextInode := S i |>).
Definition chmod (i : nat) (perm : N) (f : FS) : FS :=
  match inodes f !! i with Some n => setInode i (n <| mode := perm |>) f | None => f end.
Definition write (i : nat) (d : string) (f : FS) : FS :=
  match inodes f !! i with
  | Some n => setInode i (n <| data := data n +:+ d |> <| synced := false |>) f
  | None => f
  end.
Definition fsync (i : nat) (f : FS) : FS :=
  match inodes f !! i with Some n => setInode i (n <| synced := true |>) f | None => f end.
Definition rename (old new : string) (f : FS) : result fsError unit * FS :=
  match current f !! old with
  | None => (Err ENotExist, f)
  | Some i => (Ok tt, setNames (<[new := i]> (delete old (current f))) f)
  end.
Definition link (old new : string) (f : FS) : result fsError unit * FS :=
  match current f !! old, current f !! new with
  | None, _ => (Err ENotExist, f)
  | _, Some _ => (Err EExist, f)
  | Some i, None => (Ok tt, setNames (<[new := i]> (current f)) f)
  end.
Definition remove (name : string) (f : FS) : result fsError unit * FS :=
  match current f !! name with
  | None => (Err ENotExist, f)
  | Some _ => (Ok tt, setNames (delete name (current f)) f)
  end.
Definition syncDir (f : FS) : FS := f <| unsynced := [] |>.

Definition lookupName (name : string) (f : FS) : result fsError (nat * inode) :=
  match current f !! name with
  | None => Err ENotExist
  | Some i => match inodes f !! i with Some n => Ok (i, n) | None => Err ENotExist end
  end.
(** [open] follows a symbolic link. *)
Definition open (name : string) (f : FS) : result fsError nat :=
  match lookupName name f with
  | inl e => Err e
  | inr (i, n) => match kind n with Symlink target => Ok target | _ => Ok i end
  end.

(** *** Crashes *)

Definition contentAt (f : FS) (ns : namespace) (name : string) : option string :=
  i ← ns !! name; n ← inodes f !! i; Some (data n).
Definition content (f : FS) (name : string) : option string := contentAt f (current f) name.

(** Whatever was not synced may be lost. *)
Definition crashed (f f' : FS) : Prop :=
  possible f (current f') /\ unsynced f' = [] /\ nextInode f' = nextInode f /\
  forall i, match inodes f !! i with
            | Some n => if synced n then inodes f' !! i = Some n else is_Some (inodes f' !! i)
            | None => inodes f' !! i = None
            end.

(** A name that refers to a synced file in every directory keeps its content. *)
Lemma crashed_content f f' name :
  crashed f f' ->
  (forall ns i n, possible f ns -> ns !! name = Some i -> inodes f !! i = Some n -> synced n = true) ->
  exists ns, possible f ns /\ content f' name = contentAt f ns name.
Proof.
  intros (Hns & _ & _ & Hi) Hs. exists (current f'). split; [done|]. unfold content, contentAt.
  destruct (current f' !! name) as [i|] eqn:En; [|done]. cbn. specialize (Hi i).
  destruct (inodes f !! i) as [n|] eqn:Ei; [|by rewrite Hi].
  by rewrite (Hs _ _ _ Hns En Ei) in Hi; rewrite Hi.
Qed.
