(* ===== verification/Filestore.v ===== *)
(** Package [filestore]: the encrypted token file and the fallback key file, over
    a file system that may crash, with the goroutines (or processes) that use
    one directory at the same time. *)
From S2P Require Import Prelude Proc RelyGuarantee Schedules GoTime Errors Tokens GoStrings Filesystem.

Definition tokenFileName : string := "tokens.enc".
Definition keyFileName : string := ".keyfile".
Definition dirPerm : N := 448.                            (* 0o700 *)
Definition filePerm : N := 384.                           (* 0o600 *)
Definition keySize : nat := 32.
Definition nonceSize : nat := 12.
Definition tempPerm : N := 384.

(** ** What is not part of the program *)

(** [encoding/json] on [TokenState], AES-256-GCM and SHA-256. *)
Class Codec := {
  Marshal : TokenState -> option string;
  Unmarshal : string -> option TokenState;
  Seal : string -> string -> string -> string;            (* key, nonce, plaintext *)
  Open : string -> string -> string -> option string;
  Sum256 : string -> string
}.

(** Two states with the same tokens and the same instants.  The time zone and the
    monotonic reading of their times may differ: JSON drops the reading and turns
    the zone into an offset. *)
Record sameTokens (s s' : TokenState) : Prop := {
  same_access : AccessToken s = AccessToken s';
  same_refresh : RefreshToken s = RefreshToken s';
  same_id : IDToken s = IDToken s';
  same_expires : inst (ExpiresAt s) = inst (ExpiresAt s');
  same_auth : inst (LastAuthAt s) = inst (LastAuthAt s')
}.
#[export] Instance sameTokens_equivalence : Equivalence sameTokens.
Proof.
  split; [by split|by intros s s' []; split|]. intros s1 s2 s3 [] []. split; congruence.
Qed.
#[export] Instance IsZero_same : Proper (sameTokens ==> eq) IsZero.
Proof. intros s s' [E1 E2 E3 _ _]. unfold IsZero. by rewrite E1, E2, E3. Qed.

(** JSON decodes what it encoded to the same tokens and instants, for the states that
    it can represent (valid UTF-8, years of four digits, offsets of whole minutes), and
    to the very same value for those that [roundtrips] says (whose times, moreover, are
    in UTC without a monotonic reading); opening what was sealed with the same key
    and nonce gives it back. *)
Class CodecLaws `{Codec} := {
  represented : TokenState -> Prop;
  unmarshal_same s text : represented s -> Marshal s = Some text ->
    exists s', Unmarshal text = Some s' /\ sameTokens s' s;
  roundtrips : TokenState -> Prop;
  unmarshal_marshal s text : roundtrips s -> Marshal s = Some text -> Unmarshal text = Some s;
  open_seal key nonce text : Open key nonce (Seal key nonce text) = Some text
}.

(** ** The shared state *)

(** A staged file, and one that is linked under its final name too. *)
Inductive staged := Staged (i : nat) | Linked.
#[export] Instance staged_eq_dec : EqDecision staged.
Proof. solve_decision. Defined.

(** Ghost: the temporary names in use; the contents of the token file after each
    change; from which of them on a crash finds it; what the Saves that returned
    nil stored and where, the keys that were returned and the states loaded. *)
Record World := mkWorld {
  fs : FS;
  dirMode : N;
  staging : gmap string staged;
  pubs : list (option string);
  durable : nat;
  saves : list (TokenState * nat);
  keys : list string;
  loads : list TokenState
}.
#[export] Instance World_settable : Settable World :=
  fun w => mkWorld (fs w) (dirMode w) (staging w) (pubs w) (durable w) (saves w) (keys w) (loads w).

Inductive tempRole := temp (name : string).
#[export] Instance tempRole_eq_dec : EqDecision tempRole.
Proof. solve_decision. Defined.
#[export] Instance tempRole_countable : Countable tempRole.
Proof. by refine (inj_countable' (fun '(temp n) => n) temp _); intros []. Defined.

Inductive fileQuery : Type -> Type :=
| QFault (op : string) : fileQuery (option fsError)          (* does the call fail *)
| QWrite (len : nat) : fileQuery (option (fsError * nat))      (* how much is written before it fails *)
| QTempName (pattern : string) : fileQuery (fsError + string)
| QRandom (len : nat) : fileQuery (option string)
| QMachineID : fileQuery (option string).

Abbreviation prog := (@prog World tempRole fileQuery).

(** Errors: the causes that are joined; their text is left out. *)
Abbreviation error := (list fsError).
Definition errorIs (e : error) (target : fsError) : bool := bool_decide (target ∈ e).

Section Filestore.
  Context `{Codec}.
  (** Whether [syncDirectory] syncs (not on Windows) and permissions are checked. *)
  Context (posix : bool).

(** A system call that may fail without effect. *)
Definition os {A} (op : string) (f : FS -> result fsError A * FS) : prog (result fsError A) :=
  let* fault := ask (QFault op) in
  match fault with
  | Some e => Ret (Err e)
  | None => act (fun w => ((f (fs w)).1, w <| fs := (f (fs w)).2 |>))
  end.
Definition osDo (op : string) (f : FS -> FS) : prog (result fsError unit) :=
  os op (fun s => (Ok tt, f s)).
Definition osGet {A} (op : string) (f : FS -> result fsError A) : prog (result fsError A) :=
  os op (fun s => (f s, s)).
Definition statInode (i : nat) (f : FS) : result fsError inode :=
  match inodes f !! i with Some n => Ok n | None => Err ENotExist end.

(** ** Private files ([privatefile.go], [permissions.go]) *)

(** [secureFile]. *)
Definition secureFile (i : nat) (perm : N) : prog (option fsError) :=
  let* r := osDo "chmod" (chmod i perm) in
  match r with
  | inl e => Ret (Some e)
  | inr _ =>
      if negb posix then Ret None
      else
        let* r := osGet "stat" (statInode i) in
        match r with
        | inl e => Ret (Some e)
        | inr info => if (mode info =? perm)%N then Ret None else Ret (Some (EOther "permissions"))
        end
  end.

(** [securePath] on the directory. *)
Definition securePath (perm : N) : prog (option fsError) :=
  let* fault := ask (QFault "chmod") in
  match fault with
  | Some e => Ret (Some e)
  | None =>
      modify (fun w => w <| dirMode := perm |>) ;;;
      if negb posix then Ret None
      else
        let* fault := ask (QFault "stat") in
        match fault with
        | Some e => Ret (Some e)
        | None =>
            let* got := read dirMode in
            if (got =? perm)%N then Ret None else Ret (Some (EOther "permissions"))
        end
  end.

(** [os.CreateTemp]: a name with the pattern's prefix that is not in use. *)
Definition tempReady (pattern : string) (w : World) (x : fsError + string) : option World :=
  match x with
  | inl _ => Some w
  | inr name =>
      if HasPrefix name pattern && bool_decide (current (fs w) !! name = None)
      then let '(i, f) := create name tempPerm (fs w) in
           Some (w <| fs := f |> <| staging := <[name := Staged i]> (staging w) |>)
      else None
  end.
Definition stagedInode (name : string) (w : World) : nat :=
  match staging w !! name with Some (Staged i) => i | _ => 0 end.
Definition CreateTemp (pattern : string) : prog (fsError + string * nat) :=
  let* x := select (QTempName pattern) (tempReady pattern) in
  match x with
  | inl e => Ret (inl e)
  | inr name => let* i := read (stagedInode name) in Ret (inr (name, i))
  end.

(** [os.Remove] of a temporary file by its owner, who then forgets it. *)
Definition forget (name : string) (w : World) : World := w <| staging := delete name (staging w) |>.
Definition removeTemp (name : string) (w : World) : result fsError unit * World :=
  let '(r, f) := remove name (fs w) in (r, forget name (w <| fs := f |>)).

(** [removeStagedFile]: the error, unless there was no such file. *)
Definition removeStagedFile (name : string) : prog (option fsError) :=
  let* fault := ask (QFault "remove") in
  match fault with
  | Some e => modify (forget name) ;;; Ret (if bool_decide (e = ENotExist) then None else Some e)
  | None =>
      let* r := act (removeTemp name) in
      match r with
      | inl ENotExist => Ret None
      | inl e => Ret (Some e)
      | inr _ => Ret None
      end
  end.

(** [file.Write]: a fault may leave part of the data. *)
Definition writeFile (i : nat) (d : string) : prog (option fsError) :=
  let* fault := ask (QWrite (String.length d)) in
  match fault with
  | Some (e, n) => modify (fun w => w <| fs := write i (str_take n d) (fs w) |>) ;;; Ret (Some e)
  | None => modify (fun w => w <| fs := write i d (fs w) |>) ;;; Ret None
  end.

(** The deferred cleanup of [stagePrivateFile]. *)
Definition failStage {A} (name : string) (closed : bool) (e : fsError) : prog (result error A) :=
  let* c := if closed then Ret None
            else (let* r := osDo "close" id in Ret (match r with inl e => Some e | inr _ => None end)) in
  let* r := removeStagedFile name in
  Ret (Err (e :: option_list c ++ option_list r)).

(** [stagePrivateFile] after the file is created: the temporary name. *)
Definition fillStaged (name : string) (i : nat) (d : string) : prog (result error string) :=
  let* e := secureFile i filePerm in
  match e with
  | Some e => failStage name false e
  | None =>
      let* e := writeFile i d in
      match e with
      | Some e => failStage name false e
      | None =>
          let* r := osDo "sync" (fsync i) in
          match r with
          | inl e => failStage name false e
          | inr _ =>
              let* r := osDo "close" id in
              match r with
              | inl e => failStage name true e
              | inr _ => Ret (Ok name)
              end
          end
      end
  end.

(** [stagePrivateFile]. *)
Definition stagePrivateFile (pattern d : string) : prog (result error string) :=
  let* r := CreateTemp pattern in
  match r with
  | inl e => Ret (Err [e])
  | inr (name, i) => fillStaged name i d
  end.

(** [syncDirectory]: open, sync, close; a no-op on Windows. *)
Definition syncNames (w : World) : World :=
  w <| fs := syncDir (fs w) |> <| durable := (length (pubs w) - 1)%nat |>.
Definition syncDirectory : prog (option fsError) :=
  if negb posix then Ret None
  else
    let* r := osDo "open" id in
    match r with
    | inl e => Ret (Some e)
    | inr _ =>
        let* fault := ask (QFault "sync") in
        match fault with
        | Some e => osDo "close" id ;;; Ret (Some e)
        | None =>
            modify syncNames ;;;
            let* r := osDo "close" id in
            Ret (match r with inl e => Some e | inr _ => None end)
        end
    end.

(** [os.Rename] to the token file, which publishes the staged content; the ghost
    result is the number of the publication. *)
Definition publish (name : string) (w : World) : result fsError nat * World :=
  match rename name tokenFileName (fs w) with
  | (inl e, _) => (Err e, w)
  | (inr _, f) =>
      (Ok (length (pubs w)),
       w <| fs := f |> <| staging := delete name (staging w) |>
         <| pubs := pubs w ++ [content f tokenFileName] |>)
  end.

(** [writePrivateFileAtomic]. *)
Definition writePrivateFileAtomic (d : string) : prog (result error nat) :=
  let* r := stagePrivateFile ("." +:+ tokenFileName +:+ "-") d in
  match r with
  | inl e => Ret (Err e)
  | inr name =>
      let* fault := ask (QFault "rename") in
      let* r := match fault with Some e => Ret (Err e) | None => act (publish name) end in
      match r with
      | inl e => let* c := removeStagedFile name in Ret (Err (e :: option_list c))
      | inr k =>
          let* e := syncDirectory in
          match e with Some e => Ret (Err [e]) | None => Ret (Ok k) end
      end
  end.

(** ** Encryption ([encrypt.go]) *)

Definition encrypt (key plaintext : string) : prog (result error string) :=
  let* nonce := ask (QRandom nonceSize) in
  match nonce with
  | None => Ret (Err [EOther "generate nonce"])
  | Some nonce => Ret (Ok (nonce +:+ Seal key nonce plaintext))
  end.

Definition decrypt (key d : string) : option string :=
  if (String.length d <? nonceSize)%nat then None
  else Open key (str_take nonceSize d) (str_drop nonceSize d).

(** ** The store ([filestore.go]) *)

Section Store.
  Context (key : string).

(** [Store.Save]. *)
Definition Save (state : TokenState) : prog (option error) :=
  match Marshal state with
  | None => Ret (Some [EOther "marshal token state"])
  | Some plaintext =>
      let* c := encrypt key plaintext in
      match c with
      | inl e => Ret (Some e)
      | inr ciphertext =>
          let* r := writePrivateFileAtomic ciphertext in
          match r with
          | inl e => Ret (Some e)
          | inr k => modify (fun w => w <| saves := saves w ++ [(state, k)] |>) ;;; Ret None
          end
      end
  end.

(** What [Load] makes of a file's content. *)
Definition decode (ciphertext : string) : TokenState :=
  match decrypt key ciphertext with
  | None => zeroTokenState
  | Some plaintext =>
      match Unmarshal plaintext with None => zeroTokenState | Some state => state end
  end.

(** [Store.Load]: [os.ReadFile] opens and then reads; what it returns is logged. *)
Definition loaded (state : TokenState) : prog (result error TokenState) :=
  modify (fun w => w <| loads := loads w ++ [state] |>) ;;; Ret (Ok state).
Definition Load : prog (result error TokenState) :=
  let* r := osGet "open" (open tokenFileName) in
  match r with
  | inl ENotExist => loaded zeroTokenState
  | inl e => Ret (Err [e])
  | inr i =>
      let* r := osGet "read" (statInode i) in
      match r with
      | inl ENotExist => loaded zeroTokenState
      | inl e => Ret (Err [e])
      | inr n => loaded (decode (data n))
      end
  end.

(** [Store.Delete]. *)
Definition removeTokens (w : World) : result fsError unit * World :=
  match remove tokenFileName (fs w) with
  | (inl e, _) => (Err e, w)
  | (inr _, f) => (Ok tt, w <| fs := f |> <| pubs := pubs w ++ [None] |>)
  end.
Definition Delete : prog (option error) :=
  let* fault := ask (QFault "remove") in
  let* r := match fault with Some e => Ret (Err e) | None => act removeTokens end in
  match r with
  | inl ENotExist => Ret None
  | inl e => Ret (Some [e])
  | inr _ => Ret None
  end.

End Store.

(** ** The encryption key ([machineid.go], [filestore.go]) *)

(** [readFallbackKey] once the file is open and is the one that was looked up. *)
Definition readOpened (file : nat) : prog (result error string) :=
  let* e := secureFile file filePerm in
  match e with
  | Some e => Ret (Err [e])
  | None =>
      let* r := osGet "read" (statInode file) in
      match r with
      | inl e => Ret (Err [e])
      | inr n =>
          if (String.length (data n) <? keySize)%nat then Ret (Err [EOther "unexpected EOF"])
          else
            let* r := osGet "read" (statInode file) in
            match r with
            | inl e => Ret (Err [e])
            | inr m =>
                if (keySize <? String.length (data m))%nat
                then Ret (Err [EOther "changed while reading"])
                else Ret (Ok (str_take keySize (data n)))
            end
      end
  end.

(** [readFallbackKey]. *)
Definition readFallbackKey : prog (result error string) :=
  let* r := osGet "lstat" (lookupName keyFileName) in
  match r with
  | inl e => Ret (Err [e])
  | inr (before, b) =>
      match kind b with
      | Symlink _ => Ret (Err [EOther "must not be a symlink"])
      | OtherKind => Ret (Err [EOther "must be a regular file"])
      | Regular =>
          if negb (String.length (data b) =? keySize)%nat then Ret (Err [EOther "must be exactly 32 bytes"])
          else
            let* r := osGet "open" (open keyFileName) in
            match r with
            | inl e => Ret (Err [e])
            | inr file =>
                let* r := osGet "stat" (statInode file) in
                match r with
                | inl e => Ret (Err [e])
                | inr after =>
                    if negb (bool_decide (kind after = Regular)) || negb (before =? file)%nat ||
                       negb (String.length (data after) =? keySize)%nat
                    then Ret (Err [EOther "changed while opening"])
                    else readOpened file
                end
            end
      end
  end.

(** [os.Link] to the key file. *)
Definition linkKey (name : string) (w : World) : result fsError unit * World :=
  match link name keyFileName (fs w) with
  | (inl e, _) => (Err e, w)
  | (inr _, f) => (Ok tt, w <| fs := f |> <| staging := <[name := Linked]> (staging w) |>)
  end.

(** [publishFallbackKey]. *)
Definition publishFallbackKey (candidate : string) : prog (option error) :=
  let* r := stagePrivateFile ("." +:+ keyFileName +:+ "-") candidate in
  match r with
  | inl e => Ret (Some e)
  | inr name =>
      let* fault := ask (QFault "link") in
      let* r := match fault with Some e => Ret (Err e) | None => act (linkKey name) end in
      match r with
      | inl e =>
          let* c := removeStagedFile name in
          match c with Some c => Ret (Some [c]) | None => Ret (Some [e]) end
      | inr _ =>
          let* c := removeStagedFile name in
          match c with
          | Some c => Ret (Some [c])
          | None =>
              let* e := syncDirectory in
              match e with Some e => Ret (Some [e]) | None => Ret None end
          end
      end
  end.

(** Reading the key and syncing the directory. *)
Definition readAndSync : prog (result error string) :=
  let* r := readFallbackKey in
  match r with
  | inl e => Ret (Err e)
  | inr k =>
      let* e := syncDirectory in
      match e with Some e => Ret (Err [e]) | None => Ret (Ok k) end
  end.

(** [fallbackKeyWithReader]. *)
Definition fallbackKey : prog (result error string) :=
  let* r := readFallbackKey in
  match r with
  | inr k =>
      let* e := syncDirectory in
      match e with Some e => Ret (Err [e]) | None => Ret (Ok k) end
  | inl e =>
      if negb (errorIs e ENotExist) then Ret (Err e)
      else
        let* candidate := ask (QRandom keySize) in
        match candidate with
        | None => Ret (Err [EOther "generate fallback key"])
        | Some candidate =>
            let* e := publishFallbackKey candidate in
            match e with
            | None => Ret (Ok candidate)
            | Some e => if negb (errorIs e EExist) then Ret (Err e) else readAndSync
            end
        end
  end.

Definition logKey (r : result error string) (w : World) : World :=
  match r with inr k => w <| keys := keys w ++ [k] |> | inl _ => w end.

(** [deriveKeyWithSources]; the keys of the key file are logged. *)
Definition deriveKey (appID : string) : prog (result error string) :=
  let* mid := ask QMachineID in
  match mid with
  | Some mid =>
      if String.eqb mid "" then let* r := fallbackKey in modify (logKey r) ;;; Ret r
      else Ret (Ok (Sum256 (appID +:+ ":" +:+ mid)))
  | None => let* r := fallbackKey in modify (logKey r) ;;; Ret r
  end.

(** [validateAppID] and [New]: the store's key. *)
Definition New (appID : string) : prog (result error string) :=
  if String.eqb (TrimSpace appID) "" then Ret (Err [EOther "appID is required"])
  else
    let* fault := ask (QFault "mkdir") in
    match fault with
    | Some e => Ret (Err [e])
    | None =>
        let* e := securePath dirPerm in
        match e with
        | Some e => Ret (Err [e])
        | None => deriveKey appID
        end
    end.

(** ** Entry points *)

Inductive fileApi (key : string) : prog unit -> Prop :=
| api_Save st : fileApi key (let* _ := Save key st in skip)
| api_Load : fileApi key (let* _ := Load key in skip)
| api_Delete : fileApi key (let* _ := Delete in skip)
| api_New appID : fileApi key (let* _ := New appID in skip).

End Filestore.
