(* ===== verification/FilestoreInv.v ===== *)
(** The invariant of the file store's directory, over everything a crash may
    leave of it, and that every action preserves it. *)
From S2P Require Import Prelude Proc RelyGuarantee Schedules GoTime Errors Tokens GoStrings Filesystem Filestore.

Section FilestoreInv.
  Context `{Cod : Codec, HC : !CodecLaws} {posix : bool} {key : string} {origin : option string}.

(** ** The invariant *)

Definition final (name : string) : Prop := name = tokenFileName \/ name = keyFileName.
Definition settled (w : World) (i : nat) : Prop := forall t, staging w !! t <> Some (Staged i).
Definition keyDurable (w : World) (k : string) : Prop :=
  forall ns, possible (fs w) ns -> contentAt (fs w) ns keyFileName = Some k.

(** What [Save] writes for a state. *)
Definition sealed (st : TokenState) (ct : string) : Prop :=
  exists text nonce, Marshal st = Some text /\ String.length nonce = nonceSize /\ ct = nonce +:+ Seal key nonce text.
(** A content the token file may have: none, the one there was at first, or one that
    [Save] wrote, whole. *)
Definition whole (c : option string) : Prop :=
  c = None \/ c = origin \/ exists st ct, c = Some ct /\ sealed st ct.

(** How a state that was read relates to the one that was saved. *)
Definition recovers (found st : TokenState) : Prop :=
  (represented st -> sameTokens found st) /\ (roundtrips st -> found = st).
Lemma recovers_refl found st : found = st -> recovers found st.
Proof. intros ->. by split. Qed.

Record inv (w : World) : Prop := {
  inv_exists : forall ns name i, possible (fs w) ns -> ns !! name = Some i -> is_Some (inodes (fs w) !! i);
  inv_fresh : forall i, is_Some (inodes (fs w) !! i) -> (i < nextInode (fs w))%nat;
  inv_temp : forall t s, staging w !! t = Some s -> ~ final t /\ is_Some (current (fs w) !! t);
  inv_staged : forall t i, staging w !! t = Some (Staged i) ->
    current (fs w) !! t = Some i /\ is_Some (inodes (fs w) !! i);
  inv_inj : forall t t' i, staging w !! t = Some (Staged i) -> staging w !! t' = Some (Staged i) -> t = t';
  inv_final : forall ns name i, possible (fs w) ns -> final name -> ns !! name = Some i ->
    settled w i /\ exists n, inodes (fs w) !! i = Some n /\ synced n = true;
  inv_pubs : forall ns, possible (fs w) ns -> exists k, (durable w <= k)%nat /\
    pubs w !! k = Some (contentAt (fs w) ns tokenFileName);
  inv_last : last (pubs w) = Some (content (fs w) tokenFileName);
  inv_key : forall ns i, possible (fs w) ns -> ns !! keyFileName = Some i -> current (fs w) !! keyFileName = Some i;
  inv_saves : posix = true -> forall st k, (st, k) ∈ saves w -> (k <= durable w)%nat /\
    exists ct, pubs w !! k = Some (Some ct) /\ recovers (decode key ct) st;
  inv_keys : posix = true -> forall k, k ∈ keys w -> keyDurable w k;
  inv_loads : forall st, st ∈ loads w -> st = zeroTokenState \/
    exists ct, Some ct ∈ pubs w /\ st = decode key ct;
  inv_kind : forall t i n, staging w !! t = Some (Staged i) -> inodes (fs w) !! i = Some n -> kind n = Regular;
  inv_regular : forall ns i n, possible (fs w) ns -> ns !! tokenFileName = Some i -> inodes (fs w) !! i = Some n ->
    kind n = Regular;
  inv_whole : forall c, c ∈ pubs w -> whole c
}.

Definition hist (w w' : World) : Prop :=
  pubs w `prefix_of` pubs w' /\ (durable w <= durable w')%nat /\
  (forall i n, settled w i -> inodes (fs w) !! i = Some n ->
     settled w' i /\ exists n', inodes (fs w') !! i = Some n' /\ data n' = data n) /\
  (forall i, current (fs w) !! keyFileName = Some i -> current (fs w') !! keyFileName = Some i) /\
  (forall k, keyDurable w k -> keyDurable w' k).

Definition prot (l : tempRole) (w w' : World) : Prop :=
  match l with
  | temp t => staging w' !! t = staging w !! t /\
      (is_Some (staging w !! t) -> current (fs w') !! t = current (fs w) !! t) /\
      (forall i, staging w !! t = Some (Staged i) -> inodes (fs w') !! i = inodes (fs w) !! i)
  end.

Definition linv (_ : tempRole) (_ : World) : Prop := True.
Definition role (_ : tempRole) : bool := true.
Definition taken (l : tempRole) (w : World) : bool :=
  match l with temp t => bool_decide (is_Some (staging w !! t)) end.
Definition rank (_ : tempRole) : nat := 0.
Definition pre (X : Type) (_ : fileQuery X) (_ : gset tempRole) (_ : World) : Prop := True.
(** Random bytes have the length asked for. *)
Definition answers (X : Type) (q : fileQuery X) : X -> Prop :=
  match q with
  | QRandom len => fun x => forall s, x = Some s -> String.length s = len
  | _ => fun _ => True
  end.
Definition env (_ _ : World) : Prop := False.
Definition bound (_ : World) : Prop := True.

Lemma file_hist_refl w : hist w w.
Proof. split; [done|]. split; [lia|]. split; [|done]. eauto. Qed.

Lemma file_laws : RG_laws hist prot inv linv role taken env.
Proof.
  split; try done.
  - apply file_hist_refl.
  - intros w1 w2 w3 (a1 & b1 & c1 & d1 & e1) (a2 & b2 & c2 & d2 & e2). split; [by etrans|].
    split; [lia|]. split; [|auto]. intros i n Hs Hn. destruct (c1 i n Hs Hn) as (Hs' & n' & Hn' & E1).
    destruct (c2 i n' Hs' Hn') as (Hs'' & n'' & Hn'' & E2). split; [done|]. exists n''. split; [done|congruence].
  - by intros [t] w.
  - intros [t] w1 w2 w3 (a1 & b1 & c1) (a2 & b2 & c2). split; [congruence|]. split.
    + intros Hs. rewrite b2, b1 by (rewrite ?a1; done). done.
    + intros i Hi. rewrite c2 by congruence. by apply c1.
  - intros [t] w w' _ (a & _). cbn. by rewrite a.
Qed.

Abbreviation wp := (RelyGuarantee.wp hist prot inv linv rank role taken pre answers bound).
Abbreviation trans := (RelyGuarantee.trans hist prot inv role taken bound).
Abbreviation rely := (RelyGuarantee.rely hist prot).
Abbreviation held := (RelyGuarantee.held_roles role taken).

(** ** Inodes *)

(** Changing an inode does not change the contents of the final names. *)
Lemma contentAt_setInode w i n n' ns name :
  inv w -> possible (fs w) ns -> final name -> inodes (fs w) !! i = Some n ->
  (data n' = data n \/ ~ settled w i) ->
  contentAt (setInode i n' (fs w)) ns name = contentAt (fs w) ns name.
Proof.
  intros Hi Hns Hf Hn Hd. unfold contentAt. destruct (ns !! name) as [j|] eqn:Ej; [|done]. cbn.
  destruct (decide (j = i)) as [->|Hne]; [|by rewrite lookup_insert_ne].
  rewrite lookup_insert_eq, Hn. cbn. destruct Hd as [-> | Hd]; [done|].
  by destruct (inv_final _ Hi _ _ _ Hns Hf Ej).
Qed.

Lemma setInode_kind f i n n' j m :
  inodes f !! i = Some n -> kind n' = kind n -> inodes (setInode i n' f) !! j = Some m ->
  exists m', inodes f !! j = Some m' /\ kind m = kind m'.
Proof. cbn. intros Hn Hk [[<- <-]|[_ Hm]]%lookup_insert_Some; eauto. Qed.

(** Changing an inode: its owner does what it wants with a staged one; of a settled
    one only the mode changes. *)
Lemma setInode_trans H w i n n' (K : gset tempRole -> Prop) :
  inv w -> held H w -> inodes (fs w) !! i = Some n -> kind n' = kind n ->
  (settled w i /\ data n' = data n /\ synced n' = synced n \/
   exists t, staging w !! t = Some (Staged i) /\ temp t ∈ H) ->
  K H -> trans H w (w <| fs := setInode i n' (fs w) |>) K.
Proof.
  intros Hi Hh Hn Hkn Hc HK. set (w' := w <| fs := setInode i n' (fs w) |>).
  assert (Hd : data n' = data n \/ ~ settled w i).
  { destruct Hc as [(_ & ? & _)|(t & Ht & _)]; [by left|right]. intros Hs. by apply (Hs t). }
  assert (Hct : forall ns name, possible (fs w) ns -> final name ->
            contentAt (fs w') ns name = contentAt (fs w) ns name).
  { intros ns name Hns Hf. by apply (contentAt_setInode _ _ n). }
  assert (Hsome : forall j, is_Some (inodes (fs w) !! j) -> is_Some (inodes (fs w') !! j)).
  { intros j Hj. cbn. destruct (decide (j = i)) as [->|Hne]; [rewrite lookup_insert_eq; eauto|].
    by rewrite lookup_insert_ne. }
  assert (Hkd : forall k, keyDurable w k -> keyDurable w' k).
  { intros k Hk ns Hns. rewrite Hct by (done || by right). by apply Hk. }
  apply trans_keep; [| | | |done].
  - split; [done|]. split; [done|]. split; [|done]. intros j m Hj Hm. split; [done|]. cbn.
    destruct (decide (j = i)) as [->|Hne]; [|rewrite lookup_insert_ne by done; eauto].
    rewrite lookup_insert_eq. exists n'. split; [done|]. destruct Hd as [?|Hd]; [congruence|done].
  - intros [t] Ht. split; [done|]. split; [done|]. intros j Hj. cbn. rewrite lookup_insert_ne; [done|].
    intros <-. destruct Hc as [(Hs & _)|(t' & Ht' & Hin)]; [by apply (Hs t)|].
    by rewrite (inv_inj _ Hi _ _ _ Hj Ht') in Ht.
  - intros l _ Hin. by specialize (Hh l Hin eq_refl).
  - destruct Hi as [I1 I2 I3 I4 I5 I6 I7 I8 I9 I10 I11 I12 I13 I14 I15]. split; try done.
    + intros ns name j Hns Hj. apply Hsome. by eapply I1.
    + intros j. cbn. destruct (decide (j = i)) as [->|Hne]; [intros _; apply I2; eauto|].
      rewrite lookup_insert_ne by done. apply I2.
    + intros t j Hj. destruct (I4 t j Hj). split; [done|by apply Hsome].
    + intros ns name j Hns Hf Hj. destruct (I6 ns name j Hns Hf Hj) as (Hs & m & Hm & Hsy).
      split; [done|]. cbn. destruct (decide (j = i)) as [->|Hne]; [|rewrite lookup_insert_ne by done; eauto].
      rewrite lookup_insert_eq. exists n'. split; [done|].
      destruct Hc as [(_ & _ & Hy)|(t & Ht & _)]; [congruence|by apply Hs in Ht].
    + intros ns Hns. destruct (I7 ns Hns) as (k & ? & ?). exists k. split; [done|].
      by rewrite Hct by (done || by left).
    + cbn. rewrite I8. f_equal. symmetry. apply Hct; by left.
    + intros Hp k Hk. by apply Hkd, I11.
    + intros t j m Hj Hm. destruct (setInode_kind _ _ _ _ _ _ Hn Hkn Hm) as (m' & Hm' & ->). by eapply I13.
    + intros ns j m Hns Hj Hm. destruct (setInode_kind _ _ _ _ _ _ Hn Hkn Hm) as (m' & Hm' & ->). by eapply I14.
Qed.

(** ** Names *)

(** Changing the directory: the key file keeps its name, the final names refer to
    synced files nobody writes to any more, and a change of the token file is a
    publication. *)

Section Names.
Variables (w : World) (ns' : namespace) (stg' : gmap string staged) (pubs' : list (option string)).
Hypotheses (Hi : inv w)
  (Hex : forall name i, ns' !! name = Some i -> is_Some (inodes (fs w) !! i))
  (Hkey : forall i, current (fs w) !! keyFileName = Some i -> ns' !! keyFileName = Some i)
  (Hfin : forall name i, final name -> ns' !! name = Some i ->
     (forall t, stg' !! t <> Some (Staged i)) /\ exists n, inodes (fs w) !! i = Some n /\ synced n = true)
  (Hreg : forall i n, ns' !! tokenFileName = Some i -> inodes (fs w) !! i = Some n -> kind n = Regular)
  (Hsub : forall t i, stg' !! t = Some (Staged i) -> staging w !! t = Some (Staged i))
  (Hst : forall t s, stg' !! t = Some s -> is_Some (staging w !! t) /\ ns' !! t = current (fs w) !! t)
  (Hpub : pubs' = pubs w /\ ns' !! tokenFileName = current (fs w) !! tokenFileName \/
     pubs' = pubs w ++ [contentAt (fs w) ns' tokenFileName] /\ whole (contentAt (fs w) ns' tokenFileName)).

Let w' := w <| fs := setNames ns' (fs w) |> <| staging := stg' |> <| pubs := pubs' |>.

Lemma names_prefix : pubs w `prefix_of` pubs'.
Proof. destruct Hpub as [[-> _]|[-> _]]; [done|by eexists]. Qed.
Lemma names_settled j : settled w j -> settled w' j.
Proof. intros Hs t Ht. by apply (Hs t), Hsub. Qed.
Lemma names_possible ns : possible (fs w') ns -> ns = ns' \/ possible (fs w) ns.
Proof. intros [->|Hin]; [by left|right]. cbn in Hin. apply elem_of_cons in Hin as [->|?]; [by left|by right]. Qed.
Lemma names_keyDurable k : keyDurable w k -> keyDurable w' k.
Proof.
  intros Hk ns [->|Hns]%names_possible; [|by apply Hk]. specialize (Hk _ (or_introl eq_refl)).
  unfold contentAt in *. destruct (current (fs w) !! keyFileName) as [j|] eqn:Ej; [|done].
  rewrite (Hkey _ eq_refl). exact Hk.
Qed.
Lemma names_hist : hist w w'.
Proof.
  split; [apply names_prefix|]. split; [done|]. split; [|split; [exact Hkey|apply names_keyDurable]].
  intros j n Hs Hn. split; [by apply names_settled|by exists n].
Qed.

Lemma names_pubs ns : possible (fs w') ns -> exists k, (durable w' <= k)%nat /\ pubs' !! k = Some (contentAt (fs w') ns tokenFileName).
Proof.
  intros [->|Hns]%names_possible.
  2: { destruct (inv_pubs _ Hi ns Hns) as (k & ? & ?). exists k. split; [done|]. by eapply prefix_lookup_Some, names_prefix. }
  destruct (inv_pubs _ Hi _ (or_introl eq_refl)) as (k & ? & Hk). destruct Hpub as [[-> Hsame]|[-> _]].
  - exists k. split; [done|]. cbn. unfold contentAt in *. cbn. by rewrite Hsame.
  - exists (length (pubs w)). split; [|by apply list_lookup_middle]. apply lookup_lt_Some in Hk. cbn. lia.
Qed.

Lemma names_inv : inv w'.
Proof.
  split; try apply Hi.
  - intros ns name j [->|Hns]%names_possible Hj; [by eapply Hex|by apply (inv_exists _ Hi ns name)].
  - intros t s Hs. destruct (Hst t s Hs) as [[s' Hs'] E]. destruct (inv_temp _ Hi t s' Hs') as [Hf Hc].
    split; [done|]. cbn. by rewrite E.
  - intros t j Hj. destruct (Hst t _ Hj) as [_ E]. apply Hsub in Hj. destruct (inv_staged _ Hi t j Hj). cbn. by rewrite E.
  - intros t t' j Ht Ht'. apply (inv_inj _ Hi t t' j); by apply Hsub.
  - intros ns name j [->|Hns]%names_possible Hf Hj; [by destruct (Hfin name j Hf Hj)|].
    destruct (inv_final _ Hi ns name j Hns Hf Hj). split; [by apply names_settled|done].
  - apply names_pubs.
  - destruct Hpub as [[-> Hsame]|[-> _]]; [|cbn; by rewrite last_app_singleton].
    cbn. rewrite (inv_last _ Hi). unfold content, contentAt. cbn. by rewrite Hsame.
  - intros ns j [->|Hns]%names_possible Hj; [done|]. cbn. apply Hkey. by eapply (inv_key _ Hi).
  - intros Hp st k Hin. destruct (inv_saves _ Hi Hp st k Hin) as (? & ct & Hct & ?). split; [done|].
    exists ct. split; [by eapply prefix_lookup_Some, names_prefix|done].
  - intros Hp k Hk. by apply names_keyDurable, (inv_keys _ Hi).
  - intros st Hin. destruct (inv_loads _ Hi st Hin) as [?|(ct & Hct & ?)]; [by left|right]. exists ct.
    split; [|done]. destruct names_prefix as [l Hl]. cbn. rewrite Hl. apply elem_of_app. by left.
  - intros t j n Hj. by apply (inv_kind _ Hi t), Hsub.
  - intros ns j n [->|Hns]%names_possible; [apply Hreg|by apply (inv_regular _ Hi ns)].
  - intros c. cbn. destruct Hpub as [[-> _]|[-> Hw]]; [apply (inv_whole _ Hi)|].
    intros [Hc| ->%list_elem_of_singleton]%elem_of_app; [by apply (inv_whole _ Hi)|done].
Qed.
End Names.

Lemma names_trans H H' w ns' stg' pubs' (K : gset tempRole -> Prop) :
  inv w -> held H w ->
  (forall name i, ns' !! name = Some i -> is_Some (inodes (fs w) !! i)) ->
  (forall i, current (fs w) !! keyFileName = Some i -> ns' !! keyFileName = Some i) ->
  (forall name i, final name -> ns' !! name = Some i ->
     (forall t, stg' !! t <> Some (Staged i)) /\ exists n, inodes (fs w) !! i = Some n /\ synced n = true) ->
  (forall i n, ns' !! tokenFileName = Some i -> inodes (fs w) !! i = Some n -> kind n = Regular) ->
  (forall t i, stg' !! t = Some (Staged i) -> staging w !! t = Some (Staged i)) ->
  (forall t s, stg' !! t = Some s -> is_Some (staging w !! t) /\ ns' !! t = current (fs w) !! t) ->
  (forall t, temp t ∉ H -> stg' !! t = staging w !! t) ->
  (forall t, temp t ∈ H' <-> temp t ∈ H /\ is_Some (stg' !! t)) ->
  (pubs' = pubs w /\ ns' !! tokenFileName = current (fs w) !! tokenFileName \/
   pubs' = pubs w ++ [contentAt (fs w) ns' tokenFileName] /\ whole (contentAt (fs w) ns' tokenFileName)) ->
  K H' -> trans H w (w <| fs := setNames ns' (fs w) |> <| staging := stg' |> <| pubs := pubs' |>) K.
Proof.
  intros Hi Hh Hex Hkey Hfin Hreg Hsub Hst Hout HH' Hpub HK _.
  exists H'. split; [split|split; [|split; [|split]]]; [| | | | | | |done].
  - by intros [].
  - intros [t] _ Hin. cbn. apply bool_decide_eq_true_2. by destruct (proj1 (HH' t) Hin).
  - intros [t] _ Hin Hn. cbn. apply bool_decide_eq_false_2. intros Hs. by apply Hn, HH'.
  - intros [t] _ Hn Hin. by destruct (proj1 (HH' t) Hin).
  - by apply names_hist.
  - intros [t] Ht _. split; [by apply Hout|]. split; [|done]. intros [s Hs]. cbn.
    destruct (Hst t s) as [_ E]; [by rewrite Hout|exact E].
  - by apply names_inv.
Qed.

(** *** A new temporary file *)

Section NewTemp.
Variables (w : World) (name : string).
Hypotheses (Hi : inv w) (Hnf : ~ final name) (Hnone : current (fs w) !! name = None).

Let i := nextInode (fs w).
Let w' := w <| fs := (create name tempPerm (fs w)).2 |> <| staging := <[name := Staged i]> (staging w) |>.

Lemma new_inode : inodes (fs w) !! i = None.
Proof. apply eq_None_not_Some. intros Hs%(inv_fresh _ Hi). unfold i in Hs. lia. Qed.
Lemma new_unstaged : staging w !! name = None.
Proof.
  destruct (staging w !! name) as [s|] eqn:Es; [|done]. destruct (inv_temp _ Hi _ _ Es) as [_ Hc].
  rewrite Hnone in Hc. by destruct Hc.
Qed.
Lemma new_possible ns : possible (fs w') ns -> ns = <[name := i]> (current (fs w)) \/ possible (fs w) ns.
Proof. intros [->|Hin]; [by left|right]. cbn in Hin. apply elem_of_cons in Hin as [->|?]; [by left|by right]. Qed.
Lemma new_keeps j : is_Some (inodes (fs w) !! j) -> inodes (fs w') !! j = inodes (fs w) !! j.
Proof. intros [n Hn]. cbn. rewrite lookup_insert_ne; [done|]. pose proof new_inode. unfold i in *. congruence. Qed.

(** A final name is what it was in one of the directories possible before. *)
Lemma new_final nm j ns : possible (fs w') ns -> final nm -> ns !! nm = Some j ->
  exists ns, possible (fs w) ns /\ ns !! nm = Some j.
Proof.
  intros [->|Hp]%new_possible Hf Hj; [|by exists ns]. rewrite lookup_insert_ne in Hj by (by intros ->).
  exists (current (fs w)). split; [by left|done].
Qed.
Lemma new_content ns nm : possible (fs w) ns -> contentAt (fs w') ns nm = contentAt (fs w) ns nm.
Proof.
  intros Hp. unfold contentAt. destruct (ns !! nm) as [j|] eqn:Ej; [|done].
  cbn [mbind option_bind]. by rewrite new_keeps by (by eapply inv_exists).
Qed.
Lemma new_content_final nm : final nm ->
  contentAt (fs w') (<[name := i]> (current (fs w))) nm = contentAt (fs w) (current (fs w)) nm.
Proof.
  intros Hf. rewrite <- (new_content _ nm (or_introl eq_refl)). unfold contentAt.
  rewrite lookup_insert_ne; [done|]. by intros ->.
Qed.
Lemma new_settled j : is_Some (inodes (fs w) !! j) -> settled w j -> settled w' j.
Proof.
  intros Hj Hs t Ht. cbn in Ht. apply lookup_insert_Some in Ht as [[_ [= <-]]|[_ Ht]]; [|by apply (Hs t)].
  rewrite new_inode in Hj. by destruct Hj.
Qed.
Lemma new_keyDurable k : keyDurable w k -> keyDurable w' k.
Proof.
  intros Hk ns [->|Hp]%new_possible; [|by rewrite new_content; [apply Hk|]].
  rewrite new_content_final by (by right). apply Hk. by left.
Qed.
Lemma new_key j : current (fs w) !! keyFileName = Some j -> current (fs w') !! keyFileName = Some j.
Proof. intros Hj. cbn. rewrite lookup_insert_ne; [done|]. intros Heq. apply Hnf. by right. Qed.

Lemma new_hist : hist w w'.
Proof.
  split; [done|]. split; [done|]. split; [|split; [apply new_key|apply new_keyDurable]].
  intros j n Hs Hn. split; [apply new_settled; [by exists n|done]|]. exists n. by rewrite new_keeps by (by exists n).
Qed.

(** The staged files. *)
Lemma new_staged t j : staging w' !! t = Some (Staged j) ->
  (t = name /\ j = i) \/ (t <> name /\ staging w !! t = Some (Staged j) /\ j <> i /\ is_Some (inodes (fs w) !! j)).
Proof.
  cbn. intros [[<- [= <-]]|[Hne Hs]]%lookup_insert_Some; [by left|right]. destruct (inv_staged _ Hi t j Hs) as [_ Hj].
  repeat split; [done..| |done]. intros ->. rewrite new_inode in Hj. by destruct Hj.
Qed.

Lemma new_inv : inv w'.
Proof.
  split.
  - intros ns nm j [->|Hp]%new_possible Hj; [|rewrite new_keeps; by apply (inv_exists _ Hi _ _ _ Hp Hj)].
    apply lookup_insert_Some in Hj as [[_ <-]|[_ Hj]]; [cbn; rewrite lookup_insert_eq; eauto|].
    rewrite new_keeps; by apply (inv_exists _ Hi _ _ _ (or_introl eq_refl) Hj).
  - intros j. cbn. intros [n [[<- _]|[_ Hn]]%lookup_insert_Some]; [lia|].
    assert (j < nextInode (fs w))%nat by (apply (inv_fresh _ Hi); eauto). lia.
  - intros t s. cbn. intros [[<- _]|[Hne Hs]]%lookup_insert_Some; [rewrite lookup_insert_eq; eauto|].
    rewrite lookup_insert_ne by done. by apply (inv_temp _ Hi t s).
  - intros t j [[-> ->]|(Hne & Hs & _ & Hj)]%new_staged; [cbn; rewrite !lookup_insert_eq; eauto|].
    destruct (inv_staged _ Hi t j Hs) as [Hc _]. rewrite new_keeps by done. split; [|done].
    cbn. by rewrite lookup_insert_ne.
  - intros t t' j [[-> ->]|(Hne & Hs & Hj & _)]%new_staged [[-> E]|(Hne' & Hs' & Hj' & _)]%new_staged; try done.
    by apply (inv_inj _ Hi t t' j).
  - intros ns nm j Hp Hf Hj. destruct (new_final nm j ns Hp Hf Hj) as (ns0 & Hp0 & Hj0).
    destruct (inv_final _ Hi ns0 nm j Hp0 Hf Hj0) as (Hs & n & Hn & Hy).
    split; [apply new_settled; [by exists n|done]|]. exists n. by rewrite new_keeps by (by exists n).
  - intros ns [->|Hp]%new_possible; [rewrite new_content_final by (by left); apply (inv_pubs _ Hi); by left|].
    rewrite new_content by done. by apply (inv_pubs _ Hi).
  - cbn. rewrite (inv_last _ Hi). f_equal. symmetry. apply new_content_final. by left.
  - intros ns j [->|Hp]%new_possible Hj; [done|]. apply new_key. by eapply (inv_key _ Hi).
  - apply (inv_saves _ Hi).
  - intros Hp k Hk. by apply new_keyDurable, (inv_keys _ Hi).
  - apply (inv_loads _ Hi).
  - intros t j n [[-> ->]|(Hne & Hs & _ & Hj)]%new_staged; [cbn; rewrite lookup_insert_eq; by intros [= <-]|].
    rewrite new_keeps by done. by apply (inv_kind _ Hi t).
  - intros ns j n Hp Hj. destruct (new_final _ j ns Hp (or_introl eq_refl) Hj) as (ns0 & Hp0 & Hj0).
    rewrite new_keeps by (by eapply inv_exists). by apply (inv_regular _ Hi ns0).
  - apply (inv_whole _ Hi).
Qed.

Lemma new_trans H (K : gset tempRole -> Prop) : held H w ->
  (temp name ∉ H -> staging w' !! name = Some (Staged (stagedInode name w')) -> K ({[temp name]} ∪ H)) -> trans H w w' K.
Proof.
  intros Hh HK _.
  assert (HnH : temp name ∉ H).
  { intros Hin. specialize (Hh _ Hin eq_refl). cbn in Hh. rewrite new_unstaged in Hh. by apply bool_decide_eq_true in Hh as []. }
  exists ({[temp name]} ∪ H). split; [split|split; [apply new_hist|split; [|split; [apply new_inv|]]]].
  - by intros [].
  - intros [t] _ [[= ->]%elem_of_singleton|Hin]%elem_of_union; cbn; apply bool_decide_eq_true_2.
    + rewrite lookup_insert_eq. eauto.
    + specialize (Hh _ Hin eq_refl). apply bool_decide_eq_true in Hh as [s Hs].
      destruct (decide (t = name)) as [->|Hne]; [rewrite lookup_insert_eq; eauto|].
      rewrite lookup_insert_ne by done. eauto.
  - set_solver.
  - intros [t] _ Hn [[= ->]%elem_of_singleton|Hin]%elem_of_union; [|done]. cbn. rewrite new_unstaged.
    apply bool_decide_eq_false_2. by intros [].
  - intros [t] _ Hn. assert (t <> name) by set_solver. cbn. rewrite !lookup_insert_ne by done.
    split; [done|]. split; [done|]. intros j Hj. destruct (inv_staged _ Hi t j Hj) as [_ Hs]. by apply new_keeps in Hs.
  - apply HK; [done|]. unfold stagedInode. cbn. by rewrite !lookup_insert_eq.
Qed.
End NewTemp.

Lemma create_trans H w name pattern w' (K : gset tempRole -> Prop) :
  inv w -> held H w -> HasPrefix tokenFileName pattern = false -> HasPrefix keyFileName pattern = false ->
  tempReady pattern w (inr name) = Some w' ->
  (temp name ∉ H -> staging w' !! name = Some (Staged (stagedInode name w')) -> K ({[temp name]} ∪ H)) ->
  trans H w w' K.
Proof.
  intros Hi Hh Hp1 Hp2. cbn. destruct (HasPrefix name pattern) eqn:Hpn; cbn [andb]; [|done].
  case_bool_decide as Hnone; [|done]. intros [= <-] HK. apply new_trans; [done| |done|done|done].
  intros [-> | ->]; congruence.
Qed.

(** Forgetting a temporary name. *)
Lemma forget_trans t w (K : gset tempRole -> Prop) :
  inv w -> held {[temp t]} w -> K ∅ -> trans {[temp t]} w (forget t w) K.
Proof.
  intros Hi Hh HK _. destruct Hi as [I1 I2 I3 I4 I5 I6 I7 I8 I9 I10 I11 I12 I13 I14 I15].
  assert (Hset : forall j, settled w j -> settled (forget t w) j).
  { intros j Hs t' Ht. cbn in Ht. apply lookup_delete_Some in Ht as [_ Ht]. by apply (Hs t'). }
  exists ∅. split; [split|split; [|split; [|split]]]; [| | | | | | |done].
  - by intros [].
  - set_solver.
  - intros l _ ->%elem_of_singleton _. cbn. rewrite lookup_delete_eq. apply bool_decide_eq_false_2. by intros [].
  - set_solver.
  - split; [done|]. split; [done|]. split; [|done]. intros j n Hs Hn. split; [by apply Hset|by exists n].
  - intros [t'] Hn _. cbn. rewrite lookup_delete_ne by set_solver. done.
  - split; try done.
    + intros t' s. cbn. intros [_ Hs]%lookup_delete_Some. by eapply I3.
    + intros t' j. cbn. intros [_ Hs]%lookup_delete_Some. by apply I4.
    + intros t1 t2 j. cbn. intros [_ H1]%lookup_delete_Some [_ H2]%lookup_delete_Some. by eapply I5.
    + intros ns name j Hns Hf Hj. destruct (I6 ns name j Hns Hf Hj). split; [by apply Hset|done].
    + intros t' j n. cbn. intros [_ Hs]%lookup_delete_Some. by apply (I13 t').
Qed.

#[local] Instance temp_inj : Inj (=) (=) temp.
Proof. by intros ? ? [=]. Qed.

Lemma taken_staging t H w : held H w -> temp t ∈ H -> is_Some (staging w !! t).
Proof. intros Hh Hin. specialize (Hh _ Hin eq_refl). by apply bool_decide_eq_true in Hh. Qed.

(** Removing a temporary file. *)
Lemma removeTemp_trans t w (K : gset tempRole -> Prop) :
  inv w -> held {[temp t]} w -> K ∅ -> trans {[temp t]} w (removeTemp t w).2 K.
Proof.
  intros Hi Hh HK. destruct (taken_staging t _ _ Hh ltac:(set_solver)) as [s Hs].
  destruct (inv_temp _ Hi _ _ Hs) as [Hnf [i Hi']].
  unfold removeTemp, remove. rewrite Hi'. cbn [snd].
  apply (names_trans {[temp t]} ∅ w (delete t (current (fs w))) (delete t (staging w)) (pubs w)); try done.
  - intros name j [_ Hj]%lookup_delete_Some. by apply (inv_exists _ Hi _ name j (or_introl eq_refl)).
  - intros j Hj. rewrite lookup_delete_ne; [done|]. intros ->. apply Hnf. by right.
  - intros name j Hf [Hne Hj]%lookup_delete_Some.
    destruct (inv_final _ Hi _ name j (or_introl eq_refl) Hf Hj) as [Hse Hn]. split; [|done].
    intros t' [_ Ht']%lookup_delete_Some. by apply (Hse t').
  - intros j n [_ Hj]%lookup_delete_Some. by apply (inv_regular _ Hi _ _ _ (or_introl eq_refl)).
  - intros t' j [_ Ht']%lookup_delete_Some. done.
  - intros t' s' [Hne Hs']%lookup_delete_Some. split; [by exists s'|]. by rewrite lookup_delete_ne.
  - intros t' Ht'. rewrite lookup_delete_ne by set_solver. done.
  - intros t'. split; [set_solver|]. intros [->%elem_of_singleton%(inj temp) [x Hx]].
    by rewrite lookup_delete_eq in Hx.
  - left. split; [done|]. rewrite lookup_delete_ne; [done|]. intros ->. apply Hnf. by left.
Qed.

(** A staged file and what its owner knows of it. *)
Definition owns (t : string) (i : nat) (P : inode -> Prop) (w : World) : Prop :=
  staging w !! t = Some (Staged i) /\ exists n, inodes (fs w) !! i = Some n /\ P n.

Lemma staged_owns_rely H t i P w w' : temp t ∈ H -> rely H w w' -> owns t i P w -> owns t i P w'.
Proof.
  intros Hin [_ Hp] [Hs (n & Hn & HP)]. destruct (Hp _ Hin) as (E & _ & Ei). split; [by rewrite E|].
  exists n. by rewrite (Ei i Hs).
Qed.

Lemma contentAt_insert w i n d ns :
  inodes (fs w) !! i = Some n -> data n = d ->
  contentAt (fs w) (<[tokenFileName := i]> ns) tokenFileName = Some d.
Proof. intros Hn <-. unfold contentAt. rewrite lookup_insert_eq. cbn. by rewrite Hn. Qed.

Lemma list_lookup_middle_content w i n d ns :
  inodes (fs w) !! i = Some n -> data n = d ->
  (pubs w ++ [contentAt (fs w) (<[tokenFileName := i]> ns) tokenFileName]) !! length (pubs w) = Some (Some d).
Proof.
  intros Hn Hd. rewrite list_lookup_middle by done. f_equal. by eapply contentAt_insert.
Qed.

(** Renaming a complete staged file to the token file. *)
Lemma publish_trans t i st d w (K : gset tempRole -> Prop) :
  sealed st d ->
  inv w -> held {[temp t]} w -> owns t i (fun n => data n = d /\ synced n = true) w ->
  (publish t w).1 = Ok (length (pubs w)) /\
  (pubs (publish t w).2 !! length (pubs w) = Some (Some d) -> K ∅) ->
  trans {[temp t]} w (publish t w).2 K.
Proof.
  intros Hsl Hi Hh [Hs (n & Hn & Hd & Hsy)] [_ HK].
  destruct (inv_temp _ Hi _ _ Hs) as [Hnf _]. destruct (inv_staged _ Hi _ _ Hs) as [Hc _].
  revert HK. unfold publish, rename. rewrite Hc. cbn [snd]. intros HK.
  assert (Hnt : t <> tokenFileName) by (intros ->; apply Hnf; by left).
  assert (Hnk : t <> keyFileName) by (intros ->; apply Hnf; by right).
  apply (names_trans {[temp t]} ∅ w (<[tokenFileName := i]> (delete t (current (fs w)))) (delete t (staging w))
    (pubs w ++ [contentAt (fs w) (<[tokenFileName := i]> (delete t (current (fs w)))) tokenFileName])); try done.
  - intros name j [[_ <-]|[_ [_ Hj]%lookup_delete_Some]]%lookup_insert_Some; [by exists n|].
    by apply (inv_exists _ Hi _ name j (or_introl eq_refl)).
  - intros j Hj. by rewrite lookup_insert_ne, lookup_delete_ne.
  - intros name j Hf [[_ <-]|[_ [_ Hj]%lookup_delete_Some]]%lookup_insert_Some.
    + split; [|by exists n]. intros t' [Hne Ht']%lookup_delete_Some. by rewrite (inv_inj _ Hi _ _ _ Ht' Hs) in Hne.
    + destruct (inv_final _ Hi _ name j (or_introl eq_refl) Hf Hj) as [Hse Hx]. split; [|done].
      intros t' [_ Ht']%lookup_delete_Some. by apply (Hse t').
  - intros j m. rewrite lookup_insert_eq. intros [= <-]. by apply (inv_kind _ Hi t).
  - intros t' j [_ Ht']%lookup_delete_Some. done.
  - intros t' s' [Hne Hs']%lookup_delete_Some. split; [by exists s'|].
    destruct (inv_temp _ Hi _ _ Hs') as [Hnf' _].
    rewrite lookup_insert_ne, lookup_delete_ne; [done|done|]. intros <-. apply Hnf'. by left.
  - intros t' Ht'. rewrite lookup_delete_ne by set_solver. done.
  - intros t'. split; [set_solver|]. intros [->%elem_of_singleton%(inj temp) [x Hx]].
    by rewrite lookup_delete_eq in Hx.
  - right. split; [done|]. right. right. exists st, d. split; [by eapply contentAt_insert|done].
  - apply HK. apply (list_lookup_middle_content w i n d (delete t (current (fs w)))); done.
Qed.

(** Linking a complete staged file to the key file. *)
Definition keyNow (k : string) (w : World) : Prop :=
  exists i n, current (fs w) !! keyFileName = Some i /\ settled w i /\ inodes (fs w) !! i = Some n /\ data n = k.

Lemma keyNow_hist k w w' : hist w w' -> keyNow k w -> keyNow k w'.
Proof.
  intros (_ & _ & Hs & Hc & _) (i & n & Hi & Hse & Hn & <-). destruct (Hs i n Hse Hn) as (Hse' & n' & Hn' & E).
  exists i, n'. auto.
Qed.

Lemma linkKey_trans t i d w (K : gset tempRole -> Prop) :
  inv w -> held {[temp t]} w -> owns t i (fun n => data n = d /\ synced n = true) w ->
  ((linkKey t w).1 = Ok tt -> keyNow d (linkKey t w).2 -> K {[temp t]}) ->
  (forall e, (linkKey t w).1 = Err e -> K {[temp t]}) ->
  trans {[temp t]} w (linkKey t w).2 K.
Proof.
  intros Hi Hh [Hs (n & Hn & Hd & Hsy)] HK HKe.
  destruct (inv_temp _ Hi _ _ Hs) as [Hnf _]. destruct (inv_staged _ Hi _ _ Hs) as [Hc _].
  revert HK HKe. unfold linkKey, link. rewrite Hc.
  destruct (current (fs w) !! keyFileName) as [j0|] eqn:Ek; cbn [fst snd]; intros HK HKe.
  { apply (trans_refl file_laws); [done|done|]. by apply (HKe EExist). }
  assert (Hnt : t <> tokenFileName) by (intros ->; apply Hnf; by left).
  assert (Hnk : t <> keyFileName) by (intros ->; apply Hnf; by right).
  apply (names_trans {[temp t]} {[temp t]} w (<[keyFileName := i]> (current (fs w)))
    (<[t := Linked]> (staging w)) (pubs w)); try done.
  - intros name j [[_ <-]|[_ Hj]]%lookup_insert_Some; [by exists n|].
    by apply (inv_exists _ Hi _ name j (or_introl eq_refl)).
  - intros j Hj. congruence.
  - intros name j Hf [[_ <-]|[_ Hj]]%lookup_insert_Some.
    + split; [|by exists n]. intros t' [[_ [=]]|[Hne Ht']]%lookup_insert_Some.
      by rewrite (inv_inj _ Hi _ _ _ Ht' Hs) in Hne.
    + destruct (inv_final _ Hi _ name j (or_introl eq_refl) Hf Hj) as [Hse Hx]. split; [|done].
      intros t' [[_ [=]]|[_ Ht']]%lookup_insert_Some. by apply (Hse t').
  - intros j m. rewrite lookup_insert_ne by done. by apply (inv_regular _ Hi _ _ _ (or_introl eq_refl)).
  - intros t' j [[_ [=]]|[_ Ht']]%lookup_insert_Some. done.
  - intros t' s' [[<- _]|[Hne Hs']]%lookup_insert_Some; [split; [by exists (Staged i)|by rewrite lookup_insert_ne]|].
    split; [by exists s'|]. destruct (inv_temp _ Hi _ _ Hs') as [Hnf' _].
    rewrite lookup_insert_ne; [done|]. intros <-. apply Hnf'. by right.
  - intros t' Ht'. rewrite lookup_insert_ne by set_solver. done.
  - intros t'. split; [|by intros [? _]]. intros ->%elem_of_singleton%(inj temp). split; [set_solver|].
    rewrite lookup_insert_eq. eauto.
  - left. split; [done|]. by rewrite lookup_insert_ne.
  - apply HK; [done|]. exists i, n. cbn. rewrite lookup_insert_eq. split; [done|]. split; [|done].
    intros t'. cbn. intros [[_ [=]]|[Hne Ht']]%lookup_insert_Some. by rewrite (inv_inj _ Hi _ _ _ Ht' Hs) in Hne.
Qed.

(** Removing the token file. *)
Lemma removeTokens_trans w (K : gset tempRole -> Prop) :
  inv w -> held ∅ w -> K ∅ -> trans ∅ w (removeTokens w).2 K.
Proof.
  intros Hi Hh HK. unfold removeTokens, remove.
  destruct (current (fs w) !! tokenFileName) as [i|] eqn:Ec; [|by apply (trans_refl file_laws)].
  cbn [snd].
  assert (E : None = contentAt (fs w) (delete tokenFileName (current (fs w))) tokenFileName).
  { unfold contentAt. by rewrite lookup_delete_eq. }
  rewrite E.
  apply (names_trans ∅ ∅ w (delete tokenFileName (current (fs w))) (staging w)); try done.
  - intros name j [_ Hj]%lookup_delete_Some. by apply (inv_exists _ Hi _ name j (or_introl eq_refl)).
  - intros j Hj. by rewrite lookup_delete_ne.
  - intros name j Hf [Hne Hj]%lookup_delete_Some. by apply (inv_final _ Hi _ name j (or_introl eq_refl) Hf Hj).
  - intros j n. by rewrite lookup_delete_eq.
  - intros t' s' Hs'. split; [by exists s'|]. destruct (inv_temp _ Hi _ _ Hs') as [Hnf' _].
    rewrite lookup_delete_ne; [done|]. intros <-. apply Hnf'. by left.
  - set_solver.
  - right. split; [done|]. left. by rewrite <- E.
Qed.

(** Syncing the directory. *)
Lemma syncNames_trans H w (K : gset tempRole -> Prop) :
  inv w -> held H w -> K H -> trans H w (syncNames w) K.
Proof.
  intros Hi Hh HK. destruct Hi as [I1 I2 I3 I4 I5 I6 I7 I8 I9 I10 I11 I12 I13 I14 I15].
  assert (Hlast : pubs w !! (length (pubs w) - 1)%nat = Some (content (fs w) tokenFileName)).
  { rewrite last_lookup in I8. by replace (pred (length (pubs w))) with (length (pubs w) - 1)%nat in I8 by lia. }
  assert (Hdur : (durable w <= length (pubs w) - 1)%nat).
  { destruct (I7 _ (or_introl eq_refl)) as (k & ? & Hk%lookup_lt_Some). lia. }
  assert (Hpos : forall ns, possible (fs (syncNames w)) ns -> ns = current (fs w)).
  { intros ns [->|Hin]; [done|]. by apply elem_of_nil in Hin. }
  assert (Hkd : forall k, keyDurable w k -> keyDurable (syncNames w) k).
  { intros k Hk ns ->%Hpos. apply (Hk _ (or_introl eq_refl)). }
  apply trans_keep; [| | | |done].
  - split; [done|]. split; [done|]. split; [|done]. eauto.
  - by intros [t] _.
  - intros l _ Hin. by specialize (Hh l Hin eq_refl).
  - split; try done.
    + intros ns name j ->%Hpos. by apply I1; left.
    + intros ns name j ->%Hpos. by apply I6; left.
    + intros ns ->%Hpos. exists (length (pubs w) - 1)%nat. by split.
    + intros ns j ->%Hpos. done.
    + intros Hp st k Hin. destruct (I10 Hp st k Hin) as (? & Hx). split; [cbn; lia|exact Hx].
    + intros Hp k Hk. by apply Hkd, I11.
    + intros ns j n ->%Hpos. apply (I14 _ _ _ (or_introl eq_refl)).
Qed.

End FilestoreInv.

Arguments inv {Cod HC} posix key origin w.
Arguments sealed {Cod} key st ct.
Arguments whole {Cod} key origin c.
