(* ===== verification/FilestoreProps.v ===== *)
(** What the file store guarantees in every interleaving of its users, at every
    moment a crash may strike. *)
From S2P Require Import Prelude Proc RelyGuarantee Schedules GoTime Errors Tokens GoStrings UrlProps Filesystem Filestore FilestoreInv.

Section FilestoreProps.
  Context `{Cod : Codec, HC : !CodecLaws} (posix : bool) (key : string) (origin : option string).

Abbreviation inv := (FilestoreInv.inv posix key origin).
Abbreviation laws := (file_laws (posix := posix) (key := key) (origin := origin)).
Abbreviation wp := (RelyGuarantee.wp hist prot inv linv rank role taken pre answers bound).
Abbreviation trans := (RelyGuarantee.trans hist prot inv role taken bound).
Abbreviation rely := (RelyGuarantee.rely hist prot).
Abbreviation held := (RelyGuarantee.held_roles role taken).

(** What a goroutine may rely on. *)
Definition stable (H : gset tempRole) (P : World -> Prop) : Prop := forall w w', rely H w w' -> P w -> P w'.

Lemma stable_hist H (P : World -> Prop) : (forall w w', hist w w' -> P w -> P w') -> stable H P.
Proof. intros HP w w' [Hh _]. by apply HP. Qed.

(** ** System calls *)

Lemma world_eta w : w <| fs := fs w |> = w.
Proof. by destruct w. Qed.

Lemma wp_os {A B} op (f : FS -> result fsError A * FS) (k : result fsError A -> prog B) H Post w P :
  stable H P -> P w ->
  (forall e w, P w -> wp (k (Err e)) H Post w) ->
  (forall w, P w -> inv w -> held H w ->
     trans H w (w <| fs := (f (fs w)).2 |>) (fun H' => wp (k (f (fs w)).1) H' Post (w <| fs := (f (fs w)).2 |>))) ->
  wp (bind (os op f) k) H Post w.
Proof.
  intros HP Hw Herr Hok. unfold os. apply (wp_ask laws). intros w1 HR1 _ _. apply (HP _ _ HR1) in Hw.
  split; [done|]. intros [e|] _; [by apply Herr|].
  apply wp_act. intros w2 HR2 Hi2 Hh2. apply (HP _ _ HR2) in Hw. by apply Hok.
Qed.

Lemma wp_osGet {A B} op (f : FS -> result fsError A) (k : result fsError A -> prog B) H Post w P :
  stable H P -> P w ->
  (forall e w, P w -> wp (k (Err e)) H Post w) ->
  (forall w, P w -> inv w -> wp (k (f (fs w))) H Post w) ->
  wp (bind (osGet op f) k) H Post w.
Proof.
  intros HP Hw Herr Hok. apply (wp_os _ _ _ _ _ _ P); [done..|]. intros w1 Hw1 Hi1 Hh1. cbn [fst snd].
  rewrite world_eta. apply (trans_refl laws); [done|done|by apply Hok].
Qed.

Lemma wp_osNop {B} op (k : result fsError unit -> prog B) H Post w P :
  stable H P -> P w -> (forall r w, P w -> wp (k r) H Post w) -> wp (bind (osDo op id) k) H Post w.
Proof.
  intros HP Hw Hk. apply (wp_os _ _ _ _ _ _ P); [done..|auto|]. intros w1 Hw1 Hi1 Hh1. cbn [fst snd].
  unfold id. rewrite world_eta. apply (trans_refl laws); [done|done|by apply Hk].
Qed.

(** Changing an inode whose state the goroutine knows. *)
Lemma wp_osInode {B} op i (g : inode -> inode) (f : FS -> FS) (k : result fsError unit -> prog B) H Post w (P Q : World -> Prop) :
  (forall s, f s = match inodes s !! i with Some n => setInode i (g n) s | None => s end) ->
  stable H P -> P w ->
  (forall n, kind (g n) = kind n) ->
  (forall w, P w -> exists n, inodes (fs w) !! i = Some n /\
     (settled w i /\ data (g n) = data n /\ synced (g n) = synced n \/
      exists t, staging w !! t = Some (Staged i) /\ temp t ∈ H) /\
     Q (w <| fs := setInode i (g n) (fs w) |>)) ->
  (forall e w, P w -> wp (k (Err e)) H Post w) ->
  (forall w, Q w -> wp (k (Ok tt)) H Post w) ->
  wp (bind (osDo op f) k) H Post w.
Proof.
  intros Hf HP Hw Hkind Hstep Herr Hok. apply (wp_os _ _ _ _ _ _ P); [done..|]. intros w1 Hw1 Hi1 Hh1. cbn [fst snd].
  destruct (Hstep w1 Hw1) as (n & Hn & Hcase & HQ). rewrite Hf, Hn.
  eapply setInode_trans; [done|done|exact Hn|done|exact Hcase|by apply Hok].
Qed.

(** [secureFile] on a file whose data is not its concern. *)
Lemma wp_secureFile H i w (P : World -> Prop) :
  stable H P -> P w ->
  (forall w, P w -> exists n, inodes (fs w) !! i = Some n /\
     (settled w i \/ exists t, staging w !! t = Some (Staged i) /\ temp t ∈ H) /\
     P (w <| fs := setInode i (n <| mode := filePerm |>) (fs w) |>)) ->
  wp (secureFile posix i filePerm) H (fun _ H' w => H' = H /\ P w) w.
Proof.
  intros HP Hw Hstep. unfold secureFile.
  apply (wp_osInode _ i (fun n => n <| mode := filePerm |>) _ _ _ _ _ P P); [done|done|done|done| | |].
  - intros w1 Hw1. destruct (Hstep w1 Hw1) as (n & Hn & Hc & HP'). exists n. split; [done|]. split; [|done].
    destruct Hc; [left|right]; auto.
  - intros e w1 Hw1. apply wp_ret. intros w2 HR2 _ _. split; [done|by eapply HP].
  - intros w1 Hw1. destruct (negb posix); [apply wp_ret; intros w2 HR2 _ _; split; [done|by eapply HP]|].
    apply (wp_osGet _ _ _ _ _ _ P); [done|done| |].
    + intros e w2 Hw2. apply wp_ret. intros w3 HR3 _ _. split; [done|by eapply HP].
    + intros w2 Hw2 _. destruct (statInode i (fs w2)) as [e|n]; [|destruct (mode n =? filePerm)%N];
        (apply wp_ret; intros w3 HR3 _ _; split; [done|by eapply HP]).
Qed.

(** ** Staging *)

Abbreviation complete d := (fun n : inode => data n = d /\ synced n = true).

Lemma owns_stable t i P : stable {[temp t]} (owns t i P).
Proof. intros w w' HR. by apply (staged_owns_rely {[temp t]}); [set_solver|]. Qed.

Lemma owns_set t i (P Q : inode -> Prop) g w :
  (forall n, P n -> Q (g n)) -> owns t i P w ->
  exists n, inodes (fs w) !! i = Some n /\
    (settled w i /\ data (g n) = data n /\ synced (g n) = synced n \/
     exists t', staging w !! t' = Some (Staged i) /\ temp t' ∈ ({[temp t]} : gset tempRole)) /\
    owns t i Q (w <| fs := setInode i (g n) (fs w) |>).
Proof.
  intros Hg [Hs (n & Hn & HP)]. exists n. split; [done|]. split; [right; exists t; set_solver|].
  split; [done|]. exists (g n). cbn. rewrite lookup_insert_eq. auto.
Qed.

Lemma wp_removeStagedFile t w :
  wp (removeStagedFile t) {[temp t]} (fun _ H _ => H = ∅) w.
Proof.
  unfold removeStagedFile. apply (wp_ask laws). intros w1 _ _ _. split; [done|]. intros [e|] _.
  - apply wp_modify. intros w2 _ Hi2 Hh2. apply forget_trans; [done|done|]. by apply wp_ret.
  - apply wp_act. intros w2 _ Hi2 Hh2. apply removeTemp_trans; [done|done|].
    destruct (removeTemp t w2).1 as [[]|]; by apply wp_ret.
Qed.

Lemma wp_failStage {A} t closed e w :
  wp (failStage (A := A) t closed e) {[temp t]} (fun r H _ => H = ∅ /\ is_ok r = false) w.
Proof.
  unfold failStage.
  assert (Hrm : forall c w, wp (let* r := removeStagedFile t in Ret (Err (e :: option_list c ++ option_list r)))
                  {[temp t]} (fun (r : result error A) H _ => H = ∅ /\ is_ok r = false) w).
  { intros c w'. eapply (wp_call laws); [apply wp_removeStagedFile|]. intros r H w1 ->. by apply wp_ret. }
  destruct closed; [apply (Hrm None)|]. apply (wp_bind laws).
  apply (wp_osNop _ _ _ _ _ (fun _ => True)); [done|done|]. intros r w1 _. apply wp_ret.
  intros w2 _ _ _. apply (Hrm (match r with inl e => Some e | inr _ => None end)).
Qed.

(** What staging returns: a complete synced file. *)
Definition stagedPost (d : string) (r : result error string) (H : gset tempRole) (w : World) : Prop :=
  match r with
  | inl _ => H = ∅
  | inr t => H = {[temp t]} /\ exists i, owns t i (complete d) w
  end.

Lemma wp_failStage_post d t closed e w :
  wp (failStage (A := string) t closed e) {[temp t]} (stagedPost d) w.
Proof. eapply wp_mono; [|apply wp_failStage]. by intros [e'|t'] H w1 [-> ?]. Qed.

Lemma wp_writeFile t i d w :
  owns t i (fun n => data n = "") w ->
  wp (writeFile i d) {[temp t]}
    (fun r H w => H = {[temp t]} /\ (r = None -> owns t i (fun n => data n = d) w)) w.
Proof.
  intros Ho. unfold writeFile. apply (wp_ask laws). intros w1 HR1 _ _. apply (owns_stable _ _ _ _ _ HR1) in Ho.
  split; [done|].
  assert (Hwrite : forall x w, owns t i (fun n => data n = "") w -> inv w -> held {[temp t]} w ->
    forall K : gset tempRole -> Prop,
    (owns t i (fun n => data n = x) (w <| fs := write i x (fs w) |>) -> K {[temp t]}) ->
    trans {[temp t]} w (w <| fs := write i x (fs w) |>) K).
  { intros x w2 Hw2 Hi2 Hh2 K.
    destruct (owns_set t i (fun n => data n = "") (fun n => data n = x)
      (fun n => n <| data := data n +:+ x |> <| synced := false |>) w2) as (n & Hn & Hc & HQ); [|done|].
    { intros n Hn. cbn. by rewrite Hn. }
    unfold write. rewrite Hn. intros HK. eapply setInode_trans; [done|done|exact Hn|done| |by apply HK].
    right. destruct Hw2 as [Hs _]. exists t. set_solver. }
  intros [[e n]|] _; apply wp_modify; intros w2 HR2 Hi2 Hh2; apply (owns_stable _ _ _ _ _ HR2) in Ho;
    apply Hwrite; try done; intros Hd; apply wp_ret; intros w3 HR3 _ _; (split; [done|]); try done.
  intros _. by apply (owns_stable _ _ _ _ _ HR3).
Qed.

Lemma wp_fillStaged t i d w :
  owns t i (fun n => data n = "") w -> wp (fillStaged posix t i d) {[temp t]} (stagedPost d) w.
Proof.
  intros Ho. unfold fillStaged. eapply (wp_call laws).
  { apply (wp_secureFile _ _ _ (owns t i (fun n => data n = ""))); [apply owns_stable|done|].
    intros w1 Hw1. destruct (owns_set t i (fun n => data n = "") (fun n => data n = "")
      (fun n => n <| mode := filePerm |>) w1) as (n & Hn & Hc & HQ); [done|done|].
    exists n. split; [done|]. split; [|exact HQ]. destruct Hc as [(? & _)|?]; auto. }
  intros [e|] H w1 [-> Hw1]; [apply wp_failStage_post|].
  eapply (wp_call laws); [by apply wp_writeFile|]. intros [e|] H w2 [-> Hw2]; [apply wp_failStage_post|].
  specialize (Hw2 eq_refl).
  apply (wp_osInode _ i (fun n => n <| synced := true |>) _ _ _ _ _ (owns t i (fun n => data n = d)) (owns t i (complete d)));
    [done|apply owns_stable|done|done| | |].
  - intros w3 Hw3. apply (owns_set t i (fun n => data n = d) (complete d) (fun n => n <| synced := true |>)); [by intros|done].
  - intros e w3 _. apply wp_failStage_post.
  - intros w3 Hw3. apply (wp_osNop _ _ _ _ _ (owns t i (complete d))); [apply owns_stable|done|].
    intros [e|[]] w4 Hw4; [apply wp_failStage_post|]. apply wp_ret. intros w5 HR5 _ _.
    split; [done|]. exists i. by apply (owns_stable _ _ _ _ _ HR5).
Qed.

(** A staged file is complete, private and synced. *)
Lemma wp_stagePrivateFile pattern d w :
  HasPrefix tokenFileName pattern = false -> HasPrefix keyFileName pattern = false ->
  wp (stagePrivateFile posix pattern d) ∅ (stagedPost d) w.
Proof.
  intros Hp1 Hp2. unfold stagePrivateFile, CreateTemp. cbn [bind select].
  intros w1 _ Hi1 Hh1. split; [done|]. intros [e|t] w2 _ Hr; cbn [bind].
  { injection Hr as <-. apply (trans_refl laws); [done|done|]. by apply wp_ret. }
  eapply create_trans; [done|done|exact Hp1|exact Hp2|exact Hr|]. intros _ Hs.
  replace ({[temp t]} ∪ ∅ : gset tempRole) with ({[temp t]} : gset tempRole) by set_solver.
  assert (Hinit : owns t (stagedInode t w2) (fun n => data n = "") w2).
  { split; [done|]. revert Hr. cbn. case_match; [|done]. intros [= <-]. eexists.
    unfold stagedInode. cbn. rewrite lookup_insert_eq. cbn. by rewrite lookup_insert_eq. }
  apply (wp_read laws). intros w3 HR3 _ _. apply (owns_stable _ _ _ _ _ HR3) in Hinit.
  assert (E : stagedInode t w3 = stagedInode t w2) by (unfold stagedInode at 1; by rewrite (proj1 Hinit)).
  rewrite E. by apply wp_fillStaged.
Qed.

(** ** Publishing *)

(** What holds of a synced directory holds once [syncDirectory] returns nil. *)
Lemma wp_syncDirectory w (P Q : World -> Prop) :
  stable ∅ P -> stable ∅ Q -> (forall w, inv w -> P w -> Q (syncNames w)) -> P w ->
  wp (syncDirectory posix) ∅ (fun e H w => H = ∅ /\ (e = None -> posix = true -> Q w)) w.
Proof.
  intros HP HQ Hsync Hw. unfold syncDirectory.
  destruct (negb posix) eqn:Ep; [apply wp_ret; intros w1 _ _ _; split; [done|]; intros _ Ht; by rewrite Ht in Ep|].
  apply (wp_osNop _ _ _ _ _ P); [done|done|]. intros [e|[]] w1 Hw1; [by apply wp_ret|].
  apply (wp_ask laws). intros w2 HR2 _ _. apply (HP _ _ HR2) in Hw1. split; [done|]. intros [e|] _.
  - apply (wp_osNop _ _ _ _ _ (fun _ => True)); [done|done|]. intros r w3 _. by apply wp_ret.
  - apply wp_modify. intros w3 HR3 Hi3 Hh3. apply (HP _ _ HR3) in Hw1. apply syncNames_trans; [done|done|].
    apply (wp_osNop _ _ _ _ _ Q); [done|by apply Hsync|]. intros r w4 Hw4.
    apply wp_ret. intros w5 HR5 _ _. split; [done|]. intros _ _. by apply (HQ _ _ HR5).
Qed.

Definition published (k : nat) (d : string) (w : World) : Prop := pubs w !! k = Some (Some d).
Definition settledAt (k : nat) (d : string) (w : World) : Prop := published k d w /\ (k <= durable w)%nat.

Lemma published_hist k d w w' : hist w w' -> published k d w -> published k d w'.
Proof. intros (Hp & _) Hk. by eapply prefix_lookup_Some. Qed.
Lemma settledAt_hist k d w w' : hist w w' -> settledAt k d w -> settledAt k d w'.
Proof. intros Hh [Hk Hl]. split; [by eapply published_hist|]. destruct Hh as (_ & ? & _). lia. Qed.

(** A write that returned nil has been published, and is durable where directories
    can be synced. *)
Lemma wp_writePrivateFileAtomic st d w :
  sealed key st d ->
  wp (writePrivateFileAtomic posix d) ∅
    (fun r H w => H = ∅ /\ match r with inl _ => True | inr k => posix = true -> settledAt k d w end) w.
Proof.
  intros Hsl. unfold writePrivateFileAtomic. eapply (wp_call laws); [by apply wp_stagePrivateFile|].
  intros [e|t] H w1; [intros ->; by apply wp_ret|]. intros [-> [i Ho]].
  apply (wp_ask laws). intros w2 HR2 _ _. apply (owns_stable _ _ _ _ _ HR2) in Ho. split; [done|].
  assert (Hfail : forall e w, wp (let* c := removeStagedFile t in Ret (Err (e :: option_list c))) {[temp t]}
    (fun (r : result error nat) H w => H = ∅ /\ match r with inl _ => True | inr k => posix = true -> settledAt k d w end) w).
  { intros e w'. eapply (wp_call laws); [apply wp_removeStagedFile|]. intros c H w3 ->. by apply wp_ret. }
  intros [e|] _; [apply Hfail|]. apply wp_act. intros w3 HR3 Hi3 Hh3. apply (owns_stable _ _ _ _ _ HR3) in Ho.
  assert (Hr : (publish t w3).1 = Ok (length (pubs w3))).
  { unfold publish, rename. destruct Ho as [Hs _]. destruct (inv_staged _ Hi3 _ _ Hs) as [-> _]. done. }
  apply (publish_trans t i st d); [done|done|done|done|]. split; [done|]. intros Hpub. unfold result in *. rewrite Hr.
  eapply (wp_call laws).
  { apply (wp_syncDirectory _ (published (length (pubs w3)) d) (settledAt (length (pubs w3)) d));
      [apply stable_hist, published_hist|apply stable_hist, settledAt_hist| |exact Hpub].
    intros w4 _ Hw4. split; [exact Hw4|]. apply lookup_lt_Some in Hw4. cbn. lia. }
  intros [e|] H w4 [-> Hw4]; apply wp_ret; intros w5 [Hh5 _] _ _; (split; [done|]); [done|].
  intros Hp. eapply settledAt_hist; [exact Hh5|]. by apply Hw4.
Qed.

(** ** The store *)

Lemma decode_text st ct : sealed key st ct ->
  exists text, Marshal st = Some text /\ decode key ct = default zeroTokenState (Unmarshal text).
Proof.
  intros (text & nonce & Hm & Hn & ->). exists text. split; [done|]. unfold decode, decrypt. rewrite str_length_app, Hn.
  destruct (Nat.ltb_spec (nonceSize + String.length (Seal key nonce text)) nonceSize) as [Hl|_]; [lia|].
  assert (Ht : str_take nonceSize (nonce +:+ Seal key nonce text) = nonce).
  { rewrite <- Hn. apply str_take_app. }
  assert (Hd : str_drop nonceSize (nonce +:+ Seal key nonce text) = Seal key nonce text).
  { rewrite <- Hn. rewrite <- (Nat.add_0_r (String.length nonce)). apply str_drop_app. }
  rewrite Ht, Hd, open_seal. by destruct (Unmarshal text).
Qed.
Lemma decode_sealed st ct : sealed key st ct -> recovers (decode key ct) st.
Proof.
  intros (text & Hm & ->)%decode_text. split; intros Hst.
  - destruct (unmarshal_same _ _ Hst Hm) as (st' & -> & Hs). exact Hs.
  - by rewrite (unmarshal_marshal _ _ Hst Hm).
Qed.

Lemma logs_trans w w' (K : gset tempRole -> Prop) :
  inv w -> fs w' = fs w -> staging w' = staging w -> pubs w' = pubs w -> durable w' = durable w ->
  (posix = true -> forall st k, (st, k) ∈ saves w' -> (k <= durable w)%nat /\
    exists ct, pubs w !! k = Some (Some ct) /\ recovers (decode key ct) st) ->
  (posix = true -> forall k, k ∈ keys w' -> keyDurable w k) ->
  (forall st, st ∈ loads w' -> st = zeroTokenState \/ exists ct, Some ct ∈ pubs w /\ st = decode key ct) ->
  K ∅ -> trans ∅ w w' K.
Proof.
  intros Hi Ef Es Ep Ed H1 H2 H3 HK. apply trans_keep; [| |set_solver| |done].
  - unfold hist, settled, keyDurable. rewrite Ef, Es, Ep, Ed. split; [done|]. split; [done|].
    split; [|done]. eauto.
  - intros [t] _. cbn. by rewrite Ef, Es.
  - destruct Hi as [I1 I2 I3 I4 I5 I6 I7 I8 I9 I10 I11 I12 I13 I14 I15].
    split; unfold settled, keyDurable in *; rewrite ?Ef, ?Es, ?Ep, ?Ed; done.
Qed.

Lemma wp_Save state w : wp (Save posix key state) ∅ (fun _ H _ => H = ∅) w.
Proof.
  unfold Save. destruct (Marshal state) as [text|] eqn:Em; [|by apply wp_ret].
  unfold encrypt. apply (wp_ask laws). intros w1 _ _ _. split; [done|]. intros [nonce|] Hn; [|by apply wp_ret].
  cbn [bind]. set (ct := nonce +:+ Seal key nonce text).
  assert (Hsl : sealed key state ct) by (exists text, nonce; split; [done|split; [by apply Hn|done]]).
  eapply (wp_call laws); [by apply (wp_writePrivateFileAtomic state)|].
  intros [e|k] H w2 [-> Hk]; [by apply wp_ret|].
  apply wp_modify. intros w3 [Hh3 _] Hi3 _. apply logs_trans; try done; [|apply (inv_keys _ Hi3)|apply (inv_loads _ Hi3)].
  intros Hp st k' [Hin|[= -> ->]%list_elem_of_singleton]%elem_of_app; [by apply (inv_saves _ Hi3 Hp)|].
  destruct (settledAt_hist _ _ _ _ Hh3 (Hk Hp)) as [Hpk Hle]. split; [done|]. exists ct. split; [done|].
  by apply decode_sealed.
Qed.

(** What a reader knows of a file nobody writes to. *)
Definition settledData (i : nat) (d : string) (w : World) : Prop :=
  settled w i /\ exists n, inodes (fs w) !! i = Some n /\ data n = d.

Lemma settledData_hist i d w w' : hist w w' -> settledData i d w -> settledData i d w'.
Proof.
  intros (_ & _ & Hs & _) (Hse & n & Hn & <-). destruct (Hs i n Hse Hn) as (Hse' & n' & Hn' & E).
  split; [done|]. by exists n'.
Qed.

Lemma pubs_hist (ct : option string) w w' : hist w w' -> ct ∈ pubs w -> ct ∈ pubs w'.
Proof. intros ([l Hl] & _). rewrite Hl. intros. apply elem_of_app. by left. Qed.

Lemma wp_loaded st w (P : World -> Prop) :
  stable ∅ P -> P w -> (forall w, P w -> st = zeroTokenState \/ exists ct, Some ct ∈ pubs w /\ st = decode key ct) ->
  wp (loaded st) ∅ (fun _ H _ => H = ∅) w.
Proof.
  intros HP Hw Hst. apply wp_modify. intros w1 HR1 Hi1 _. apply (HP _ _ HR1) in Hw.
  apply logs_trans; try done; [apply (inv_saves _ Hi1)|apply (inv_keys _ Hi1)|].
  intros st' [Hin| ->%list_elem_of_singleton]%elem_of_app; [by apply (inv_loads _ Hi1)|by apply Hst].
Qed.

Lemma wp_Load w : wp (Load key) ∅ (fun _ H _ => H = ∅) w.
Proof.
  assert (Hzero : forall w, wp (loaded zeroTokenState) ∅ (fun _ H _ => H = ∅) w).
  { intros w'. apply (wp_loaded _ _ (fun _ => True)); [done|done|by left]. }
  unfold Load. apply (wp_osGet _ _ _ _ _ _ (fun _ => True)); [done|done| |].
  { intros [| |c] w1 _; [apply Hzero|by apply wp_ret|by apply wp_ret]. }
  intros w1 _ Hi1. unfold open, lookupName.
  destruct (current (fs w1) !! tokenFileName) as [i|] eqn:Ec; [|apply Hzero].
  destruct (inv_final _ Hi1 _ _ _ (or_introl eq_refl) (or_introl eq_refl) Ec) as (Hse & n & Hn & _).
  rewrite Hn. rewrite (inv_regular _ Hi1 _ _ _ (or_introl eq_refl) Ec Hn).
  apply (wp_osGet _ _ _ _ _ _ (fun w => settledData i (data n) w /\ Some (data n) ∈ pubs w)).
  - apply stable_hist. intros w2 w3 Hh [H1 H2]. split; [by eapply settledData_hist|by eapply pubs_hist].
  - split; [split; [done|by exists n]|]. apply last_Some_elem_of. rewrite (inv_last _ Hi1).
    unfold content, contentAt. rewrite Ec. cbn. by rewrite Hn.
  - intros [| |c] w2 _; [apply Hzero|by apply wp_ret|by apply wp_ret].
  - intros w2 [(_ & n' & Hn' & Ed) Hp] _. unfold statInode. rewrite Hn'. rewrite Ed.
    apply (wp_loaded _ _ (fun w => Some (data n) ∈ pubs w)); [apply stable_hist, pubs_hist|done|].
    intros w3 Hw3. right. by exists (data n).
Qed.

Lemma wp_Delete w : wp Delete ∅ (fun _ H _ => H = ∅) w.
Proof.
  unfold Delete. apply (wp_ask laws). intros w1 _ _ _. split; [done|].
  intros [[| |c]|] _; cbn [bind]; try by apply wp_ret.
  apply wp_act. intros w2 _ Hi2 Hh2. apply removeTokens_trans; [done|done|].
  repeat case_match; by apply wp_ret.
Qed.

(** ** The key *)

Definition keyFile (i : nat) (k : string) (w : World) : Prop :=
  current (fs w) !! keyFileName = Some i /\ settledData i k w.

Lemma keyFile_hist i k w w' : hist w w' -> keyFile i k w -> keyFile i k w'.
Proof. intros Hh [Hc Hs]. split; [|by eapply settledData_hist]. destruct Hh as (_ & _ & _ & Hk & _). auto. Qed.

Lemma keyFile_now i k w : keyFile i k w -> keyNow k w.
Proof. intros (Hc & Hs & n & Hn & E). by exists i, n. Qed.

Lemma str_take_full n s : String.length s = n -> str_take n s = s.
Proof. intros <-. rewrite <- (str_app_nil_r s) at 2. apply str_take_app. Qed.

(** Reading the key once its file is open. *)
Lemma wp_readOpened i k w :
  String.length k = keySize -> keyFile i k w ->
  wp (readOpened posix i) ∅ (fun r H w => H = ∅ /\ match r with inr k => keyNow k w | inl _ => True end) w.
Proof.
  intros El Hk. assert (Hst : stable ∅ (keyFile i k)) by apply stable_hist, keyFile_hist.
  unfold readOpened. eapply (wp_call laws).
  { apply (wp_secureFile _ _ _ (keyFile i k)); [done|done|]. intros w1 (Hc & Hs & n & Hn & Ed).
    exists n. split; [done|]. split; [by left|]. split; [done|]. split; [done|].
    exists (n <| mode := filePerm |>). cbn. by rewrite lookup_insert_eq. }
  intros [e|] H w1 [-> Hk1]; [by apply wp_ret|].
  apply (wp_osGet _ _ _ _ _ _ (keyFile i k)); [done|done|intros e w2 _; by apply wp_ret|].
  intros w2 Hk2 _. destruct Hk2 as (Hc & Hs & n & Hn & Ed). unfold statInode at 1. rewrite Hn.
  rewrite Ed, El, str_take_full by done. cbn [Nat.ltb].
  apply (wp_osGet _ _ _ _ _ _ (keyFile i k)); [done|by split; [|split; [|exists n]]|intros e w3 _; by apply wp_ret|].
  intros w3 Hk3 _. destruct (statInode i (fs w3)) as [e|m]; [by apply wp_ret|]. case_match; [by apply wp_ret|].
  apply wp_ret. intros w4 HR4 _ _. split; [done|]. apply (keyFile_now i). by apply (Hst _ _ HR4).
Qed.

Lemma wp_readFallbackKey w :
  wp (readFallbackKey posix) ∅ (fun r H w => H = ∅ /\ match r with inr k => keyNow k w | inl _ => True end) w.
Proof.
  unfold readFallbackKey. apply (wp_osGet _ _ _ _ _ _ (fun _ => True)); [done|done| |].
  { intros e w1 _. by apply wp_ret. }
  intros w1 _ Hi1. unfold lookupName. destruct (current (fs w1) !! keyFileName) as [i|] eqn:Ec; [|by apply wp_ret].
  destruct (inv_final _ Hi1 _ _ _ (or_introl eq_refl) (or_intror eq_refl) Ec) as (Hse & b & Hb & _).
  rewrite Hb. destruct (kind b); try by apply wp_ret.
  destruct (Nat.eqb_spec (String.length (data b)) keySize) as [El|]; [|by apply wp_ret]. cbn [negb].
  assert (Hk : keyFile i (data b) w1) by (split; [done|split; [done|by exists b]]).
  assert (Hst : stable ∅ (keyFile i (data b))) by apply stable_hist, keyFile_hist.
  apply (wp_osGet _ _ _ _ _ _ (keyFile i (data b))); [done|done|intros e w2 _; by apply wp_ret|].
  clear w1 Hi1 Ec Hb Hse Hk. intros w2 Hk _.
  destruct (open keyFileName (fs w2)) as [e|file]; [by apply wp_ret|].
  apply (wp_osGet _ _ _ _ _ _ (keyFile i (data b))); [done|done|intros e w3 _; by apply wp_ret|].
  clear w2 Hk. intros w3 Hk _. destruct (statInode file (fs w3)) as [e|after]; [by apply wp_ret|].
  destruct (bool_decide (kind after = Regular)); [|by apply wp_ret]. cbn [negb orb].
  destruct (Nat.eqb_spec i file) as [<-|]; [|by apply wp_ret]. cbn [negb orb].
  case_match; [by apply wp_ret|]. by apply (wp_readOpened _ (data b)).
Qed.

Definition keyPost (r : result error string) (H : gset tempRole) (w : World) : Prop :=
  H = ∅ /\ match r with inr k => posix = true -> keyDurable w k | inl _ => True end.

Lemma keyNow_sync k w : keyNow k w -> keyDurable (syncNames w) k.
Proof.
  intros (i & n & Hi & _ & Hn & <-) ns [->|Hin]; [|by apply elem_of_nil in Hin].
  unfold contentAt. cbn. rewrite Hi. cbn. by rewrite Hn.
Qed.

(** The key file holds the key: syncing the directory makes it durable. *)
Lemma wp_syncKey k w :
  keyNow k w -> wp (syncDirectory posix) ∅ (fun e H w => H = ∅ /\ (e = None -> posix = true -> keyDurable w k)) w.
Proof.
  intros Hk. apply (wp_syncDirectory _ (keyNow k) (fun w => keyDurable w k)); [| | |done].
  - apply stable_hist. intros w1 w2. apply keyNow_hist.
  - apply stable_hist. by intros w1 w2 (_ & _ & _ & _ & Hd) ?; apply Hd.
  - intros w1 _. apply keyNow_sync.
Qed.

Lemma wp_publishFallbackKey k w :
  wp (publishFallbackKey posix k) ∅ (fun e H w => H = ∅ /\ (e = None -> posix = true -> keyDurable w k)) w.
Proof.
  unfold publishFallbackKey. eapply (wp_call laws); [by apply wp_stagePrivateFile|].
  intros [e|t] H w1; [intros ->; by apply wp_ret|]. intros [-> [i Ho]].
  apply (wp_ask laws). intros w2 HR2 _ _. apply (owns_stable _ _ _ _ _ HR2) in Ho. split; [done|].
  assert (Hfail : forall e w, wp (let* c := removeStagedFile t in
      match c with Some c => Ret (Some [c]) | None => Ret (Some [e]) end) {[temp t]}
    (fun (e : option error) H w => H = ∅ /\ (e = None -> posix = true -> keyDurable w k)) w).
  { intros e w'. eapply (wp_call laws); [apply wp_removeStagedFile|]. intros [c|] H w3 ->; by apply wp_ret. }
  intros [e|] _; [apply Hfail|]. apply wp_act. intros w3 HR3 Hi3 Hh3. apply (owns_stable _ _ _ _ _ HR3) in Ho.
  apply (linkKey_trans t i k); [done|done|done| |unfold result in *; intros e ->; apply Hfail].
  intros Hr Hnow. unfold result in *. rewrite Hr. apply (wp_call_hist laws _ _ _ _ _ _ (wp_removeStagedFile t _)).
  intros [c|] H w4 Hh4 ->; [by apply wp_ret|].
  eapply (wp_call laws); [apply wp_syncKey, (keyNow_hist _ _ _ Hh4 Hnow)|].
  intros [e|] H w5 [-> Hk]; apply wp_ret; intros w6 [Hh6 _] _ _; (split; [done|]); [done|].
  intros _ Hp. destruct Hh6 as (_ & _ & _ & _ & Hd). by apply Hd, Hk.
Qed.

(** Reading a key and making it durable. *)
Lemma wp_syncRead k w :
  keyNow k w ->
  wp (let* e := syncDirectory posix in match e with Some e => Ret (Err [e]) | None => Ret (Ok k) end) ∅ keyPost w.
Proof.
  intros Hk. eapply (wp_call laws); [by apply wp_syncKey|].
  intros [e|] H w1 [-> Hd]; apply wp_ret; intros w2 [Hh2 _] _ _; (split; [done|]); [done|].
  intros Hp. destruct Hh2 as (_ & _ & _ & _ & Hx). by apply Hx, Hd.
Qed.

Lemma wp_readAndSync w : wp (readAndSync posix) ∅ keyPost w.
Proof.
  unfold readAndSync. eapply (wp_call laws); [apply wp_readFallbackKey|].
  intros [e|k] H w1 [-> Hk]; [by apply wp_ret|by apply wp_syncRead].
Qed.

Lemma wp_fallbackKey w : wp (fallbackKey posix) ∅ keyPost w.
Proof.
  unfold fallbackKey. eapply (wp_call laws); [apply wp_readFallbackKey|].
  intros [e|k] H w1 [-> Hk]; [|by apply wp_syncRead].
  destruct (negb (errorIs e ENotExist)); [by apply wp_ret|].
  apply (wp_ask laws). intros w2 _ _ _. split; [done|]. intros [k|] _; [|by apply wp_ret].
  eapply (wp_call laws); [apply wp_publishFallbackKey|]. intros [e'|] H w3 [-> Hk3].
  - destruct (negb (errorIs e' EExist)); [by apply wp_ret|apply wp_readAndSync].
  - apply wp_ret. intros w4 [Hh4 _] _ _. split; [done|]. intros Hp. destruct Hh4 as (_ & _ & _ & _ & Hd).
    by apply Hd, Hk3.
Qed.

Abbreviation returnsClean p w := (wp p ∅ (fun _ H _ => H = ∅) w).

Lemma wp_loggedKey w : returnsClean (let* r := fallbackKey posix in modify (logKey r) ;;; Ret r) w.
Proof.
  eapply (wp_call laws); [apply wp_fallbackKey|]. intros r H w1 [-> Hk].
  apply wp_modify. intros w2 [Hh2 _] Hi2 Hh. destruct r as [e|k]; cbn [logKey].
  { apply (trans_refl laws); [done|done|by apply wp_ret]. }
  apply logs_trans; try done; [apply (inv_saves _ Hi2)| |apply (inv_loads _ Hi2)].
  intros Hp k' [Hin| ->%list_elem_of_singleton]%elem_of_app; [by apply (inv_keys _ Hi2 Hp)|].
  destruct Hh2 as (_ & _ & _ & _ & Hd). by apply Hd, Hk.
Qed.

Lemma wp_deriveKey appID w : returnsClean (deriveKey posix appID) w.
Proof.
  unfold deriveKey. apply (wp_ask laws). intros w1 _ _ _. split; [done|].
  intros [mid|] _; [destruct (String.eqb mid "")|]; [apply wp_loggedKey|by apply wp_ret|apply wp_loggedKey].
Qed.

Lemma wp_securePath perm w : returnsClean (securePath posix perm) w.
Proof.
  unfold securePath. apply (wp_ask laws). intros w1 _ _ _. split; [done|]. intros [e|] _; [by apply wp_ret|].
  apply wp_modify. intros w2 _ Hi2 _.
  apply logs_trans; try done; [apply (inv_saves _ Hi2)|apply (inv_keys _ Hi2)|apply (inv_loads _ Hi2)|].
  destruct (negb posix); [by apply wp_ret|].
  apply (wp_ask laws). intros w3 _ _ _. split; [done|]. intros [e|] _; [by apply wp_ret|].
  apply (wp_read laws). intros w4 _ _ _. destruct (dirMode w4 =? perm)%N; by apply wp_ret.
Qed.

Lemma wp_New appID w : returnsClean (New posix appID) w.
Proof.
  unfold New. destruct (String.eqb (TrimSpace appID) ""); [by apply wp_ret|].
  apply (wp_ask laws). intros w1 _ _ _. split; [done|]. intros [e|] _; [by apply wp_ret|].
  eapply (wp_call laws); [apply wp_securePath|]. intros [e|] H w2 ->; [by apply wp_ret|apply wp_deriveKey].
Qed.

Lemma fileApi_ok p w : fileApi posix key p -> inv w -> returnsClean p w.
Proof.
  intros Hp _.
  assert (Hs : forall {A} (q : prog A), returnsClean q w -> returnsClean (let* _ := q in skip) w).
  { intros A q Hq. eapply (wp_call laws); [exact Hq|]. intros _ H w1 ->. by apply wp_ret. }
  destruct Hp; apply Hs; [apply wp_Save|apply wp_Load|apply wp_Delete|apply wp_New].
Qed.

End FilestoreProps.
