(* ===== verification/FilestoreCrash.v ===== *)
(** Crashes and restarts of the file store: what a crash at any moment leaves in
    the directory, and what the users of the store see afterwards. *)
From S2P Require Import Prelude Proc RelyGuarantee Schedules GoTime Errors Tokens GoStrings UrlProps Filesystem Filestore FilestoreInv FilestoreProps.

Section FilestoreCrash.
  Context `{Cod : Codec, HC : !CodecLaws} (posix : bool) (key : string) (origin : option string).

Abbreviation inv := (FilestoreInv.inv posix key origin).

(** A directory before the store uses it: nothing is staged or unsynced, its names
    refer to files, the ones of the store to synced files, and the token file is
    a regular one that holds [origin]. *)
Record fresh (w : World) : Prop := {
  fresh_staging : staging w = ∅;
  fresh_unsynced : unsynced (fs w) = [];
  fresh_names : forall name i, current (fs w) !! name = Some i -> is_Some (inodes (fs w) !! i);
  fresh_inodes : forall i, is_Some (inodes (fs w) !! i) -> (i < nextInode (fs w))%nat;
  fresh_final : forall name i n, final name -> current (fs w) !! name = Some i -> inodes (fs w) !! i = Some n ->
    synced n = true /\ (name = tokenFileName -> kind n = Regular);
  fresh_origin : content (fs w) tokenFileName = origin;
  fresh_logs : pubs w = [origin] /\ durable w = 0%nat /\ saves w = [] /\ keys w = [] /\ loads w = []
}.

(** The world after a crash: the goroutines and their temporary files are
    forgotten, the history is kept. *)
Definition boot (w : World) (f : FS) : World :=
  w <| fs := f |> <| staging := ∅ |> <| pubs := pubs w ++ [content f tokenFileName] |>
    <| durable := length (pubs w) |>.

Abbreviation fileConfig := (@Proc.config World tempRole _ _ fileQuery).
Definition fileReachable (w0 : World) : fileConfig -> Prop :=
  reachable env (fileApi posix key) answers bound w0.

(** The worlds in which the store's users start, after any number of crashes. *)
Inductive booted : World -> Prop :=
| booted_fresh w : fresh w -> booted w
| booted_crash w0 c f : booted w0 -> fileReachable w0 c -> crashed (fs (world c)) f -> booted (boot (world c) f).

Lemma fresh_inv w : fresh w -> inv w /\ staging w = ∅.
Proof.
  intros [Hs Hu Hn Hi Hf Ho (Hp & Hd & Hsv & Hk & Hl)]. split; [|done].
  assert (Hpos : forall ns, possible (fs w) ns -> ns = current (fs w)).
  { intros ns [->|Hin]; [done|]. rewrite Hu in Hin. by apply elem_of_nil in Hin. }
  split; rewrite ?Hs, ?Hp, ?Hd, ?Hsv, ?Hk, ?Hl; try done.
  - intros ns name i ->%Hpos. apply Hn.
  - intros ns name i ->%Hpos Hfi Hi'. split; [by intros t; rewrite Hs|].
    destruct (Hn _ _ Hi') as [n Hn']. exists n. split; [done|]. by apply (Hf name i n).
  - intros ns ->%Hpos. exists 0%nat. split; [done|]. cbn. by rewrite <- Ho.
  - cbn. by rewrite <- Ho.
  - by intros ns i ->%Hpos.
  - intros _ st k Hin. by apply elem_of_nil in Hin.
  - intros _ k Hin. by apply elem_of_nil in Hin.
  - intros st Hin. by apply elem_of_nil in Hin.
  - intros ns i n ->%Hpos Hi' Hn'. by apply (Hf tokenFileName i n); [left|..].
  - intros c ->%list_elem_of_singleton. right. by left.
Qed.

(** What a crash leaves of a final name. *)
Lemma crashed_final w f name :
  inv w -> crashed (fs w) f -> final name ->
  exists ns, possible (fs w) ns /\ content f name = contentAt (fs w) ns name.
Proof.
  intros Hi Hc Hf. apply crashed_content; [done|]. intros ns i n Hns Hi' Hn.
  destruct (inv_final _ Hi _ _ _ Hns Hf Hi') as (_ & n' & Hn' & Hs). congruence.
Qed.

Lemma crashed_token w f :
  inv w -> crashed (fs w) f ->
  exists k, (durable w <= k)%nat /\ pubs w !! k = Some (content f tokenFileName).
Proof.
  intros Hi Hc. destruct (crashed_final _ _ tokenFileName Hi Hc (or_introl eq_refl)) as (ns & Hns & ->).
  by apply (inv_pubs _ Hi).
Qed.

Lemma crashed_whole w f : inv w -> crashed (fs w) f -> whole key origin (content f tokenFileName).
Proof.
  intros Hi Hc. destruct (crashed_token _ _ Hi Hc) as (k & _ & Hk). apply (inv_whole _ Hi).
  by eapply list_elem_of_lookup_2.
Qed.

(** A restart finds the invariant again. *)
Lemma boot_inv w f : inv w -> crashed (fs w) f -> inv (boot w f).
Proof.
  intros Hi Hc. pose proof (crashed_whole _ _ Hi Hc) as Hwh. pose proof (fun n => crashed_final w f n Hi Hc) as Hcf.
  destruct Hc as (Hns & Hu & Hnx & Hin). destruct Hi as [I1 I2 I3 I4 I5 I6 I7 I8 I9 I10 I11 I12 I13 I14 I15].
  assert (Hpos : forall ns, possible f ns -> ns = current f).
  { intros ns [->|Hx]; [done|]. rewrite Hu in Hx. by apply elem_of_nil in Hx. }
  assert (Hkeep : forall i, is_Some (inodes (fs w) !! i) <-> is_Some (inodes f !! i)).
  { intros i. specialize (Hin i). destruct (inodes (fs w) !! i) as [n|]; [|by rewrite Hin].
    destruct (synced n); [rewrite Hin|]; naive_solver. }
  assert (Hsync : forall name i, final name -> current f !! name = Some i ->
    exists n, inodes (fs w) !! i = Some n /\ inodes f !! i = Some n /\ synced n = true).
  { intros name i Hf Hi'. destruct (I6 _ _ _ Hns Hf Hi') as (_ & n & Hn & Hs). exists n. split; [done|].
    specialize (Hin i). by rewrite Hn, Hs in Hin. }
  split; unfold boot; cbn -[content contentAt tokenFileName]; try done.
  - intros ns name i ->%Hpos Hi'. apply Hkeep. by eapply I1.
  - intros i Hi'. rewrite Hnx. by apply I2, Hkeep.
  - intros ns name i ->%Hpos Hf Hi'. split; [done|]. destruct (Hsync _ _ Hf Hi') as (n & _ & ? & ?). by exists n.
  - intros ns ->%Hpos. exists (length (pubs w)). split; [done|]. by apply list_lookup_middle.
  - by rewrite last_app_singleton.
  - by intros ns i ->%Hpos.
  - intros Hp st k Hst. destruct (I10 Hp st k Hst) as (Hk & ct & Hct & Hd). split.
    + apply lookup_lt_Some in Hct. lia.
    + exists ct. split; [by apply lookup_app_l_Some|done].
  - intros Hp k Hk ns ->%Hpos. destruct (Hcf keyFileName (or_intror eq_refl)) as (ns & Hns' & E).
    etrans; [exact E|]. by apply (I11 Hp k Hk).
  - intros st Hst. destruct (I12 st Hst) as [?|(ct & Hct & ?)]; [by left|right]. exists ct.
    split; [|done]. apply elem_of_app. by left.
  - intros ns i n ->%Hpos Hi' Hn. destruct (Hsync _ _ (or_introl eq_refl) Hi') as (n' & Hn' & Hf' & _).
    assert (n' = n) as -> by congruence. by eapply I14.
  - intros c [Hc| ->%list_elem_of_singleton]%elem_of_app; [by apply I15|done].
Qed.

Lemma fileReachable_ok w0 c :
  inv w0 -> staging w0 = ∅ -> fileReachable w0 c ->
  config_ok hist prot inv linv rank role taken pre answers bound c.
Proof.
  intros Hi Hs. apply (reachable_ok file_laws); [|done|done|].
  - intros p w Hp Hw. by apply fileApi_ok.
  - intros [t] _. cbn. rewrite Hs, lookup_empty. apply bool_decide_eq_false_2. by intros [].
Qed.

Lemma booted_inv w : booted w -> inv w /\ staging w = ∅.
Proof.
  induction 1 as [w Hw|w0 c f _ [Hi Hs] Hr Hc]; [by apply fresh_inv|]. split; [|done].
  apply boot_inv; [|done]. destruct (fileReachable_ok _ _ Hi Hs Hr) as [own Hown]. apply (ok_inv _ _ Hown).
Qed.

(** In every configuration after every history of crashes. *)
Lemma lived_inv w0 c : booted w0 -> fileReachable w0 c -> inv (world c).
Proof.
  intros [Hi Hs]%booted_inv Hr. destruct (fileReachable_ok _ _ Hi Hs Hr) as [own Hown]. apply (ok_inv _ _ Hown).
Qed.

End FilestoreCrash.

(** C20: Crash safety of the token file.  At every moment of every interleaving of
    Save, Load, Delete and New, after any number of earlier crashes, a crash leaves
    no token file, the one there was at first, or a whole file that a Save wrote,
    never a part of one.  Where directories can be synced, what a Save that
    returned nil stored is what the crash leaves, unless a later Save or Delete
    replaced it: the file decodes to the same tokens and instants when JSON can
    represent the state, and to the very same state when JSON keeps it. *)
Theorem token_file_survives `{Cod : Codec, HC : !CodecLaws} posix key origin w0 c f :
  booted posix key origin w0 -> fileReachable posix key w0 c -> crashed (fs (world c)) f ->
  whole key origin (content f tokenFileName) /\
  exists k, (durable (world c) <= k)%nat /\ pubs (world c) !! k = Some (content f tokenFileName) /\
    (posix = true -> forall st j, (st, j) ∈ saves (world c) -> (j <= k)%nat /\
       (k = j -> exists ct, content f tokenFileName = Some ct /\ recovers (decode key ct) st)).
Proof.
  intros Hb Hr Hc. pose proof (lived_inv _ _ _ _ _ Hb Hr) as Hi.
  split; [by eapply crashed_whole|]. destruct (crashed_token _ _ _ _ _ Hi Hc) as (k & Hk & Hp).
  exists k. split; [done|]. split; [done|]. intros Hpx st j Hin.
  destruct (inv_saves _ Hi Hpx st j Hin) as (Hj & ct & Hct & Hd). split; [lia|].
  intros ->. exists ct. split; [congruence|exact Hd].
Qed.

(** C21: One fallback key.  Where directories can be synced, all the keys New ever
    returned from the key file, by any caller and before or after any crash, are
    the same key, and the file still holds it after the next crash. *)
Theorem fallback_key_unique `{Cod : Codec, HC : !CodecLaws} key origin w0 c f k :
  booted true key origin w0 -> fileReachable true key w0 c -> crashed (fs (world c)) f ->
  k ∈ keys (world c) -> content f keyFileName = Some k /\ forall k', k' ∈ keys (world c) -> k' = k.
Proof.
  intros Hb Hr Hc Hk. pose proof (lived_inv _ _ _ _ _ Hb Hr) as Hi.
  destruct (crashed_final _ _ _ _ _ _ Hi Hc (or_intror eq_refl)) as (ns & Hns & E).
  pose proof (inv_keys _ Hi eq_refl k Hk ns Hns) as Hkk. split; [by rewrite E|].
  intros k' Hk'. pose proof (inv_keys _ Hi eq_refl k' Hk' ns Hns). congruence.
Qed.

(** Load never invents a state.  Whatever a Load returned without an error, in
    any interleaving and after any crashes, is the zero state, what the first
    token file decrypts to, or what a Save sealed: the same tokens and instants when
    JSON can represent them, that very state when JSON keeps it. *)
Theorem load_returns_saved `{Cod : Codec, HC : !CodecLaws} posix key origin w0 c st :
  booted posix key origin w0 -> fileReachable posix key w0 c -> st ∈ loads (world c) ->
  st = zeroTokenState \/ (exists ct, origin = Some ct /\ st = decode key ct) \/
  exists saved ct, sealed key saved ct /\ st = decode key ct /\ recovers st saved.
Proof.
  intros Hb Hr Hst. pose proof (lived_inv _ _ _ _ _ Hb Hr) as Hi.
  destruct (inv_loads _ Hi st Hst) as [->|(ct & Hct & ->)]; [by left|right].
  destruct (inv_whole _ Hi _ Hct) as [?|[Ho|(saved & ct' & [= <-] & Hs)]]; [done|left; by exists ct|right].
  exists saved, ct. split; [done|]. split; [done|]. by apply decode_sealed.
Qed.

(** ** A concrete run *)

Definition withAccess (text : string) : TokenState := mkTokenState text "" "" zeroTime zeroTime.
(** A codec that keeps the access token, and encrypts nothing. *)
#[local] Instance exCodec : Codec := {
  Marshal st := Some (AccessToken st);
  Unmarshal text := Some (withAccess text);
  Seal key nonce text := text;
  Open key nonce text := Some text;
  Sum256 text := text
}.
#[local] Instance exCodecLaws : CodecLaws.
Proof.
  refine {| represented st := st = withAccess (AccessToken st); roundtrips st := st = withAccess (AccessToken st) |}; [| |done].
  - intros s text Hs [= <-]. exists s. cbn. by rewrite <- Hs.
  - intros s text Hs [= <-]. cbn. by rewrite <- Hs.
Defined.

Fixpoint bytes (n : nat) : string := match n with O => "" | S n => "a" +:+ bytes n end.
Lemma bytes_length n : String.length (bytes n) = n.
Proof. induction n as [|n IH]; [done|]. cbn [bytes]. by rewrite str_length_app, IH. Qed.
Definition fileOracle : oracle (W := World) (Q := fileQuery) := fun X q w =>
  match q in fileQuery X return option X with
  | QFault _ => Some None
  | QWrite _ => Some None
  | QTempName pattern => Some (inr (pattern +:+ "1"))
  | QRandom len => Some (Some (bytes len))
  | QMachineID => Some None
  end.
#[export] Instance file_bound_decision w : Decision (bound w).
Proof. left. exact I. Defined.

Definition emptyDir : World := mkWorld (mkFS ∅ ∅ [] 0) 0 ∅ [None] 0 [] [] [].
Definition exKey : string := bytes 32.
Definition exState : TokenState := withAccess "at".
Abbreviation exFileConfig := (@Proc.config World tempRole _ _ fileQuery).
Abbreviation runFile := (exec_thread bound fileOracle 60).
Definition exSaved : exFileConfig :=
  runFile 2 0 (call 2 (let* _ := Save true exKey exState in skip)
    (runFile 1 0 (call 1 (let* _ := New true "app" in skip) (init_config emptyDir)))).
Definition exLoaded : exFileConfig := runFile 3 0 (call 3 (let* _ := Load exKey in skip) exSaved).

Abbreviation exFileReachable := (fileReachable true exKey emptyDir).

Lemma emptyDir_booted : booted true exKey None emptyDir.
Proof.
  apply booted_fresh. split; try done.
  - intros i. cbn. rewrite lookup_empty. by intros [].
Qed.

Lemma file_run_reachable t p c :
  fileApi true exKey p -> exFileReachable c -> exFileReachable (runFile t 0 (call t p c)).
Proof.
  intros Hp Hc. apply exec_thread_reachable; [|by apply call_reachable].
  intros X q w x. destruct q; try done. intros [= <-] s [= <-].
  apply bytes_length.
Qed.

Lemma exSaved_reachable : exFileReachable exSaved.
Proof. do 2 (apply file_run_reachable; [constructor|]). apply rtc_refl. Qed.
Lemma exLoaded_reachable : exFileReachable exLoaded.
Proof. apply file_run_reachable; [constructor|apply exSaved_reachable]. Qed.

(** A crash that loses nothing. *)
Definition intact (f : FS) : FS := f <| unsynced := [] |>.
Lemma intact_crashed f : crashed f (intact f).
Proof.
  split; [by left|]. split; [done|]. split; [done|]. intros i. cbn.
  destruct (inodes f !! i) as [n|]; [|done]. destruct (synced n); [done|by exists n].
Qed.

Lemma token_file_survives_witness :
  exists ct, content (intact (fs (world exSaved))) tokenFileName = Some ct /\ decode exKey ct = exState.
Proof.
  destruct (token_file_survives true exKey None emptyDir exSaved _ emptyDir_booted exSaved_reachable
    (intact_crashed _)) as (_ & k & _ & Hk & Hs).
  assert (E : saves (world exSaved) = [(exState, 1%nat)]) by (vm_compute; reflexivity).
  destruct (Hs eq_refl exState 1%nat ltac:(rewrite E; by apply list_elem_of_singleton)) as [_ Hd].
  assert (Ek : k = 1%nat).
  { apply lookup_lt_Some in Hk as Hl.
    assert (En : length (pubs (world exSaved)) = 2%nat) by (vm_compute; reflexivity).
    rewrite En in Hl. destruct k as [|[|k]]; [|reflexivity|lia].
    exfalso. revert Hk. vm_compute. discriminate. }
  destruct (Hd Ek) as (ct & Hct & _ & Hdec). exists ct. split; [exact Hct|]. apply Hdec. reflexivity.
Defined.

Lemma fallback_key_unique_witness :
  content (intact (fs (world exSaved))) keyFileName = Some exKey /\
  (forall k', k' ∈ keys (world exSaved) -> k' = exKey).
Proof.
  apply (fallback_key_unique exKey None emptyDir exSaved _ exKey emptyDir_booted exSaved_reachable (intact_crashed _)).
  assert (E : keys (world exSaved) = [exKey]) by (vm_compute; reflexivity).
  rewrite E. by apply list_elem_of_singleton.
Defined.

Lemma load_returns_saved_witness :
  loads (world exLoaded) = [exState] /\ exists saved ct, sealed exKey saved ct /\ exState = decode exKey ct.
Proof.
  assert (E : loads (world exLoaded) = [exState]) by (vm_compute; reflexivity). split; [exact E|].
  destruct (load_returns_saved true exKey None emptyDir exLoaded exState emptyDir_booted exLoaded_reachable)
    as [?|[(ct & ? & _)|(saved & ct & Hs & Hd & _)]]; [rewrite E; by apply list_elem_of_singleton|done|done|].
  exists saved, ct. split; [exact Hs|exact Hd].
Defined.
