(* ===== verification/Filebackend.v ===== *)
(** The file store as the persistence of one process: [Save], [Load] and [Delete] of
    [filestore] as the methods of the interface [TokenPersistence], each run to its
    end without another user of the directory in between, while any system call may
    fail. *)
From Stdlib Require Import Ascii.
From S2P Require Import Prelude Proc RelyGuarantee Schedules GoTime Errors Tokens GoStrings UrlProps Filesystem.
From S2P Require Import Filestore FilestoreInv FilestoreProps FilestoreCrash.

(** ** The environment of one process *)

(** What the operating system does at a question: whether the call fails (other than
    because of the file's existence, which the directory decides), how much of a
    write it does before it fails, the suffix of a temporary name, random bytes. *)
Record answer := mkAnswer {
  aFault : option string;
  aWrite : option (string * nat);
  aTemp : string + string;
  aRandom : option string
}.
Definition script : Type := nat -> answer.

(** [len] bytes. *)
Fixpoint fit (len : nat) (s : string) : string :=
  match len, s with
  | O, _ => ""
  | S len, String c s => String c (fit len s)
  | S len, EmptyString => String "0" (fit len "")
  end.
Lemma fit_length len : forall s, String.length (fit len s) = len.
Proof. induction len as [|len IH]; intros [|c s]; cbn; auto. Qed.

(** Longer than every name in use. *)
Definition longest (names : namespace) : nat := max_list (String.length <$> (map_to_list names).*1).

(** [os.CreateTemp] retries until the name is not in use. *)
Definition tempName (pattern suffix : string) (w : World) : string :=
  if bool_decide (current (fs w) !! (pattern +:+ suffix) = None) then pattern +:+ suffix
  else pattern +:+ fit (S (longest (current (fs w)))) "".

Definition answerOf (a : answer) (w : World) {X} (q : fileQuery X) : X :=
  match q with
  | QFault _ => EOther <$> aFault a
  | QWrite _ => (fun '(e, n) => (EOther e, n)) <$> aWrite a
  | QTempName pattern => match aTemp a with inl e => inl (EOther e) | inr suffix => inr (tempName pattern suffix w) end
  | QRandom len => fit len <$> aRandom a
  | QMachineID => None
  end.

(** Running a program without loops and mutexes, from a position of the script. *)
Fixpoint exec {A} (s : script) (p : prog A) (w : World) (n : nat) : option (A * World * nat) :=
  match p with
  | Ret a => Some (a, w, n)
  | Do f k => exec s (k (f w).1) (f w).2 n
  | Ask q ready k =>
      let x := answerOf (s n) w q in
      match ready w x with Some w' => exec s (k x) w' (S n) | None => None end
  | _ => None
  end.

Lemma exec_bind {A B} s (p : prog A) (f : A -> prog B) : forall w n,
  exec s (bind p f) w n = match exec s p w n with Some (a, w', n') => exec s (f a) w' n' | None => None end.
Proof.
  induction p as [A a|A X g k IH| | |A X q ready k IH| | ]; intros w n; cbn; [done|apply IH|done|done| |done|done].
  destruct (ready w _); [apply IH|done].
Qed.

(** *** It always ends *)

Definition total {A} (p : prog A) : Prop := forall s w n, is_Some (exec s p w n).

Lemma total_bind {A B} (p : prog A) (f : A -> prog B) : total p -> (forall a, total (f a)) -> total (bind p f).
Proof. intros Hp Hf s w n. rewrite exec_bind. destruct (Hp s w n) as [[[a w'] n'] ->]. apply Hf. Qed.
Lemma total_ret {A} (a : A) : total (Ret a).
Proof. intros s w n. by eexists. Qed.
Lemma total_act {X} (f : World -> X * World) : total (act f).
Proof. intros s w n. by eexists. Qed.
Lemma total_modify (f : World -> World) : total (modify f).
Proof. intros s w n. by eexists. Qed.
Lemma total_read {X} (f : World -> X) : total (read f).
Proof. intros s w n. by eexists. Qed.
Lemma total_ask {X} (q : fileQuery X) : total (ask q).
Proof. intros s w n. by eexists. Qed.

Create HintDb total.
#[local] Hint Resolve total_ret total_act total_modify total_read total_ask : total.
Ltac total := repeat (solve [auto with total] || case_match || apply total_bind || intro).

Lemma HasPrefix_app pattern s : HasPrefix (pattern +:+ s) pattern = true.
Proof.
  unfold HasPrefix. induction pattern as [|c pattern IH]; [by destruct s|]. rewrite str_app_cons. cbn.
  by destruct (ascii_dec c c).
Qed.

Lemma longest_fresh (names : namespace) pattern : names !! (pattern +:+ fit (S (longest names)) "") = None.
Proof.
  set (name := pattern +:+ _). destruct (names !! name) as [i|] eqn:Ei; [exfalso|done].
  assert (String.length name <= longest names)%nat as Hl.
  { apply max_list_elem_of_le. apply list_elem_of_fmap_2. apply list_elem_of_fmap. exists (name, i).
    split; [done|]. by apply elem_of_map_to_list. }
  unfold name in Hl. rewrite str_length_app, fit_length in Hl. lia.
Qed.

Lemma tempName_ready pattern suffix w : is_Some (tempReady pattern w (inr (tempName pattern suffix w))).
Proof.
  unfold tempReady, tempName. case_bool_decide; rewrite HasPrefix_app; cbn [andb];
    (rewrite bool_decide_eq_true_2; [by eexists|]); [done|apply longest_fresh].
Qed.

Lemma total_CreateTemp pattern : total (CreateTemp pattern).
Proof.
  unfold CreateTemp. apply total_bind; [|by total]. intros s w n. unfold select. cbn.
  destruct (aTemp (s n)) as [e|suffix]; [by eexists|]. destruct (tempName_ready pattern suffix w) as [w' ->]. by eexists.
Qed.
#[local] Hint Resolve total_CreateTemp : total.


Section Total.
Context `{Codec} (posix : bool).

Lemma total_os {A} op (f : FS -> result fsError A * FS) : total (os op f).
Proof. unfold os. total. Qed.
#[local] Hint Resolve total_os : total.
Lemma total_osDo op f : total (osDo op f).
Proof. unfold osDo. total. Qed.
Lemma total_osGet {A} op (f : FS -> result fsError A) : total (osGet op f).
Proof. unfold osGet. total. Qed.
#[local] Hint Resolve total_osDo total_osGet : total.
Lemma total_removeStagedFile name : total (removeStagedFile name).
Proof. unfold removeStagedFile. total. Qed.
#[local] Hint Resolve total_removeStagedFile : total.
Lemma total_failStage {A} name closed e : total (failStage (A := A) name closed e).
Proof. unfold failStage. total. Qed.
Lemma total_secureFile i perm : total (secureFile posix i perm).
Proof. unfold secureFile. total. Qed.
Lemma total_writeFile i d : total (writeFile i d).
Proof. unfold writeFile. total. Qed.
#[local] Hint Resolve total_failStage total_secureFile total_writeFile : total.
Lemma total_fillStaged name i d : total (fillStaged posix name i d).
Proof. unfold fillStaged. total. Qed.
Lemma total_syncDirectory : total (syncDirectory posix).
Proof. unfold syncDirectory. total. Qed.
#[local] Hint Resolve total_fillStaged total_syncDirectory : total.
Lemma total_writePrivateFileAtomic d : total (writePrivateFileAtomic posix d).
Proof. unfold writePrivateFileAtomic, stagePrivateFile. total. Qed.
Lemma total_encrypt key text : total (encrypt key text).
Proof. unfold encrypt. total. Qed.
#[local] Hint Resolve total_writePrivateFileAtomic total_encrypt : total.

(** The methods return, whatever fails. *)
Lemma total_Save key state : total (Save posix key state).
Proof. unfold Save. total. Qed.
Lemma total_Load key : total (Load key).
Proof. unfold Load, loaded. total. Qed.
Lemma total_Delete : total Delete.
Proof. unfold Delete. total. Qed.
End Total.

(** ** It is a run of the store's goroutines *)

Lemma answerOf_answers a w X (q : fileQuery X) : answers X q (answerOf a w q).
Proof.
  destruct q; try done. intros s. cbn. destruct (aRandom a) as [bs|]; [|done]. intros [= <-]. apply fit_length.
Qed.

Section Lived.
  Context `{Cod : Codec} (posix : bool) (key : string).
  Abbreviation fileConfig := (@Proc.config World tempRole _ _ fileQuery).
  Abbreviation moves := (rtc (fun c c' : fileConfig => step env (fileApi posix key) answers c c' /\ bound (world c'))).

Lemma exec_moves {A} s (p : prog A) : forall w n a w' n' ow pl t k,
  exec s p w n = Some (a, w', n') -> pl !! t = Some (bind p k) ->
  moves (mkConfig w ow pl) (mkConfig w' ow (<[t := k a]> pl)).
Proof.
  induction p as [A a0|A X g c IH|A l c IH|A l c IH|A X q ready c IH|A X Y b IHb x c IH|A q IHq c IH];
    intros w n a w' n' ow pl t k; cbn; try done.
  - intros [= -> -> ->] Ht. rewrite insert_id by done. apply rtc_refl.
  - intros He Ht. eapply rtc_l; [split; [by eapply step_do|done]|]. cbn.
    rewrite <- (insert_insert_eq pl t (k a) (bind (c (g w).1) k)). eapply IH; [exact He|by rewrite lookup_insert_eq].
  - destruct (ready w _) as [w1|] eqn:Er; [|done]. intros He Ht.
    eapply rtc_l; [split; [by eapply step_ask; [exact Ht|apply answerOf_answers|exact Er]|done]|]. cbn.
    rewrite <- (insert_insert_eq pl t (k a) (bind (c (answerOf (s n) w q)) k)). eapply IH; [exact He|by rewrite lookup_insert_eq].
Qed.

(** The worlds the store's goroutines reach. *)
Definition lived (w0 w : World) : Prop := exists c, fileReachable posix key w0 c /\ world c = w.

Lemma lived_refl w0 : lived w0 w0.
Proof. exists (init_config w0). split; [apply rtc_refl|done]. Qed.

Lemma lived_exec {A} w0 s (p : prog A) w n a w' n' :
  fileApi posix key (let* _ := p in skip) -> lived w0 w -> exec s p w n = Some (a, w', n') -> lived w0 w'.
Proof.
  intros Hp (c & Hc & <-) He. set (t := base.fresh (dom (pool c) : gset nat)).
  assert (Ht : pool c !! t = None) by apply not_elem_of_dom, (is_fresh (dom (pool c) : gset nat)).
  exists (mkConfig w' (owner c) (<[t := skip]> (<[t := (let* _ := p in skip)]> (pool c)))). split; [|done].
  eapply (transitivity (R := moves)); [apply (call_reachable env (fileApi posix key) answers bound t _ w0 c Hp I Hc)|].
  unfold call. rewrite Ht.
  apply (exec_moves s p _ n a w' n' _ _ t (fun _ => skip : prog unit)); [exact He|]. by rewrite lookup_insert_eq.
Qed.
End Lived.

(** ** What a successful call leaves behind *)

Section Success.
  Context `{Cod : Codec} (posix : bool) (key : string).

Lemma exec_bind_Some {A B} s (p : prog A) (f : A -> prog B) w n b w' n' :
  exec s (bind p f) w n = Some (b, w', n') ->
  exists a w1 n1, exec s p w n = Some (a, w1, n1) /\ exec s (f a) w1 n1 = Some (b, w', n').
Proof. rewrite exec_bind. destruct (exec s p w n) as [[[a w1] n1]|]; [|done]. eauto. Qed.

(** Syncing the directory changes neither names nor the history. *)
Lemma exec_syncDirectory s w n e w' n' :
  exec s (syncDirectory posix) w n = Some (e, w', n') -> pubs w' = pubs w /\ saves w' = saves w.
Proof.
  unfold syncDirectory. destruct posix; cbn; [|by intros [= _ <- _]].
  repeat (case_match; cbn); intros; simplify_eq; done.
Qed.

Lemma exec_Save s ts w n w' n' :
  exec s (Save posix key ts) w n = Some (None, w', n') ->
  exists k, (ts, k) ∈ saves w' /\ S k = length (pubs w').
Proof.
  unfold Save. destruct (Marshal ts); [|done].
  intros ([e|ct] & w1 & n1 & _ & H1)%exec_bind_Some; [done|].
  apply exec_bind_Some in H1 as ([e|k] & w2 & n2 & H2 & H3); [done|].
  cbn in H3. injection H3 as <- <-. exists k. cbn. split; [apply elem_of_app; right; by apply list_elem_of_singleton|].
  unfold writePrivateFileAtomic in H2.
  apply exec_bind_Some in H2 as ([e|name] & w2' & n2' & _ & H2); [done|].
  apply exec_bind_Some in H2 as (fault & w3 & n3 & _ & H2).
  apply exec_bind_Some in H2 as ([e|j] & w4 & n4 & H4 & H2).
  { by apply exec_bind_Some in H2 as (? & ? & ? & _ & [=]). }
  apply exec_bind_Some in H2 as ([e|] & w5 & n5 & H5 & H2); [done|]. cbn in H2. injection H2 as -> -> ->.
  apply exec_syncDirectory in H5 as [-> _]. destruct fault as [e|]; [done|].
  unfold publish in H4. cbn in H4. destruct (rename name tokenFileName (fs w3)) as [[e|[]] f]; [done|].
  injection H4 as <- <- _. cbn. rewrite length_app. cbn. lia.
Qed.

(** A Load that returns a state found it in the file; nothing changes but the log. *)
Lemma exec_Load s w n r w' n' :
  (forall i m, current (fs w) !! tokenFileName = Some i -> inodes (fs w) !! i = Some m -> kind m = Regular) ->
  (forall i, current (fs w) !! tokenFileName = Some i -> is_Some (inodes (fs w) !! i)) ->
  exec s (Load key) w n = Some (r, w', n') ->
  fs w' = fs w /\ pubs w' = pubs w /\ saves w' = saves w /\ loads w ⊆ loads w' /\
  forall ts, r = Ok ts -> ts = from_option (decode key) zeroTokenState (content (fs w) tokenFileName) /\ ts ∈ loads w'.
Proof.
  assert (Hlog : forall l (x : TokenState), l ⊆ l ++ [x] /\ x ∈ l ++ [x]).
  { intros l x. split; [by apply list_subseteq_app_l|]. apply elem_of_app. right. by apply list_elem_of_singleton. }
  intros Hreg Hex. unfold Load, osGet, os. rewrite !exec_bind. cbn [exec ask]. unfold answerOf at 1.
  destruct (aFault (s n)) as [e|]; cbn; [by intros [= <- <- _]|]. unfold open, lookupName, content, contentAt.
  destruct (current (fs w) !! tokenFileName) as [i|] eqn:Ei; cbn; [|intros [= <- <- _]; cbn; naive_solver].
  destruct (Hex i eq_refl) as [m Hm]. rewrite Hm, (Hreg i m eq_refl Hm). cbn.
  destruct (aFault (s (S n))) as [e|]; cbn; [by intros [= <- <- _]|].
  unfold statInode. rewrite Hm. cbn. intros [= <- <- _]. cbn. naive_solver.
Qed.

Lemma exec_Delete s w n w' n' :
  exec s Delete w n = Some (None, w', n') -> content (fs w') tokenFileName = None.
Proof.
  unfold Delete. rewrite exec_bind. cbn [exec ask]. unfold answerOf at 1.
  destruct (aFault (s n)) as [e|]; cbn; [done|]. unfold removeTokens, remove, content, contentAt.
  destruct (current (fs w) !! tokenFileName) as [i|] eqn:Ei; cbn; intros [= <- _]; [|by rewrite Ei].
  cbn. by rewrite lookup_delete_eq.
Qed.
End Success.

(** ** The interface *)

Section Backend.
  Context `{Cod : Codec, HC : !CodecLaws} (key : string) (origin : option string) (w0 : World).
  Context (Hboot : booted true key origin w0).

(** A store that one process has opened in a directory: its world is one that the
    store's goroutines reach. *)
Record backend := mkBackend {
  directory : World;
  position : nat;
  plan : script;
  alive : lived true key w0 directory
}.

Lemma total_not_None {A} (p : prog A) (b : backend) :
  total p -> exec (plan b) p (directory b) (position b) = None -> False.
Proof. intros Ht E. destruct (Ht (plan b) (directory b) (position b)) as [r Hr]. congruence. Qed.

Definition finish {A} (p : prog A) (Hp : fileApi true key (let* _ := p in skip)) (Ht : total p) (b : backend)
    (r : option (A * World * nat)) : exec (plan b) p (directory b) (position b) = r -> A * backend :=
  match r with
  | Some (a, w, n) => fun E => (a, mkBackend w n (plan b) (lived_exec true key w0 (plan b) p _ _ _ _ _ Hp (alive b) E))
  | None => fun E => match total_not_None p b Ht E with end
  end.
(** A method runs its program to the end. *)
Definition method {A} (p : prog A) (Hp : fileApi true key (let* _ := p in skip)) (Ht : total p) (b : backend) : A * backend :=
  finish p Hp Ht b _ eq_refl.

Lemma finish_exec {A} (p : prog A) Hp Ht b r E :
  r = Some ((finish p Hp Ht b r E).1, directory (finish p Hp Ht b r E).2, position (finish p Hp Ht b r E).2).
Proof. destruct r as [[[a w] n]|]; [done|by destruct (total_not_None p b Ht E)]. Qed.

Lemma method_exec {A} (p : prog A) Hp Ht b :
  exec (plan b) p (directory b) (position b) =
  Some ((method p Hp Ht b).1, directory (method p Hp Ht b).2, position (method p Hp Ht b).2).
Proof. apply finish_exec. Qed.

(** The text of an error is left out. *)
Definition storeError (e : list fsError) : Errors.error := EText "filestore".

Definition backend_Save (b : backend) (ts : TokenState) : option Errors.error * backend :=
  prod_map (fmap storeError) id (method (Save true key ts) (api_Save _ _ ts) (total_Save _ _ _) b).
Definition backend_Load (b : backend) : (TokenState * option Errors.error) * backend :=
  prod_map (fun r => match r with inl e => (zeroTokenState, Some (storeError e)) | inr ts => (ts, None) end) id
    (method (Load key) (api_Load _ _) (total_Load _) b).
Definition backend_Delete (b : backend) : option Errors.error * backend :=
  prod_map (fmap storeError) id (method Delete (api_Delete _ _) total_Delete b).

#[export] Instance backend_persistence : TokenPersistence backend := {
  Tokens.Save := backend_Save;
  Tokens.Load := backend_Load;
  Tokens.Delete := backend_Delete
}.

(** *** The contract *)

Abbreviation inv := (FilestoreInv.inv true key origin).

Lemma backend_inv b : inv (directory b).
Proof. destruct (alive b) as (c & Hc & <-). by eapply lived_inv. Qed.

(** What the token file decodes to; the zero state when there is none. *)
Definition stored (w : World) : TokenState := from_option (decode key) zeroTokenState (content (fs w) tokenFileName).

(** The last change of the token file was a Save of [ts] that returned nil. *)
Definition savedLast (w : World) (ts : TokenState) : Prop := exists k, (ts, k) ∈ saves w /\ S k = length (pubs w).

Lemma savedLast_stored w ts : inv w -> savedLast w ts -> recovers (stored w) ts.
Proof.
  intros Hi (k & Hs & Hk). destruct (inv_saves _ Hi eq_refl _ _ Hs) as (_ & ct & Hct & Hd).
  pose proof (inv_last _ Hi) as Hl. rewrite last_lookup, <- Hk in Hl. cbn in Hl. rewrite Hct in Hl. injection Hl as Hl.
  unfold stored. rewrite <- Hl. exact Hd.
Qed.

Lemma load_exec b :
  fs (directory (backend_Load b).2) = fs (directory b) /\ pubs (directory (backend_Load b).2) = pubs (directory b) /\
  saves (directory (backend_Load b).2) = saves (directory b) /\ loads (directory b) ⊆ loads (directory (backend_Load b).2) /\
  ((backend_Load b).1.2 = None ->
   (backend_Load b).1.1 = stored (directory b) /\ (backend_Load b).1.1 ∈ loads (directory (backend_Load b).2)).
Proof.
  pose proof (backend_inv b) as Hi. pose proof (method_exec (Load key) (api_Load _ _) (total_Load _) b) as He.
  apply exec_Load in He as (H1 & H2 & H3 & H4 & H5).
  - unfold backend_Load. destruct (method (Load key) _ _ b) as [[e|ts] b']; cbn in *; do 4 (split; [done|]); [done|].
    intros _. by apply H5.
  - intros i m Hc Hm. by eapply (inv_regular _ Hi); [left|..].
  - intros i Hc. by eapply (inv_exists _ Hi); [left|].
Qed.

#[export, program] Instance backend_laws : TokenPersistenceLaws backend := {
  holds b ts := savedLast (directory b) ts \/
    stored (directory b) = ts /\ (ts ∈ loads (directory b) \/ ts = zeroTokenState);
  kept := roundtrips
}.
Next Obligation.
  intros b ts. cbn. unfold backend_Save. pose proof (method_exec (Save true key ts) (api_Save _ _ ts) (total_Save _ _ _) b) as He.
  destruct (method (Save true key ts) _ _ b) as [[e|] b']; cbn in *; [done|]. intros _. left. by apply exec_Save in He.
Qed.
Next Obligation.
  intros b ts Hk Hh Hok. destruct (load_exec b) as (_ & _ & _ & _ & Hl). cbn in *. destruct (Hl Hok) as [-> _].
  destruct Hh as [Hs|[Hs _]]; [|done]. by apply (savedLast_stored _ _ (backend_inv b) Hs).
Qed.
Next Obligation.
  intros b ts. cbn. destruct (load_exec b) as (H1 & H2 & H3 & H4 & _). unfold savedLast, stored. rewrite H1, H2, H3.
  intros [?|[? [?|?]]]; [by left|right; split; [done|left; by apply H4]|by right; split; [|right]].
Qed.
Next Obligation.
  intros b Hok. right. destruct (load_exec b) as (H1 & _ & _ & _ & Hl). cbn in *. destruct (Hl Hok) as [E Hin].
  split; [rewrite E; unfold stored; by rewrite H1|by left].
Qed.
Next Obligation.
  intros b. cbn. unfold backend_Delete. pose proof (method_exec Delete (api_Delete _ _) total_Delete b) as He.
  destruct (method Delete _ _ b) as [[e|] b']; cbn in *; [done|]. intros _. right. unfold stored.
  rewrite (exec_Delete _ _ _ _ _ He). by split; [|right].
Qed.

(** What a crash leaves of the tokens that were saved last. *)
Lemma savedLast_crash w ts f :
  inv w -> savedLast w ts -> crashed (fs w) f ->
  exists ct, content f tokenFileName = Some ct /\ recovers (decode key ct) ts.
Proof.
  intros Hi (k & Hs & Hk) Hc. destruct (inv_saves _ Hi eq_refl _ _ Hs) as (Hd & ct & Hct & Hdec).
  destruct (crashed_token _ _ _ _ _ Hi Hc) as (j & Hj & Hpj). apply lookup_lt_Some in Hpj as Hlt.
  assert (j = k) as -> by lia. rewrite Hct in Hpj. injection Hpj as Hpj. exists ct. split; [done|exact Hdec].
Qed.

End Backend.
