(* ===== verification/FileClient.v ===== *)
(** A [Client] over the file store: what is in the directory when the process, or the
    machine, stops. *)
From Stdlib Require Import Ascii.
From S2P Require Import Prelude GoTime Proc RelyGuarantee Schedules Errors Tokens Config ClientState World.
From S2P Require Import Session Interference Client Scenario.
From S2P Require Import Filesystem.
From S2P Require Filestore FilestoreInv FilestoreCrash.
From S2P Require Import Filebackend.

(** C3: A Client over the file store, on a system whose directories can be synced.
    Whatever system calls fail and however the calls on the Client interleave, the
    store's directory always is one that the file store's own users could have left, so
    that a crash leaves no token file, the one there was at first, or a whole file
    that a Save wrote.  And whenever no commit is in progress, no retry of a Save is
    pending and there are tokens, the token file decodes to the tokens in memory,
    and after a crash it still does, unless they are tokens that a Load had found
    in the directory.  "Decodes to" means the same tokens and instants for every
    state that JSON can represent (the times of a login carry a monotonic reading
    and a time zone, which JSON does not keep), and the very same state for the
    states that JSON keeps. *)
Theorem client_over_file_store `{Cod : Filestore.Codec, HC : !Filestore.CodecLaws} key origin w0
    httpClient logoutFlow cfg verified (s : Filebackend.backend key w0) c f :
  FilestoreCrash.booted true key origin w0 -> reachableClient httpClient logoutFlow cfg verified s c ->
  let d := Filebackend.directory key w0 (store (world c)) in let ts := state (cs (world c)) in
  crashed (Filestore.fs d) f ->
  FilestoreInv.whole key origin (content f Filestore.tokenFileName) /\
  (owner c !! stateCommitMu = None -> pValid (persistenceRetry (cs (world c))) = false -> ts <> zeroTokenState ->
   FilestoreInv.recovers (stored key d) ts /\
   (ts ∈ Filestore.loads d \/
    exists ct, content f Filestore.tokenFileName = Some ct /\ FilestoreInv.recovers (Filestore.decode key ct) ts)).
Proof.
  intros Hb Hr d ts Hf. pose proof (backend_inv key origin w0 Hb (store (world c))) as Hi. fold d in Hi.
  split; [by apply (FilestoreCrash.crashed_whole _ _ _ d f Hi)|]. intros Ho Hp Hz.
  destruct (reachable_coherent (TPL := backend_laws key origin w0 Hb) _ _ _ _ _ _ Hr Ho) as [Hh|[[Hp' _]|[[_ Hz']|Hz']]];
    [|congruence|done|done].
  destruct Hh as [Hs|[Hs [Hl|Hz']]]; [|split; [by apply FilestoreInv.recovers_refl|by left]|done].
  split; [by apply (savedLast_stored key origin)|right; by apply (savedLast_crash key origin d)].
Qed.

(** ** A login over an empty directory *)

(** A codec that keeps the tokens and the instants of every state, as JSON does, in
    binary, and encrypts nothing. *)
Fixpoint bits (p : positive) : string :=
  match p with xH => "" | xO p => String "0" (bits p) | xI p => String "1" (bits p) end.
Fixpoint unbits (s : string) : positive :=
  match s with EmptyString => xH | String c s => if Ascii.eqb c "0" then xO (unbits s) else xI (unbits s) end.
Lemma unbits_bits p : unbits (bits p) = p.
Proof. induction p as [p IH|p IH|]; cbn; by rewrite ?IH. Qed.

Definition plainTime (t : Time) : Time := mkTime (inst t) 0.
Definition plain (ts : TokenState) : TokenState :=
  mkTokenState (AccessToken ts) (RefreshToken ts) (IDToken ts) (plainTime (ExpiresAt ts)) (plainTime (LastAuthAt ts)).

#[local] Instance bitCodec : Filestore.Codec := {
  Filestore.Marshal st := Some (bits (encode (plain st)));
  Filestore.Unmarshal text := decode (unbits text);
  Filestore.Seal key nonce text := text;
  Filestore.Open key nonce text := Some text;
  Filestore.Sum256 text := text
}.
#[local] Instance bitCodecLaws : Filestore.CodecLaws.
Proof.
  refine {| Filestore.represented _ := True; Filestore.roundtrips st := plain st = st |}; [| |done]; cbn; intros s text Hs [= <-];
    rewrite unbits_bits, decode_encode; [by exists (plain s)|by rewrite Hs].
Defined.

(** Nothing fails; the clock has a monotonic reading. *)
Definition calm : script := fun _ => mkAnswer None None (inr "1") (Some "").
Definition exBackend : backend "k" FilestoreCrash.emptyDir :=
  mkBackend "k" FilestoreCrash.emptyDir FilestoreCrash.emptyDir 0 calm (lived_refl true "k" FilestoreCrash.emptyDir).
Definition monotonic {St} : oracle (W := World St) (Q := query) := fun X q w =>
  match q in query X return option X -> option X with
  | QNow => fun t => (fun t => mkTime (inst t) 1) <$> t
  | _ => id
  end (exOracle X q w).
Lemma monotonic_answers {St} X q (w : World St) x : monotonic X q w = Some x -> Interference.answers exVerified X q x.
Proof. destruct q; try apply exOracle_answers. done. Qed.

Abbreviation exFileConfiguration := (@Proc.config (World (backend "k" FilestoreCrash.emptyDir)) Lk _ _ query).
Abbreviation runFileThread := (exec_thread (bound (St := backend "k" FilestoreCrash.emptyDir)) monotonic).
Definition exFileReady : exFileConfiguration :=
  runFileThread 100 1 0 (call 1 (let* _ := Init false exCtx in skip) (init_config (initWorld exConfig exBackend))).
Definition exFileLoggedIn : exFileConfiguration :=
  runFileThread 200 2 0 (call 2 (let* _ := Login.Login false exCtx in skip) exFileReady).

Lemma exFileLoggedIn_reachable : reachableClient false false exConfig exVerified exBackend exFileLoggedIn.
Proof.
  assert (Hcall : forall n t child p c, api false false p ->
    reachableClient false false exConfig exVerified exBackend c ->
    reachableClient false false exConfig exVerified exBackend (runFileThread n t child (call t p c))).
  { intros n t child p c Hp Hc. apply exec_thread_reachable; [apply monotonic_answers|].
    apply call_reachable; [done| |done]. eapply reachable_bound; [|exact Hc]. done. }
  do 2 (apply Hcall; [constructor|]). apply rtc_refl.
Qed.

Lemma client_over_file_store_witness :
  exists ct, content (FilestoreCrash.intact (Filestore.fs (directory "k" FilestoreCrash.emptyDir (store (world exFileLoggedIn)))))
    Filestore.tokenFileName = Some ct /\
    Filestore.sameTokens (Filestore.decode "k" ct) (state (cs (world exFileLoggedIn))) /\
    AccessToken (state (cs (world exFileLoggedIn))) = "at1" /\ rep (LastAuthAt (state (cs (world exFileLoggedIn)))) = 1%N.
Proof.
  assert (Hb : FilestoreCrash.booted true "k" None FilestoreCrash.emptyDir).
  { apply FilestoreCrash.booted_fresh. split; try done. intros i. cbn. rewrite lookup_empty. by intros []. }
  destruct (client_over_file_store "k" None FilestoreCrash.emptyDir false false exConfig exVerified exBackend exFileLoggedIn _
    Hb exFileLoggedIn_reachable (FilestoreCrash.intact_crashed _)) as [_ Hd].
  assert (E : AccessToken (state (cs (world exFileLoggedIn))) = "at1") by (vm_compute; reflexivity).
  assert (Er : rep (LastAuthAt (state (cs (world exFileLoggedIn)))) = 1%N) by (vm_compute; reflexivity).
  destruct Hd as [_ [Hl|(ct & Hct & Hrec & _)]].
  - vm_compute. reflexivity.
  - vm_compute. reflexivity.
  - intros Hz. rewrite Hz in E. discriminate E.
  - exfalso. revert Hl.
    assert (El : Filestore.loads (directory "k" FilestoreCrash.emptyDir (store (world exFileLoggedIn))) = []) by (vm_compute; reflexivity).
    rewrite El. apply not_elem_of_nil.
  - exists ct. split; [exact Hct|]. split; [apply Hrec; exact I|]. split; [exact E|exact Er].
Defined.
