(* ===== verification/Platform.v ===== *)
(** What depends on the platform: [DefaultDir] and [NewDefault] of
    [filestore/filestore.go], with [os.UserConfigDir] and [filepath.Join] on Linux and
    macOS; [filestore/machineid_linux.go], [machineid_darwin.go] and [machineid_windows.go]; and the command of
    [desktopflow/browser.go]. *)
From Stdlib Require Import Ascii.
From S2P Require Import Prelude Proc GoStrings UrlProps GoEncoding GoText Errors Tokens Filesystem Filestore.

Inductive GOOS := linux | darwin | windows | otherOS.

(** ** The browser *)

(** [DefaultBrowserOpener]: the program it starts with its arguments, [None] where it
    is not supported. *)
Definition DefaultBrowserOpener (goos : GOOS) (url : string) : option (string * list string) :=
  match goos with
  | linux => Some ("xdg-open", [url])
  | darwin => Some ("open", [url])
  | windows => Some ("rundll32", ["url.dll,FileProtocolHandler"; url])
  | otherOS => None
  end.

(** ** The machine identifier *)

(** On Linux, given what reading /etc/machine-id yields. *)
Definition machineID_linux (data : result error string) : result error string :=
  match data with
  | inl e => Err e
  | inr data => Ok (TrimSpace data)
  end.

Definition quote : ascii := ascii_of_N 34.
(** [\s] of package regexp. *)
Definition space (c : ascii) : bool := let n := byte_of c in ((n =? 32) || (n =? 9) || (n =? 10) || (n =? 12) || (n =? 13))%N.
Fixpoint skipSpaces (s : string) : string :=
  match s with String c s' => if space c then skipSpaces s' else s | EmptyString => s end.

(** The name between quotes that [uuidRegexp] looks for. *)
Definition uuidName : string := String quote ("IOPlatformUUID" +:+ String quote "").

(** [uuidRegexp] anchored at the head of [s]: the submatch. *)
Definition matchUUID (s : string) : option string :=
  if negb (HasPrefix s uuidName) then None
  else match skipSpaces (str_drop (String.length uuidName) s) with
  | String eq s =>
      if negb (Ascii.eqb eq "=") then None
      else match skipSpaces s with
      | String q s =>
          if negb (Ascii.eqb q quote) then None
          else match IndexByte s quote with
          | Some (S n) => Some (str_take (S n) s)
          | _ => None
          end
      | EmptyString => None
      end
  | EmptyString => None
  end.

(** The leftmost match. *)
Fixpoint findUUID (s : string) : option string :=
  match matchUUID s with
  | Some uuid => Some uuid
  | None => match s with String _ s => findUUID s | EmptyString => None end
  end.

(** On macOS, given what ioreg prints. *)
Definition machineID_darwin (out : result error string) : result error string :=
  match out with
  | inl e => Err e
  | inr out => match findUUID out with Some uuid => Ok (TrimSpace uuid) | None => Err [EOther "IOPlatformUUID not found in ioreg output"] end
  end.

Example machineID_darwin_example :
  machineID_darwin (Ok ("  " +:+ uuidName +:+ " : x " +:+ uuidName +:+ " = " +:+ String quote ("AB-12 " +:+ String quote " }"))) = Ok "AB-12" /\
  machineID_darwin (Ok (uuidName +:+ "=" +:+ String quote (String quote ""))) = Err [EOther "IOPlatformUUID not found in ioreg output"].
Proof. vm_compute. done. Qed.

(** On Windows, given how the registry key and its value, at most 128 bytes of UTF-16 in
    little-endian order, are read into a buffer of 128 zero units. *)
Fixpoint unitsOf (bytes : string) : list N :=
  match bytes with
  | String lo (String hi rest) => (byte_of lo + 256 * byte_of hi)%N :: unitsOf rest
  | String lo EmptyString => [byte_of lo]
  | EmptyString => []
  end.
Definition bufLen : nat := 128.
Definition fillBuffer (bytes : string) : list N :=
  let units := unitsOf (str_take bufLen bytes) in units ++ replicate (bufLen - length units) 0%N.

(** [syscall.UTF16ToString]: up to the first zero unit; a lone surrogate is encoded as it
    is. *)
Fixpoint decodeWTF16 (units : list N) : string :=
  match units with
  | [] => ""
  | r :: rest =>
      match rest with
      | r2 :: rest2 =>
          if ((0xD800 <=? r) && (r <? 0xDC00) && (0xDC00 <=? r2) && (r2 <? 0xE000))%N
          then utf8 ((r - 0xD800) * 1024 + (r2 - 0xDC00) + 0x10000)%N +:+ decodeWTF16 rest2
          else utf8 r +:+ decodeWTF16 rest
      | [] => utf8 r
      end
  end.
Fixpoint untilNul (units : list N) : list N :=
  match units with
  | [] => []
  | u :: rest => if (u =? 0)%N then [] else u :: untilNul rest
  end.
Definition UTF16ToString (units : list N) : string := decodeWTF16 (untilNul units).

Definition machineID_windows (RegOpenKeyEx : option error) (RegQueryValueEx : result error string) : result error string :=
  match RegOpenKeyEx with
  | Some e => Err e
  | None =>
      match RegQueryValueEx with
      | inl e => Err e
      | inr bytes => Ok (UTF16ToString (fillBuffer bytes))
      end
  end.

Lemma str_take_all n : forall s, (String.length s <= n)%nat -> str_take n s = s.
Proof. induction n as [|n IH]; intros [|c s] H; cbn in *; [done|lia|done|]. by rewrite IH by lia. Qed.

(** An ASCII value of up to 63 characters, stored with its NUL, is read back. *)
Fixpoint wide (s : string) : string :=
  match s with String c s => String c (String (ascii_of_N 0) (wide s)) | EmptyString => "" end.

Lemma unitsOf_wide s t : unitsOf (wide s +:+ t) = (byte_of <$> String.list_ascii_of_string s) ++ unitsOf t.
Proof.
  induction s as [|c s IH]; [done|]. cbn [wide String.list_ascii_of_string fmap list_fmap app]. rewrite !str_app_cons.
  cbn [unitsOf]. rewrite IH. f_equal. cbn. lia.
Qed.

Definition plainASCII (s : string) : Prop := Forall (fun c => (0 < byte_of c < 128)%N) (String.list_ascii_of_string s).

Lemma untilNul_bytes l rest : Forall (fun c => (0 < byte_of c < 128)%N) l ->
  untilNul ((byte_of <$> l) ++ 0%N :: rest) = byte_of <$> l.
Proof.
  induction 1 as [|c l Hc Hl IH]; [done|]. cbn. destruct (N.eqb_spec (byte_of c) 0); [lia|]. f_equal. exact IH.
Qed.

Lemma decodeWTF16_bytes s : plainASCII s -> decodeWTF16 (byte_of <$> String.list_ascii_of_string s) = s.
Proof.
  assert (Hu : forall c : ascii, (byte_of c < 128)%N -> utf8 (byte_of c) = String c "").
  { intros c Hc. unfold utf8. destruct (N.ltb_spec (byte_of c) 128); [|lia]. unfold byte_of. by rewrite ascii_N_embedding. }
  induction s as [|c s IH]; [done|]. intros H. inversion H as [|? ? Hc Hs]. subst. specialize (IH Hs).
  destruct s as [|c2 s]; [apply Hu; lia|].
  cbn [String.list_ascii_of_string fmap list_fmap] in IH |- *. remember (byte_of c2 :: _) as l eqn:El.
  destruct l as [|r2 rest]; [done|]. change (decodeWTF16 (byte_of c :: r2 :: rest)) with
    (if ((0xD800 <=? byte_of c) && (byte_of c <? 0xDC00) && (0xDC00 <=? r2) && (r2 <? 0xE000))%N
     then utf8 ((byte_of c - 0xD800) * 1024 + (r2 - 0xDC00) + 0x10000)%N +:+ decodeWTF16 rest
     else utf8 (byte_of c) +:+ decodeWTF16 (r2 :: rest)).
  destruct (N.leb_spec 0xD800 (byte_of c)); [lia|]. cbn [andb]. by rewrite Hu, IH by lia.
Qed.

Lemma machineID_windows_ascii s : plainASCII s -> (String.length s <= 63)%nat ->
  machineID_windows None (Ok (wide (s +:+ String (ascii_of_N 0) ""))) = Ok s.
Proof.
  intros Hs Hl.
  assert (Hw : wide (s +:+ String (ascii_of_N 0) "") = wide s +:+ String (ascii_of_N 0) (String (ascii_of_N 0) "")).
  { clear. induction s as [|c s IH]; [done|]. rewrite str_app_cons. cbn [wide]. by rewrite IH, !str_app_cons. }
  assert (Hlen : String.length (wide s) = (2 * String.length s)%nat) by (clear; induction s as [|c s IH]; cbn; lia).
  unfold machineID_windows. rewrite Hw. f_equal. unfold fillBuffer.
  rewrite str_take_all by (rewrite str_length_app, Hlen; unfold bufLen; cbn; lia).
  rewrite unitsOf_wide. cbn [unitsOf]. unfold UTF16ToString.
  rewrite <- app_assoc. cbn [app]. rewrite untilNul_bytes by done. by apply decodeWTF16_bytes.
Qed.

(** ** The default directory *)

Section DefaultDir.
  (** macOS or another Unix (paths on Windows are not modelled), and the environment
      variables; an unset one is empty. *)
  Context (mac : bool) (Getenv : string -> string).

(** [os.UserConfigDir]. *)
Definition UserConfigDir : result error string :=
  if (mac : bool) then
    let dir := Getenv "HOME" in
    if String.eqb dir "" then Err [EOther "$HOME is not defined"]
    else Ok (dir +:+ "/Library/Application Support")
  else
    let dir := Getenv "XDG_CONFIG_HOME" in
    if String.eqb dir "" then
      let dir := Getenv "HOME" in
      if String.eqb dir "" then Err [EOther "neither $XDG_CONFIG_HOME nor $HOME are defined"]
      else Ok (dir +:+ "/.config")
    else if negb (HasPrefix dir "/") then Err [EOther "path in $XDG_CONFIG_HOME is relative"]
    else Ok dir.

(** [filepath.Join] of two elements. *)
Definition Join (a b : string) : string :=
  if negb (String.eqb a "") then Clean (a +:+ "/" +:+ b)
  else if negb (String.eqb b "") then Clean b
  else "".

Definition validateAppID (appID : string) : option error :=
  if String.eqb (TrimSpace appID) "" then Some [EOther "appID is required"] else None.

Definition DefaultDir (appID : string) : result error string :=
  match validateAppID appID with
  | Some e => Err e
  | None =>
      match UserConfigDir with
      | inl e => Err e
      | inr base => Ok (Join base appID)
      end
  end.

(** [NewDefault]: the directory the Store is in, the one it runs in, and its key. *)
Context `{Codec} (posix : bool).
Definition NewDefault (appID : string) : prog (result error (string * string)) :=
  match DefaultDir appID with
  | inl e => Ret (Err e)
  | inr dir => let* r := New posix appID in Ret (match r with inl e => Err e | inr key => Ok (dir, key) end)
  end.

(** ** Two applications never share a directory *)

(** One path element that is not a dot element. *)
Definition plainElement (s : string) : Prop :=
  ContainsByte s "/" = false /\ s <> "" /\ s <> "." /\ s <> "..".

Lemma Split_sep s t sep : Split (s +:+ String sep t) sep = Split s sep ++ Split t sep.
Proof.
  induction s as [|c s IH].
  - rewrite str_app_empty. cbn. by rewrite Ascii.eqb_refl.
  - rewrite str_app_cons. cbn [Split]. destruct (Ascii.eqb c sep); [by rewrite IH|]. rewrite IH.
    destruct (Split s sep) as [|h l] eqn:E; [|done]. by destruct s as [|c' s]; cbn in E; repeat case_match.
Qed.

Lemma concat_snoc sep l a :
  String.concat sep (l ++ [a]) = (if l is [] then "" else String.concat sep l +:+ sep) +:+ a.
Proof.
  induction l as [|b l IH]; [done|]. destruct l as [|c l].
  - cbn. by rewrite !str_app_assoc.
  - change (String.concat sep ((b :: c :: l) ++ [a])) with (b +:+ sep +:+ String.concat sep ((c :: l) ++ [a])).
    rewrite IH. change (String.concat sep (b :: c :: l)) with (b +:+ sep +:+ String.concat sep (c :: l)).
    by rewrite !str_app_assoc.
Qed.

(** Joining a plain element appends it to something that depends on the base only. *)
Lemma Join_plain base : base <> "" -> exists prefix, forall a, plainElement a -> Join base a = prefix +:+ a.
Proof.
  intros Hb. set (kept := foldl (cleanStep (HasPrefix base "/")) [] (Split base "/")).
  exists ((if HasPrefix base "/" then "/" else "") +:+ (if rev kept is [] then "" else String.concat "/" (rev kept) +:+ "/")).
  intros a (Hs & Hne & Hdot & Hdd). assert (String.length a <> O) as Hla by by destruct a.
  unfold Join. apply String.eqb_neq in Hb as E. rewrite E. clear E. cbn [negb].
  unfold Clean. change ("/" +:+ a) with (String "/" a). rewrite Split_sep, (Split_none _ _ Hs), foldl_app.
  assert (HasPrefix (base +:+ String "/" a) "/" = HasPrefix base "/") as ->.
  { destruct base as [|c base]; [done|]. rewrite str_app_cons. unfold HasPrefix. cbn [String.prefix]. case_match; [|done]. by destruct base. }
  fold kept. cbn [foldl]. unfold cleanStep. apply String.eqb_neq in Hne as ->. apply String.eqb_neq in Hdot as ->.
  apply String.eqb_neq in Hdd as ->. cbn [orb rev]. rewrite concat_snoc, str_app_assoc.
  destruct (String.eqb _ "") eqn:E0; [|done]. exfalso. apply String.eqb_eq, (f_equal String.length) in E0.
  rewrite !str_length_app in E0. cbn in E0. lia.
Qed.

Lemma UserConfigDir_not_empty : UserConfigDir <> Ok "".
Proof.
  assert (Happ : forall s c t, s +:+ String c t <> "") by (intros [|? s] c t; done).
  unfold UserConfigDir. repeat case_match; try done; intros [= E]; first [by apply Happ in E|by rewrite E in *].
Qed.

Theorem DefaultDir_separate a b dir :
  plainElement a -> plainElement b -> DefaultDir a = Ok dir -> DefaultDir b = Ok dir -> a = b.
Proof.
  intros Ha Hb. unfold DefaultDir. destruct (validateAppID a); [done|]. destruct (validateAppID b); [done|].
  destruct UserConfigDir as [e|base] eqn:E; [done|]. intros [= <-] [= Hd].
  destruct (Join_plain base) as [prefix Hp]; [|rewrite !Hp in Hd by done; by apply (inj (String.append prefix))].
  intros ->. by apply UserConfigDir_not_empty.
Qed.

End DefaultDir.

Example DefaultDir_examples (env := fun v => if String.eqb v "HOME" then "/home/u" else "") :
  DefaultDir false env "my-app" = Ok "/home/u/.config/my-app" /\
  DefaultDir true env "my-app" = Ok "/home/u/Library/Application Support/my-app" /\
  DefaultDir false (fun _ => "rel") "my-app" = Err [EOther "path in $XDG_CONFIG_HOME is relative"] /\
  DefaultDir false env ".." = Ok "/home/u".
Proof. vm_compute. done. Qed.
