(* ===== verification/Loopback.v ===== *)
(** Which hosts a desktop flow accepts and which addresses it binds:
    [isLoopback], [loopbackAddrs] ([desktopflow/desktopflow.go]) over
    [net.ParseIP]. *)
From Stdlib Require Import Ascii.
From S2P Require Import Prelude GoStrings GoUrl.

(** ** [net.ParseIP] *)

(** An IP address: its 16 bytes, an IPv4 address in the mapped form. *)
Abbreviation IP := (list N).

(** A decimal field of an IPv4 address. *)
Fixpoint decimal (s : string) (acc : N) : option N :=
  match s with
  | EmptyString => Some acc
  | String c s => if is_digit c then decimal s (acc * 10 + (byte_of c - 48)) else None
  end.
Definition parseIPv4Field (s : string) : option N :=
  if String.eqb s "" || (HasPrefix s "0" && (1 <? String.length s)%nat) || (3 <? String.length s)%nat
  then None
  else match decimal s 0 with
  | Some n => if (n <=? 255)%N then Some n else None
  | None => None
  end.
Definition parseIPv4 (s : string) : option (list N) :=
  match Split s "." with
  | [a; b; c; d] => mapM parseIPv4Field [a; b; c; d]
  | _ => None
  end.

(** The hexadecimal digits of a group, at most four: value, count and rest. *)
Fixpoint readGroup (s : string) (off : nat) (acc : N) : option (N * nat * string) :=
  match s with
  | EmptyString => Some (acc, off, s)
  | String c s' =>
      match unhex c with
      | Some d => if (3 <? off)%nat then None else readGroup s' (S off) (acc * 16 + d)
      | None => Some (acc, off, s)
      end
  end.

(** The loop of [netip.parseIPv6] with [n] groups of two bytes to fill: the
    unread text, the bytes and the position of the ellipsis. *)
Fixpoint parseGroups (n : nat) (s : string) (ip : list N) (ellipsis : option nat)
    : option (string * list N * option nat) :=
  match n with
  | O => Some (s, ip, ellipsis)
  | S n =>
      match readGroup s 0 0 with
      | None | Some (_, O, _) => None
      | Some (acc, _, rest) =>
          if HasPrefix rest "." then
            if (match ellipsis with None => negb (length ip =? 12)%nat | Some _ => false end) ||
               (16 <? length ip + 4)%nat then None
            else match parseIPv4 s with
            | Some v4 => Some (EmptyString, ip ++ v4, ellipsis)
            | None => None
            end
          else
            let ip := ip ++ [(acc / 256)%N; (acc mod 256)%N] in
            match rest with
            | EmptyString => Some (EmptyString, ip, ellipsis)
            | String c rest =>
                if negb (Ascii.eqb c ":") || String.eqb rest "" then None
                else match rest with
                | String ":" rest' =>
                    match ellipsis with
                    | Some _ => None
                    | None =>
                        if String.eqb rest' "" then Some (rest', ip, Some (length ip))
                        else parseGroups n rest' ip (Some (length ip))
                    end
                | _ => parseGroups n rest ip ellipsis
                end
            end
      end
  end.

(** The ellipsis stands for the missing bytes, at least one group. *)
Definition expandEllipsis (r : string * list N * option nat) : option IP :=
  let '(s, ip, ellipsis) := r in
  if negb (String.eqb s "") then None
  else match ellipsis with
  | None => if (length ip =? 16)%nat then Some ip else None
  | Some e =>
      if (length ip <? 16)%nat
      then Some (take e ip ++ replicate (16 - length ip) 0%N ++ drop e ip) else None
  end.
Definition parseIPv6 (s : string) : option IP :=
  if HasPrefix s "::" then
    let s := str_drop 2 s in
    if String.eqb s "" then Some (replicate 16 0%N)
    else parseGroups 8 s [] (Some 0%nat) ≫= expandEllipsis
  else parseGroups 8 s [] None ≫= expandEllipsis.

(** The first of the bytes [.] and [:] decides; an address with a zone is not
    an [net.IP]. *)
Fixpoint firstSeparator (s : string) : option ascii :=
  match s with
  | EmptyString => None
  | String c s => if one_of ".:" c then Some c else firstSeparator s
  end.
Definition v4InV6Prefix : list N := replicate 10 0%N ++ [255; 255]%N.
Definition ParseIP (s : string) : option IP :=
  if ContainsByte s "%" then None
  else match firstSeparator s with
  | Some "."%char => (fun v4 => v4InV6Prefix ++ v4) <$> parseIPv4 s
  | Some ":"%char => parseIPv6 s
  | _ => None
  end.

(** [IP.IsLoopback]. *)
Definition IPv6loopback : IP := replicate 15 0%N ++ [1%N].
Definition IsLoopback (ip : IP) : bool :=
  if bool_decide (take 12 ip = v4InV6Prefix) then bool_decide (ip !! 12%nat = Some 127%N)
  else bool_decide (ip = IPv6loopback).

(** ** The desktop flow *)

(** [isLoopback]. *)
Definition isLoopback (host : string) : bool :=
  if String.eqb host "127.0.0.1" || String.eqb host "localhost" || String.eqb host "::1" then true
  else match ParseIP host with
  | Some ip => IsLoopback ip
  | None => false
  end.

(** [net.JoinHostPort]. *)
Definition JoinHostPort (host port : string) : string :=
  if ContainsByte host ":" then "[" +:+ host +:+ "]:" +:+ port else host +:+ ":" +:+ port.

(** [loopbackAddrs]. *)
Definition loopbackAddrs (host port : string) : list string :=
  if String.eqb host "localhost" then [JoinHostPort "127.0.0.1" port; JoinHostPort "::1" port]
  else [JoinHostPort host port].

(** An address of the loopback interface. *)
Definition loopbackAddress (port addr : string) : Prop :=
  exists host ip, addr = JoinHostPort host port /\ ParseIP host = Some ip /\ IsLoopback ip = true.

Lemma loopbackAddrs_loopback host port :
  isLoopback host = true -> Forall (loopbackAddress port) (loopbackAddrs host port).
Proof.
  assert (H1 : loopbackAddress port (JoinHostPort "127.0.0.1" port)) by
    (eexists _, _; split; [reflexivity|]; vm_compute; split; reflexivity).
  assert (H2 : loopbackAddress port (JoinHostPort "::1" port)) by
    (eexists _, _; split; [reflexivity|]; vm_compute; split; reflexivity).
  unfold isLoopback, loopbackAddrs.
  destruct (String.eqb_spec host "127.0.0.1") as [->|_]; cbn [orb].
  { intros _. by constructor. }
  destruct (String.eqb_spec host "localhost") as [->|_]; cbn [orb].
  { intros _. by repeat constructor. }
  destruct (String.eqb_spec host "::1") as [->|_].
  { intros _. by constructor. }
  destruct (ParseIP host) as [ip|] eqn:E; [|done]. intros Hl. constructor; [|done]. by exists host, ip.
Qed.

Example ParseIP_mapped : ParseIP "::ffff:127.0.0.1" = ParseIP "127.0.0.1".
Proof. reflexivity. Qed.
Example ParseIP_long : ParseIP "0:0:0:0:0:0:0:1" = Some IPv6loopback.
Proof. reflexivity. Qed.
Example isLoopback_no : isLoopback "127.0.0.1.example" = false /\ isLoopback "0.0.0.0" = false /\
  isLoopback "127.1" = false /\ isLoopback "1::2::3" = false /\ isLoopback "127.9.8.7" = true.
Proof. repeat split; reflexivity. Qed.
