(* ===== verification/Provider.v ===== *)
(** [oidctest/fakeserver.go] and [oidctest/hooks.go]: the fake OpenID provider, a
    server whose endpoints, hooks and setters run in concurrent goroutines.

    Its mutexes are only held within one critical section each, which is one
    action; the clock is read just before the section that uses it.  RSA keys and
    the serialisation of signed tokens (go-jose) belong to the environment. *)
From Stdlib Require Import SpecFloat.
From S2P Require Import Prelude Proc RelyGuarantee Schedules GoTime GoStrings GoUrl GoEncoding GoJson GoHttp.

(** ** Options *)

Record options := mkOptions {
  clientID : string;
  redirectURIs : list string;
  scopes : list string;
  accessTTL0 : Z;
  refreshTTL : Z;
  idTokenTTL : Z;
  codeTTL : Z;
  rejectBasicAuth : bool;
  forceNonce : option string;
  omitRefreshID : bool;
  refreshSubject : option string;
  refreshRawID : option string;
  lenient : bool;
  omitRevocation : bool
}.
#[export] Instance options_settable : Settable options :=
  fun o => mkOptions (clientID o) (redirectURIs o) (scopes o) (accessTTL0 o) (refreshTTL o) (idTokenTTL o)
    (codeTTL o) (rejectBasicAuth o) (forceNonce o) (omitRefreshID o) (refreshSubject o) (refreshRawID o)
    (lenient o) (omitRevocation o).

(** The options [NewFakeIDP] starts from, and the [Option]s (the clock is the
    environment's). *)
Definition defaultOptions : options :=
  mkOptions "test-client" ["http://127.0.0.1:0/callback"] [] (5 * Minute) (24 * Hour) (5 * Minute)
    (30 * Second) false None false None None false false.

Definition Option : Type := options -> options.
Definition WithClientID (id : string) : Option := fun o => o <| clientID := id |>.
Definition WithRedirectURI (uri : string) : Option := fun o => o <| redirectURIs := redirectURIs o ++ [uri] |>.
Definition WithAccessTTL (d : Z) : Option := fun o => o <| accessTTL0 := d |>.
Definition WithRefreshTTL (d : Z) : Option := fun o => o <| refreshTTL := d |>.
Definition WithIDTokenTTL (d : Z) : Option := fun o => o <| idTokenTTL := d |>.
Definition WithForcedIDTokenNonce (nonce : string) : Option := fun o => o <| forceNonce := Some nonce |>.
Definition WithOmitRefreshIDToken : Option := fun o => o <| omitRefreshID := true |>.
Definition WithRefreshIDTokenSubject (subject : string) : Option := fun o => o <| refreshSubject := Some subject |>.
Definition WithRawRefreshIDToken (raw : string) : Option := fun o => o <| refreshRawID := Some raw |>.
Definition WithRejectBasicAuth : Option := fun o => o <| rejectBasicAuth := true |>.
Definition WithAllowedScopes (allowed : list string) : Option := fun o => o <| scopes := allowed |>.
Definition WithCodeTTL (d : Z) : Option := fun o => o <| codeTTL := d |>.
Definition WithOmitRevocationEndpoint : Option := fun o => o <| omitRevocation := true |>.
Definition WithLenientMode : Option := fun o => o <| lenient := true |>.
Definition configure (opts : list Option) : options := foldl (fun o f => f o) defaultOptions opts.

(** ** The state *)

Record pendingCode := mkPendingCode {
  pcClientID : string;
  pcRedirectURI : string;
  pcNonce : string;
  pcCodeVerifier : string;                                (* the challenge *)
  pcSubject : string;
  pcCreatedAt : Time
}.

Record tokenState := mkTokenEntry { tsSubject : string; tsClientID : string; tsCreatedAt : Time }.

Record keyEntry := mkKeyEntry { kKey : nat; kID : string }.
#[export] Instance keyEntry_eq_dec : EqDecision keyEntry.
Proof. solve_decision. Defined.

(** The claims [signIDToken] signs. *)
Record idClaims := mkIDClaims {
  Issuer : string;
  Subject : string;
  Audience : list string;
  IssuedAt : Time;
  Expiry : Time;
  NotBefore : Time;
  Nonce : string;
  Email : string;
  Name : string;
  Azp : option string
}.

Record RequestRecord := mkRecord { rEndpoint : string; rMethod : string; rParams : Values }.

(** Ghost records: an authorization code that was exchanged, with the request and
    the clock reading its age was checked at, and a refresh token that was. *)
Record grant := mkGrant { gCode : string; gRequest : Request; gCheckedAt : option Time; gRefresh : string; gClaims : idClaims }.
Record rotation := mkRotation { rOld : string; rNew : string }.

(** [FakeIDPServer] as its goroutines share it.  Ghost: the random strings in use,
    those not stored yet, the codes issued and being exchanged, the refresh tokens
    issued and being exchanged, what was exchanged and revoked, the errors queued and
    returned, and the keys tokens were signed with. *)
Record Idp := mkIdp {
  signingKey : keyEntry;
  extraKeys : list keyEntry;
  nextKey : nat;
  accessTTL : Z;
  codes : gmap string pendingCode;
  refreshTokens : gmap string tokenState;
  errorQueue : list string;
  stickyError : string;
  jwksError : option Z;
  forceIssuer : option string;
  forceAudience : option string;
  forceAudiences : option (list string);
  forceAzpJSON : option string;
  forceExpiry : option Time;
  forceNotBefore : option Time;
  grantErrors : gmap string string;
  hooks : gset string;
  records : list RequestRecord;
  minted : gset string;
  unstored : gset string;
  issued : gmap string pendingCode;
  redeeming : gset string;
  known : gmap string tokenState;
  rotating : gset string;
  grants : list grant;
  rotations : list rotation;
  revoked : gset string;
  queued : list string;
  injected : list string;
  signedWith : list keyEntry
}.
#[export] Instance Idp_settable : Settable Idp :=
  fun s => mkIdp (signingKey s) (extraKeys s) (nextKey s) (accessTTL s) (codes s) (refreshTokens s) (errorQueue s)
    (stickyError s) (jwksError s) (forceIssuer s) (forceAudience s) (forceAudiences s) (forceAzpJSON s)
    (forceExpiry s) (forceNotBefore s) (grantErrors s) (hooks s) (records s) (minted s) (unstored s) (issued s)
    (redeeming s) (known s) (rotating s) (grants s) (rotations s) (revoked s) (queued s) (injected s) (signedWith s).

Definition newIdp (o : options) : Idp :=
  mkIdp (mkKeyEntry 0 "test-key-1") [] 1 (accessTTL0 o) ∅ ∅ [] "" None None None None None None None
    ∅ ∅ [] ∅ ∅ ∅ ∅ ∅ ∅ [] [] ∅ [] [] [].

(** Roles: the goroutine that will store a random string, that exchanges a code,
    that exchanges a refresh token. *)
Inductive idpRole := mintRole (s : string) | codeRole (s : string) | refreshRole (s : string).
#[export] Instance idpRole_eq_dec : EqDecision idpRole.
Proof. solve_decision. Defined.
#[export] Instance idpRole_countable : Countable idpRole.
Proof.
  refine (inj_countable'
    (fun r => match r with mintRole s => inl s | codeRole s => inr (inl s) | refreshRole s => inr (inr s) end)
    (fun r => match r with inl s => mintRole s | inr (inl s) => codeRole s | inr (inr s) => refreshRole s end) _).
  by intros [].
Defined.

Inductive response :=
| Redirect (location : string)                            (* the URL given to http.Redirect, 302 *)
| HttpError (status : Z) (text : string)
| TokenError (code description : string)
| TokenResponse (accessToken : string) (expiresIn : Z) (refreshToken : string) (idToken : option string)
| Document (members : list (string * any))
| KeySet (keys : list keyEntry)
| Text (body : string)
| Hooked.                                                 (* written by a hook *)

Inductive idpQuery : Type -> Type :=
| QNow : idpQuery Time
| QRandom (n : nat) : idpQuery string
| QHook (endpoint : string) : idpQuery bool
| QSign (key : keyEntry) (claims : idClaims) : idpQuery (option string).

Abbreviation prog := (@prog Idp idpRole idpQuery).

Section Provider.
  Context (o : options) (issuerURL : string) (Sum256 : string -> string).

(** ** Random strings, tokens *)

(** [generateRandomString]: 32 random bytes do not repeat. *)
Definition randomReady (w : Idp) (bytes : string) : option Idp :=
  let s := b64_encode bytes in
  if bool_decide (s ∈ minted w) then None
  else Some (w <| minted := {[s]} ∪ minted w |> <| unstored := {[s]} ∪ unstored w |>).
Definition generateRandomString (n : nat) : prog string :=
  let* bytes := select (QRandom n) randomReady in Ret (b64_encode bytes).

(** Ghost: a random string that will not be stored. *)
Definition discard (s : string) (w : Idp) : Idp := w <| unstored := unstored w ∖ {[s]} |>.

(** [computeS256Challenge]. *)
Definition computeS256Challenge (verifier : string) : string := b64_encode (Sum256 verifier).

(** The section of [signIDToken]: the signing key and the claims. *)
Definition idTokenClaims (subject audience nonce : string) (now : Time) (w : Idp) : keyEntry * idClaims :=
  let issuer := default issuerURL (forceIssuer w) in
  let audience := default audience (forceAudience w) in
  let audiences := default [audience] (forceAudiences w) in
  let expiry := default (AddDur now (idTokenTTL o)) (forceExpiry w) in
  let notBefore := default (AddDur now (-1 * Minute)) (forceNotBefore w) in
  (signingKey w,
   mkIDClaims issuer subject audiences now expiry notBefore nonce "test@example.com" "Test User" (forceAzpJSON w)).

Definition signReady (key : keyEntry) (w : Idp) (_ : option string) : option Idp :=
  Some (w <| signedWith := signedWith w ++ [key] |>).

(** [signIDToken]: the claims, and the signed token unless signing fails. *)
Definition signIDToken (subject audience nonce : string) (now : Time) : prog (idClaims * option string) :=
  let* kc := read (idTokenClaims subject audience nonce now) in
  let* token := select (QSign kc.1 kc.2) (signReady kc.1) in
  Ret (kc.2, token).

(** [int(accessTTL.Seconds())]. *)
Definition float64 (z : Z) : spec_float := binary_normalize 53 1024 z 0 false.
Definition durationSeconds (d : Z) : spec_float :=
  SFadd 53 1024 (float64 (Z.quot d Second)) (SFdiv 53 1024 (float64 (Z.rem d Second)) (float64 1000000000)).
Definition expiresIn (d : Z) : Z := float_to_int64 (durationSeconds d).

(** ** Discovery, keys, user info *)

Definition strings (l : list string) : any := AArray (AString <$> l).

(** [handleDiscovery]. *)
Definition handleDiscovery (r : Request) : prog response :=
  Ret (Document
    ([("issuer", AString issuerURL);
      ("authorization_endpoint", AString (issuerURL +:+ "/authorize"));
      ("token_endpoint", AString (issuerURL +:+ "/token"));
      ("jwks_uri", AString (issuerURL +:+ "/jwks"));
      ("userinfo_endpoint", AString (issuerURL +:+ "/userinfo"));
      ("end_session_endpoint", AString (issuerURL +:+ "/end_session"));
      ("response_types_supported", strings ["code"]);
      ("subject_types_supported", strings ["public"]);
      ("id_token_signing_alg_values_supported", strings ["RS256"]);
      ("scopes_supported", strings ["openid"; "profile"; "email"; "offline_access"]);
      ("token_endpoint_auth_methods_supported", strings ["none"; "client_secret_post"]);
      ("code_challenge_methods_supported", strings ["S256"])] ++
     if omitRevocation o then [] else [("revocation_endpoint", AString (issuerURL +:+ "/revoke"))])).

(** [handleJWKS]: the current key, then the earlier ones. *)
Definition jwks (w : Idp) : list keyEntry := signingKey w :: extraKeys w.
Definition handleJWKS (r : Request) : prog response :=
  let* err := read jwksError in
  match err with
  | Some status => Ret (HttpError status "simulated JWKS failure")
  | None => let* keys := read jwks in Ret (KeySet keys)
  end.

(** [handleUserinfo]. *)
Definition handleUserinfo (r : Request) : prog response :=
  Ret (Document [("sub", AString "test-user"); ("name", AString "Test User"); ("email", AString "test@example.com")]).

(** ** Authorization *)

(** [redirectURL.Query], [q.Set]s, [redirectURL.String]. *)
Definition extendQuery (u : URL) (kvs : list (string * string)) : string :=
  URL_String (u <| RawQuery := Encode (foldl (fun q kv => Values_Set q kv.1 kv.2) (Query u) kvs) |>).
Definition redirectTo (redirectURI : string) (kvs : list (string * string)) : response :=
  match Parse redirectURI with
  | None => HttpError 400 "invalid redirect_uri"
  | Some u => Redirect (extendQuery u kvs)
  end.

(** [redirectWithError]. *)
Definition redirectWithError (redirectURI state code description : string) : response :=
  redirectTo redirectURI [("error", code); ("error_description", description); ("state", state)].

(** [isRegisteredRedirectURI]: port 0 stands for any port. *)
Definition matchesRegistered (parsed reg : URL) : bool :=
  String.eqb (Scheme reg) (Scheme parsed) && String.eqb (Path reg) (Path parsed) &&
  String.eqb (Hostname reg) (Hostname parsed) &&
  (String.eqb (Port reg) "0" || String.eqb (Port reg) (Port parsed)).
Definition isRegisteredRedirectURI (uri : string) : bool :=
  match Parse uri with
  | None => false
  | Some parsed =>
      existsb (fun registered =>
        match Parse registered with None => false | Some reg => matchesRegistered parsed reg end) (redirectURIs o)
  end.

(** [findUnknownScope]. *)
Definition findUnknownScope (scope : string) (allowed : list string) : string :=
  default "" (head (filter (fun sc => sc ∉ allowed) (Fields scope))).

(** The checks of [handleAuthorize] whose errors are redirected. *)
Definition authorizeError (responseType codeChallenge codeChallengeMethod scope : string)
    : option (string * string) :=
  if negb (lenient o) && negb (String.eqb responseType "code")
  then Some ("unsupported_response_type", "only code is supported")
  else if negb (lenient o) && String.eqb codeChallenge ""
  then Some ("invalid_request", "code_challenge is required")
  else if negb (lenient o) && negb (String.eqb codeChallengeMethod "S256")
  then Some ("invalid_request", "code_challenge_method must be S256")
  else if lenient o && negb (String.eqb codeChallengeMethod "") && negb (String.eqb codeChallengeMethod "S256")
  then Some ("invalid_request", "only S256 supported")
  else if bool_decide (scopes o <> []) && negb (String.eqb scope "") &&
          negb (String.eqb (findUnknownScope scope (scopes o)) "")
  then Some ("invalid_scope", "unknown scope: " +:+ findUnknownScope scope (scopes o))
  else None.

(** The section of [handleAuthorize] that stores the code. *)
Definition storeCode (code : string) (p : pendingCode) (w : Idp) : Idp :=
  w <| codes := <[code := p]> (codes w) |> <| issued := <[code := p]> (issued w) |>
    <| unstored := unstored w ∖ {[code]} |>.

(** [handleAuthorize]. *)
Definition handleAuthorize (r : Request) : prog response :=
  let q := urlQuery r in
  let client := Values_Get q "client_id" in
  let redirectURI := Values_Get q "redirect_uri" in
  let state := Values_Get q "state" in
  let codeChallenge := Values_Get q "code_challenge" in
  if negb (String.eqb client (clientID o)) then Ret (HttpError 400 "invalid client_id")
  else if String.eqb redirectURI "" then Ret (HttpError 400 "missing redirect_uri")
  else if negb (lenient o) && negb (isRegisteredRedirectURI redirectURI)
  then Ret (HttpError 400 "unregistered redirect_uri")
  else match authorizeError (Values_Get q "response_type") codeChallenge
               (Values_Get q "code_challenge_method") (Values_Get q "scope") with
  | Some (code, description) => Ret (redirectWithError redirectURI state code description)
  | None =>
      let* code := generateRandomString 32 in
      let nonce := default (Values_Get q "nonce") (forceNonce o) in
      let* now := ask QNow in
      modify (storeCode code (mkPendingCode client redirectURI nonce codeChallenge "test-user" now)) ;;;
      Ret (redirectTo redirectURI [("code", code); ("state", state)])
  end.

(** ** The token endpoint *)

(** The section of [handleAuthCodeExchange] that looks the code up; a code is only
    good once. *)
Definition takeCode (code : string) (w : Idp) : option pendingCode * Idp :=
  match codes w !! code with
  | None => (None, w)
  | Some p => (Some p, w <| codes := delete code (codes w) |> <| redeeming := {[code]} ∪ redeeming w |>)
  end.

(** Ghost: the exchange of a code ends without tokens. *)
Definition abandonCode (code : string) (w : Idp) : Idp := w <| redeeming := redeeming w ∖ {[code]} |>.

(** The checks of a code that was found; [checkedAt] is the clock reading of the
    expiry check. *)
Definition exchangeError (pending : pendingCode) (checkedAt : option Time) (r : Request) : option string :=
  let codeVerifier := FormValue r "code_verifier" in
  if match checkedAt with Some now => codeTTL o <? SubTime now (pcCreatedAt pending) | None => false end
  then Some "authorization code expired"
  else if negb (lenient o) && negb (String.eqb (FormValue r "client_id") (pcClientID pending))
  then Some "client_id mismatch"
  else if negb (lenient o) && negb (String.eqb (FormValue r "redirect_uri") (pcRedirectURI pending))
  then Some "redirect_uri mismatch"
  else if String.eqb (pcCodeVerifier pending) "" then None
  else if String.eqb codeVerifier "" then Some "code_verifier required"
  else if negb (String.eqb (computeS256Challenge codeVerifier) (pcCodeVerifier pending))
  then Some "code_verifier mismatch"
  else None.

(** The section that stores the refresh token, which ends the exchange. *)
Definition storeGrant (g : grant) (st : tokenState) (w : Idp) : Idp :=
  w <| refreshTokens := <[gRefresh g := st]> (refreshTokens w) |>
    <| known := <[gRefresh g := st]> (known w) |>
    <| unstored := unstored w ∖ {[gRefresh g]} |>
    <| redeeming := redeeming w ∖ {[gCode g]} |>
    <| grants := grants w ++ [g] |>.

(** [handleAuthCodeExchange]. *)
Definition handleAuthCodeExchange (r : Request) : prog response :=
  let code := FormValue r "code" in
  let* found := act (takeCode code) in
  match found with
  | None => Ret (TokenError "invalid_grant" "invalid or expired authorization code")
  | Some pending =>
      let* checkedAt := (if negb (lenient o) && (0 <? codeTTL o)
                         then let* now := ask QNow in Ret (Some now) else Ret None) in
      match exchangeError pending checkedAt r with
      | Some description => modify (abandonCode code) ;;; Ret (TokenError "invalid_grant" description)
      | None =>
          let* ttl := read accessTTL in
          let* now := ask QNow in
          let* accessToken := generateRandomString 32 in
          modify (discard accessToken) ;;;
          let* refreshToken := generateRandomString 32 in
          let* signed := signIDToken (pcSubject pending) (pcClientID pending) (pcNonce pending) now in
          match signed.2 with
          | None =>
              modify (discard refreshToken) ;;;
              modify (abandonCode code) ;;;
              Ret (TokenError "server_error" "failed to sign ID token")
          | Some idToken =>
              modify (storeGrant (mkGrant code r checkedAt refreshToken signed.1)
                        (mkTokenEntry (pcSubject pending) (pcClientID pending) now)) ;;;
              Ret (TokenResponse accessToken (expiresIn ttl) refreshToken (Some idToken))
          end
      end
  end.

(** The section of [handleRefreshExchange] that looks the token up; a token is
    only good once. *)
Definition takeRefresh (old : string) (w : Idp) : option tokenState * Idp :=
  match refreshTokens w !! old with
  | None => (None, w)
  | Some st =>
      (Some st, w <| refreshTokens := delete old (refreshTokens w) |> <| rotating := {[old]} ∪ rotating w |>)
  end.

Definition abandonRefresh (old : string) (w : Idp) : Idp := w <| rotating := rotating w ∖ {[old]} |>.

(** The section that stores the new refresh token, which ends the exchange. *)
Definition storeRotation (old new : string) (st : tokenState) (w : Idp) : Idp :=
  w <| refreshTokens := <[new := st]> (refreshTokens w) |>
    <| known := <[new := st]> (known w) |>
    <| unstored := unstored w ∖ {[new]} |>
    <| rotating := rotating w ∖ {[old]} |>
    <| rotations := rotations w ++ [mkRotation old new] |>.

(** The ID token of a refresh response: [inl] when signing fails. *)
Definition refreshIDToken (st : tokenState) (now : Time) : prog (unit + string) :=
  if omitRefreshID o then Ret (inr "")
  else match refreshRawID o with
  | Some raw => Ret (inr raw)
  | None =>
      let* signed := signIDToken (default (tsSubject st) (refreshSubject o)) (tsClientID st) "" now in
      match signed.2 with None => Ret (inl tt) | Some idToken => Ret (inr idToken) end
  end.

(** [handleRefreshExchange]. *)
Definition handleRefreshExchange (r : Request) : prog response :=
  let oldRefresh := FormValue r "refresh_token" in
  let* taken := act (fun w => let '(found, w') := takeRefresh oldRefresh w in ((accessTTL w, found), w')) in
  let ttl := taken.1 in
  match taken.2 with
  | None => Ret (TokenError "invalid_grant" "invalid or expired refresh token")
  | Some st =>
      let* now := ask QNow in
      let* accessToken := generateRandomString 32 in
      modify (discard accessToken) ;;;
      let* newRefreshToken := generateRandomString 32 in
      let* idToken := refreshIDToken st now in
      match idToken with
      | inl _ =>
          modify (discard newRefreshToken) ;;;
          modify (abandonRefresh oldRefresh) ;;;
          Ret (TokenError "server_error" "failed to sign ID token")
      | inr idToken =>
          modify (storeRotation oldRefresh newRefreshToken (mkTokenEntry (tsSubject st) (tsClientID st) now)) ;;;
          Ret (TokenResponse accessToken (expiresIn ttl) newRefreshToken
                 (if String.eqb idToken "" then None else Some idToken))
      end
  end.

(** The section of [handleToken] that returns an injected error: the persistent
    one, or the first of the queue. *)
Definition takeError (w : Idp) : option (string * string) * Idp :=
  if negb (String.eqb (stickyError w) "") then (Some (stickyError w, "simulated persistent error"), w)
  else match errorQueue w with
  | [] => (None, w)
  | code :: rest =>
      (Some (code, "simulated error"), w <| errorQueue := rest |> <| injected := injected w ++ [code] |>)
  end.

(** [delete(s.codes, code)] for a request with Basic credentials. *)
Definition dropCode (code : string) (w : Idp) : Idp := w <| codes := delete code (codes w) |>.

(** [handleToken]. *)
Definition handleToken (r : Request) : prog response :=
  let '(ok, r) := ParseForm r in
  if negb ok then Ret (TokenError "invalid_request" "failed to parse form")
  else
    let* injected := act takeError in
    match injected with
    | Some (code, description) => Ret (TokenError code description)
    | None =>
        if rejectBasicAuth o && basicAuth r then
          let code := FormValue r "code" in
          when (negb (String.eqb code "")) (modify (dropCode code)) ;;;
          Ret (TokenError "invalid_client" "client authentication not allowed for public client")
        else
          let grantType := FormValue r "grant_type" in
          let* err := read (fun w => grantErrors w !! grantType) in
          match err with
          | Some code => Ret (TokenError code "simulated grant-scoped error")
          | None =>
              if String.eqb grantType "authorization_code" then handleAuthCodeExchange r
              else if String.eqb grantType "refresh_token" then handleRefreshExchange r
              else Ret (TokenError "unsupported_grant_type" ("unsupported grant_type: " +:+ grantType))
          end
    end.

(** ** Revocation, logout *)

(** [handleRevoke]; the ghost records a token that stopped working. *)
Definition revoke (token : string) (w : Idp) : Idp :=
  match refreshTokens w !! token with
  | None => w
  | Some _ => w <| refreshTokens := delete token (refreshTokens w) |> <| revoked := {[token]} ∪ revoked w |>
  end.
Definition handleRevoke (r : Request) : prog response :=
  let '(ok, r) := ParseForm r in
  if negb ok then Ret (TokenError "invalid_request" "malformed form body")
  else
    let token := FormValue r "token" in
    if String.eqb token "" then Ret (TokenError "invalid_request" "token parameter is required")
    else modify (revoke token) ;;; Ret (Text "").

(** [handleEndSession]. *)
Definition endSessionLocation (postLogoutURI state : string) : string :=
  if String.eqb state "" then postLogoutURI
  else match Parse postLogoutURI with
  | None => postLogoutURI
  | Some u => extendQuery u [("state", state)]
  end.
Definition handleEndSession (r : Request) : prog response :=
  let postLogoutURI := Values_Get (urlQuery r) "post_logout_redirect_uri" in
  if String.eqb postLogoutURI "" then Ret (Text "Logged out")
  else Ret (Redirect (endSessionLocation postLogoutURI (Values_Get (urlQuery r) "state"))).

(** ** Requests *)

(** The hook of an endpoint ([runAuthorize], [runToken], ...): whether it
    handled the request. *)
Definition runHook (endpoint : string) : prog bool :=
  let* set := read (fun w => bool_decide (endpoint ∈ hooks w)) in
  if set then ask (QHook endpoint) else Ret false.

(** [RequestRecorder.record]. *)
Definition record (endpoint meth : string) (params : Values) (w : Idp) : Idp :=
  w <| records := records w ++ [mkRecord endpoint meth params] |>.

(** [wrapHandler]. *)
Definition wrapHandler (endpoint : string) (handler : Request -> prog response) (r : Request) : prog response :=
  let post := String.eqb (Method r) "POST" in
  let r := if post then (ParseForm r).2 else r in
  let params := if post then default ∅ (PostForm r) else urlQuery r in
  modify (record endpoint (Method r) params) ;;;
  let* handled := runHook endpoint in
  if handled then Ret Hooked else handler r.

(** The routes of [NewFakeIDP] and their [ServeMux]. *)
Definition routes : list (string * string * (Request -> prog response)) :=
  [("GET", "/.well-known/openid-configuration", handleDiscovery); ("GET", "/authorize", handleAuthorize);
   ("POST", "/token", handleToken); ("GET", "/jwks", handleJWKS); ("GET", "/end_session", handleEndSession);
   ("GET", "/userinfo", handleUserinfo); ("POST", "/revoke", handleRevoke)].
Definition allows (route meth : string) : bool :=
  String.eqb route meth || String.eqb route "GET" && String.eqb meth "HEAD".
Definition serve (path : string) (r : Request) : prog response :=
  match List.find (fun '(_, p, _) => String.eqb p path) routes with
  | None => Ret (HttpError 404 "404 page not found")
  | Some (meth, endpoint, handler) =>
      if allows meth (Method r) then wrapHandler endpoint handler r
      else Ret (HttpError 405 "Method Not Allowed")
  end.

(** ** Setters *)

Definition QueueError (code : string) : prog unit :=
  modify (fun w => w <| errorQueue := errorQueue w ++ [code] |> <| queued := queued w ++ [code] |>).
Definition SetTokenError (code : string) : prog unit := modify (fun w => w <| stickyError := code |>).
Definition ClearTokenError : prog unit := modify (fun w => w <| stickyError := "" |>).
Definition SetAccessTTL (d : Z) : prog unit := modify (fun w => w <| accessTTL := d |>).
Definition SetJWKSError (statusCode : Z) : prog unit := modify (fun w => w <| jwksError := Some statusCode |>).
Definition ClearJWKSError : prog unit := modify (fun w => w <| jwksError := None |>).
Definition unlessEmpty (s : string) : option string := if String.eqb s "" then None else Some s.
Definition SetForceIssuer (issuer : string) : prog unit :=
  modify (fun w => w <| forceIssuer := unlessEmpty issuer |>).
Definition SetForceAudience (aud : string) : prog unit :=
  modify (fun w => w <| forceAudience := unlessEmpty aud |>).
Definition SetForceAudiences (auds : list string) : prog unit :=
  modify (fun w => w <| forceAudiences := match auds with [] => None | _ => Some auds end |>).
Definition SetForceAzpRawJSON (raw : string) : prog unit :=
  modify (fun w => w <| forceAzpJSON := unlessEmpty raw |>).
Definition SetForceAzp (azp : string) : prog unit :=
  if String.eqb azp "" then SetForceAzpRawJSON "" else SetForceAzpRawJSON (Marshal azp).
Definition unlessZero (t : Time) : option Time := if IsZeroTime t then None else Some t.
Definition SetForceExpiry (t : Time) : prog unit := modify (fun w => w <| forceExpiry := unlessZero t |>).
Definition SetForceNotBefore (t : Time) : prog unit := modify (fun w => w <| forceNotBefore := unlessZero t |>).

(** [GrantTypeErrorMap]. *)
Definition GrantErrors_Set (grantType errorCode : string) : prog unit :=
  modify (fun w => w <| grantErrors := <[grantType := errorCode]> (grantErrors w) |>).
Definition GrantErrors_Clear (grantType : string) : prog unit :=
  modify (fun w => w <| grantErrors := delete grantType (grantErrors w) |>).
Definition GrantErrors_ClearAll : prog unit := modify (fun w => w <| grantErrors := ∅ |>).

(** [Hooks]' setters: a hook is set or removed. *)
Definition SetHook (endpoint : string) (hook : bool) : prog unit :=
  modify (fun w => w <| hooks := if hook then {[endpoint]} ∪ hooks w else hooks w ∖ {[endpoint]} |>).

(** [RequestRecorder]. *)
Definition Records : prog (list RequestRecord) := read records.
Definition RecordsFor (endpoint : string) : prog (list RequestRecord) :=
  read (fun w => filter (fun rec => rEndpoint rec = endpoint) (records w)).
Definition Reset : prog unit := modify (fun w => w <| records := [] |>).

(** [RotateKey]: [false] is a fatal failure of the test.  The section keeps the
    old key in the JWKS. *)
Definition rotateKey (newKeyID : string) (key : nat) (w : Idp) : bool * Idp :=
  if bool_decide (newKeyID ∈ kID <$> jwks w) then (false, w)
  else (true, w <| extraKeys := extraKeys w ++ [signingKey w] |> <| signingKey := mkKeyEntry key newKeyID |>).
Definition generateKey (w : Idp) : nat * Idp := (nextKey w, w <| nextKey := S (nextKey w) |>).
Definition RotateKey (newKeyID : string) : prog bool :=
  if String.eqb newKeyID "" then Ret false
  else
    let* key := act generateKey in
    act (rotateKey newKeyID key).

Inductive idpApi : prog unit -> Prop :=
| api_serve path r : idpApi (let* _ := serve path r in skip)
| api_QueueError code : idpApi (QueueError code)
| api_SetTokenError code : idpApi (SetTokenError code)
| api_ClearTokenError : idpApi ClearTokenError
| api_SetAccessTTL d : idpApi (SetAccessTTL d)
| api_SetJWKSError st : idpApi (SetJWKSError st)
| api_ClearJWKSError : idpApi ClearJWKSError
| api_SetForceIssuer s : idpApi (SetForceIssuer s)
| api_SetForceAudience s : idpApi (SetForceAudience s)
| api_SetForceAudiences l : idpApi (SetForceAudiences l)
| api_SetForceAzpRawJSON s : idpApi (SetForceAzpRawJSON s)
| api_SetForceAzp s : idpApi (SetForceAzp s)
| api_SetForceExpiry t : idpApi (SetForceExpiry t)
| api_SetForceNotBefore t : idpApi (SetForceNotBefore t)
| api_GrantErrors_Set g e : idpApi (GrantErrors_Set g e)
| api_GrantErrors_Clear g : idpApi (GrantErrors_Clear g)
| api_GrantErrors_ClearAll : idpApi GrantErrors_ClearAll
| api_SetHook e h : idpApi (SetHook e h)
| api_Records : idpApi (let* _ := Records in skip)
| api_RecordsFor e : idpApi (let* _ := RecordsFor e in skip)
| api_Reset : idpApi Reset
| api_RotateKey k : idpApi (let* _ := RotateKey k in skip).

End Provider.
