(* ===== verification/ProviderInv.v ===== *)
(** The invariant of the fake provider, and that every action of its goroutines
    preserves it. *)
From S2P Require Import Prelude Proc RelyGuarantee Schedules GoTime GoStrings GoUrl GoEncoding GoHttp Provider.

Section ProviderInv.
  Context (o : options) (Sum256 : string -> string).

(** ** The invariant *)

(** What a stored code promises about the authorization request. *)
Definition code_ok (p : pendingCode) : Prop :=
  pcClientID p = clientID o /\ pcRedirectURI p <> "" /\
  (lenient o = false -> isRegisteredRedirectURI o (pcRedirectURI p) = true /\ pcCodeVerifier p <> "").

(** What an exchanged code promises about the token request. *)
Definition grant_ok (w : Idp) (g : grant) : Prop :=
  exists p st, issued w !! gCode g = Some p /\ known w !! gRefresh g = Some st /\
    tsSubject st = pcSubject p /\ tsClientID st = pcClientID p /\
    exchangeError o Sum256 p (gCheckedAt g) (gRequest g) = None /\
    FormValue (gRequest g) "code" = gCode g /\
    (lenient o = false -> 0 < codeTTL o -> is_Some (gCheckedAt g)).

Definition rotation_ok (w : Idp) (x : rotation) : Prop :=
  exists st st', known w !! rOld x = Some st /\ known w !! rNew x = Some st' /\
    tsSubject st' = tsSubject st /\ tsClientID st' = tsClientID st.

Definition usedCodes (w : Idp) : list string := gCode <$> grants w.
Definition usedTokens (w : Idp) : list string := rOld <$> rotations w.

Record inv (w : Idp) : Prop := {
  inv_codes : forall c p, codes w !! c = Some p -> issued w !! c = Some p /\ c ∉ redeeming w /\ c ∉ usedCodes w;
  inv_redeeming : forall c, c ∈ redeeming w -> is_Some (issued w !! c) /\ c ∉ usedCodes w;
  inv_used_codes : NoDup (usedCodes w);
  inv_issued : forall c p, issued w !! c = Some p -> code_ok p;
  inv_grants : forall g, g ∈ grants w -> grant_ok w g;
  inv_tokens : forall t st, refreshTokens w !! t = Some st ->
    known w !! t = Some st /\ t ∉ rotating w /\ t ∉ usedTokens w /\ t ∉ revoked w;
  inv_rotating : forall t, t ∈ rotating w -> is_Some (known w !! t) /\ t ∉ usedTokens w /\ t ∉ revoked w;
  inv_used_tokens : NoDup (usedTokens w);
  inv_rotations : forall x, x ∈ rotations w -> rotation_ok w x;
  inv_revoked : forall t, t ∈ revoked w -> is_Some (known w !! t) /\ t ∉ usedTokens w;
  inv_minted : forall s, is_Some (issued w !! s) \/ is_Some (known w !! s) \/ s ∈ unstored w -> s ∈ minted w;
  inv_unstored : forall s, s ∈ unstored w -> issued w !! s = None /\ known w !! s = None;
  inv_keys : NoDup (kID <$> jwks w);
  inv_queue : queued w = injected w ++ errorQueue w;
  inv_signed : forall k, k ∈ signedWith w -> k ∈ jwks w
}.

Definition hist (w w' : Idp) : Prop :=
  issued w ⊆ issued w' /\ known w ⊆ known w' /\ (forall k, k ∈ jwks w -> k ∈ jwks w').

(** The roles that are held. *)
Definition hasRole (l : idpRole) (w : Idp) : Prop :=
  match l with
  | mintRole s => s ∈ unstored w
  | codeRole s => s ∈ redeeming w
  | refreshRole s => s ∈ rotating w
  end.
#[export] Instance hasRole_dec l w : Decision (hasRole l w).
Proof. destruct l; cbn [hasRole]; apply _. Defined.

Definition prot (l : idpRole) (w w' : Idp) : Prop := hasRole l w' <-> hasRole l w.
Definition linv (_ : idpRole) (_ : Idp) : Prop := True.
Definition role (_ : idpRole) : bool := true.
Definition taken (l : idpRole) (w : Idp) : bool := bool_decide (hasRole l w).
Definition rank (_ : idpRole) : nat := 0.
(** A token is signed with a key of the key set. *)
Definition pre (X : Type) (q : idpQuery X) (_ : gset idpRole) (w : Idp) : Prop :=
  match q with QSign key _ => key ∈ jwks w | _ => True end.
Definition answers (X : Type) (q : idpQuery X) (_ : X) : Prop := True.
Definition env (_ _ : Idp) : Prop := False.
Definition bound (_ : Idp) : Prop := True.

Lemma idp_hist_refl w : hist w w.
Proof. done. Qed.

Lemma idp_laws : RG_laws hist prot inv linv role taken env.
Proof.
  split; try done.
  - intros w1 w2 w3 (a1 & b1 & c1) (a2 & b2 & c2). split; [by etrans|]. split; [by etrans|]. auto.
  - intros l w1 w2 w3 H1 H2. unfold prot in *. tauto.
  - intros l w w' _ H. by apply bool_decide_ext.
Qed.

Abbreviation wp := (RelyGuarantee.wp hist prot inv linv rank role taken pre answers bound).
Abbreviation trans := (RelyGuarantee.trans hist prot inv role taken bound).
Abbreviation rely := (RelyGuarantee.rely hist prot).
Abbreviation held := (RelyGuarantee.held_roles role taken).

Lemma held_has H w l : held H w -> l ∈ H -> hasRole l w.
Proof. intros Hh Hin. specialize (Hh _ Hin eq_refl). by apply bool_decide_eq_true in Hh. Qed.

(** ** Actions *)

(** An action that takes the roles [add] and gives up [del]. *)
Lemma step_trans H add del w w' (K : gset idpRole -> Prop) :
  held H w -> hist w w' -> inv w' -> del ⊆ H -> (forall l, l ∈ add -> ~ hasRole l w) ->
  (forall l, hasRole l w' <-> l ∈ add \/ hasRole l w /\ l ∉ del) ->
  K (add ∪ (H ∖ del)) -> trans H w w' K.
Proof.
  intros Hh Hhist Hi Hdel Hadd Hiff HK _. exists (add ∪ (H ∖ del)).
  assert (HH : forall l, l ∈ H -> hasRole l w) by (intros l; by apply held_has).
  split; [split|split; [exact Hhist|split; [|split; [exact Hi|exact HK]]]].
  - by intros l [=].
  - intros l _ Hin. apply bool_decide_eq_true_2, Hiff. apply elem_of_union in Hin as [?|[? ?]%elem_of_difference]; auto.
  - intros l _ Hin Hout. apply bool_decide_eq_false_2. rewrite Hiff. intros [?|[? ?]]; apply Hout; set_solver.
  - intros l _ Hout Hin. apply bool_decide_eq_false_2. apply Hadd. set_solver.
  - intros l Hout Hout'. unfold prot. rewrite Hiff. split; [intros [?|[? _]]; [set_solver|done]|].
    intros Hl. right. split; [done|]. intros Hd. by apply Hout, Hdel.
Qed.

(** What the invariant is about; the setters of the server change none of it. *)
Definition core (w : Idp) :=
  (codes w, refreshTokens w, errorQueue w, (minted w, unstored w, issued w, redeeming w, known w, rotating w),
   (grants w, rotations w, revoked w, queued w, injected w), (signedWith w, jwks w)).

Lemma idp_frame_trans H w w' (K : gset idpRole -> Prop) :
  inv w -> held H w -> core w' = core w -> K H -> trans H w w' K.
Proof.
  intros Hi Hh [= E1 E2 E3 E4 E5 E6 E7 E8 E9 E10 E11 E12 E13 E14 E15 E16 E17] HK. unfold jwks in *.
  apply trans_keep; [| | | |done].
  - split; [by rewrite E6|]. split; [by rewrite E8|]. unfold jwks. by rewrite E16, E17.
  - intros l _. unfold prot. destruct l; cbn; by rewrite ?E5, ?E7, ?E9.
  - intros l Hr Hin. apply bool_decide_eq_true_2. pose proof (held_has _ _ _ Hh Hin).
    destruct l; cbn in *; by rewrite ?E5, ?E7, ?E9.
  - destruct Hi as [I1 I2 I3 I4 I5 I6 I7 I8 I9 I10 I11 I12 I13 I14 I15].
    split; unfold usedCodes, usedTokens, grant_ok, rotation_ok, jwks in *;
      rewrite ?E1, ?E2, ?E3, ?E4, ?E5, ?E6, ?E7, ?E8, ?E9, ?E10, ?E11, ?E12, ?E13, ?E14, ?E15, ?E16, ?E17; done.
Qed.

(** *** Random strings *)

Lemma mint_trans H w b w' (K : gset idpRole -> Prop) :
  inv w -> held H w -> randomReady w b = Some w' ->
  (mintRole (b64_encode b) ∉ H -> K ({[mintRole (b64_encode b)]} ∪ H)) -> trans H w w' K.
Proof.
  unfold randomReady. set (s := b64_encode b). intros Hi Hh. case_bool_decide as Hm; [done|]. intros [= <-] HK.
  destruct Hi as [I1 I2 I3 I4 I5 I6 I7 I8 I9 I10 I11 I12 I13 I14 I15].
  assert (Hnu : s ∉ unstored w) by (intros ?; apply Hm, I11; auto).
  apply (step_trans H {[mintRole s]} ∅); [done|done| |set_solver|set_solver| |].
  - split; try done.
    + cbn. intros x Hx. apply elem_of_union. destruct (decide (x = s)) as [->|Hne]; [left; set_solver|right].
      apply I11. set_solver.
    + cbn. intros x [->%elem_of_singleton|Hx]%elem_of_union; [|by apply I12].
      split; apply eq_None_not_Some; intros Hx; apply Hm, I11; auto.
  - clear. intros [x|x|x]; cbn; set_solver.
  - rewrite difference_empty_L. apply HK. intros Hin. by apply Hnu, (held_has _ _ _ Hh Hin).
Qed.

(** Giving up roles without storing anything. *)
Definition release (U C R : gset string) (w : Idp) : Idp :=
  w <| unstored := unstored w ∖ U |> <| redeeming := redeeming w ∖ C |> <| rotating := rotating w ∖ R |>.
Definition rolesOf (U C R : gset string) : gset idpRole :=
  set_map mintRole U ∪ set_map codeRole C ∪ set_map refreshRole R.

Lemma release_trans H U C R w (K : gset idpRole -> Prop) :
  inv w -> held H w -> rolesOf U C R ⊆ H -> K (H ∖ rolesOf U C R) -> trans H w (release U C R w) K.
Proof.
  intros Hi Hh Hsub HK. destruct Hi as [I1 I2 I3 I4 I5 I6 I7 I8 I9 I10 I11 I12 I13 I14 I15].
  apply (step_trans H ∅ (rolesOf U C R)); [done|done| |done|set_solver| |by rewrite union_empty_l_L].
  - split; try done.
    + cbn. intros c p Hc. destruct (I1 c p Hc) as (? & ? & ?). split; [done|]. set_solver.
    + cbn. intros c Hc. apply I2. set_solver.
    + cbn. intros t st Ht. destruct (I6 t st Ht) as (? & ? & ? & ?). split; [done|]. set_solver.
    + cbn. intros t Ht. apply I7. set_solver.
    + cbn. intros x Hx. apply I11. set_solver.
    + cbn. intros x Hx. apply I12. set_solver.
  - clear. intros l. unfold rolesOf. destruct l as [x|x|x]; cbn; set_solver.
Qed.

Lemma discard_release s w : discard s w = release {[s]} ∅ ∅ w.
Proof. unfold discard, release. destruct w; cbv [set field_update]; cbn. by rewrite !difference_empty_L. Qed.
Lemma abandonCode_release c w : abandonCode c w = release ∅ {[c]} ∅ w.
Proof. unfold abandonCode, release. destruct w; cbv [set field_update]; cbn. by rewrite !difference_empty_L. Qed.
Lemma abandonRefresh_release t w : abandonRefresh t w = release ∅ ∅ {[t]} w.
Proof. unfold abandonRefresh, release. destruct w; cbv [set field_update]; cbn. by rewrite !difference_empty_L. Qed.

(** *** Authorization codes *)

Lemma grant_ok_mono w w' g : hist w w' -> grant_ok w g -> grant_ok w' g.
Proof.
  intros (Hi & Hk & _) (p & st & H1 & H2 & Hrest). exists p, st.
  split; [by apply (lookup_weaken _ _ _ _ H1)|]. split; [by apply (lookup_weaken _ _ _ _ H2)|done].
Qed.
Lemma rotation_ok_mono w w' x : hist w w' -> rotation_ok w x -> rotation_ok w' x.
Proof.
  intros (_ & Hk & _) (st & st' & H1 & H2 & Hrest). exists st, st'.
  split; [by apply (lookup_weaken _ _ _ _ H1)|]. split; [by apply (lookup_weaken _ _ _ _ H2)|done].
Qed.

Lemma storeCode_trans H c p w (K : gset idpRole -> Prop) :
  inv w -> held H w -> mintRole c ∈ H -> code_ok p -> K (H ∖ {[mintRole c]}) -> trans H w (storeCode c p w) K.
Proof.
  intros Hi Hh Hin Hp HK. pose proof (held_has _ _ _ Hh Hin) as Hu. cbn in Hu.
  destruct (inv_unstored _ Hi _ Hu) as [Hni Hnk].
  assert (Hhist : hist w (storeCode c p w)) by (split; [by apply insert_subseteq|done]).
  destruct Hi as [I1 I2 I3 I4 I5 I6 I7 I8 I9 I10 I11 I12 I13 I14 I15].
  assert (Hnr : c ∉ redeeming w) by (intros [[x Hx] _]%I2; by rewrite Hni in Hx).
  assert (Hng : c ∉ usedCodes w).
  { intros (g & -> & Hg)%list_elem_of_fmap. destruct (I5 g Hg) as (x & st & Hx & _). by rewrite Hni in Hx. }
  apply (step_trans H ∅ {[mintRole c]}); [done|done| |set_solver|done| |by rewrite union_empty_l_L].
  - split; try done.
    + cbn. intros x q [[<- <-]|[Hne Hx]]%lookup_insert_Some; [by rewrite lookup_insert_eq|].
      rewrite lookup_insert_ne by done. by apply I1.
    + cbn. intros x Hx. destruct (I2 x Hx) as [Hs Hx']. split; [|done].
      destruct (decide (c = x)) as [->|Hne]; [rewrite lookup_insert_eq; eauto|by rewrite lookup_insert_ne].
    + cbn. intros x q [[<- <-]|[Hne Hx]]%lookup_insert_Some; [done|by apply (I4 x)].
    + intros g Hg. apply (grant_ok_mono w); [done|by apply I5].
    + cbn. intros x Hx. apply I11. destruct (decide (c = x)) as [<-|Hne]; [auto|].
      rewrite lookup_insert_ne in Hx by done. set_solver.
    + cbn. intros x [Hx Hne]%elem_of_difference. rewrite lookup_insert_ne by set_solver. by apply I12.
  - clear. intros [x|x|x]; cbn; set_solver.
Qed.

Lemma takeCode_trans H c w (K : gset idpRole -> Prop) :
  inv w -> held H w ->
  (match (takeCode c w).1 with
   | None => K H
   | Some p => issued (takeCode c w).2 !! c = Some p -> code_ok p -> K ({[codeRole c]} ∪ H)
   end) ->
  trans H w (takeCode c w).2 K.
Proof.
  intros Hi Hh. unfold takeCode. destruct (codes w !! c) as [p|] eqn:Ec; cbn [fst snd]; intros HK.
  2: { by apply (trans_refl idp_laws). }
  destruct Hi as [I1 I2 I3 I4 I5 I6 I7 I8 I9 I10 I11 I12 I13 I14 I15]. destruct (I1 c p Ec) as (Hp & Hnr & Hng).
  apply (step_trans H {[codeRole c]} ∅); [done|done| |set_solver|set_solver| |].
  - split; try done.
    + cbn. intros x q [Hne Hx]%lookup_delete_Some. destruct (I1 x q Hx) as (? & ? & ?). set_solver.
    + cbn. intros x [->%elem_of_singleton|Hx]%elem_of_union; [by rewrite Hp|by apply I2].
  - clear. intros [x|x|x]; cbn; set_solver.
  - rewrite difference_empty_L. apply HK; [exact Hp|by apply (I4 c)].
Qed.

Lemma dropCode_trans H c w (K : gset idpRole -> Prop) : inv w -> held H w -> K H -> trans H w (dropCode c w) K.
Proof.
  intros Hi Hh HK. destruct Hi as [I1 I2 I3 I4 I5 I6 I7 I8 I9 I10 I11 I12 I13 I14 I15].
  apply (step_trans H ∅ ∅); [done|done| |set_solver|set_solver| |by rewrite difference_empty_L, union_empty_l_L].
  - split; try done. cbn. intros x q [_ Hx]%lookup_delete_Some. by apply I1.
  - clear. intros [x|x|x]; cbn; set_solver.
Qed.

Lemma storeGrant_trans H g st p w (K : gset idpRole -> Prop) :
  inv w -> held H w -> codeRole (gCode g) ∈ H -> mintRole (gRefresh g) ∈ H ->
  issued w !! gCode g = Some p -> tsSubject st = pcSubject p -> tsClientID st = pcClientID p ->
  exchangeError o Sum256 p (gCheckedAt g) (gRequest g) = None -> FormValue (gRequest g) "code" = gCode g ->
  (lenient o = false -> 0 < codeTTL o -> is_Some (gCheckedAt g)) ->
  K (H ∖ {[codeRole (gCode g); mintRole (gRefresh g)]}) -> trans H w (storeGrant g st w) K.
Proof.
  intros Hi Hh Hc Hm Hp E1 E2 E3 E4 E5 HK.
  pose proof (held_has _ _ _ Hh Hc) as Hr. pose proof (held_has _ _ _ Hh Hm) as Hu. cbn in Hr, Hu.
  destruct (inv_unstored _ Hi _ Hu) as [Hni Hnk]. destruct (inv_redeeming _ Hi _ Hr) as [_ Hng].
  assert (Hhist : hist w (storeGrant g st w)) by (split; [done|split; [by apply insert_subseteq|done]]).
  assert (Hok : grant_ok (storeGrant g st w) g).
  { exists p, st. split; [exact Hp|]. split; [cbn; by rewrite lookup_insert_eq|]. repeat split; try done. }
  destruct Hi as [I1 I2 I3 I4 I5 I6 I7 I8 I9 I10 I11 I12 I13 I14 I15].
  assert (Hnt : gRefresh g ∉ rotating w) by (intros [[x Hx] _]%I7; by rewrite Hnk in Hx).
  assert (Hnv : gRefresh g ∉ revoked w) by (intros [[x Hx] _]%I10; by rewrite Hnk in Hx).
  assert (Hnu : gRefresh g ∉ usedTokens w).
  { intros (y & Hy & Hin)%list_elem_of_fmap. destruct (I9 y Hin) as (a & b & Ha & _). rewrite <- Hy, Hnk in Ha. done. }
  apply (step_trans H ∅ {[codeRole (gCode g); mintRole (gRefresh g)]}); [done|done| |set_solver|done| |by rewrite union_empty_l_L].
  - split; try done.
    + cbn. intros x q Hx. destruct (I1 x q Hx) as (? & ? & ?). split; [done|]. split; [set_solver|].
      unfold usedCodes. cbn. rewrite fmap_app. cbn. intros [?| ->%list_elem_of_singleton]%elem_of_app; done.
    + cbn. intros x [Hx Hne]%elem_of_difference. destruct (I2 x Hx). split; [done|].
      unfold usedCodes. cbn. rewrite fmap_app. cbn. intros [?| ->%list_elem_of_singleton]%elem_of_app; [done|set_solver].
    + unfold usedCodes. cbn. rewrite fmap_app. apply NoDup_app. split; [done|]. split; [|apply NoDup_singleton].
      intros x Hx ->%list_elem_of_singleton. done.
    + cbn. intros g' [Hg| ->%list_elem_of_singleton]%elem_of_app; [|done]. apply (grant_ok_mono w); [done|by apply I5].
    + cbn. intros t s' [[<- <-]|[Hne Ht]]%lookup_insert_Some; [by rewrite lookup_insert_eq|].
      rewrite lookup_insert_ne by done. by apply I6.
    + cbn. intros t Ht. destruct (I7 t Ht) as [Hs ?]. split; [|done].
      destruct (decide (gRefresh g = t)) as [->|Hne]; [rewrite lookup_insert_eq; eauto|by rewrite lookup_insert_ne].
    + intros x Hx. apply (rotation_ok_mono w); [done|by apply I9].
    + cbn. intros t Ht. destruct (I10 t Ht) as [Hs ?]. split; [|done].
      destruct (decide (gRefresh g = t)) as [->|Hne]; [rewrite lookup_insert_eq; eauto|by rewrite lookup_insert_ne].
    + cbn. intros x Hx. apply I11. destruct (decide (gRefresh g = x)) as [<-|Hne]; [auto|].
      rewrite lookup_insert_ne in Hx by done. set_solver.
    + cbn. intros x [Hx Hne]%elem_of_difference. rewrite lookup_insert_ne by set_solver. by apply I12.
  - clear. intros [x|x|x]; cbn; set_solver.
Qed.

(** *** Refresh tokens *)

Lemma takeRefresh_trans H t w (K : gset idpRole -> Prop) :
  inv w -> held H w ->
  (match (takeRefresh t w).1 with
   | None => K H
   | Some st => known (takeRefresh t w).2 !! t = Some st -> K ({[refreshRole t]} ∪ H)
   end) ->
  trans H w (takeRefresh t w).2 K.
Proof.
  intros Hi Hh. unfold takeRefresh. destruct (refreshTokens w !! t) as [st|] eqn:Et; cbn [fst snd]; intros HK.
  2: { by apply (trans_refl idp_laws). }
  destruct Hi as [I1 I2 I3 I4 I5 I6 I7 I8 I9 I10 I11 I12 I13 I14 I15]. destruct (I6 t st Et) as (Hk & Hnr & Hnu & Hnv).
  apply (step_trans H {[refreshRole t]} ∅); [done|done| |set_solver|set_solver| |].
  - split; try done.
    + cbn. intros x q [Hne Hx]%lookup_delete_Some. destruct (I6 x q Hx) as (? & ? & ?). set_solver.
    + cbn. intros x [->%elem_of_singleton|Hx]%elem_of_union; [by rewrite Hk|by apply I7].
  - clear. intros [x|x|x]; cbn; set_solver.
  - rewrite difference_empty_L. by apply HK.
Qed.

Lemma storeRotation_trans H old new st st0 w (K : gset idpRole -> Prop) :
  inv w -> held H w -> refreshRole old ∈ H -> mintRole new ∈ H ->
  known w !! old = Some st0 -> tsSubject st = tsSubject st0 -> tsClientID st = tsClientID st0 ->
  K (H ∖ {[refreshRole old; mintRole new]}) -> trans H w (storeRotation old new st w) K.
Proof.
  intros Hi Hh Ho Hm Hk0 E1 E2 HK.
  pose proof (held_has _ _ _ Hh Ho) as Hr. pose proof (held_has _ _ _ Hh Hm) as Hu. cbn in Hr, Hu.
  destruct (inv_unstored _ Hi _ Hu) as [Hni Hnk]. destruct (inv_rotating _ Hi _ Hr) as (_ & Hnuo & Hnvo).
  assert (Hhist : hist w (storeRotation old new st w)) by (split; [done|split; [by apply insert_subseteq|done]]).
  assert (Hne : old <> new) by (intros <-; by rewrite Hk0 in Hnk).
  assert (Hok : rotation_ok (storeRotation old new st w) (mkRotation old new)).
  { exists st0, st. split; [cbn; by rewrite lookup_insert_ne|]. split; [cbn; by rewrite lookup_insert_eq|done]. }
  destruct Hi as [I1 I2 I3 I4 I5 I6 I7 I8 I9 I10 I11 I12 I13 I14 I15].
  assert (Hnt : new ∉ rotating w) by (intros [[x Hx] _]%I7; by rewrite Hnk in Hx).
  assert (Hnv : new ∉ revoked w) by (intros [[x Hx] _]%I10; by rewrite Hnk in Hx).
  assert (Hnu : new ∉ usedTokens w).
  { intros (y & Hy & Hin)%list_elem_of_fmap. destruct (I9 y Hin) as (a & b & Ha & _). rewrite <- Hy, Hnk in Ha. done. }
  assert (Hused : forall t, t ∉ usedTokens w -> t <> old -> t ∉ usedTokens (storeRotation old new st w)).
  { intros t Ht Hto. unfold usedTokens. cbn. rewrite fmap_app. cbn.
    intros [?| ->%list_elem_of_singleton]%elem_of_app; done. }
  apply (step_trans H ∅ {[refreshRole old; mintRole new]}); [done|done| |set_solver|done| |by rewrite union_empty_l_L].
  - split; try done.
    + intros g Hg. apply (grant_ok_mono w); [done|by apply I5].
    + intros t s'. cbn. intros [[<- <-]|[Hnt' Ht]]%lookup_insert_Some.
      * rewrite lookup_insert_eq. split; [done|]. split; [set_solver|]. split; [by apply Hused|done].
      * rewrite lookup_insert_ne by done. destruct (I6 t s' Ht) as (? & ? & ? & ?). split; [done|].
        split; [set_solver|]. split; [apply Hused; [done|set_solver]|done].
    + intros t. cbn. intros [Ht Hto]%elem_of_difference. destruct (I7 t Ht) as (Hs & ? & ?).
      split; [|split; [apply Hused; [done|set_solver]|done]].
      destruct (decide (new = t)) as [->|Hn]; [rewrite lookup_insert_eq; eauto|by rewrite lookup_insert_ne].
    + unfold usedTokens. cbn. rewrite fmap_app. apply NoDup_app. split; [done|]. split; [|apply NoDup_singleton].
      intros x Hx ->%list_elem_of_singleton. done.
    + intros x. cbn. intros [Hx| ->%list_elem_of_singleton]%elem_of_app; [|done].
      apply (rotation_ok_mono w); [done|by apply I9].
    + intros t. cbn. intros Ht. destruct (I10 t Ht) as [Hs ?]. split; [|apply Hused; [done|by intros ->]].
      destruct (decide (new = t)) as [->|Hn]; [rewrite lookup_insert_eq; eauto|by rewrite lookup_insert_ne].
    + cbn. intros x Hx. apply I11. destruct (decide (new = x)) as [<-|Hn]; [auto|].
      rewrite lookup_insert_ne in Hx by done. set_solver.
    + cbn. intros x [Hx Hn]%elem_of_difference. rewrite lookup_insert_ne by set_solver. by apply I12.
  - clear. intros [x|x|x]; cbn; set_solver.
Qed.

Lemma revoke_trans H t w (K : gset idpRole -> Prop) : inv w -> held H w -> K H -> trans H w (revoke t w) K.
Proof.
  intros Hi Hh HK. unfold revoke. destruct (refreshTokens w !! t) as [st|] eqn:Et; [|by apply (trans_refl idp_laws)].
  destruct Hi as [I1 I2 I3 I4 I5 I6 I7 I8 I9 I10 I11 I12 I13 I14 I15]. destruct (I6 t st Et) as (Hk & Hnr & Hnu & Hnv).
  apply (step_trans H ∅ ∅); [done|done| |set_solver|set_solver| |by rewrite difference_empty_L, union_empty_l_L].
  - split; try done.
    + cbn. intros x q [Hne Hx]%lookup_delete_Some. destruct (I6 x q Hx) as (? & ? & ? & ?). split; [done|]. split; [done|]. split; [done|].
      intros [->%elem_of_singleton|?]%elem_of_union; done.
    + cbn. intros x Hx. destruct (I7 x Hx) as (? & ? & ?). split; [done|]. split; [done|].
      intros [->%elem_of_singleton|?]%elem_of_union; done.
    + cbn. intros x [->%elem_of_singleton|Hx]%elem_of_union; [by rewrite Hk|by apply I10].
  - clear. intros [x|x|x]; cbn; set_solver.
Qed.

(** *** Errors, keys *)

(** The queue of errors and the log of those returned. *)
Lemma queue_trans H w q1 q2 q3 (K : gset idpRole -> Prop) :
  inv w -> held H w -> q1 = q2 ++ q3 -> K H ->
  trans H w (w <| queued := q1 |> <| injected := q2 |> <| errorQueue := q3 |>) K.
Proof.
  intros Hi Hh Hq HK. destruct Hi as [I1 I2 I3 I4 I5 I6 I7 I8 I9 I10 I11 I12 I13 I14 I15].
  apply (step_trans H ∅ ∅); [done|done| |set_solver|set_solver| |by rewrite difference_empty_L, union_empty_l_L].
  - by split.
  - clear. intros [x|x|x]; cbn; set_solver.
Qed.

Lemma takeError_trans H w (K : gset idpRole -> Prop) : inv w -> held H w -> K H -> trans H w (takeError w).2 K.
Proof.
  intros Hi Hh HK. unfold takeError. destruct (negb _); [by apply (trans_refl idp_laws)|].
  destruct (errorQueue w) as [|code rest] eqn:Eq; [by apply (trans_refl idp_laws)|]. cbn [snd].
  pose proof (inv_queue _ Hi) as Hq. rewrite Eq in Hq.
  replace (w <| errorQueue := rest |> <| injected := injected w ++ [code] |>)
    with (w <| queued := queued w |> <| injected := injected w ++ [code] |> <| errorQueue := rest |>) by by destruct w.
  apply queue_trans; [done|done|by rewrite <- app_assoc|done].
Qed.

Lemma queueError_trans H code w (K : gset idpRole -> Prop) :
  inv w -> held H w -> K H ->
  trans H w (w <| errorQueue := errorQueue w ++ [code] |> <| queued := queued w ++ [code] |>) K.
Proof.
  intros Hi Hh HK. pose proof (inv_queue _ Hi) as Hq.
  replace (w <| errorQueue := errorQueue w ++ [code] |> <| queued := queued w ++ [code] |>)
    with (w <| queued := queued w ++ [code] |> <| injected := injected w |> <| errorQueue := errorQueue w ++ [code] |>)
    by by destruct w.
  apply queue_trans; [done|done|by rewrite Hq, app_assoc|done].
Qed.

(** Signing with a key of the key set. *)
Lemma sign_trans H key w (K : gset idpRole -> Prop) :
  inv w -> held H w -> key ∈ jwks w -> K H -> trans H w (w <| signedWith := signedWith w ++ [key] |>) K.
Proof.
  intros Hi Hh Hk HK. destruct Hi as [I1 I2 I3 I4 I5 I6 I7 I8 I9 I10 I11 I12 I13 I14 I15].
  apply (step_trans H ∅ ∅); [done|done| |set_solver|set_solver| |by rewrite difference_empty_L, union_empty_l_L].
  - split; try done. cbn. intros k [Hin| ->%list_elem_of_singleton]%elem_of_app; [by apply I15|done].
  - clear. intros [x|x|x]; cbn; set_solver.
Qed.

Lemma rotateKey_trans H kid key w (K : gset idpRole -> Prop) :
  inv w -> held H w -> K H -> trans H w (rotateKey kid key w).2 K.
Proof.
  intros Hi Hh HK. unfold rotateKey. case_bool_decide as Hd; [by apply (trans_refl idp_laws)|]. cbn [snd].
  destruct Hi as [I1 I2 I3 I4 I5 I6 I7 I8 I9 I10 I11 I12 I13 I14 I15].
  apply (step_trans H ∅ ∅); [done| | |set_solver|set_solver| |by rewrite difference_empty_L, union_empty_l_L].
  - split; [done|]. split; [done|]. intros k. unfold jwks. cbn. set_solver.
  - split; try done; unfold jwks in *; cbn in *.
    + rewrite fmap_app. apply NoDup_cons. cbn. apply NoDup_cons in I13 as [Hn Hnd]. split; [set_solver|].
    apply NoDup_app. split; [done|]. split; [|apply NoDup_singleton]. intros x Hx ->%list_elem_of_singleton. done.
    + intros k Hk. specialize (I15 k Hk). clear -I15. set_solver.
  - clear. intros [x|x|x]; cbn; set_solver.
Qed.

End ProviderInv.
