(* ===== verification/ProviderProps.v ===== *)
(** What the fake provider guarantees in every interleaving of requests and
    setters, and that its answers are what the client's flows expect. *)
From S2P Require Import Prelude Proc RelyGuarantee Schedules GoTime GoStrings GoUrl GoEncoding GoHttp Provider ProviderInv.

Section ProviderProps.
  Context (o : options) (issuerURL : string) (Sum256 : string -> string).

Abbreviation inv := (ProviderInv.inv o Sum256).
Abbreviation laws := (idp_laws o Sum256).
Abbreviation wp := (RelyGuarantee.wp hist prot inv linv rank role taken pre answers bound).
Abbreviation trans := (RelyGuarantee.trans hist prot inv role taken bound).
Abbreviation rely := (RelyGuarantee.rely hist prot).
Abbreviation held := (RelyGuarantee.held_roles role taken).
Abbreviation clean p w := (wp p ∅ (fun _ H _ => H = ∅) w).

(** ** Random strings and tokens *)

Lemma wp_generateRandomString n H w :
  wp (generateRandomString n) H (fun s H' _ => mintRole s ∉ H /\ H' = {[mintRole s]} ∪ H) w.
Proof.
  unfold generateRandomString. apply wp_select. intros w1 _ Hi1 Hh1. split; [done|]. intros b w2 _ Hr.
  eapply mint_trans; [done|done|exact Hr|]. intros Hn. by apply wp_ret.
Qed.

Lemma hist_trans' w1 w2 w3 : hist w1 w2 -> hist w2 w3 -> hist w1 w3.
Proof. apply (hist_trans _ laws). Qed.

Lemma wp_release {A} (p : Idp -> Idp) (k : unit -> prog A) H U C R Post w :
  (forall w, p w = release U C R w) -> rolesOf U C R ⊆ H ->
  (forall w', hist w w' -> wp (k tt) (H ∖ rolesOf U C R) Post w') -> wp (bind (modify p) k) H Post w.
Proof.
  intros Hp Hsub Hk. apply wp_modify. intros w1 [Hh _] Hi1 Hh1. rewrite Hp. apply release_trans; [done..|].
  apply Hk. by apply (hist_trans' _ w1).
Qed.

(** A random string that is not stored, as the access tokens are. *)
Lemma wp_unstored {A} n (k : string -> prog A) H Post w :
  (forall s w', hist w w' -> wp (k s) H Post w') ->
  wp (let* s := generateRandomString n in modify (discard s) ;;; k s) H Post w.
Proof.
  intros Hk. eapply (wp_call_hist laws); [apply wp_generateRandomString|]. intros s H' w1 Hw1 [Hn ->].
  apply (wp_release _ _ _ {[s]} ∅ ∅).
  - intros w'. apply discard_release.
  - unfold rolesOf. set_solver.
  - intros w2 Hw2. replace (({[mintRole s]} ∪ H) ∖ rolesOf {[s]} ∅ ∅) with H; [apply Hk; by apply (hist_trans' _ w1)|].
    unfold rolesOf. rewrite !set_map_empty, !union_empty_r_L, set_map_singleton_L. clear -Hn. set_solver.
Qed.

Lemma wp_signIDToken sub aud nonce now H w :
  wp (signIDToken o issuerURL sub aud nonce now) H (fun _ H' _ => H' = H) w.
Proof.
  unfold signIDToken. apply (wp_read laws). intros w1 HR1 _ _. apply wp_select. intros w2 [(_ & _ & Hk) _] Hi2 Hh2.
  assert (Hin : signingKey w1 ∈ jwks w2) by (apply Hk; by left).
  split; [exact Hin|]. intros token w3 _ [= <-]. apply sign_trans; [done|done|done|]. by apply wp_ret.
Qed.

(** ** Authorization *)

Lemma authorizeError_None rt cc ccm scope :
  authorizeError o rt cc ccm scope = None -> lenient o = false -> cc <> "".
Proof.
  unfold authorizeError. intros H Hl. rewrite Hl in H. cbn [negb andb] in H. destruct (negb _); [done|].
  destruct (String.eqb_spec cc ""); [done|done].
Qed.

Lemma wp_handleAuthorize r w : clean (handleAuthorize o r) w.
Proof.
  unfold handleAuthorize.
  destruct (String.eqb_spec (Values_Get (urlQuery r) "client_id") (clientID o)) as [Ec|]; [|by apply wp_ret].
  destruct (String.eqb_spec (Values_Get (urlQuery r) "redirect_uri") "") as [|Er]; [by apply wp_ret|]. cbn [negb].
  destruct (negb (lenient o) && negb (isRegisteredRedirectURI o _)) eqn:Eg; [by apply wp_ret|].
  destruct (authorizeError _ _ _ _ _) as [[code desc]|] eqn:Ea; [by apply wp_ret|].
  eapply (wp_call laws); [apply wp_generateRandomString|]. intros code H w1 [Hn ->].
  apply (wp_ask laws). intros w2 _ _ _. split; [done|]. intros now _.
  apply wp_modify. intros w3 _ Hi3 Hh3. apply storeCode_trans; [done|done|set_solver| |].
  - split; [exact Ec|]. split; [exact Er|]. intros Hl. split; [|by eapply authorizeError_None].
    rewrite Hl in Eg. cbn in Eg. by apply negb_false_iff in Eg.
  - apply wp_ret. intros w4 _ _ _. set_solver.
Qed.

(** ** The token endpoint *)

Lemma hist_issued w w' c p : hist w w' -> issued w !! c = Some p -> issued w' !! c = Some p.
Proof. intros (Hi & _) Hc. by apply (lookup_weaken _ _ _ _ Hc). Qed.
Lemma hist_known w w' t st : hist w w' -> known w !! t = Some st -> known w' !! t = Some st.
Proof. intros (_ & Hk & _) Ht. by apply (lookup_weaken _ _ _ _ Ht). Qed.

Lemma wp_mono_hist {A} (p : prog A) H (P Q : A -> gset idpRole -> Idp -> Prop) w :
  wp p H P w -> (forall a H' w', hist w w' -> P a H' w' -> Q a H' w') -> wp p H Q w.
Proof.
  intros Hp HPQ. eapply wp_mono; [|apply (wp_hist_from laws p H P w w (idp_hist_refl w) Hp)].
  intros a H' w' [Ha Hh]. by apply HPQ.
Qed.

Lemma wp_handleAuthCodeExchange r w : clean (handleAuthCodeExchange o issuerURL Sum256 r) w.
Proof.
  unfold handleAuthCodeExchange. set (code := FormValue r "code").
  apply wp_act. intros w1 _ Hi1 Hh1. apply (takeCode_trans); [done|done|].
  destruct (takeCode code w1).1 as [p|]; [|by apply wp_ret]. intros Hp Hok. rewrite union_empty_r_L.
  set (w1' := (takeCode code w1).2) in *.
  assert (Habandon : forall desc w, wp (modify (abandonCode code) ;;; Ret (TokenError "invalid_grant" desc))
            {[codeRole code]} (fun _ H _ => H = ∅) w).
  { intros desc w'. apply (wp_release _ _ _ ∅ {[code]} ∅); [apply abandonCode_release|unfold rolesOf; set_solver|].
    intros w2 _. apply wp_ret. intros w3 _ _ _. unfold rolesOf. set_solver. }
  eapply (wp_call_hist laws _ _ _ (fun t H w => H = {[codeRole code]} /\
    (lenient o = false -> 0 < codeTTL o -> is_Some t))).
  { destruct (negb (lenient o) && (0 <? codeTTL o)) eqn:Et.
    - apply (wp_ask laws). intros w2 _ _ _. split; [done|]. intros t _. apply wp_ret.
      intros w3 _ _ _. split; [done|]. intros _ _. by exists t.
    - apply wp_ret. intros w2 _ _ _. split; [done|]. intros Hl Ht. rewrite Hl in Et. cbn in Et. lia. }
  intros t H w2 Hh2 [-> Ht]. apply (hist_issued _ _ _ _ Hh2) in Hp.
  destruct (exchangeError o Sum256 p t r) as [desc|] eqn:Ee; [apply Habandon|].
  apply (wp_read laws). intros w3 [Hh3 _] _ _. apply (hist_issued _ _ _ _ Hh3) in Hp.
  apply (wp_ask laws). intros w4 [Hh4 _] _ _. apply (hist_issued _ _ _ _ Hh4) in Hp.
  split; [done|]. intros now _.
  apply wp_unstored. intros accessToken w5 Hh5. apply (hist_issued _ _ _ _ Hh5) in Hp.
  eapply (wp_call_hist laws); [apply wp_generateRandomString|]. intros rt H w6 Hh6 [Hn ->].
  apply (hist_issued _ _ _ _ Hh6) in Hp.
  eapply (wp_call_hist laws); [apply wp_signIDToken|]. intros [claims [idToken|]] H w7 Hh7 ->;
    apply (hist_issued _ _ _ _ Hh7) in Hp; cbn [fst snd].
  - apply wp_modify. intros w8 [Hh8 _] Hi8 Hd8. apply (hist_issued _ _ _ _ Hh8) in Hp.
    apply (storeGrant_trans _ _ _ _ _ p); [done|done|set_solver|set_solver|exact Hp|done|done|exact Ee|done|exact Ht|].
    apply wp_ret. intros w9 _ _ _. cbn [gCode gRefresh]. clear. set_solver.
  - apply (wp_release _ _ _ {[rt]} ∅ ∅); [apply discard_release|unfold rolesOf; set_solver|]. intros w8 _.
    apply (wp_release _ _ _ ∅ {[code]} ∅); [apply abandonCode_release|unfold rolesOf; set_solver|]. intros w9 _.
    apply wp_ret. intros w10 _ _ _. clear. unfold rolesOf. set_solver.
Qed.

Lemma exchangeError_None p t r :
  lenient o = false -> pcCodeVerifier p <> "" -> exchangeError o Sum256 p t r = None ->
  (0 < codeTTL o -> is_Some t) ->
  FormValue r "client_id" = pcClientID p /\ FormValue r "redirect_uri" = pcRedirectURI p /\
  computeS256Challenge Sum256 (FormValue r "code_verifier") = pcCodeVerifier p /\
  (0 < codeTTL o -> exists now, t = Some now /\ SubTime now (pcCreatedAt p) <= codeTTL o).
Proof.
  unfold exchangeError. intros Hl Hne. rewrite Hl. cbn [negb andb].
  destruct (match t with Some now => _ | None => false end) eqn:Et; [done|].
  destruct (String.eqb_spec (FormValue r "client_id") (pcClientID p)) as [->|]; [|done].
  destruct (String.eqb_spec (FormValue r "redirect_uri") (pcRedirectURI p)) as [->|]; [|done]. cbn [negb].
  destruct (String.eqb_spec (pcCodeVerifier p) "") as [|_]; [done|]. destruct (String.eqb _ ""); [done|].
  destruct (String.eqb_spec (computeS256Challenge Sum256 (FormValue r "code_verifier")) (pcCodeVerifier p)) as [->|]; [|done].
  intros _ Ht. repeat (split; [done|]). intros Hpos. destruct (Ht Hpos) as [now ->]. exists now. split; [done|lia].
Qed.

(** ** Refresh *)

Lemma wp_refreshIDToken st now H w : wp (refreshIDToken o issuerURL st now) H (fun _ H' _ => H' = H) w.
Proof.
  unfold refreshIDToken. destruct (omitRefreshID o); [by apply wp_ret|].
  destruct (refreshRawID o) as [raw|]; [by apply wp_ret|].
  eapply (wp_call laws); [apply wp_signIDToken|]. intros [claims [idToken|]] H' w1 ->; by apply wp_ret.
Qed.

Lemma wp_handleRefreshExchange r w : clean (handleRefreshExchange o issuerURL r) w.
Proof.
  unfold handleRefreshExchange. set (old := FormValue r "refresh_token").
  apply wp_act. intros w1 _ Hi1 Hh1.
  replace (let '(found, w') := takeRefresh old w1 in (accessTTL w1, found, w'))
    with (accessTTL w1, (takeRefresh old w1).1, (takeRefresh old w1).2) by by destruct (takeRefresh old w1).
  cbn [fst snd]. apply takeRefresh_trans; [done|done|].
  destruct (takeRefresh old w1).1 as [st|]; [|by apply wp_ret]. intros Hk. rewrite union_empty_r_L.
  apply (wp_ask laws). intros w2 [Hh2 _] _ _. apply (hist_known _ _ _ _ Hh2) in Hk. split; [done|]. intros now _.
  apply wp_unstored. intros accessToken w3 Hh3. apply (hist_known _ _ _ _ Hh3) in Hk.
  eapply (wp_call_hist laws); [apply wp_generateRandomString|]. intros new H w4 Hh4 [Hn ->].
  apply (hist_known _ _ _ _ Hh4) in Hk.
  eapply (wp_call_hist laws); [apply wp_refreshIDToken|]. intros [[]|idToken] H w5 Hh5 ->;
    apply (hist_known _ _ _ _ Hh5) in Hk.
  - apply (wp_release _ _ _ {[new]} ∅ ∅); [apply discard_release|unfold rolesOf; set_solver|]. intros w6 _.
    apply (wp_release _ _ _ ∅ ∅ {[old]}); [apply abandonRefresh_release|unfold rolesOf; set_solver|]. intros w7 _.
    apply wp_ret. intros w8 _ _ _. clear. unfold rolesOf. set_solver.
  - apply wp_modify. intros w6 [Hh6 _] Hi6 Hd6. apply (hist_known _ _ _ _ Hh6) in Hk.
    apply (storeRotation_trans _ _ _ _ _ _ st); try done; [set_solver|set_solver|].
    apply wp_ret. intros w7 _ _ _. set_solver.
Qed.

Lemma wp_handleToken r w : clean (handleToken o issuerURL Sum256 r) w.
Proof.
  unfold handleToken. destruct (ParseForm r) as [[] r']; [|by apply wp_ret]. cbn [negb].
  apply wp_act. intros w1 _ Hi1 Hh1. apply takeError_trans; [done|done|].
  destruct (takeError w1).1 as [[code desc]|]; [by apply wp_ret|].
  destruct (rejectBasicAuth o && basicAuth r').
  { destruct (negb _); cbn [when]; [|by apply wp_ret].
    apply wp_modify. intros w2 _ Hi2 Hh2. apply dropCode_trans; [done|done|]. by apply wp_ret. }
  apply (wp_read laws). intros w2 _ _ _. destruct (grantErrors w2 !! _); [by apply wp_ret|].
  destruct (String.eqb _ "authorization_code"); [apply wp_handleAuthCodeExchange|].
  destruct (String.eqb _ "refresh_token"); [apply wp_handleRefreshExchange|by apply wp_ret].
Qed.

(** ** Requests and setters *)

Lemma wp_frame {A} (f : Idp -> Idp) (k : unit -> prog A) H Post w :
  (forall w, core (f w) = core w) -> (forall w, wp (k tt) H Post w) -> wp (bind (modify f) k) H Post w.
Proof. intros Hf Hk. apply wp_modify. intros w1 _ Hi1 Hh1. by apply idp_frame_trans. Qed.

Lemma wp_handler path meth handler r w :
  (meth, path, handler) ∈ routes o issuerURL Sum256 -> clean (handler r) w.
Proof.
  unfold routes. intros Hin. repeat (apply elem_of_cons in Hin as [[= -> -> ->]|Hin]); [..|by apply elem_of_nil in Hin].
  - by apply wp_ret.
  - apply wp_handleAuthorize.
  - apply wp_handleToken.
  - apply (wp_read laws). intros w1 _ _ _. destruct (jwksError w1); [by apply wp_ret|].
    apply (wp_read laws). intros w2 _ _ _. by apply wp_ret.
  - unfold handleEndSession. destruct (String.eqb _ ""); by apply wp_ret.
  - by apply wp_ret.
  - unfold handleRevoke. destruct (ParseForm r) as [[] r']; [|by apply wp_ret]. cbn [negb].
    destruct (String.eqb _ ""); [by apply wp_ret|].
    apply wp_modify. intros w1 _ Hi1 Hh1. apply revoke_trans; [done|done|]. by apply wp_ret.
Qed.

Lemma wp_runHook endpoint H w : wp (runHook endpoint) H (fun _ H' _ => H' = H) w.
Proof.
  unfold runHook. apply (wp_read laws). intros w1 _ _ _. destruct (bool_decide _); [|by apply wp_ret].
  change (ask (QHook endpoint)) with (bind (ask (QHook endpoint) : prog bool) Ret).
  apply (wp_ask laws). intros w2 _ _ _. split; [done|]. intros h _. by apply wp_ret.
Qed.

Lemma wp_serve path r w : clean (serve o issuerURL Sum256 path r) w.
Proof.
  unfold serve. destruct (List.find _ _) as [[[meth endpoint] handler]|] eqn:Ef; [|by apply wp_ret].
  apply find_some in Ef as [Hin%list_elem_of_In _]. destruct (allows meth (Method r)); [|by apply wp_ret].
  unfold wrapHandler. apply wp_frame; [done|]. intros w1.
  eapply (wp_call laws); [apply wp_runHook|]. intros [] H w2 ->; [by apply wp_ret|by eapply wp_handler].
Qed.

Lemma wp_setter (f : Idp -> Idp) w : (forall w, core (f w) = core w) -> clean (modify f) w.
Proof.
  intros Hf. change (modify f) with (bind (modify f : prog unit) Ret). apply wp_frame; [done|]. intros w1. by apply wp_ret.
Qed.

Lemma wp_RotateKey kid w : clean (let* _ := RotateKey kid in skip) w.
Proof.
  unfold RotateKey. destruct (String.eqb kid ""); [by apply wp_ret|].
  apply wp_act. intros w1 _ Hi1 Hh1. apply idp_frame_trans; [done|done|done|].
  apply wp_act. intros w2 _ Hi2 Hh2. apply rotateKey_trans; [done|done|]. by apply wp_ret.
Qed.

Lemma wp_idpApi p w : idpApi o issuerURL Sum256 p -> clean p w.
Proof.
  assert (Hread : forall {A} (f : Idp -> A) w, clean (let* _ := read f in skip) w).
  { intros A f w'. apply (wp_read laws). intros w1 _ _ _. by apply wp_ret. }
  destruct 1; try (unfold SetForceAzp; case_match); try (by apply wp_setter); try apply Hread; [|  |apply wp_RotateKey].
  - eapply (wp_call laws); [apply wp_serve|]. intros x H w1 ->. by apply wp_ret.
  - change (QueueError code) with (bind (QueueError code) Ret). apply wp_modify. intros w1 _ Hi1 Hh1.
    apply queueError_trans; [done|done|]. by apply wp_ret.
Qed.

(** ** Every interleaving *)

Abbreviation idpConfig := (@Proc.config Idp idpRole _ _ idpQuery).
Definition idpReachable : idpConfig -> Prop :=
  reachable env (idpApi o issuerURL Sum256) answers bound (newIdp o).

Lemma newIdp_inv : inv (newIdp o).
Proof.
  split; try done; try (intros x Hx; by apply elem_of_nil in Hx); try apply NoDup_nil_2.
  - intros s [[x Hx]|[[x Hx]|Hs]]; [done|done|set_solver].
  - apply NoDup_singleton.
Qed.

Lemma idpReachable_ok c :
  idpReachable c -> config_ok hist prot inv linv rank role taken pre answers bound c.
Proof.
  apply (reachable_ok laws); [|apply newIdp_inv|done|].
  - intros p w Hp _. by apply wp_idpApi.
  - intros l _. apply bool_decide_eq_false_2. by destruct l; cbn; apply not_elem_of_empty.
Qed.

Lemma idpReachable_inv c : idpReachable c -> inv (world c).
Proof. intros [own Hown]%idpReachable_ok. apply (ok_inv _ _ Hown). Qed.

End ProviderProps.

(** C25: Authorization codes.  In every interleaving of requests and setters each
    code is exchanged at most once, by a request that presents that code.  Outside
    the lenient mode that request names the client of the authorization request
    and its redirect URI, which is registered, and proves the challenge, which is
    never empty; its age was within the lifetime of codes when there is one. *)
Theorem code_exchanged_once o issuerURL Sum256 c :
  idpReachable o issuerURL Sum256 c ->
  NoDup (gCode <$> grants (world c)) /\
  forall g, g ∈ grants (world c) ->
    exists p, issued (world c) !! gCode g = Some p /\ FormValue (gRequest g) "code" = gCode g /\
      (lenient o = false ->
         FormValue (gRequest g) "client_id" = clientID o /\
         FormValue (gRequest g) "redirect_uri" = pcRedirectURI p /\ isRegisteredRedirectURI o (pcRedirectURI p) = true /\
         pcCodeVerifier p <> "" /\
         computeS256Challenge Sum256 (FormValue (gRequest g) "code_verifier") = pcCodeVerifier p /\
         (0 < codeTTL o -> exists t, gCheckedAt g = Some t /\ SubTime t (pcCreatedAt p) <= codeTTL o)).
Proof.
  intros Hi%idpReachable_inv. split; [apply (inv_used_codes _ _ _ Hi)|]. intros g Hg.
  destruct (inv_grants _ _ _ Hi g Hg) as (p & st & Hp & _ & _ & _ & He & Hcode & Ht).
  exists p. split; [done|]. split; [done|]. intros Hl. destruct (inv_issued _ _ _ Hi _ _ Hp) as (Hc & _ & Hr).
  destruct (Hr Hl) as [Hreg Hne]. specialize (Ht Hl). by apply (exchangeError_None _ _ _ _ _ Hl Hne He) in Ht as (-> & -> & -> & Htime); rewrite Hc.
Qed.

(** C26: Refresh tokens rotate.  In every interleaving each refresh token is
    exchanged at most once, for one of the same subject and client; a token that
    was exchanged or revoked is no longer accepted, and one that was revoked is
    never exchanged. *)
Theorem refresh_tokens_rotate o issuerURL Sum256 c :
  idpReachable o issuerURL Sum256 c ->
  NoDup (rOld <$> rotations (world c)) /\
  (forall x, x ∈ rotations (world c) -> exists st st', known (world c) !! rOld x = Some st /\
     known (world c) !! rNew x = Some st' /\ tsSubject st' = tsSubject st /\ tsClientID st' = tsClientID st) /\
  (forall t, t ∈ (rOld <$> rotations (world c)) \/ t ∈ revoked (world c) -> refreshTokens (world c) !! t = None) /\
  forall t, t ∈ revoked (world c) -> t ∉ (rOld <$> rotations (world c)).
Proof.
  intros Hi%idpReachable_inv. split; [apply (inv_used_tokens _ _ _ Hi)|]. split; [apply (inv_rotations _ _ _ Hi)|].
  split; [|apply (inv_revoked _ _ _ Hi)]. intros t Ht. destruct (refreshTokens (world c) !! t) as [st|] eqn:E; [|done].
  destruct (inv_tokens _ _ _ Hi _ _ E) as (_ & _ & Hu & Hv). by destruct Ht.
Qed.

(** C30: Key rotation.  In every interleaving the key set holds every key a token
    was ever signed with, the key identifiers are distinct, and a token is only
    signed with a key of the set. *)
Theorem jwks_covers_tokens o issuerURL Sum256 c :
  idpReachable o issuerURL Sum256 c ->
  NoDup (kID <$> jwks (world c)) /\ (forall key, key ∈ signedWith (world c) -> key ∈ jwks (world c)) /\
  forall t key claims r k, pool c !! t = Some (Ask (QSign key claims) r k) -> key ∈ jwks (world c).
Proof.
  intros Hc. pose proof (idpReachable_inv _ _ _ _ Hc) as Hi. split; [apply (inv_keys _ _ _ Hi)|].
  split; [apply (inv_signed _ _ _ Hi)|]. intros t key claims r k Ht.
  apply idpReachable_ok in Hc. by destruct (asking_pre (idp_laws o Sum256) _ _ _ _ _ _ Hc Ht) as (H & Hpre & _).
Qed.

(** Injected errors are returned in the order they were queued, each once. *)
Theorem injected_errors_fifo o issuerURL Sum256 c :
  idpReachable o issuerURL Sum256 c -> queued (world c) = injected (world c) ++ errorQueue (world c).
Proof. intros Hi%idpReachable_inv. apply (inv_queue _ _ _ Hi). Qed.

(** ** A concrete run *)

Fixpoint someBytes (n : nat) : string := match n with O => "" | S n => "a" +:+ someBytes n end.
Definition idpOracle : oracle (W := Idp) (Q := idpQuery) := fun X q w =>
  match q in idpQuery X return option X with
  | QNow => Some (mkTime 1000 0)
  | QRandom _ => Some (someBytes (S (size (minted w))))
  | QHook _ => Some false
  | QSign _ _ => Some (Some "jwt")
  end.
#[export] Instance idp_bound_decision w : Decision (bound w).
Proof. left. exact I. Defined.

Definition exOptions : options := configure [WithCodeTTL Minute].
Definition exSum (s : string) : string := s.
Abbreviation exServe path meth query body := (let* _ := serve exOptions "https://idp.example" exSum path (newRequest meth query body false) in skip).
Definition exAuthorize : prog unit := exServe "/authorize" "GET"
  "client_id=test-client&redirect_uri=http%3A%2F%2F127.0.0.1%3A8000%2Fcallback&state=s&response_type=code&code_challenge=dmVyaWZpZXI&code_challenge_method=S256&nonce=n" None.
Definition exExchange : prog unit := exServe "/token" "POST" ""
  (Some "grant_type=authorization_code&code=YQ&client_id=test-client&redirect_uri=http%3A%2F%2F127.0.0.1%3A8000%2Fcallback&code_verifier=verifier").
Definition exRefresh (token : string) : prog unit := exServe "/token" "POST" ""
  (Some ("grant_type=refresh_token&refresh_token=" +:+ token)).

Abbreviation exIdpConfig := (@Proc.config Idp idpRole _ _ idpQuery).
Abbreviation runIdp t p c := (exec_thread bound idpOracle 40 t 0 (call t p c)).
Definition idpGranted : exIdpConfig := runIdp 2%nat exExchange (runIdp 1%nat exAuthorize (init_config (newIdp exOptions))).
Definition idpRotated : exIdpConfig :=
  runIdp 4%nat (exRefresh "YWFh") (runIdp 3%nat (let* _ := RotateKey "key-2" in skip) idpGranted).

Abbreviation exIdpReachable := (idpReachable exOptions "https://idp.example" exSum).

Lemma idp_run_reachable t p c :
  idpApi exOptions "https://idp.example" exSum p -> exIdpReachable c -> exIdpReachable (runIdp t p c).
Proof. intros Hp Hc. apply exec_thread_reachable; [done|]. by apply call_reachable. Qed.

Lemma idpGranted_reachable : exIdpReachable idpGranted.
Proof. do 2 (apply idp_run_reachable; [constructor|]). apply rtc_refl. Qed.
Lemma idpRotated_reachable : exIdpReachable idpRotated.
Proof. do 2 (apply idp_run_reachable; [constructor|]). apply idpGranted_reachable. Qed.

Lemma code_exchanged_once_witness :
  exists g p, grants (world idpGranted) = [g] /\ issued (world idpGranted) !! "YQ" = Some p /\
    FormValue (gRequest g) "client_id" = "test-client" /\
    b64_encode (FormValue (gRequest g) "code_verifier") = pcCodeVerifier p.
Proof.
  destruct (grants (world idpGranted)) as [|g [|]] eqn:E; [exfalso; vm_compute in E; discriminate E| |exfalso; vm_compute in E; discriminate E].
  destruct (proj2 (code_exchanged_once exOptions "https://idp.example" exSum idpGranted idpGranted_reachable) g)
    as (p & Hp & _ & Hl); [rewrite E; by apply list_elem_of_singleton|].
  destruct (Hl eq_refl) as (Hc & _ & _ & _ & Hv & _). exists g, p. split; [done|].
  assert (Hg : gCode <$> grants (world idpGranted) = ["YQ"]) by (vm_compute; reflexivity).
  rewrite E in Hg. injection Hg as Hg. rewrite Hg in Hp. split; [exact Hp|]. split; [exact Hc|exact Hv].
Defined.

Lemma refresh_tokens_rotate_witness :
  (rOld <$> rotations (world idpRotated)) = ["YWFh"] /\ refreshTokens (world idpRotated) !! "YWFh" = None.
Proof.
  assert (E : (rOld <$> rotations (world idpRotated)) = ["YWFh"]) by (vm_compute; reflexivity). split; [exact E|].
  apply (proj1 (proj2 (proj2 (refresh_tokens_rotate exOptions "https://idp.example" exSum idpRotated idpRotated_reachable)))).
  left. rewrite E. by apply list_elem_of_singleton.
Defined.

Lemma jwks_covers_tokens_witness :
  signingKey (world idpRotated) = mkKeyEntry 1 "key-2" /\ mkKeyEntry 0 "test-key-1" ∈ jwks (world idpRotated).
Proof.
  split; [vm_compute; reflexivity|].
  apply (proj1 (proj2 (jwks_covers_tokens exOptions "https://idp.example" exSum idpRotated idpRotated_reachable))).
  assert (E : signedWith (world idpRotated) = [mkKeyEntry 0 "test-key-1"; mkKeyEntry 1 "key-2"]) by (vm_compute; reflexivity).
  rewrite E. by left.
Defined.
