(* ===== verification/ProviderFlow.v ===== *)
(** [oidctest/flowhandler.go], and the composition of the fake provider with the
    flows of the client: what the provider redirects to is what [Login] and
    [Logout] accept. *)
From Stdlib Require Import Ascii.
From S2P Require Import Prelude Proc GoTime GoStrings GoUrl UrlProps GoEncoding GoHttp Errors Tokens Login Logout FlowProps Provider ProviderProps.

(** What [FakeFlowHandler.StartAuthFlow] makes of a response: the callback URL, an
    error, or the panic of a redirect URI of its own that is no URL. *)
Inductive flowResult := FlowCallback (location : string) | FlowError (message : string) | FlowPanic.

Definition StartAuthFlow (redirectURIValue : string) (resp : response) : flowResult :=
  match resp with
  | Redirect location =>
      if String.eqb location "" then FlowError "oidctest: FakeFlowHandler got 302 but no Location header"
      else match Parse location with
      | None => FlowError "oidctest: FakeFlowHandler invalid redirect location"
      | Some loc =>
          match Parse redirectURIValue with
          | None => FlowPanic
          | Some expected =>
              if negb (String.eqb (Scheme loc) (Scheme expected)) || negb (String.eqb (Host loc) (Host expected)) ||
                 negb (String.eqb (Path loc) (Path expected))
              then FlowError "oidctest: FakeFlowHandler redirect does not match expected redirect URI"
              else FlowCallback location
          end
      end
  | _ => FlowError "oidctest: FakeFlowHandler expected 302 redirect"
  end.

(** ** Extending a redirect URI *)

(** [URL_String] around the query. *)
Definition beforeQuery (u : URL) : string := URL_String (u <| RawQuery := "" |> <| ForceQuery := false |> <| Fragment := "" |>).

Lemma URL_String_split u :
  URL_String u = beforeQuery u +:+
    (if ForceQuery u || negb (String.eqb (RawQuery u) "") then "?" +:+ RawQuery u else "") +:+
    (if negb (String.eqb (Fragment u) "") then "#" +:+ EscapedFragment u else "").
Proof.
  unfold beforeQuery, URL_String. destruct u. cbv [set field_update]. cbn -[String.append].
  rewrite !str_app_nil_r, !str_app_assoc. done.
Qed.

(** A URL that prints without query and fragment, with a query. *)
Lemma URL_String_query u q :
  ContainsByte (URL_String u) "?" = false -> ContainsByte (URL_String u) "#" = false -> q <> "" ->
  RawQuery u = "" /\ URL_String (u <| RawQuery := q |>) = URL_String u +:+ "?" +:+ q.
Proof.
  intros Hq Hf Hne. rewrite (URL_String_split u) in *. rewrite !ContainsByte_app in Hq, Hf.
  destruct (String.eqb_spec (Fragment u) "") as [Ef|]; cbn [negb] in *.
  2: { rewrite ContainsByte_app in Hf. cbn in Hf. rewrite !orb_true_r in Hf. done. }
  destruct (ForceQuery u || negb (String.eqb (RawQuery u) "")) eqn:E.
  { rewrite ContainsByte_app in Hq. cbn in Hq. rewrite !orb_true_r in Hq. done. }
  apply orb_false_elim in E as [E1 E2%negb_false_iff%String.eqb_eq]. split; [done|].
  rewrite URL_String_split. assert (Hb : beforeQuery (u <| RawQuery := q |>) = beforeQuery u) by by destruct u.
  rewrite Hb. assert (Hf' : Fragment (u <| RawQuery := q |>) = Fragment u) by done. rewrite Hf', Ef.
  assert (Hr : RawQuery (u <| RawQuery := q |>) = q) by done. rewrite Hr.
  apply String.eqb_neq in Hne. rewrite Hne. cbn [negb String.eqb]. rewrite orb_true_r, !str_app_nil_r. done.
Qed.

(** A redirect URI in normal form, absolute and without query and fragment. *)
Definition plainRedirect (redirectURI : string) (u : URL) : Prop :=
  Parse redirectURI = Some u /\ IsAbs u = true /\ URL_String u = redirectURI /\
  ContainsByte redirectURI "#" = false /\ ContainsByte redirectURI "?" = false.

(** The values the provider sets. *)
Definition setValues (kvs : list (string * string)) : Values := foldl (fun q kv => Values_Set q kv.1 kv.2) ∅ kvs.

Lemma Encode_nonempty v k x : Values_lookup v k = [x] -> Encode v <> "".
Proof.
  intros Hv E. destruct (ParseQuery_Encode v) as (q & Hq & Hl). rewrite E in Hq.
  change (Some (∅ : Values) = Some q) in Hq. injection Hq as <-. specialize (Hl k). rewrite Hv in Hl.
  unfold Values_lookup in Hl. rewrite lookup_empty in Hl. discriminate.
Qed.

Lemma redirectTo_plain redirectURI u kvs k x :
  plainRedirect redirectURI u -> Values_lookup (setValues kvs) k = [x] ->
  redirectTo redirectURI kvs = Redirect (redirectURI +:+ "?" +:+ Encode (setValues kvs)).
Proof.
  intros (Hp & Ha & Hs & H1 & H2) Hk. unfold redirectTo, extendQuery. rewrite Hp.
  pose proof (Encode_nonempty _ _ _ Hk) as Hne. rewrite <- Hs in H1, H2.
  assert (Hr : RawQuery u = "") by (by destruct (URL_String_query u "x" H2 H1)).
  unfold Query. rewrite Hr. change ((parseQueryAll "").1) with (∅ : Values). fold (setValues kvs).
  destruct (URL_String_query u _ H2 H1 Hne) as [_ ->]. by rewrite Hs.
Qed.

(** The fake flow handler returns such a redirect. *)
Lemma StartAuthFlow_plain redirectURI u kvs k x :
  plainRedirect redirectURI u -> Values_lookup (setValues kvs) k = [x] ->
  StartAuthFlow redirectURI (redirectTo redirectURI kvs) = FlowCallback (redirectURI +:+ "?" +:+ Encode (setValues kvs)).
Proof.
  intros Hpl Hk. rewrite (redirectTo_plain _ _ _ _ _ Hpl Hk). destruct Hpl as (Hp & Ha & _ & H1 & H2).
  destruct (Encode_safe (setValues kvs)) as (E1 & E2 & E3). pose proof (Encode_nonempty _ _ _ Hk) as Hne.
  unfold StartAuthFlow. destruct (String.eqb_spec (redirectURI +:+ "?" +:+ Encode (setValues kvs)) "") as [E|_].
  { exfalso. apply (f_equal String.length) in E. rewrite !str_length_app in E. cbn in E. lia. }
  rewrite (Parse_with_query _ _ _ Hp Ha H1 H2 E1 E3 Hne), Hp.
  assert (forall q, Scheme (u <| RawQuery := q |>) = Scheme u) as -> by done.
  assert (forall q, Host (u <| RawQuery := q |>) = Host u) as -> by done.
  assert (forall q, Path (u <| RawQuery := q |>) = Path u) as -> by done.
  by rewrite !String.eqb_refl.
Qed.

Lemma b64_encode_nonempty s : s <> "" -> b64_encode s <> "".
Proof. destruct s as [|a [|b [|c s]]]; cbn; done. Qed.

Lemma authorizeError_code o rt cc ccm scope e d : authorizeError o rt cc ccm scope = Some (e, d) -> e <> "".
Proof. unfold authorizeError. repeat case_match; intros [= <- <-]; done. Qed.

(** The callbacks the provider makes, as [Login] sees them. *)
Lemma checkCallback_code redirectURI u state code :
  plainRedirect redirectURI u -> state <> "" -> code <> "" ->
  checkCallback state (redirectURI +:+ "?" +:+ Encode (setValues [("code", code); ("state", state)])) = Ok code.
Proof.
  intros (Hp & Ha & _ & H1 & H2) Hs Hc. set (v := setValues _).
  assert (Hst : Values_lookup v "state" = [state]) by (unfold v; cbn [setValues foldl fst snd]; by rewrite lookup_Set).
  rewrite (checkCallback_encoded _ _ _ _ Hp Ha H1 H2 (Encode_nonempty _ _ _ Hst) Hst Hs).
  unfold authorizationResponse, Values_Get, v, setValues. cbn [foldl fst snd]. rewrite !lookup_Set.
  repeat first [rewrite decide_True by done|rewrite decide_False by done]. cbn -[strEmpty].
  apply strEmpty_false in Hc. by rewrite Hc.
Qed.

Lemma checkCallback_error redirectURI u state e d :
  plainRedirect redirectURI u -> state <> "" -> e <> "" ->
  checkCallback state (redirectURI +:+ "?" +:+ Encode (setValues [("error", e); ("error_description", d); ("state", state)])) =
  Err (EAuth (mkAuthError e d)).
Proof.
  intros (Hp & Ha & _ & H1 & H2) Hs He. set (v := setValues _).
  assert (Hst : Values_lookup v "state" = [state]) by (unfold v; cbn [setValues foldl fst snd]; by rewrite lookup_Set).
  rewrite (checkCallback_encoded _ _ _ _ Hp Ha H1 H2 (Encode_nonempty _ _ _ Hst) Hst Hs).
  unfold authorizationResponse, Values_Get, v, setValues. cbn [foldl fst snd]. rewrite !lookup_Set.
  repeat first [rewrite decide_True by done|rewrite decide_False by done]. cbn -[strEmpty].
  apply strEmpty_false in He. by rewrite He.
Qed.

(** The provider answers a Login.  For a redirect URI in normal form and a
    non-empty state the authorization endpoint always answers, and the fake flow
    handler and [Login] agree with it: either the request is refused without a
    redirect, or [Login] takes from the callback exactly the code the provider
    stored with the nonce and the challenge of the request, or it reports exactly
    the provider's error. *)
Theorem provider_answers_login o (orc : oracle (W := Idp) (Q := idpQuery)) n r w redirectURI u :
  let q := urlQuery r in
  let state := Values_Get q "state" in
  plainRedirect redirectURI u -> Values_Get q "redirect_uri" = redirectURI -> state <> "" ->
  (exists bytes, orc _ (QRandom 32) w = Some bytes /\ bytes <> "" /\ b64_encode bytes ∉ minted w) ->
  (forall w, is_Some (orc _ QNow w)) ->
  exists resp w', run orc n (handleAuthorize o r) ∅ w = Some (resp, ∅, w') /\
    ((exists status text, resp = HttpError status text /\ w' = w) \/
     exists location, StartAuthFlow redirectURI resp = FlowCallback location /\
       ((exists code p, checkCallback state location = Ok code /\ codes w' !! code = Some p /\
           pcRedirectURI p = redirectURI /\ pcCodeVerifier p = Values_Get q "code_challenge" /\
           pcNonce p = default (Values_Get q "nonce") (forceNonce o)) \/
        exists e d, checkCallback state location = Err (EAuth (mkAuthError e d)) /\ w' = w /\
          authorizeError o (Values_Get q "response_type") (Values_Get q "code_challenge")
            (Values_Get q "code_challenge_method") (Values_Get q "scope") = Some (e, d))).
Proof.
  intros q state Hpl Hru Hs (bytes & Hb & Hbn & Hm) Hnow. unfold handleAuthorize. fold q. fold state. rewrite Hru.
  destruct (negb (String.eqb (Values_Get q "client_id") (clientID o))).
  { eexists _, w. split; [done|]. left. eauto. }
  destruct (String.eqb redirectURI ""); [eexists _, w; split; [done|]; left; eauto|].
  destruct (negb (lenient o) && _); [eexists _, w; split; [done|]; left; eauto|].
  destruct (authorizeError o _ _ _ _) as [[e d]|] eqn:Ea.
  - eexists _, w. split; [done|]. right. unfold redirectWithError. eexists. split.
    + apply (StartAuthFlow_plain _ u _ "state" state Hpl). unfold setValues. cbn [foldl fst snd]. by rewrite lookup_Set.
    + right. exists e, d. split; [|done]. apply (checkCallback_error _ u); [done|done|by eapply authorizeError_code].
  - set (code := b64_encode bytes). unfold generateRandomString. cbn [bind run select act modify ask].
    rewrite Hb. unfold randomReady at 1. fold code. rewrite bool_decide_eq_false_2 by done. cbn [bind run].
    match goal with |- context [orc Time QNow ?w1] => destruct (Hnow w1) as [now Et] end. rewrite Et. cbn [bind run].
    eexists _, _. split; [reflexivity|]. right. eexists. split.
    + apply (StartAuthFlow_plain _ u _ "state" state Hpl). unfold setValues. cbn [foldl fst snd]. by rewrite lookup_Set.
    + left. eexists code, _. split; [apply (checkCallback_code _ u); [done|done|by apply b64_encode_nonempty]|].
      cbn. rewrite lookup_insert_eq. done.
Qed.

Lemma provider_answers_login_witness :
  exists w', run idpOracle 1 (handleAuthorize exOptions (newRequest "GET"
    "client_id=test-client&redirect_uri=http%3A%2F%2F127.0.0.1%3A8000%2Fcallback&state=s&response_type=token" None false)) ∅
    (newIdp exOptions) = Some (redirectWithError "http://127.0.0.1:8000/callback" "s" "unsupported_response_type" "only code is supported", ∅, w').
Proof.
  set (r := newRequest _ _ _ _).
  assert (Hpl : plainRedirect "http://127.0.0.1:8000/callback"
    (mkURL "http" "" None "127.0.0.1:8000" "/callback" "" false false "" "" "")) by (repeat split; vm_compute; reflexivity).
  destruct (provider_answers_login exOptions idpOracle 1 r (newIdp exOptions) _ _ Hpl
    ltac:(vm_compute; reflexivity) ltac:(vm_compute; discriminate)) as (resp & w' & Hrun & _).
  - exists "a". split; [vm_compute; reflexivity|]. split; [done|]. apply not_elem_of_empty.
  - intros w. by eexists.
  - exists w'. rewrite Hrun. assert (E : run idpOracle 1 (handleAuthorize exOptions r) ∅ (newIdp exOptions) =
      Some (redirectWithError "http://127.0.0.1:8000/callback" "s" "unsupported_response_type" "only code is supported", ∅, newIdp exOptions))
      by (vm_compute; reflexivity). rewrite E in Hrun. injection Hrun as <- <-. reflexivity.
Defined.
