(* ===== verification/ProviderLogin.v ===== *)
(** The client's login and refresh against the test provider, step by step: what
    the authorization endpoint redirects to, [Login] reads, and what [Login] then
    sends, the token endpoint accepts. *)
From Stdlib Require Import Ascii.
From S2P Require Import Prelude Proc GoTime GoStrings GoUrl UrlProps GoEncoding GoHttp Errors Claims Refresh Login FlowProps.
From S2P Require Import Provider ProviderProps ProviderFlow.

Section ProviderLogin.
  Context (o : options) (issuerURL : string) (Sum256 : string -> string).
  Context (orc : oracle (W := Idp) (Q := idpQuery)) (n : nat).
  Abbreviation run := (run orc n).

(** What the environment does in an undisturbed run: random bytes are fresh, the
    clock can be read and codes do not expire meanwhile, tokens can be signed. *)
Record undisturbed : Prop := {
  un_random : forall w, exists bytes, orc _ (QRandom 32) w = Some bytes /\ bytes <> "" /\ b64_encode bytes ∉ minted w;
  un_clock : forall w, is_Some (orc _ QNow w);
  un_fast : forall w w' now now', orc _ QNow w = Some now -> orc _ QNow w' = Some now' -> SubTime now' now <= codeTTL o;
  un_signed : forall key claims w, exists token, orc _ (QSign key claims) w = Some (Some token) /\ token <> ""
}.

(** No error is injected at the token endpoint for a grant type. *)
Definition quiet (grantType : string) (w : Idp) : Prop :=
  stickyError w = "" /\ errorQueue w = [] /\ grantErrors w !! grantType = None.

(** What the handlers of a login leave alone. *)
Record same_switches (w w' : Idp) : Prop := {
  ss_sticky : stickyError w' = stickyError w;
  ss_queue : errorQueue w' = errorQueue w;
  ss_errors : grantErrors w' = grantErrors w;
  ss_issuer : forceIssuer w' = forceIssuer w;
  ss_audience : forceAudience w' = forceAudience w;
  ss_audiences : forceAudiences w' = forceAudiences w;
  ss_azp : forceAzpJSON w' = forceAzpJSON w
}.
Lemma same_refl w : same_switches w w.
Proof. by split. Qed.
Lemma same_trans w1 w2 w3 : same_switches w1 w2 -> same_switches w2 w3 -> same_switches w1 w3.
Proof. intros [] []. split; congruence. Qed.
Lemma quiet_same grantType w w' : same_switches w w' -> quiet grantType w -> quiet grantType w'.
Proof. intros [E1 E2 E3 _ _ _ _] (H1 & H2 & H3). unfold quiet. rewrite E1, E2, E3. done. Qed.

(** No claim of the ID tokens is overridden. *)
Definition honest (w : Idp) : Prop :=
  forceIssuer w = None /\ forceAudience w = None /\ forceAudiences w = None /\ forceAzpJSON w = None.

Lemma honest_claims subject audience nonce now w w' :
  honest w -> same_switches w w' ->
  let claims := (idTokenClaims o issuerURL subject audience nonce now w').2 in
  Issuer claims = issuerURL /\ Subject claims = subject /\ Audience claims = [audience] /\ Nonce claims = nonce /\
  Azp claims = None.
Proof.
  intros (H1 & H2 & H3 & H4) [_ _ _ E1 E2 E3 E4]. unfold idTokenClaims. cbn. by rewrite E1, E2, E3, E4, H1, H2, H3, H4.
Qed.

(** What the handlers change at most: the fields a login touches. *)
Record quietly (w w' : Idp) : Prop := {
  qu_same : same_switches w w';
  qu_codes : codes w' = codes w;
  qu_tokens : refreshTokens w' = refreshTokens w;
  qu_grants : grants w' = grants w;
  qu_rotations : rotations w' = rotations w
}.

Context (Hun : undisturbed).

(** ** The pieces *)

Lemma run_generateRandomString {A} (k : string -> prog A) w :
  exists s w', run (bind (generateRandomString 32) k) ∅ w = run (k s) ∅ w' /\ quietly w w' /\ s <> "" /\
    ({[s]} ∪ minted w : gset string) ⊆ minted w' /\ s ∉ minted w.
Proof.
  destruct (un_random Hun w) as (bytes & Hb & Hbn & Hm). exists (b64_encode bytes).
  unfold generateRandomString. cbn [bind Proc.run select ask]. rewrite Hb. unfold randomReady at 1.
  rewrite bool_decide_eq_false_2 by done. cbn [bind Proc.run]. eexists. split; [reflexivity|].
  split; [by repeat split|]. split; [by apply b64_encode_nonempty|done].
Qed.

Lemma run_signIDToken {A} subject audience nonce now (k : idClaims * option string -> prog A) w :
  exists token w', run (bind (signIDToken o issuerURL subject audience nonce now) k) ∅ w =
      run (k ((idTokenClaims o issuerURL subject audience nonce now w).2, Some token)) ∅ w' /\ quietly w w' /\
    token <> "" /\ exists key, orc _ (QSign key (idTokenClaims o issuerURL subject audience nonce now w).2) w = Some (Some token).
Proof.
  unfold signIDToken. cbn [bind Proc.run select read]. set (kc := idTokenClaims o issuerURL subject audience nonce now w).
  cbn [fst snd]. destruct (un_signed Hun kc.1 kc.2 w) as (token & Ht & Hne). rewrite Ht. unfold signReady at 1.
  exists token. eexists. split; [reflexivity|]. split; [by repeat split|]. split; [done|by eexists].
Qed.

Lemma run_now {A} (k : Time -> prog A) w :
  exists now, orc _ QNow w = Some now /\ run (bind (ask QNow) k) ∅ w = run (k now) ∅ w.
Proof. destruct (un_clock Hun w) as [now E]. exists now. split; [done|]. cbn [bind Proc.run ask]. by rewrite E. Qed.

(** ** The authorization endpoint *)

(** The parameters of a client's authorization request. *)
Record authorizes (q : Values) (redirectURI state nonce challenge : string) : Prop := {
  az_client : Values_Get q "client_id" = clientID o;
  az_redirect : Values_Get q "redirect_uri" = redirectURI;
  az_state : Values_Get q "state" = state;
  az_type : Values_Get q "response_type" = "code";
  az_challenge : Values_Get q "code_challenge" = challenge;
  az_method : Values_Get q "code_challenge_method" = "S256";
  az_nonce : Values_Get q "nonce" = nonce;
  az_scope : scopes o = [] \/ findUnknownScope (Values_Get q "scope") (scopes o) = ""
}.

Lemma authorizeError_ok q redirectURI state nonce challenge :
  authorizes q redirectURI state nonce challenge -> challenge <> "" ->
  authorizeError o (Values_Get q "response_type") (Values_Get q "code_challenge")
    (Values_Get q "code_challenge_method") (Values_Get q "scope") = None.
Proof.
  intros [_ _ _ -> -> -> _ Hs] Hc. unfold authorizeError. apply String.eqb_neq in Hc. rewrite Hc. cbn [String.eqb negb andb].
  rewrite !andb_false_r. destruct Hs as [Hs|Hs]; rewrite Hs; [done|]. cbn [String.eqb negb]. by rewrite andb_false_r.
Qed.

Lemma run_authorize r redirectURI state nonce challenge w :
  authorizes (urlQuery r) redirectURI state nonce challenge -> challenge <> "" -> redirectURI <> "" ->
  isRegisteredRedirectURI o redirectURI = true -> forceNonce o = None ->
  exists code now w0 w', run (handleAuthorize o r) ∅ w = Some (redirectTo redirectURI [("code", code); ("state", state)], ∅, w') /\
    code <> "" /\ orc _ QNow w0 = Some now /\
    codes w' !! code = Some (mkPendingCode (clientID o) redirectURI nonce challenge "test-user" now) /\
    same_switches w w' /\ grants w' = grants w.
Proof.
  intros Haz Hc Hr Hreg Hn. pose proof (authorizeError_ok _ _ _ _ _ Haz Hc) as He. unfold handleAuthorize. rewrite He.
  destruct Haz as [-> -> -> _ -> _ -> _]. rewrite String.eqb_refl. cbn [negb].
  apply String.eqb_neq in Hr. rewrite Hr, Hreg. cbn [negb]. rewrite andb_false_r, Hn.
  edestruct @run_generateRandomString as (code & w1 & -> & [Hs1 _ _ Hg1 _] & Hcn & _).
  edestruct @run_now as (now & Hnow & ->). eexists code, now, w1, _. split; [reflexivity|].
  split; [done|]. split; [done|]. split; [cbn; by rewrite lookup_insert_eq|]. by split; [destruct Hs1; split|].
Qed.

(** ** The token endpoint *)

Lemma run_token r grantType w :
  quiet grantType w -> (ParseForm r).1 = true -> basicAuth r = false -> FormValue r "grant_type" = grantType ->
  run (handleToken o issuerURL Sum256 r) ∅ w =
  run (if String.eqb grantType "authorization_code" then handleAuthCodeExchange o issuerURL Sum256 (ParseForm r).2
       else if String.eqb grantType "refresh_token" then handleRefreshExchange o issuerURL (ParseForm r).2
       else Ret (TokenError "unsupported_grant_type" ("unsupported grant_type: " +:+ grantType))) ∅ w.
Proof.
  intros (Hs & Hq & He) Hp Hb Hg. pose proof (FormValue_parsed r "grant_type") as Hf.
  assert (Hb' : basicAuth (ParseForm r).2 = false) by
    (unfold ParseForm; destruct (match PostForm r with Some _ => _ | None => _ end), (match Form r with Some _ => _ | None => _ end); done).
  unfold handleToken. destruct (ParseForm r) as [ok r'] eqn:Er. cbn [fst snd] in *. subst ok. cbn [negb].
  unfold takeError. cbn [bind Proc.run act]. rewrite Hs. cbn [String.eqb negb fst snd].
  rewrite Hq. cbn [fst snd]. rewrite Hb', andb_false_r. cbn [bind Proc.run read fst snd]. by rewrite Hf, Hg, He.
Qed.

(** The form of a client's token request. *)
Record exchanges (r : Request) (code redirectURI verifier : string) : Prop := {
  ex_parses : (ParseForm r).1 = true;
  ex_basic : basicAuth r = false;
  ex_grant : FormValue r "grant_type" = "authorization_code";
  ex_code : FormValue r "code" = code;
  ex_client : FormValue r "client_id" = clientID o;
  ex_redirect : FormValue r "redirect_uri" = redirectURI;
  ex_verifier : FormValue r "code_verifier" = verifier
}.

Lemma run_exchange r code redirectURI verifier nonce now0 w0 w :
  quiet "authorization_code" w -> exchanges r code redirectURI verifier -> verifier <> "" -> orc _ QNow w0 = Some now0 ->
  codes w !! code = Some (mkPendingCode (clientID o) redirectURI nonce (computeS256Challenge Sum256 verifier) "test-user" now0) ->
  exists accessToken ttl refreshToken idToken now g w1 w',
    run (handleToken o issuerURL Sum256 r) ∅ w = Some (TokenResponse accessToken ttl refreshToken (Some idToken), ∅, w') /\
    grants w' = grants w ++ [g] /\ gCode g = code /\
    gClaims g = (idTokenClaims o issuerURL "test-user" (clientID o) nonce now w1).2 /\
    (exists key, orc _ (QSign key (gClaims g)) w1 = Some (Some idToken)) /\ same_switches w w1 /\
    codes w' !! code = None /\ refreshTokens w' !! refreshToken = Some (mkTokenEntry "test-user" (clientID o) now) /\
    same_switches w w'.
Proof.
  intros Hquiet [Hp Hb Hg Hc Hcl Hru Hv] Hvn Hnow0 Hcode. rewrite (run_token r _ _ Hquiet Hp Hb Hg). cbn [String.eqb Ascii.eqb Bool.eqb].
  change (String.eqb "authorization_code" "authorization_code") with true. cbn [negb].
  unfold handleAuthCodeExchange. rewrite !FormValue_parsed, Hc. unfold takeCode. cbn [bind Proc.run act]. rewrite Hcode. cbn [fst snd].
  set (p := mkPendingCode _ _ _ _ _ _). set (wt := w <| codes := _ |> <| redeeming := _ |>).
  assert (Hcheck : forall checkedAt, (forall t, checkedAt = Some t -> exists w', orc _ QNow w' = Some t) ->
            exchangeError o Sum256 p checkedAt (ParseForm r).2 = None).
  { intros checkedAt Ht. unfold exchangeError, p. cbn. rewrite !FormValue_parsed, Hcl, Hru, Hv, !String.eqb_refl.
    cbn [negb]. rewrite !andb_false_r. apply String.eqb_neq in Hvn. rewrite Hvn.
    assert ((match checkedAt with Some now => codeTTL o <? SubTime now now0 | None => false end) = false) as ->.
    { destruct checkedAt as [t|]; [|done]. destruct (Ht t eq_refl) as [w2 Hw2]. apply Z.ltb_ge. by eapply (un_fast Hun). }
    by case_match. }
  assert (Hgo : forall A (k : option Time -> prog A), exists checkedAt,
     (forall t, checkedAt = Some t -> exists w', orc _ QNow w' = Some t) /\
     run (bind (if negb (lenient o) && (0 <? codeTTL o) then let* now := ask QNow in Ret (Some now) else Ret None) k) ∅ wt =
     run (k checkedAt) ∅ wt).
  { intros A k. destruct (_ && _).
    - destruct (un_clock Hun wt) as [t Et]. exists (Some t). split; [intros ? [= <-]; by exists wt|]. cbn [bind Proc.run ask]. by rewrite Et.
    - by exists None. }
  edestruct Hgo as (checkedAt & Hat & ->). rewrite (Hcheck _ Hat). cbn [bind Proc.run read fst snd].
  edestruct @run_now as (now & Hnow & ->).
  edestruct @run_generateRandomString as (access & w2 & -> & [Hs2 Hc2 Ht2 Hg2 _] & _). cbn [bind Proc.run modify fst snd].
  edestruct @run_generateRandomString as (refresh & w3 & -> & [Hs3 Hc3 Ht3 Hg3 _] & _).
  edestruct @run_signIDToken as (token & w4 & -> & [Hs4 Hc4 Ht4 Hg4 _] & _ & Hsigned). cbn [bind Proc.run modify fst snd].
  assert (H3 : same_switches w w3).
  { apply (same_trans _ wt); [by split|]. apply (same_trans _ w2); [done|]. by destruct Hs3; split. }
  assert (H4 : same_switches w w4) by by apply (same_trans _ w3).
  eexists access, _, refresh, token, now, _, w3, _. split; [reflexivity|]. split; [cbn; rewrite Hg4, Hg3; cbn; by rewrite Hg2|].
  split; [done|]. split; [done|]. split; [exact Hsigned|]. split; [done|].
  split; [cbn; rewrite Hc4, Hc3; cbn; rewrite Hc2; cbn; by rewrite lookup_delete_eq|].
  split; [cbn; by rewrite lookup_insert_eq|]. by destruct H4; split.
Qed.

(** A code that is not there is refused. *)
Lemma run_exchange_spent r code redirectURI verifier w :
  quiet "authorization_code" w -> exchanges r code redirectURI verifier -> codes w !! code = None ->
  run (handleToken o issuerURL Sum256 r) ∅ w = Some (TokenError "invalid_grant" "invalid or expired authorization code", ∅, w).
Proof.
  intros Hquiet [Hp Hb Hg Hc _ _ _] Hn. rewrite (run_token r _ _ Hquiet Hp Hb Hg).
  change (String.eqb "authorization_code" "authorization_code") with true. cbn iota.
  unfold handleAuthCodeExchange. rewrite !FormValue_parsed, Hc. unfold takeCode. cbn [bind Proc.run act]. by rewrite Hn.
Qed.

(** ** Refreshing *)

Lemma honest_same w w' : same_switches w w' -> honest w -> honest w'.
Proof. intros [_ _ _ E1 E2 E3 E4] (H1 & H2 & H3 & H4). unfold honest. rewrite E1, E2, E3, E4. done. Qed.

(** The form of a client's refresh request. *)
Record refreshes (r : Request) (refreshToken : string) : Prop := {
  re_parses : (ParseForm r).1 = true;
  re_basic : basicAuth r = false;
  re_grant : FormValue r "grant_type" = "refresh_token";
  re_token : FormValue r "refresh_token" = refreshToken
}.

(** The ID token of a response, if any, was signed for these claims. *)
Definition signedFor (subject audience : string) (idToken : option string) : Prop :=
  if omitRefreshID o then idToken = None
  else exists token key claims w, idToken = Some token /\ orc _ (QSign key claims) w = Some (Some token) /\
    Issuer claims = issuerURL /\ Subject claims = subject /\ Audience claims = [audience] /\ Azp claims = None.

Lemma run_refreshIDToken {A} st now (k : unit + string -> prog A) w :
  honest w -> refreshSubject o = None -> refreshRawID o = None ->
  exists idToken w', run (bind (refreshIDToken o issuerURL st now) k) ∅ w = run (k (inr idToken)) ∅ w' /\ quietly w w' /\
    signedFor (tsSubject st) (tsClientID st) (if String.eqb idToken "" then None else Some idToken).
Proof.
  intros Hh Hsub Hraw. unfold refreshIDToken, signedFor. destruct (omitRefreshID o).
  { exists "", w. split; [done|]. by repeat split. }
  rewrite Hraw, Hsub. unfold signIDToken. cbn [bind Proc.run select read]. cbn [default].
  set (kc := idTokenClaims o issuerURL (tsSubject st) (tsClientID st) "" now w). cbn [fst snd].
  destruct (un_signed Hun kc.1 kc.2 w) as (token & Hk & Hne). rewrite Hk. unfold signReady at 1. cbn [bind Proc.run fst snd].
  exists token. eexists. split; [reflexivity|]. split; [by repeat split|]. apply String.eqb_neq in Hne as ->.
  destruct (honest_claims (tsSubject st) (tsClientID st) "" now w w Hh (same_refl w)) as (E1 & E2 & E3 & _ & E5).
  by exists token, kc.1, kc.2, w.
Qed.
  
Lemma run_refresh r old st w :
  quiet "refresh_token" w -> refreshes r old -> honest w -> refreshSubject o = None -> refreshRawID o = None ->
  refreshTokens w !! old = Some st -> old ∈ minted w ->
  exists accessToken ttl new idToken now w',
    run (handleToken o issuerURL Sum256 r) ∅ w = Some (TokenResponse accessToken ttl new idToken, ∅, w') /\
    signedFor (tsSubject st) (tsClientID st) idToken /\ rotations w' = rotations w ++ [mkRotation old new] /\
    refreshTokens w' !! new = Some (mkTokenEntry (tsSubject st) (tsClientID st) now) /\
    refreshTokens w' !! old = None /\ same_switches w w'.
Proof.
  intros Hquiet [Hp Hb Hg Ht] Hh Hsub Hraw Hst Hold. rewrite (run_token r _ _ Hquiet Hp Hb Hg).
  change (String.eqb "refresh_token" "authorization_code") with false. change (String.eqb "refresh_token" "refresh_token") with true.
  cbn iota. unfold handleRefreshExchange. rewrite !FormValue_parsed, Ht. unfold takeRefresh. cbn [bind Proc.run act].
  rewrite Hst. cbn [fst snd]. set (wt := w <| refreshTokens := _ |> <| rotating := _ |>).
  edestruct @run_now as (now & Hnow & ->).
  edestruct @run_generateRandomString as (access & w2 & -> & [Hs2 _ Ht2 _ Hr2] & _ & Hm2 & _). cbn [bind Proc.run modify fst snd].
  edestruct @run_generateRandomString as (new & w3 & -> & [Hs3 _ Ht3 _ Hr3] & _ & _ & Hfresh).
  assert (H3 : same_switches w w3).
  { apply (same_trans _ wt); [by split|]. apply (same_trans _ w2); [done|]. by destruct Hs3; split. }
  edestruct (fun A k => run_refreshIDToken (A := A) st now k w3 (honest_same _ _ H3 Hh) Hsub Hraw)
    as (idToken & w4 & -> & [Hs4 _ Ht4 _ Hr4] & Hsig).
  cbn [bind Proc.run modify fst snd].
  assert (Hne : new <> old) by (intros ->; apply Hfresh; cbn; set_solver).
  assert (H4 : same_switches w w4) by by apply (same_trans _ w3).
  eexists access, _, new, _, now, _. split; [reflexivity|]. split; [exact Hsig|].
  split; [cbn; rewrite Hr4, Hr3; cbn; by rewrite Hr2|]. split; [cbn; by rewrite lookup_insert_eq|].
  split; [|by destruct H4; split].
  cbn. rewrite lookup_insert_ne, Ht4, Ht3 by done. cbn. rewrite Ht2. cbn. by rewrite lookup_delete_eq.
Qed.

(** A refresh token that is not there is refused. *)
Lemma run_refresh_spent r old w :
  quiet "refresh_token" w -> refreshes r old -> refreshTokens w !! old = None ->
  run (handleToken o issuerURL Sum256 r) ∅ w = Some (TokenError "invalid_grant" "invalid or expired refresh token", ∅, w).
Proof.
  intros Hquiet [Hp Hb Hg Ht] Hn. rewrite (run_token r _ _ Hquiet Hp Hb Hg).
  change (String.eqb "refresh_token" "authorization_code") with false. change (String.eqb "refresh_token" "refresh_token") with true.
  cbn iota. unfold handleRefreshExchange. rewrite !FormValue_parsed, Ht. unfold takeRefresh. cbn [bind Proc.run act]. by rewrite Hn.
Qed.

End ProviderLogin.

(** C27: A login against the test provider.  When the environment does its part and no
    error or claim is forced, the authorization endpoint answers the client's
    request (whatever state, nonce and PKCE verifier it chose) with a redirect to
    its registered redirect URI from which [Login] takes a code; the token endpoint
    exchanges that code, once, for an ID token, which is what the signature of claims
    of the configured issuer for this client alone, with the nonce [Login] compares,
    yields, and for a refresh token of the same user. *)
Theorem login_against_provider o issuerURL Sum256 orc n r tokenRequest redirectURI u state nonce verifier w :
  undisturbed o orc -> quiet "authorization_code" w -> honest w -> forceNonce o = None ->
  plainRedirect redirectURI u -> isRegisteredRedirectURI o redirectURI = true ->
  state <> "" -> verifier <> "" -> computeS256Challenge Sum256 verifier <> "" ->
  authorizes o (urlQuery r) redirectURI state nonce (computeS256Challenge Sum256 verifier) ->
  (forall code, exchanges o (tokenRequest code) code redirectURI verifier) ->
  exists location code w1,
    run orc n (handleAuthorize o r) ∅ w = Some (Redirect location, ∅, w1) /\
    StartAuthFlow redirectURI (Redirect location) = FlowCallback location /\ checkCallback state location = Ok code /\
    exists accessToken ttl refreshToken idToken w2 g,
      run orc n (handleToken o issuerURL Sum256 (tokenRequest code)) ∅ w1 =
        Some (TokenResponse accessToken ttl refreshToken (Some idToken), ∅, w2) /\
      grants w2 = grants w ++ [g] /\ gCode g = code /\
      (exists key w', orc _ (QSign key (gClaims g)) w' = Some (Some idToken)) /\
      Issuer (gClaims g) = issuerURL /\ Subject (gClaims g) = "test-user" /\ Audience (gClaims g) = [clientID o] /\
      Nonce (gClaims g) = nonce /\ Azp (gClaims g) = None /\
      (exists now, refreshTokens w2 !! refreshToken = Some (mkTokenEntry "test-user" (clientID o) now)) /\
      run orc n (handleToken o issuerURL Sum256 (tokenRequest code)) ∅ w2 =
        Some (TokenError "invalid_grant" "invalid or expired authorization code", ∅, w2).
Proof.
  intros Hun Hq Hh Hn Hpl Hreg Hs Hv Hc Haz Hex.
  assert (Hru : redirectURI <> "") by (intros ->; destruct Hpl as (Hp & Ha & _); vm_compute in Hp; by injection Hp as <-).
  destruct (run_authorize o orc n Hun r _ _ _ _ w Haz Hc Hru Hreg Hn) as (code & now0 & w0 & w1 & Hrun & Hcn & Hnow & Hcode & Hs1 & Hg1).
  assert (Hst : Values_lookup (setValues [("code", code); ("state", state)]) "state" = [state])
    by (unfold setValues; cbn [foldl fst snd]; by rewrite lookup_Set).
  pose proof (StartAuthFlow_plain _ _ _ _ _ Hpl Hst) as Hflow. rewrite (redirectTo_plain _ _ _ _ _ Hpl Hst) in Hrun, Hflow.
  eexists _, code, w1. split; [exact Hrun|]. split; [exact Hflow|]. split; [by apply (checkCallback_code _ u)|].
  destruct (run_exchange o issuerURL Sum256 orc n Hun (tokenRequest code) code redirectURI verifier nonce now0 w0 w1
    (quiet_same _ _ _ Hs1 Hq) (Hex code) Hv Hnow Hcode)
    as (access & ttl & refresh & idt & now & g & w' & w2 & Hrun2 & Hg2 & Hgc & Hcl & [key Hsigned] & Hs2 & Hspent & Hrt & Hs3).
  destruct (honest_claims o issuerURL "test-user" (clientID o) nonce now w w' Hh (same_trans _ _ _ Hs1 Hs2)) as (E1 & E2 & E3 & E4 & E5).
  exists access, ttl, refresh, idt, w2, g. split; [exact Hrun2|]. split; [by rewrite Hg2, Hg1|].
  split; [done|]. split; [by exists key, w'|]. rewrite Hcl. do 5 (split; [done|]). split; [by exists now|].
  apply (run_exchange_spent o issuerURL Sum256 orc n (tokenRequest code) code redirectURI verifier w2); [|done|done].
  apply (quiet_same _ w1 _ Hs3). by apply (quiet_same _ w _ Hs1).
Qed.

(** When the client takes the subject of a refreshed ID token. *)
Lemma checkSubject_iff oldIDToken subject :
  checkSubject oldIDToken subject = None <->
  subject <> "" /\ oldIDToken <> "" /\ exists claims, DecodeIDToken oldIDToken = Ok claims /\ Claims.Subject claims = subject.
Proof.
  unfold checkSubject. destruct (String.eqb_spec subject ""); [naive_solver|].
  destruct (String.eqb_spec oldIDToken ""); [naive_solver|]. destruct (DecodeIDToken oldIDToken) as [e|claims]; [naive_solver|].
  destruct (String.eqb_spec (Claims.Subject claims) "") as [E|E];
    [split; [done|]; by intros (Hs & _ & c & [= <-] & <-)|].
  destruct (String.eqb_spec subject (Claims.Subject claims)); cbn [negb]; naive_solver.
Qed.

(** C28: A refresh against the test provider.  When the environment does its part and
    nothing is forced, the token endpoint exchanges a refresh token it holds for a
    new, different one of the same user and client, and from then on refuses the
    old one; unless ID tokens are left out of refresh responses, it signs one of
    the configured issuer for that client alone, whose subject the client's
    check accepts exactly when its current ID token names the same, non-empty one. *)
Theorem refresh_against_provider o issuerURL Sum256 orc n r old st w :
  undisturbed o orc -> quiet "refresh_token" w -> honest w -> refreshSubject o = None -> refreshRawID o = None ->
  refreshes r old -> refreshTokens w !! old = Some st -> old ∈ minted w ->
  exists accessToken ttl new idToken now w',
    run orc n (handleToken o issuerURL Sum256 r) ∅ w = Some (TokenResponse accessToken ttl new idToken, ∅, w') /\
    rotations w' = rotations w ++ [mkRotation old new] /\ new <> old /\
    refreshTokens w' !! new = Some (mkTokenEntry (tsSubject st) (tsClientID st) now) /\
    run orc n (handleToken o issuerURL Sum256 r) ∅ w' =
      Some (TokenError "invalid_grant" "invalid or expired refresh token", ∅, w') /\
    if omitRefreshID o then idToken = None
    else exists token key claims w1, idToken = Some token /\ orc _ (QSign key claims) w1 = Some (Some token) /\
      Issuer claims = issuerURL /\ Audience claims = [tsClientID st] /\ Azp claims = None /\
      forall oldIDToken, checkSubject oldIDToken (Subject claims) = None <->
        tsSubject st <> "" /\ oldIDToken <> "" /\
        exists current, DecodeIDToken oldIDToken = Ok current /\ Claims.Subject current = tsSubject st.
Proof.
  intros Hun Hq Hh Hsub Hraw Hre Hst Hold.
  destruct (run_refresh o issuerURL Sum256 orc n Hun r old st w Hq Hre Hh Hsub Hraw Hst Hold)
    as (access & ttl & new & idt & now & w' & Hrun & Hsig & Hrot & Hnew & Hgone & Hsame).
  exists access, ttl, new, idt, now, w'. split; [exact Hrun|]. split; [done|].
  split; [by intros ->; rewrite Hgone in Hnew|]. split; [done|].
  split; [apply (run_refresh_spent o issuerURL Sum256 orc n r old w'); [by apply (quiet_same _ w)|done|done]|].
  unfold signedFor in Hsig. destruct (omitRefreshID o); [done|].
  destruct Hsig as (token & key & claims & w1 & E1 & E2 & E3 & E4 & E5 & E6). exists token, key, claims, w1.
  do 5 (split; [done|]). intros oldIDToken. rewrite E4. apply checkSubject_iff.
Qed.

(** *** A concrete environment: fresh bytes are longer than every string in use *)

Lemma b64_length : forall s, (String.length s <= String.length (b64_encode s))%nat.
Proof.
  fix IH 1. intros [|a [|b [|c s]]]; cbn; [lia..|]. specialize (IH s). lia.
Qed.

Definition longest (X : gset string) : nat := max_list (String.length <$> elements X).
Definition freshOracle : oracle (W := Idp) (Q := idpQuery) := fun X q w =>
  match q in idpQuery X return option X with
  | QNow => Some (mkTime 1000 0)
  | QRandom _ => Some (someBytes (S (longest (minted w))))
  | QHook _ => Some false
  | QSign _ _ => Some (Some "jwt")
  end.

Lemma someBytes_length k : String.length (someBytes k) = k.
Proof. induction k as [|k IH]; [done|]. cbn [someBytes]. by rewrite str_length_app, IH. Qed.

Lemma freshOracle_undisturbed : undisturbed exOptions freshOracle.
Proof.
  split.
  - intros w. eexists. split; [reflexivity|]. split; [done|]. intros Hin.
    pose proof (b64_length (someBytes (S (longest (minted w))))) as Hl. rewrite someBytes_length in Hl.
    assert (String.length (b64_encode (someBytes (S (longest (minted w))))) <= longest (minted w))%nat; [|lia].
    apply max_list_elem_of_le. apply list_elem_of_fmap_2. by apply elem_of_elements.
  - intros w. by eexists.
  - intros w w' now now' [= <-] [= <-]. vm_compute. discriminate.
  - intros key claims w. by eexists.
Qed.

Definition exLoginRequest : Request := newRequest "GET"
  "client_id=test-client&redirect_uri=http%3A%2F%2F127.0.0.1%3A8000%2Fcallback&state=s&response_type=code&code_challenge=dmVyaWZpZXI&code_challenge_method=S256&nonce=n" None false.
Definition exTokenRequest (code : string) : Request :=
  (newRequest "POST" "" None false) <| PostForm := Some ∅ |> <| Form := Some
    (setValues [("grant_type", "authorization_code"); ("code", code); ("client_id", "test-client");
                ("redirect_uri", "http://127.0.0.1:8000/callback"); ("code_verifier", "verifier")]) |>.

Lemma login_against_provider_witness :
  exists location w1 resp w2, run freshOracle 1 (handleAuthorize exOptions exLoginRequest) ∅ (newIdp exOptions) =
      Some (Redirect location, ∅, w1) /\ checkCallback "s" location = Ok "YQ" /\
    run freshOracle 1 (handleToken exOptions "https://idp.example" exSum (exTokenRequest "YQ")) ∅ w1 = Some (resp, ∅, w2).
Proof.
  pose (u := mkURL "http" "" None "127.0.0.1:8000" "/callback" "" false false "" "" "").
  assert (Hpl : plainRedirect "http://127.0.0.1:8000/callback" u) by (repeat split; vm_compute; reflexivity).
  destruct (login_against_provider exOptions "https://idp.example" exSum freshOracle 1 exLoginRequest exTokenRequest
    "http://127.0.0.1:8000/callback" u "s" "n" "verifier" (newIdp exOptions) freshOracle_undisturbed)
    as (location & code & w1 & Hrun & _ & Hcb & at' & ttl & rt & idt & w2 & g & Hrun2 & _);
    [by repeat split|by repeat split|done|exact Hpl|vm_compute; reflexivity|done|done|vm_compute; discriminate| | |].
  - split; try (vm_compute; reflexivity). by left.
  - intros code. split; reflexivity.
  - assert (E : (fun r => match r with Some (Redirect l, _, _) => checkCallback "s" l | _ => Err (ESentinel ErrStateMismatch) end)
      (run freshOracle 1 (handleAuthorize exOptions exLoginRequest) ∅ (newIdp exOptions)) = Ok "YQ") by (vm_compute; reflexivity).
    cbv beta in E. rewrite Hrun, Hcb in E. injection E as ->.
    exists location, w1. eexists _, w2. split; [exact Hrun|]. split; [exact Hcb|exact Hrun2].
Defined.

Definition exRefreshRequest : Request :=
  (newRequest "POST" "" None false) <| PostForm := Some ∅ |> <| Form := Some
    (setValues [("grant_type", "refresh_token"); ("refresh_token", "rt")]) |>.
Definition exHolding : Idp :=
  (newIdp exOptions) <| refreshTokens := {["rt" := mkTokenEntry "u1" "test-client" (mkTime 0 0)]} |> <| minted := {["rt"]} |>.

Lemma refresh_against_provider_witness :
  exists accessToken ttl new idToken w',
    run freshOracle 1 (handleToken exOptions "https://idp.example" exSum exRefreshRequest) ∅ exHolding =
      Some (TokenResponse accessToken ttl new idToken, ∅, w') /\ new <> "rt" /\
    run freshOracle 1 (handleToken exOptions "https://idp.example" exSum exRefreshRequest) ∅ w' =
      Some (TokenError "invalid_grant" "invalid or expired refresh token", ∅, w').
Proof.
  destruct (refresh_against_provider exOptions "https://idp.example" exSum freshOracle 1 exRefreshRequest "rt"
    (mkTokenEntry "u1" "test-client" (mkTime 0 0)) exHolding freshOracle_undisturbed)
    as (access & ttl & new & idt & now & w' & H1 & _ & H2 & _ & H3 & _);
    [by repeat split|by repeat split|done|done|by repeat split|vm_compute; reflexivity|unfold exHolding; cbn; set_solver|].
  exists access, ttl, new, idt, w'. split; [exact H1|]. split; [exact H2|exact H3].
Defined.
