(* ===== verification/ProviderAzp.v ===== *)
(** The authorized party a test gives the provider, in the ID tokens it issues,
    and what the client's check makes of it. *)
From Stdlib Require Import Ascii.
From S2P Require Import Prelude Proc GoTime GoStrings UrlProps GoEncoding GoJson GoHttp Errors Claims.
From S2P Require Import Provider ProviderProps.

(** The claim set that has nothing but an [azp] member with the given raw text. *)
Definition azpPayload (raw : string) : string := "{" +:+ Marshal "azp" +:+ ":" +:+ raw +:+ "}".

Lemma json_value_azp k raw v :
  (forall rest, json_value (S k) 1 (raw +:+ rest) = Some (v, true, rest)) ->
  json_value (S (S (S k))) 0 (azpPayload raw) = Some (AObject [("azp", v)], true, "").
Proof.
  intros Hv. unfold azpPayload. change (Marshal "azp") with (String quote ("azp" +:+ String quote "")).
  rewrite !str_app_cons, !str_app_empty. set (text := raw +:+ _).
  transitivity ((fun '(l, ok, r) => (AObject l, ok, r)) <$>
    match json_value (S k) 1 text with
    | None => None
    | Some (v, ok, r) =>
        match skip_ws r with
        | String c r =>
            if Ascii.eqb c "," then (fun '(l, ok', r) => (("azp", v) :: l, ok && ok', r)) <$> json_members (S k) 1 r
            else if Ascii.eqb c "}" then Some ([("azp", v)], ok, r) else None
        | EmptyString => None
        end
    end); [reflexivity|].
  unfold text. by rewrite Hv.
Qed.

Lemma azpPayload_decodes azp :
  json_Unmarshal_map (azpPayload (Marshal azp)) = Some [("azp", AString (ToValidUTF8 azp))].
Proof.
  unfold json_Unmarshal_map. set (l := String.length _). assert (0 < l)%nat by (unfold l, azpPayload; rewrite str_length_app; cbn; lia).
  replace (2 * l + 2)%nat with (S (S (S (2 * l - 1)))) by lia.
  by rewrite (json_value_azp _ _ (AString (ToValidUTF8 azp))) by (intros; apply json_value_Marshal).
Qed.

(** C29: The authorized party round trip.  After [SetForceAzp azp] the provider puts
    into every ID token, until the override changes, an azp member that any JSON
    decoder at any place in a document reads back as [azp] (with the bytes that
    are not UTF-8 replaced), so that the client's [checkAuthorizedParty] accepts
    the decoded claims exactly when [azp] is its own client ID, whatever the
    audiences; and [SetForceAzp] with the empty string issues tokens without the
    member again, which it accepts for a single audience only. *)
Theorem forced_azp_roundtrip o issuerURL (orc : oracle (W := Idp) (Q := idpQuery)) n azp w :
  exists w', run orc (S n) (SetForceAzp azp) ∅ w = Some (tt, ∅, w') /\
  forall w2, forceAzpJSON w2 = forceAzpJSON w' ->
  exists claims,
    (forall subject audience nonce now,
       match Azp (idTokenClaims o issuerURL subject audience nonce now w2).2 with
       | Some raw => azp <> "" /\ json_Unmarshal_map (azpPayload raw) = Some claims /\
           forall k depth rest, json_value (S k) depth (raw +:+ rest) = Some (AString (ToValidUTF8 azp), true, rest)
       | None => azp = "" /\ claims = []
       end) /\
    forall clientID audience, checkAuthorizedParty clientID claims audience = None <->
      if String.eqb azp "" then (length audience <= 1)%nat else clientID = ToValidUTF8 azp.
Proof.
  unfold SetForceAzp, SetForceAzpRawJSON. destruct (String.eqb azp "") eqn:E; eexists.
  - split; [reflexivity|]. intros w2 Hw. cbn in Hw. exists []. split.
    + intros. unfold idTokenClaims. cbn [snd Azp]. rewrite Hw. split; [by apply String.eqb_eq|done].
    + intros clientID audience. unfold checkAuthorizedParty. cbn -[Nat.ltb].
      destruct (1 <? length audience)%nat eqn:El; [apply Nat.ltb_lt in El|apply Nat.ltb_ge in El]; split; [done|lia|done|done].
  - split; [reflexivity|]. intros w2 Hw. cbn -[Marshal] in Hw. exists [("azp", AString (ToValidUTF8 azp))]. split.
    + intros. unfold idTokenClaims. cbn [snd Azp]. rewrite Hw. change (unlessEmpty (Marshal azp)) with (Some (Marshal azp)). cbn iota.
      split; [by apply String.eqb_neq|]. split; [apply azpPayload_decodes|]. intros. apply json_value_Marshal.
    + intros clientID audience. unfold checkAuthorizedParty.
      change (any_lookup _ _) with (Some (AString (ToValidUTF8 azp))). cbn iota.
      destruct (String.eqb_spec (ToValidUTF8 azp) clientID) as [Ec|Ec]; [done|]. split; [done|]. intros ->. by destruct Ec.
Qed.

Lemma forced_azp_roundtrip_witness (w := newIdp exOptions) :
  ToValidUTF8 "test-client" = "test-client" /\
  exists w', forceAzpJSON w' = Some (Marshal "test-client") /\
  exists claims, checkAuthorizedParty "test-client" claims ["a"; "b"] = None /\
    checkAuthorizedParty "other" claims ["a"] <> None.
Proof.
  assert (Hv : ToValidUTF8 "test-client" = "test-client") by (apply ToValidUTF8_ascii; reflexivity).
  split; [exact Hv|].
  assert (Hazp : (fun r => match r with Some (_, _, w') => forceAzpJSON w' | None => None end)
    (run (Q := idpQuery) (fun _ _ _ => None) 2 (SetForceAzp "test-client") ∅ w) = Some (Marshal "test-client")) by (vm_compute; reflexivity).
  destruct (forced_azp_roundtrip exOptions "https://idp.example" (fun _ _ _ => None) 1 "test-client" w) as (w' & Hr & Ht).
  cbv beta in Hazp. rewrite Hr in Hazp. exists w'. split; [exact Hazp|].
  destruct (Ht w' eq_refl) as (claims & _ & Hc). exists claims.
  change (String.eqb "test-client" "") with false in Hc. cbv iota in Hc. rewrite Hv in Hc.
  split; [apply Hc; exact eq_refl|]. intros Hn. apply Hc in Hn. discriminate Hn.
Defined.
