(* ===== verification/Emitter.v ===== *)
(** [oidctest/emitter.go]: the emitter that records events for tests, with its
    concurrent callers in the rely/guarantee logic.

    Its mutex is only held within one critical section, which is one action.
    Channels are numbered in the order of their creation; a receive from a closed
    channel is always ready. *)
From S2P Require Import Prelude Proc RelyGuarantee Schedules.

(** ** The emitter *)

(** An event's name and the identity of its data. *)
Record Event := mkEvent { Name : string; Data : nat }.
#[export] Instance Event_eq_dec : EqDecision Event.
Proof. solve_decision. Defined.

(** [notifyCh] is the channel the next [Emit] closes; the channels that exist and
    those that are closed. *)
Record RecordingEmitter := mkEmitter {
  events : list Event;
  notifyCh : option nat;
  channels : nat;
  closed : gset nat
}.
#[export] Instance RecordingEmitter_settable : Settable RecordingEmitter :=
  fun e => mkEmitter (events e) (notifyCh e) (channels e) (closed e).

Definition newEmitter : RecordingEmitter := mkEmitter [] None 0 ∅.

(** The [select] of [WaitForEvent] on the channel and the timer: [true] when the
    channel is received from. *)
Inductive emitterQuery : Type -> Type := QWait (ch : nat) (name : string) : emitterQuery bool.

Abbreviation prog := (@prog RecordingEmitter Empty_set emitterQuery).

Definition waitReady (ch : nat) (e : RecordingEmitter) (received : bool) : option RecordingEmitter :=
  if received then (if bool_decide (ch ∈ closed e) then Some e else None) else Some e.

(** The section of [Emit]. *)
Definition emit (ev : Event) (e : RecordingEmitter) : RecordingEmitter :=
  let e := e <| events := events e ++ [ev] |> in
  match notifyCh e with
  | None => e
  | Some ch => e <| closed := {[ch]} ∪ closed e |> <| notifyCh := None |>
  end.
Definition Emit (event : string) (data : nat) : prog unit := modify (emit (mkEvent event data)).

(** [HasEvent], [Events] and [Reset]. *)
Definition hasEvent (name : string) (e : RecordingEmitter) : bool :=
  existsb (fun ev => String.eqb (Name ev) name) (events e).
Definition HasEvent (name : string) : prog bool := read (hasEvent name).
Definition Events : prog (list Event) := read events.
Definition Reset : prog unit := modify (fun e => e <| events := [] |>).

(** The section of one round of [WaitForEvent]: [None] when the event is there,
    otherwise the channel to wait on. *)
Definition checkOrSubscribe (name : string) (e : RecordingEmitter) : option nat * RecordingEmitter :=
  if hasEvent name e then (None, e)
  else match notifyCh e with
  | Some ch => (Some ch, e)
  | None => (Some (channels e), e <| notifyCh := Some (channels e) |> <| channels := S (channels e) |>)
  end.

(** [WaitForEvent]; the timer may fire at any select. *)
Definition waitRound (name : string) (_ : unit) : prog (unit + bool) :=
  let* ch := act (checkOrSubscribe name) in
  match ch with
  | None => Ret (inr true)
  | Some ch =>
      let* received := select (QWait ch name) (waitReady ch) in
      if received then Ret (inl tt) else Ret (inr false)
  end.
Definition WaitForEvent (name : string) : prog bool := loop (waitRound name) tt.

Inductive emitterApi : prog unit -> Prop :=
| api_Emit event data : emitterApi (Emit event data)
| api_HasEvent name : emitterApi (let* _ := HasEvent name in skip)
| api_Events : emitterApi (let* _ := Events in skip)
| api_Reset : emitterApi Reset
| api_WaitForEvent name : emitterApi (let* _ := WaitForEvent name in skip).

(** ** The invariant *)

Record inv (e : RecordingEmitter) : Prop := {
  inv_notify : forall ch, notifyCh e = Some ch -> (ch < channels e)%nat /\ ch ∉ closed e;
  inv_closed : forall ch, ch ∈ closed e -> (ch < channels e)%nat
}.

(** A goroutine that waits for [name] on [ch] need not be woken now, or is. *)
Definition subscribed (ch : nat) (name : string) (e : RecordingEmitter) : Prop :=
  ch ∈ closed e \/ (notifyCh e = Some ch /\ hasEvent name e = false).

Definition hist (e e' : RecordingEmitter) : Prop :=
  forall ch name, subscribed ch name e -> subscribed ch name e'.
Definition prot (_ : Empty_set) (_ _ : RecordingEmitter) : Prop := True.
Definition linv (_ : Empty_set) (_ : RecordingEmitter) : Prop := True.
Definition role (_ : Empty_set) : bool := false.
Definition taken (_ : Empty_set) (_ : RecordingEmitter) : bool := false.
Definition rank (_ : Empty_set) : nat := 0.
Definition pre (X : Type) (q : emitterQuery X) (_ : gset Empty_set) (e : RecordingEmitter) : Prop :=
  match q with QWait ch name => subscribed ch name e end.
Definition answers (X : Type) (q : emitterQuery X) (_ : X) : Prop := True.
Definition env (_ _ : RecordingEmitter) : Prop := False.
Definition bound (_ : RecordingEmitter) : Prop := True.

Lemma emitter_laws : RG_laws hist prot inv linv role taken env.
Proof. split; try done; [by intros ? ? ?|]. intros e1 e2 e3 H1 H2 ch name Hs. apply H2. by apply H1. Qed.

Abbreviation wp := (RelyGuarantee.wp hist prot inv linv rank role taken pre answers bound).
Abbreviation trans := (RelyGuarantee.trans hist prot inv role taken bound).
Abbreviation later := (RelyGuarantee.later hist prot inv role taken).

(** ** The sections *)

Lemma emitter_trans H e e' (K : gset Empty_set -> Prop) : hist e e' -> inv e' -> K H -> trans H e e' K.
Proof. intros. apply trans_keep; [done|intros []|intros []|done|done]. Qed.

Lemma emit_inv ev e : inv e -> inv (emit ev e).
Proof.
  intros [I1 I2]. unfold emit. cbn [notifyCh set field_update]. destruct (notifyCh e) as [ch|] eqn:En; cbn.
  - destruct (I1 ch eq_refl) as [Hc _]. split; [done|]. intros ch' [->%elem_of_singleton|Hc']%elem_of_union; [done|by apply I2].
  - by split; cbn.
Qed.

(** Whoever is subscribed when an event is recorded is woken by it. *)
Lemma emit_hist ev e : hist e (emit ev e).
Proof.
  intros ch name [Hc|[Hn _]]; left; unfold emit; cbn.
  - destruct (notifyCh e); [set_solver|done].
  - rewrite Hn. set_solver.
Qed.

Lemma checkOrSubscribe_spec name e :
  inv e ->
  let '(ch, e') := checkOrSubscribe name e in
  hist e e' /\ inv e' /\
  match ch with None => hasEvent name e = true /\ e' = e | Some ch => subscribed ch name e' end.
Proof.
  intros Hi. assert (Hr : hist e e) by by intros ? ? ?.
  unfold checkOrSubscribe. destruct (hasEvent name e) eqn:Eh; [done|].
  destruct (notifyCh e) as [ch|] eqn:En; [split; [done|]; split; [done|]; by right|].
  destruct Hi as [I1 I2]. split; [|split; [|by right]].
  - intros ch' name' [Hc|[Hc _]]; [by left|congruence].
  - split; cbn.
    + intros ch [= <-]. split; [lia|]. intros Hc. apply I2 in Hc. lia.
    + intros ch Hc. apply I2 in Hc. lia.
Qed.

(** ** The goroutines *)

Abbreviation clean p e := (wp p ∅ (fun _ H _ => H = ∅) e).

Lemma wp_waitRound {A} name (k : bool -> prog A) Post e :
  (forall e b, wp (k b) ∅ Post e) ->
  wp (waitRound name tt) ∅ (fun r H e => match r with inl _ => H = ∅ /\ True | inr b => wp (k b) H Post e end) e.
Proof.
  intros Hk. unfold waitRound. apply wp_act. intros e1 _ Hi1 _.
  pose proof (checkOrSubscribe_spec name e1 Hi1) as Hs. destruct (checkOrSubscribe name e1) as [[ch|] e2];
    destruct Hs as (Hh & Hi2 & Hs); cbn [fst snd]; (apply emitter_trans; [done|done|]); [|].
  2: { apply wp_ret. intros e3 _ _ _. apply Hk. }
  apply wp_select. intros e3 [Hh3 _] Hi3 _. split; [by apply Hh3|]. intros received e4 _ Hr.
  assert (e4 = e3) as -> by (unfold waitReady in Hr; repeat case_match; congruence).
  apply (trans_refl emitter_laws); [by intros []|done|]. destruct received; apply wp_ret; intros e4 _ _ _; [done|apply Hk].
Qed.

Lemma wp_emitterApi p e : emitterApi p -> clean p e.
Proof.
  destruct 1.
  - unfold Emit. change (modify ?f) with (bind (modify f : prog unit) Ret). apply wp_modify. intros e1 _ Hi1 _.
    apply emitter_trans; [apply emit_hist|by apply emit_inv|by apply wp_ret].
  - apply (wp_read emitter_laws). intros e1 _ _ _. by apply wp_ret.
  - apply (wp_read emitter_laws). intros e1 _ _ _. by apply wp_ret.
  - unfold Reset. change (modify ?f) with (bind (modify f : prog unit) Ret). apply wp_modify. intros e1 _ Hi1 _.
    apply emitter_trans; [|by destruct Hi1|by apply wp_ret]. intros ch name [Hc|[Hn _]]; [by left|by right].
  - unfold WaitForEvent. apply wp_loop with (I := fun _ => True); [done|done|].
    intros e1 _. apply wp_waitRound. intros e2 b. by apply wp_ret.
Qed.

(** ** Every interleaving *)

Abbreviation emitterConfig := (@Proc.config RecordingEmitter Empty_set _ _ emitterQuery).
Definition emitterReachable : emitterConfig -> Prop := reachable env emitterApi answers bound newEmitter.

Lemma emitterReachable_ok c :
  emitterReachable c -> config_ok hist prot inv linv rank role taken pre answers bound c.
Proof.
  apply (reachable_ok emitter_laws); [intros p e Hp _; by apply wp_emitterApi|by split; cbn|done|done].
Qed.

(** C31: No wake-up is lost.  In every interleaving of any number of callers,
    whenever a goroutine waits for an event that has been recorded, the channel it
    waits on is closed, so that it is about to look again, whatever was emitted or
    reset in between; and no [Emit] closes a channel twice, which would panic. *)
Theorem no_lost_wakeup c :
  emitterReachable c ->
  (forall t ch name r k, pool c !! t = Some (Ask (QWait ch name) r k) ->
     ch ∈ closed (world c) \/ (notifyCh (world c) = Some ch /\ hasEvent name (world c) = false)) /\
  (forall ch, notifyCh (world c) = Some ch -> ch ∉ closed (world c)).
Proof.
  intros Hr%emitterReachable_ok. split.
  - intros t ch name r k Ht. by destruct (asking_pre emitter_laws _ _ _ _ _ _ Hr Ht) as (H & Hp & _).
  - intros ch Hn. destruct Hr as [own Hok]. apply (inv_notify _ (ok_inv _ _ Hok) _ Hn).
Qed.

(** *** A concrete run: a waiter, an event it does not wait for, a reset *)

Definition emitterOracle : oracle (W := RecordingEmitter) (Q := emitterQuery) := fun X q _ =>
  match q in emitterQuery X return option X with QWait _ _ => Some true end.
#[export] Instance emitter_bound_decision e : Decision (bound e).
Proof. left. exact I. Defined.

Abbreviation runEmitter := (exec_thread bound emitterOracle).
Definition emitterWaiting : emitterConfig :=
  runEmitter 9 3 0 (call 3 Reset (runEmitter 9 2 0 (call 2 (Emit "login" 1)
    (runEmitter 3 1 0 (call 1 (let* _ := WaitForEvent "logout" in skip) (init_config newEmitter)))))).

Lemma emitterWaiting_reachable : emitterReachable emitterWaiting.
Proof.
  repeat (apply exec_thread_reachable; [done|]; apply call_reachable; [constructor|done|]).
  apply rtc_refl.
Qed.

Lemma no_lost_wakeup_witness :
  asked emitterWaiting 1 = Some (existT _ (QWait 0 "logout")) /\
  (0%nat ∈ closed (world emitterWaiting) \/
   (notifyCh (world emitterWaiting) = Some 0%nat /\ hasEvent "logout" (world emitterWaiting) = false)).
Proof.
  assert (E : asked emitterWaiting 1 = Some (existT _ (QWait 0 "logout"))) by (vm_compute; reflexivity).
  split; [exact E|]. destruct (asked_pool _ _ _ E) as (r & k & Ht).
  exact (proj1 (no_lost_wakeup _ emitterWaiting_reachable) _ _ _ _ _ Ht).
Defined.
