(* ===== verification/CoverageProfile.v ===== *)
(** [.github/scripts/coveragecheck/main.go], its two parsers: the coverage profile
    and the package list of [go list -json]. *)
From Stdlib Require Import Ascii.
From S2P Require Import Prelude GoStrings GoEncoding GoText.

(** ** The coverage profile *)

Record packageCoverage := mkCoverage { covered : Z; total : Z }.
#[export] Instance packageCoverage_eq_dec : EqDecision packageCoverage.
Proof. solve_decision. Defined.

(** The errors of a line, with what their messages print. *)
Inductive lineError :=
| ExpectedMode (line : string)
| UnsupportedMode (mode : string)
| WantThreeFields
| InvalidLocation (location : string)
| NotGoSource (filePath : string)
| InvalidRange (location : string)
| InvalidStart (location : string) (e : lineError)
| InvalidEnd (location : string) (e : lineError)
| BackwardsRange (location : string)
| NoColumn
| InvalidLine (line : string)
| InvalidColumn (column : string)
| DuplicateBlock (location : string)
| InvalidStatements (field : string)
| InvalidCount (field : string)
| TotalOverflow
| CoveredOverflow.

Inductive profileError :=
| LineError (lineNumber : Z) (e : lineError)
| ReadError
| MissingMode.

(** [parseMode]. *)
Definition parseMode (line : string) : option lineError :=
  if HasPrefix line "mode: " then
    let mode := str_drop 6 line in
    if String.eqb mode "set" || String.eqb mode "count" || String.eqb mode "atomic" then None
    else Some (UnsupportedMode mode)
  else Some (ExpectedMode line).

(** [parsePosition]. *)
Definition parsePosition (position : string) : result lineError (Z * Z) :=
  let '(line, column, ok) := Cut position "." in
  if negb ok then Err NoColumn
  else match ParseInt line with
  | None => Err (InvalidLine line)
  | Some lineNumber =>
      if lineNumber <=? 0 then Err (InvalidLine line)
      else match ParseInt column with
      | None => Err (InvalidColumn column)
      | Some columnNumber =>
          if columnNumber <=? 0 then Err (InvalidColumn column) else Ok (lineNumber, columnNumber)
      end
  end.

(** [parseBlockLocation]. *)
Definition parseBlockLocation (location : string) : result lineError string :=
  match LastIndexByte location ":" with
  | None => Err (InvalidLocation location)
  | Some separator =>
      if (separator =? 0)%nat || (separator =? String.length location - 1)%nat then Err (InvalidLocation location)
      else
        let filePath := str_take separator location in
        if negb (HasSuffix filePath ".go") then Err (NotGoSource filePath)
        else match Split (str_drop (S separator) location) "," with
        | [first; second] =>
            match parsePosition first with
            | inl e => Err (InvalidStart location e)
            | inr (startLine, startColumn) =>
                match parsePosition second with
                | inl e => Err (InvalidEnd location e)
                | inr (endLine, endColumn) =>
                    if (endLine <? startLine) || ((endLine =? startLine) && (endColumn <? startColumn))
                    then Err (BackwardsRange location) else Ok filePath
                end
            end
        | _ => Err (InvalidRange location)
        end
  end.

(** What the loop of [parseProfile] keeps. *)
Record profileState := mkProfile {
  coverage : gmap string packageCoverage;
  blocks : gset string;
  lineNumber : Z;
  modeSeen : bool
}.
#[export] Instance profileState_settable : Settable profileState :=
  fun s => mkProfile (coverage s) (blocks s) (lineNumber s) (modeSeen s).

Definition newProfile : profileState := mkProfile ∅ ∅ 0 false.

Definition zeroCoverage : packageCoverage := mkCoverage 0 0.

(** The sums of one package with one more block. *)
Definition addBlock (statements count : Z) (current : packageCoverage) : result lineError packageCoverage :=
  if max_i64 - total current <? statements then Err TotalOverflow
  else
    let current := mkCoverage (covered current) (total current + statements) in
    if 0 <? count then
      if max_i64 - covered current <? statements then Err CoveredOverflow
      else Ok (mkCoverage (covered current + statements) (total current))
    else Ok current.

(** The part of the loop for a line after the mode line. *)
Definition blockLine (line : string) (s : profileState) : result lineError profileState :=
  match Fields line with
  | [location; statementsField; countField] =>
      match parseBlockLocation location with
      | inl e => Err e
      | inr filePath =>
          if bool_decide (location ∈ blocks s) then Err (DuplicateBlock location)
          else
            let s := s <| blocks := {[location]} ∪ blocks s |> in
            match ParseInt statementsField with
            | None => Err (InvalidStatements statementsField)
            | Some statements =>
                if statements <? 0 then Err (InvalidStatements statementsField)
                else match ParseUint countField with
                | None => Err (InvalidCount countField)
                | Some count =>
                    let packagePath := Dir filePath in
                    match addBlock statements count (default zeroCoverage (coverage s !! packagePath)) with
                    | inl e => Err e
                    | inr current => Ok (s <| coverage := <[packagePath := current]> (coverage s) |>)
                    end
                end
            end
      end
  | _ => Err WantThreeFields
  end.

(** One round of the loop. *)
Definition profileLine (text : string) (s : profileState) : result profileError profileState :=
  let s := s <| lineNumber := lineNumber s + 1 |> in
  let line := TrimSpace text in
  if String.eqb line "" then Ok s
  else if negb (modeSeen s) then
    match parseMode line with
    | Some e => Err (LineError (lineNumber s) e)
    | None => Ok (s <| modeSeen := true |>)
    end
  else match blockLine line s with
  | inl e => Err (LineError (lineNumber s) e)
  | inr s => Ok s
  end.

Fixpoint profileLines (texts : list string) (s : profileState) : result profileError profileState :=
  match texts with
  | [] => Ok s
  | text :: texts => match profileLine text s with inl e => Err e | inr s => profileLines texts s end
  end.

(** [parseProfile] of a reader that delivers [data] and then fails or not. *)
Definition maxToken : Z := 1024 * 1024.
Definition parseProfile (data : string) (readFails : bool) : result profileError (gmap string packageCoverage) :=
  let '(texts, complete) := ScanLines maxToken data in
  match profileLines texts newProfile with
  | inl e => Err e
  | inr s =>
      if readFails || negb complete then Err ReadError
      else if negb (modeSeen s) then Err MissingMode
      else Ok (coverage s)
  end.

(** ** The package list *)

(** A package as [json.Decoder] reads one: the members whose name is the field's
    up to case, the last one that is not null; anything but a string there is an
    error.  (A number no float64 holds is not told from null.) *)
Fixpoint importPathOf (members : list (string * any)) (current : string) : option string :=
  match members with
  | [] => Some current
  | (name, v) :: members =>
      if String.eqb (lower_ascii name) "importpath" then
        match v with
        | AString s => importPathOf members s
        | ANull => importPathOf members current
        | _ => None
        end
      else importPathOf members current
  end.

Inductive listError := BadJSON | NoImportPath | DuplicatePackage (path : string) | NoPackages.

(** The loop of [parsePackageList]; each round consumes at least one byte. *)
Fixpoint decodePackages (n : nat) (data : string) (seen : gset string) : result listError (list string) :=
  match n with
  | O => Err BadJSON
  | S n =>
      match skip_ws data with
      | EmptyString => Ok []
      | _ =>
          match json_value (2 * String.length data + 2) 0 data with
          | Some (v, _, rest) =>
              match match v with AObject members => importPathOf members "" | ANull => Some "" | _ => None end with
              | None => Err BadJSON
              | Some path =>
                  if String.eqb path "" then Err NoImportPath
                  else if bool_decide (path ∈ seen) then Err (DuplicatePackage path)
                  else match decodePackages n rest ({[path]} ∪ seen) with
                  | inl e => Err e
                  | inr paths => Ok (path :: paths)
                  end
              end
          | None => Err BadJSON
          end
      end
  end.
Definition parsePackageList (data : string) : result listError (list string) :=
  match decodePackages (S (String.length data)) data ∅ with
  | inl e => Err e
  | inr [] => Err NoPackages
  | inr packages => Ok (SortStrings packages)
  end.

(** ** Concrete profiles *)

Definition lines (l : list string) : string := String.concat (String newline "") l.
Definition exProfile : string := lines
  ["mode: atomic"; "example.com/project/root.go:1.1,2.1 2 1"; "example.com/project/root.go:3.1,4.1 3 0";
   "example.com/project/pkg/pkg.go:1.1,1.2 0 1"; "example.com/project/pkg/pkg.go:2.1,3.1 4 2"; ""].

Example parseProfile_example :
  parseProfile exProfile false =
  Ok {["example.com/project" := mkCoverage 2 5; "example.com/project/pkg" := mkCoverage 4 4]}.
Proof. vm_compute. reflexivity. Qed.

Example parseProfile_errors :
  parseProfile "" false = Err MissingMode /\
  parseProfile "mode: other" false = Err (LineError 1 (UnsupportedMode "other")) /\
  parseProfile (lines ["mode: set"; "example.com/project/a.go 1 1"]) false =
    Err (LineError 2 (InvalidLocation "example.com/project/a.go")) /\
  parseProfile (lines ["mode: set"; "example.com/project/a.go:2.1,1.1 1 1"]) false =
    Err (LineError 2 (BackwardsRange "example.com/project/a.go:2.1,1.1")) /\
  parseProfile (lines ["mode: set"; "a.go:1.1,2.1 1 1"; "a.go:1.1,2.1 1 1"]) false =
    Err (LineError 3 (DuplicateBlock "a.go:1.1,2.1")).
Proof. vm_compute. done. Qed.

Definition quote : string := String (ascii_of_N 34) "".
Definition listed (path : string) : string := "{" +:+ quote +:+ "ImportPath" +:+ quote +:+ ":" +:+ quote +:+ path +:+ quote +:+ "}".
Example parsePackageList_examples :
  parsePackageList (lines [listed "example.com/project/pkg"; listed "example.com/project"]) =
    Ok ["example.com/project"; "example.com/project/pkg"] /\
  parsePackageList "" = Err NoPackages /\ parsePackageList "{}" = Err NoImportPath /\
  parsePackageList "{" = Err BadJSON /\ parsePackageList (listed "a" +:+ listed "a") = Err (DuplicatePackage "a").
Proof. vm_compute. done. Qed.
