(* ===== verification/CoverageProfileProps.v ===== *)
(** The coverage profile against a reference: what [parseProfile] accepts, and
    that its totals are the sums over the blocks of the profile. *)
From S2P Require Import Prelude GoStrings GoText CoverageProfile.

(** ** The reference *)

Record block := mkBlock { bLocation : string; bPackage : string; bStatements : Z; bCount : Z }.

Definition blockOf (line : string) : option block :=
  match Fields line with
  | [location; statements; count] =>
      match parseBlockLocation location, ParseInt statements, ParseUint count with
      | inr filePath, Some statements, Some count =>
          if 0 <=? statements then Some (mkBlock location (Dir filePath) statements count) else None
      | _, _, _ => None
      end
  | _ => None
  end.

(** The lines that are not blank. *)
Definition contents (texts : list string) : list string := filter (fun line => line <> "") (TrimSpace <$> texts).

(** The blocks of a profile: a mode line and then one block per line. *)
Definition profileBlocks (data : string) : option (list block) :=
  match contents (ScanLines maxToken data).1 with
  | [] => None
  | mode :: rest => match parseMode mode with None => mapM blockOf rest | Some _ => None end
  end.

Fixpoint statementsOf (keep : block -> bool) (bs : list block) : Z :=
  match bs with
  | [] => 0
  | b :: bs => (if keep b then bStatements b else 0) + statementsOf keep bs
  end.

Definition inPackage (p : string) (b : block) : bool := String.eqb (bPackage b) p.
Definition executed (p : string) (b : block) : bool := inPackage p b && (0 <? bCount b).

Lemma executed_inPackage p b : executed p b = true -> inPackage p b = true.
Proof. unfold executed. by destruct (inPackage p b). Qed.

(** What a profile with these blocks covers of a package. *)
Definition sums (bs : list block) (p : string) : packageCoverage :=
  mkCoverage (statementsOf (executed p) bs) (statementsOf (inPackage p) bs).
Definition coverageOf (bs : list block) (p : string) : option packageCoverage :=
  if existsb (inPackage p) bs then Some (sums bs p) else None.

(** Distinct blocks whose sums are machine integers. *)
Definition sound (bs : list block) : Prop :=
  NoDup (bLocation <$> bs) /\ forall p, total (sums bs p) <= max_i64.

(** ** Sums *)

Definition nonneg (bs : list block) : Prop := Forall (fun b => 0 <= bStatements b) bs.

Lemma statementsOf_app keep bs bs' : statementsOf keep (bs ++ bs') = statementsOf keep bs + statementsOf keep bs'.
Proof. induction bs as [|b bs IH]; cbn; [done|]. rewrite IH. lia. Qed.

Lemma statementsOf_bounds keep keep' bs :
  nonneg bs -> (forall b, keep b = true -> keep' b = true) -> 0 <= statementsOf keep bs <= statementsOf keep' bs.
Proof.
  intros Hn Hk. induction Hn as [|b bs Hb _ IH]; cbn; [lia|].
  destruct (keep b) eqn:E; [rewrite (Hk b E); lia|]. destruct (keep' b); lia.
Qed.

Lemma sums_bounds bs p : nonneg bs -> 0 <= covered (sums bs p) <= total (sums bs p).
Proof. intros Hn. apply (statementsOf_bounds _ _ _ Hn). apply executed_inPackage. Qed.

Lemma sums_absent bs p : existsb (inPackage p) bs = false -> sums bs p = zeroCoverage.
Proof.
  intros Ha. assert (Hz : forall keep, (forall b, keep b = true -> inPackage p b = true) -> statementsOf keep bs = 0).
  { intros keep Hk. induction bs as [|b bs IH]; [done|]. cbn in *. apply orb_false_elim in Ha as [E Ha].
    destruct (keep b) eqn:Ek; [apply Hk in Ek; congruence|]. by rewrite IH. }
  unfold sums, zeroCoverage. f_equal; apply Hz; [apply executed_inPackage|done].
Qed.

Lemma default_coverageOf bs p : default zeroCoverage (coverageOf bs p) = sums bs p.
Proof. unfold coverageOf. destruct (existsb _ bs) eqn:E; [done|]. cbn. by rewrite sums_absent. Qed.

Lemma sound_prefix bs bs' : nonneg (bs ++ bs') -> sound (bs ++ bs') -> sound bs.
Proof.
  intros [Hn Hn']%Forall_app [Hd Ht]. split; [rewrite fmap_app in Hd; by apply NoDup_app in Hd as [Hd _]|].
  intros p. specialize (Ht p). cbn in *. rewrite statementsOf_app in Ht.
  pose proof (proj1 (statementsOf_bounds (inPackage p) (inPackage p) bs' Hn' ltac:(done))). lia.
Qed.

Lemma blockOf_nonneg line b : blockOf line = Some b -> 0 <= bStatements b /\ bCount b <= u64_max.
Proof.
  unfold blockOf. repeat case_match; try done. intros [= <-]. cbn. split; [by apply Z.leb_le|].
  match goal with H : ParseUint _ = Some _ |- _ => apply ParseUint_range in H; lia end.
Qed.

Lemma blocksOf_nonneg lines bs : mapM blockOf lines = Some bs -> nonneg bs.
Proof.
  intros H%mapM_Some. induction H as [|l b ls bs Hb _ IH]; constructor; [|done]. by apply blockOf_nonneg in Hb as [].
Qed.

Lemma profileBlocks_nonneg data bs : profileBlocks data = Some bs -> nonneg bs.
Proof.
  unfold profileBlocks. destruct (contents _) as [|mode rest]; [done|].
  destruct (parseMode mode); [done|apply blocksOf_nonneg].
Qed.

(** ** One line *)

(** The loop's state after the blocks [bs]. *)
Record tracks (bs : list block) (s : profileState) : Prop := {
  tr_mode : modeSeen s = true;
  tr_blocks : forall x, x ∈ blocks s <-> x ∈ (bLocation <$> bs);
  tr_coverage : forall p, coverage s !! p = coverageOf bs p;
  tr_nonneg : nonneg bs;
  tr_sound : sound bs
}.

(** The second check of [addBlock] never fails: a package covers at most what it
    has. *)
Lemma addBlock_sums bs b :
  nonneg bs -> 0 <= bStatements b ->
  addBlock (bStatements b) (bCount b) (sums bs (bPackage b)) =
  if total (sums (bs ++ [b]) (bPackage b)) <=? max_i64 then Ok (sums (bs ++ [b]) (bPackage b)) else Err TotalOverflow.
Proof.
  intros Hn Hb. pose proof (sums_bounds bs (bPackage b) Hn) as Hs. unfold sums in *. cbn in Hs.
  rewrite !statementsOf_app. cbn [statementsOf covered total].
  assert (inPackage (bPackage b) b = true) as -> by apply String.eqb_refl.
  unfold executed at 3. assert (inPackage (bPackage b) b = true) as -> by apply String.eqb_refl.
  unfold addBlock. cbn [covered total andb]. set (c := statementsOf (executed _) bs) in *.
  set (t := statementsOf (inPackage _) bs) in *.
  destruct (Z.ltb_spec (max_i64 - t) (bStatements b)).
  { assert ((t + (bStatements b + 0) <=? max_i64) = false) as -> by (apply Z.leb_gt; lia). done. }
  assert ((t + (bStatements b + 0) <=? max_i64) = true) as -> by (apply Z.leb_le; lia).
  destruct (0 <? bCount b); [|by rewrite !Z.add_0_r].
  destruct (Z.ltb_spec (max_i64 - c) (bStatements b)); [lia|]. by rewrite !Z.add_0_r.
Qed.

Lemma tracks_add bs b s s' :
  tracks bs s -> 0 <= bStatements b -> bLocation b ∉ (bLocation <$> bs) ->
  total (sums (bs ++ [b]) (bPackage b)) <= max_i64 ->
  modeSeen s' = true -> (forall x, x ∈ blocks s' <-> x ∈ ({[bLocation b]} ∪ blocks s : gset string)) ->
  coverage s' = <[bPackage b := sums (bs ++ [b]) (bPackage b)]> (coverage s) ->
  tracks (bs ++ [b]) s'.
Proof.
  intros [Hm Hl Hc Hn [Hd Ht]] Hb Hfresh Htot Hm' Hl' Hc'.
  assert (Hone : forall p, bPackage b <> p -> sums (bs ++ [b]) p = sums bs p /\ existsb (inPackage p) (bs ++ [b]) = existsb (inPackage p) bs).
  { intros p Hp. assert (Hi : inPackage p b = false) by by apply String.eqb_neq.
    unfold sums. rewrite !statementsOf_app, existsb_app. cbn. unfold executed at 2. rewrite Hi. cbn.
    by rewrite !Z.add_0_r, orb_false_r. }
  split; [done| | | |].
  - intros x. rewrite Hl', fmap_app, elem_of_app, elem_of_union, elem_of_singleton, Hl.
    change (bLocation <$> [b]) with [bLocation b]. rewrite list_elem_of_singleton. tauto.
  - intros p. rewrite Hc'. destruct (decide (bPackage b = p)) as [<-|Hp].
    + rewrite lookup_insert_eq. unfold coverageOf. rewrite existsb_app. cbn.
      assert (inPackage (bPackage b) b = true) as -> by apply String.eqb_refl. by rewrite orb_true_r.
    + rewrite lookup_insert_ne by done. rewrite Hc. unfold coverageOf. by destruct (Hone p Hp) as [-> ->].
  - apply Forall_app. split; [done|by constructor].
  - split.
    + rewrite fmap_app. apply NoDup_app. split; [done|]. split; [|apply NoDup_singleton].
      intros x Hx ->%list_elem_of_singleton. done.
    + intros p. destruct (decide (bPackage b = p)) as [<-|Hp]; [done|]. by rewrite (proj1 (Hone p Hp)).
Qed.

(** A line is accepted exactly when it is a new block that keeps the sums machine
    integers. *)
Lemma blockLine_spec bs line s :
  tracks bs s ->
  match blockLine line s with
  | inr s' => exists b, blockOf line = Some b /\ tracks (bs ++ [b]) s'
  | inl _ => forall b, blockOf line = Some b -> ~ sound (bs ++ [b])
  end.
Proof.
  intros Htr. unfold blockLine, blockOf. destruct (Fields line) as [|location [|statements [|count []]]]; try done.
  destruct (parseBlockLocation location) as [e|filePath]; [done|].
  case_bool_decide as Hin.
  { intros b Hb [Hd _]. assert (bLocation b = location) as E by (repeat case_match; simplify_eq; done).
    rewrite fmap_app in Hd. apply NoDup_app in Hd as (_ & Hd & _). apply (Hd location).
    - by apply (tr_blocks _ _ Htr).
    - cbn. rewrite E. by apply list_elem_of_singleton. }
  destruct (ParseInt statements) as [st|]; [|done]. destruct (Z.ltb_spec st 0) as [Hneg|Hpos].
  { destruct (ParseUint count); [|done]. by assert ((0 <=? st) = false) as -> by by apply Z.leb_gt. }
  destruct (ParseUint count) as [ct|]; [|done]. assert ((0 <=? st) = true) as -> by by apply Z.leb_le.
  set (b := mkBlock location (Dir filePath) st ct). cbn [coverage blocks set field_update].
  change (Dir filePath) with (bPackage b). change st with (bStatements b). change ct with (bCount b).
  match goal with |- context [addBlock _ _ ?d] =>
    assert (d = sums bs (bPackage b)) as -> by by (rewrite <- default_coverageOf, <- (tr_coverage _ _ Htr)) end.
  rewrite addBlock_sums by (done || apply (tr_nonneg _ _ Htr)).
  destruct (Z.leb_spec (total (sums (bs ++ [b]) (bPackage b))) max_i64) as [Hle|Hgt].
  - exists b. split; [done|]. apply (tracks_add bs b s); try done; [|apply (tr_mode _ _ Htr)].
    rewrite <- (tr_blocks _ _ Htr). done.
  - intros b' [= <-] [_ Ht]. specialize (Ht (bPackage b)). lia.
Qed.

(** ** All lines *)

Lemma profileLines_spec texts : forall bs s,
  tracks bs s ->
  match profileLines texts s with
  | inr s' => exists bs', mapM blockOf (contents texts) = Some bs' /\ tracks (bs ++ bs') s'
  | inl _ => forall bs', mapM blockOf (contents texts) = Some bs' -> ~ sound (bs ++ bs')
  end.
Proof.
  induction texts as [|text texts IH]; intros bs s Htr.
  { exists []. by rewrite app_nil_r. }
  unfold contents. cbn [profileLines fmap list_fmap]. unfold profileLine. rewrite filter_cons.
  set (s1 := s <| lineNumber := _ |>). assert (Htr1 : tracks bs s1) by (destruct Htr; by split).
  destruct (String.eqb_spec (TrimSpace text) "") as [E|E].
  { rewrite decide_False by (by rewrite E; intros []). by apply IH. }
  rewrite decide_True by done. rewrite (tr_mode _ _ Htr1). cbn [negb mapM].
  pose proof (blockLine_spec bs (TrimSpace text) s1 Htr1) as Hb.
  destruct (blockLine (TrimSpace text) s1) as [e|s2].
  - intros bs' Hbs'. destruct (blockOf (TrimSpace text)) as [b|] eqn:Eb; [|done]. cbn in Hbs'.
    destruct (mapM blockOf (filter _ _)) as [rest|] eqn:Er; [|done]. injection Hbs' as <-.
    intros Hs. apply (Hb b eq_refl). change (b :: rest) with ([b] ++ rest) in Hs. rewrite app_assoc in Hs.
    eapply sound_prefix; [|exact Hs]. apply Forall_app. split; [|].
    + apply Forall_app. split; [apply (tr_nonneg _ _ Htr)|]. constructor; [|done]. by apply blockOf_nonneg in Eb as [].
    + by apply blocksOf_nonneg in Er.
  - destruct Hb as (b & Eb & Htr2). specialize (IH _ _ Htr2). rewrite Eb. cbn.
    destruct (profileLines texts s2) as [e|s3].
    + intros bs' Hbs'. unfold contents in IH. destruct (mapM blockOf (filter _ _)) as [rest|]; [|done].
      injection Hbs' as <-. specialize (IH rest eq_refl). by rewrite <- app_assoc in IH.
    + destruct IH as (rest & Hr & Ht). unfold contents in Hr. rewrite Hr. exists (b :: rest). split; [done|].
      by rewrite <- app_assoc in Ht.
Qed.

(** Before the mode line. *)
Lemma profileLines_mode texts : forall s,
  modeSeen s = false -> blocks s = ∅ -> coverage s = ∅ ->
  match contents texts with
  | [] => exists s', profileLines texts s = Ok s' /\ modeSeen s' = false
  | mode :: rest =>
      match parseMode mode with
      | Some _ => exists e, profileLines texts s = Err e
      | None => exists texts' s', contents texts' = rest /\ profileLines texts s = profileLines texts' s' /\ tracks [] s'
      end
  end.
Proof.
  induction texts as [|text texts IH]; intros s Hm Hb Hc; [by exists s|].
  unfold contents. cbn [profileLines fmap list_fmap]. unfold profileLine. rewrite filter_cons.
  destruct (String.eqb_spec (TrimSpace text) "") as [E|E].
  { rewrite decide_False by (by rewrite E; intros []). by apply IH. }
  rewrite decide_True by done. assert (modeSeen (s <| lineNumber := lineNumber s + 1 |>) = false) as -> by done.
  cbn [negb]. destruct (parseMode (TrimSpace text)) as [e|]; [by eexists|].
  eexists texts, _. split; [done|]. split; [reflexivity|]. split; [done| | |by constructor|].
  - intros x. cbn. rewrite Hb. split; [set_solver|]. intros Hx. by apply elem_of_nil in Hx.
  - intros p. cbn. by rewrite Hc, lookup_empty.
  - split; [apply NoDup_nil_2|]. intros p. cbn. unfold max_i64. lia.
Qed.

(** A profile is read as its blocks say.  [parseProfile] succeeds exactly when
    every line was read, the first one that is not blank is a mode line and each
    other one a block, no block occurs twice and the statements of each package
    add up to a machine integer; its result is then, for each package with a
    block, the sum of the statements of its executed blocks and of all of them. *)
Theorem parseProfile_sums data cov :
  parseProfile data false = Ok cov <->
  (ScanLines maxToken data).2 = true /\
  exists bs, profileBlocks data = Some bs /\ sound bs /\ forall p, cov !! p = coverageOf bs p.
Proof.
  unfold parseProfile, profileBlocks. destruct (ScanLines maxToken data) as [texts complete]. cbn [fst snd].
  pose proof (profileLines_mode texts newProfile eq_refl eq_refl eq_refl) as Hmode.
  destruct (contents texts) as [|mode rest].
  { destruct Hmode as (s & -> & Hs). cbn. rewrite Hs. split; [by destruct complete|]. by intros (_ & bs & [=] & _). }
  destruct (parseMode mode) as [e|].
  { destruct Hmode as (e' & ->). split; [done|]. by intros (_ & bs & [=] & _). }
  destruct Hmode as (texts' & s & <- & -> & Htr). pose proof (profileLines_spec texts' [] s Htr) as Hs.
  destruct (profileLines texts' s) as [e|s'].
  { split; [done|]. intros (_ & bs & Hbs & Hsd & _). by destruct (Hs bs Hbs). }
  destruct Hs as (bs & Hbs & [Hm _ Hc _ Hsd]). rewrite Hm. cbn. destruct complete; cbn; [|by split; [|intros [[=] _]]].
  split.
  - intros [= <-]. split; [done|]. by exists bs.
  - intros (_ & bs' & Hbs' & _ & Hc'). rewrite Hbs in Hbs'. injection Hbs' as <-. f_equal. apply map_eq. intros p.
    by rewrite Hc, Hc'.
Qed.
