(* ===== verification/CoverageGate.v ===== *)
(** [.github/scripts/coveragecheck/main.go], the evaluation of a coverage profile
    against the policy of the repository, and the whole run. *)
From stdpp Require Import pretty.
From S2P Require Import Prelude GoStrings GoText CoverageProfile.

(** ** The policy *)

Record coveragePolicy := mkPolicy {
  modulePath : string;
  defaultMinimum : Z;
  aggregateMinimum : Z;
  packageMinimums : gmap string Z
}.

Definition repositoryModule : string := "github.com/GyldendalDigital/go-pkceflow".
Definition repositoryPolicy : coveragePolicy :=
  mkPolicy repositoryModule 70 80
    {[repositoryModule := 88; repositoryModule +:+ "/desktopflow" := 80; repositoryModule +:+ "/eventbus" := 80;
      repositoryModule +:+ "/filestore" := 80; repositoryModule +:+ "/mobileflow" := 80;
      repositoryModule +:+ "/oidctest" := 70]}.

Inductive coverageStatus := PASS | FAIL | NA.
#[export] Instance coverageStatus_eq_dec : EqDecision coverageStatus.
Proof. solve_decision. Defined.

Record coverageResult := mkResult {
  name : string;
  rCovered : Z;
  rTotal : Z;
  minimum : Z;
  status : coverageStatus
}.
Record evaluation := mkEvaluation { results : list coverageResult; problems : list string }.

(** [withinModule], [excludedPackage], [displayPackage]. *)
Definition withinModule (packagePath module : string) : bool :=
  String.eqb packagePath module || HasPrefix packagePath (module +:+ "/").
Definition excludedPackage (packagePath module : string) : bool :=
  let examples := module +:+ "/examples" in
  String.eqb packagePath examples || HasPrefix packagePath (examples +:+ "/").
Definition displayPackage (packagePath module : string) : string :=
  if String.eqb packagePath module then "root"
  else if HasPrefix packagePath (module +:+ "/") then str_drop (String.length module + 1) packagePath
  else packagePath.

(** [bits.Mul64] and [meetsMinimum]. *)
Definition Mul64 (x y : Z) : Z * Z := (x * y / u64_modulus, wrap_u64 (x * y)).
Definition meetsMinimum (c : packageCoverage) (minimum : Z) : bool :=
  let '(coveredHigh, coveredLow) := Mul64 (wrap_u64 (covered c)) 100 in
  let '(minimumHigh, minimumLow) := Mul64 (wrap_u64 (total c)) (wrap_u64 minimum) in
  (minimumHigh <? coveredHigh) || ((coveredHigh =? minimumHigh) && (minimumLow <=? coveredLow)).

Section Gate.
  (** The order in which [range] visits a map, and [%q]. *)
  Context (range : forall A, gmap string A -> list (string * A)) (Quote : string -> string).

Definition outside (m : Z) : bool := (m <? 0) || (100 <? m).

(** [validatePolicy]. *)
Definition validatePolicy (policy : coveragePolicy) : list string :=
  (if String.eqb (modulePath policy) "" then ["coverage policy module path is empty"] else []) ++
  (if outside (defaultMinimum policy)
   then ["default minimum " +:+ pretty (defaultMinimum policy) +:+ " is outside 0..100"] else []) ++
  (if outside (aggregateMinimum policy)
   then ["aggregate minimum " +:+ pretty (aggregateMinimum policy) +:+ " is outside 0..100"] else []) ++
  omap (fun '(packagePath, m) =>
    if outside m
    then Some ("package " +:+ Quote packagePath +:+ " minimum " +:+ pretty m +:+ " is outside 0..100") else None)
    (range _ (packageMinimums policy)).

(** The first loop of [evaluateCoverage]: the discovered packages and the problems
    with them. *)
Fixpoint discover (module : string) (packages : list string) (discovered : gmap string unit)
    : gmap string unit * list string :=
  match packages with
  | [] => (discovered, [])
  | packagePath :: packages =>
      match discovered !! packagePath with
      | Some _ =>
          let '(d, ps) := discover module packages discovered in
          (d, ("duplicate discovered package " +:+ Quote packagePath) :: ps)
      | None =>
          let '(d, ps) := discover module packages (<[packagePath := tt]> discovered) in
          (d, if withinModule packagePath module then ps
              else ("discovered package " +:+ Quote packagePath +:+ " is outside module " +:+ Quote module) :: ps)
      end
  end.

(** The packages of a map that were not discovered. *)
Definition undiscovered {A} (what : string) (discovered : gmap string unit) (m : gmap string A) : list string :=
  omap (fun '(packagePath, _) =>
    match discovered !! packagePath with
    | Some _ => None
    | None => Some (what +:+ " package " +:+ Quote packagePath +:+ " was not discovered")
    end) (range _ m).

Definition minimumFor (policy : coveragePolicy) (packagePath : string) : Z :=
  default (defaultMinimum policy) (packageMinimums policy !! packagePath).

Definition packageStatus (c : packageCoverage) (m : Z) : coverageStatus :=
  if total c =? 0 then NA else if negb (meetsMinimum c m) then FAIL else PASS.

(** The loop over the sorted packages. *)
Fixpoint evaluatePackages (policy : coveragePolicy) (cov : gmap string packageCoverage) (packages : list string)
    (aggregate : packageCoverage) : list coverageResult * list string * packageCoverage :=
  match packages with
  | [] => ([], [], aggregate)
  | packagePath :: packages =>
      if excludedPackage packagePath (modulePath policy) then evaluatePackages policy cov packages aggregate
      else match cov !! packagePath with
      | None =>
          let '(rs, ps, a) := evaluatePackages policy cov packages aggregate in
          (rs, ("discovered package " +:+ Quote packagePath +:+ " is missing from the coverage profile") :: ps, a)
      | Some c =>
          if (covered c <? 0) || (total c <? 0) || (total c <? covered c) then
            let '(rs, ps, a) := evaluatePackages policy cov packages aggregate in
            (rs, ("package " +:+ Quote packagePath +:+ " has invalid coverage counts " +:+ pretty (covered c) +:+ "/" +:+
                  pretty (total c)) :: ps, a)
          else
            let m := minimumFor policy packagePath in
            let r := mkResult (displayPackage packagePath (modulePath policy)) (covered c) (total c) m (packageStatus c m) in
            if (max_i64 - covered aggregate <? covered c) || (max_i64 - total aggregate <? total c) then
              let '(rs, ps, a) := evaluatePackages policy cov packages aggregate in
              (r :: rs, "library aggregate statement count overflow" :: ps, a)
            else
              let '(rs, ps, a) := evaluatePackages policy cov packages
                                    (mkCoverage (covered aggregate + covered c) (total aggregate + total c)) in
              (r :: rs, ps, a)
      end
  end.

(** [evaluateCoverage]. *)
Definition evaluateCoverage (packages : list string) (cov : gmap string packageCoverage) (policy : coveragePolicy)
    : evaluation :=
  let '(discovered, ps1) := discover (modulePath policy) packages ∅ in
  let sortedPackages := SortStrings ((range _ discovered).*1) in
  let '(rs, ps2, aggregate) := evaluatePackages policy cov sortedPackages zeroCoverage in
  let aggregateStatus :=
    if (total aggregate =? 0) || negb (meetsMinimum aggregate (aggregateMinimum policy)) then FAIL else PASS in
  mkEvaluation
    (rs ++ [mkResult "library aggregate" (covered aggregate) (total aggregate) (aggregateMinimum policy) aggregateStatus])
    (SortStrings (validatePolicy policy ++ ps1 ++ undiscovered "configured" discovered (packageMinimums policy) ++
                  undiscovered "profile" discovered cov ++ ps2)).

(** [evaluation.failed]. *)
Definition failed (e : evaluation) : bool :=
  bool_decide (problems e <> []) || existsb (fun r => bool_decide (status r = FAIL)) (results e).

(** ** The run *)

(** What [run] reads: the output of [go list] unless it fails; the profile, with
    whether reading it fails at the end and whether closing it does, unless it
    cannot be opened. *)
Record inputs := mkInputs { goList : option string; profileFile : option (string * bool * bool) }.

Inductive runError :=
| DiscoverFailed
| DecodeFailed (e : listError)
| OpenFailed
| ProfileFailed (e : profileError)
| CloseFailed
| PolicyFailed.

(** [discoverPackages] and [run]; what [writeEvaluation] prints is left out. *)
Definition discoverPackages (i : inputs) : result runError (list string) :=
  match goList i with
  | None => Err DiscoverFailed
  | Some data => match parsePackageList data with inl e => Err (DecodeFailed e) | inr packages => Ok packages end
  end.
Definition run (i : inputs) : result runError unit :=
  match discoverPackages i with
  | inl e => Err e
  | inr packages =>
      match profileFile i with
      | None => Err OpenFailed
      | Some (data, readFails, closeFails) =>
          match parseProfile data readFails with
          | inl e => Err (ProfileFailed e)
          | inr cov =>
              if (closeFails : bool) then Err CloseFailed
              else if failed (evaluateCoverage packages cov repositoryPolicy) then Err PolicyFailed else Ok tt
          end
      end
  end.

End Gate.
