(* ===== verification/CoverageGateProps.v ===== *)
(** The coverage gate: exactly when it passes, and that the order in which maps are
    visited does not matter. *)
From S2P Require Import Prelude GoStrings GoText CoverageProfile CoverageProfileProps CoverageGate.

(** ** The specification *)

(** A share of at least [minimum] percent. *)
Definition reaches (minimum : Z) (c : packageCoverage) : Prop := minimum * total c <= 100 * covered c.

Definition percentage (m : Z) : Prop := 0 <= m <= 100.
Record policyOK (policy : coveragePolicy) : Prop := {
  po_module : modulePath policy <> "";
  po_default : percentage (defaultMinimum policy);
  po_aggregate : percentage (aggregateMinimum policy);
  po_minimums : map_Forall (fun _ => percentage) (packageMinimums policy)
}.

(** The packages that count. *)
Definition included (policy : coveragePolicy) (packages : list string) : list string :=
  filter (fun p => excludedPackage p (modulePath policy) = false) packages.

(** The statements of packages, [f] being [covered] or [total]. *)
Definition sumOf (f : packageCoverage -> Z) (cov : gmap string packageCoverage) (packages : list string) : Z :=
  foldr (fun p n => f (default zeroCoverage (cov !! p)) + n) 0 packages.
Definition aggregateOf (policy : coveragePolicy) (cov : gmap string packageCoverage) (packages : list string)
    : packageCoverage :=
  mkCoverage (sumOf covered cov (included policy packages)) (sumOf total cov (included policy packages)).

Definition validCounts (c : packageCoverage) : Prop := 0 <= covered c <= total c /\ total c <= max_i64.

Definition packageOK (policy : coveragePolicy) (cov : gmap string packageCoverage) (p : string) : Prop :=
  exists c, cov !! p = Some c /\ validCounts c /\ (total c = 0 \/ reaches (minimumFor policy p) c).

Record passes (policy : coveragePolicy) (packages : list string) (cov : gmap string packageCoverage) : Prop := {
  pa_policy : policyOK policy;
  pa_distinct : NoDup packages;
  pa_within : Forall (fun p => withinModule p (modulePath policy) = true) packages;
  pa_configured : forall p, is_Some (packageMinimums policy !! p) -> p ∈ packages;
  pa_profile : forall p, is_Some (cov !! p) -> p ∈ packages;
  pa_packages : Forall (packageOK policy cov) (included policy packages);
  pa_aggregate : total (aggregateOf policy cov packages) <= max_i64 /\ 0 < total (aggregateOf policy cov packages) /\
    reaches (aggregateMinimum policy) (aggregateOf policy cov packages)
}.

(** ** Arithmetic *)

(** The 128-bit comparison is exact. *)
Lemma Mul64_compare x y z w :
  let '(h1, l1) := Mul64 x y in let '(h2, l2) := Mul64 z w in
  ((h2 <? h1) || ((h1 =? h2) && (l2 <=? l1))) = (z * w <=? x * y).
Proof.
  unfold Mul64, wrap_u64, u64_modulus. apply eq_true_iff_eq.
  rewrite orb_true_iff, andb_true_iff, Z.ltb_lt, Z.eqb_eq, !Z.leb_le.
  pose proof (Z.div_mod (x * y) (2 ^ 64) ltac:(lia)). pose proof (Z.div_mod (z * w) (2 ^ 64) ltac:(lia)).
  pose proof (Z.mod_pos_bound (x * y) (2 ^ 64) ltac:(lia)). pose proof (Z.mod_pos_bound (z * w) (2 ^ 64) ltac:(lia)). nia.
Qed.

Lemma meetsMinimum_exact c m : validCounts c -> percentage m -> meetsMinimum c m = true <-> reaches m c.
Proof.
  unfold validCounts, percentage, max_i64. intros [Hc Ht] Hm. unfold meetsMinimum, reaches.
  rewrite !wrap_u64_id by (unfold is_u64, u64_modulus; lia).
  pose proof (Mul64_compare (covered c) 100 (total c) m) as E.
  destruct (Mul64 (covered c) 100) as [h1 l1], (Mul64 (total c) m) as [h2 l2]. rewrite E, Z.leb_le. lia.
Qed.

Lemma packageStatus_ok c m :
  validCounts c -> percentage m -> packageStatus c m <> FAIL <-> total c = 0 \/ reaches m c.
Proof.
  intros Hc Hm. unfold packageStatus. rewrite <- (meetsMinimum_exact c m Hc Hm).
  destruct (Z.eqb_spec (total c) 0); [by split; [left|]|].
  destruct (meetsMinimum c m); cbn; split; try done; [by right|by intros []].
Qed.

Lemma sumOf_perm f cov ps ps' : ps ≡ₚ ps' -> sumOf f cov ps = sumOf f cov ps'.
Proof. unfold sumOf. induction 1; cbn [foldr]; lia. Qed.

Lemma sumOf_nonneg f cov ps :
  Forall (fun p => 0 <= f (default zeroCoverage (cov !! p))) ps -> 0 <= sumOf f cov ps.
Proof. unfold sumOf. induction 1; cbn [foldr]; lia. Qed.

(** ** What the profile gives *)


Lemma parseProfile_fails data cov : parseProfile data true <> Ok cov.
Proof. unfold parseProfile. destruct (ScanLines maxToken data) as [texts complete]. by destruct (profileLines texts newProfile). Qed.

Lemma coverage_bounds profile bs (cov : gmap string packageCoverage) :
  profileBlocks profile = Some bs -> sound bs -> (forall p, cov !! p = coverageOf bs p) ->
  map_Forall (fun _ c => covered c <= max_i64 /\ total c <= max_i64) cov.
Proof.
  intros Hbs%profileBlocks_nonneg [_ Ht] Hc p c Hp. rewrite Hc in Hp. unfold coverageOf in Hp.
  destruct (existsb (inPackage p) bs); [|done]. injection Hp as <-. specialize (Ht p).
  pose proof (sums_bounds bs p Hbs). lia.
Qed.

(** ** The loops *)

Section Props.
  Context (range : forall A, gmap string A -> list (string * A)) (Quote : string -> string).
  Hypothesis range_perm : forall A (m : gmap string A), range A m ≡ₚ map_to_list m.

Lemma range_nil_iff {A} (f : string * A -> option string) (m : gmap string A) :
  omap f (range A m) = [] <-> forall p x, m !! p = Some x -> f (p, x) = None.
Proof.
  transitivity (omap f (map_to_list m) = []).
  - split; intros H; apply Permutation_nil; by rewrite <- H, range_perm.
  - split.
    + intros H p x Hx. destruct (f (p, x)) as [y|] eqn:E; [|done]. exfalso.
      assert (y ∈ omap f (map_to_list m)) as Hy.
      { apply list_elem_of_omap. exists (p, x). split; [by apply elem_of_map_to_list|done]. }
      rewrite H in Hy. by apply elem_of_nil in Hy.
    + intros H. destruct (omap f (map_to_list m)) as [|y l] eqn:E; [done|].
      assert (y ∈ omap f (map_to_list m)) as Hy by (rewrite E; left).
      apply list_elem_of_omap in Hy as ([p x] & Hx%elem_of_map_to_list & Hf). by rewrite (H p x Hx) in Hf.
Qed.

Lemma outside_percentage m : outside m = false <-> percentage m.
Proof. unfold outside, percentage. rewrite orb_false_iff, !Z.ltb_ge. lia. Qed.

Lemma validatePolicy_ok policy : validatePolicy range Quote policy = [] <-> policyOK policy.
Proof.
  unfold validatePolicy. split.
  - intros H. repeat apply app_eq_nil in H as [? H]. split.
    + by destruct (String.eqb_spec (modulePath policy) "").
    + apply outside_percentage. by destruct (outside (defaultMinimum policy)).
    + apply outside_percentage. by destruct (outside (aggregateMinimum policy)).
    + intros p m Hm. apply outside_percentage. apply (proj1 (range_nil_iff _ _) H) in Hm. by destruct (outside m).
  - intros [Hm Hd Ha Hp]. apply outside_percentage in Hd, Ha. rewrite Hd, Ha.
    destruct (String.eqb_spec (modulePath policy) ""); [done|]. cbn. apply range_nil_iff. intros p m Hpm.
    apply Hp, outside_percentage in Hpm. by rewrite Hpm.
Qed.

Lemma discover_spec module packages : forall d,
  let '(d', ps) := discover Quote module packages d in
  (forall p, is_Some (d' !! p) <-> is_Some (d !! p) \/ p ∈ packages) /\
  (ps = [] <-> NoDup packages /\ (forall p, p ∈ packages -> d !! p = None) /\
               Forall (fun p => withinModule p module = true) packages).
Proof.
  induction packages as [|p packages IH]; intros d; cbn.
  { split; [intros p; split; [by left|intros [H|H]; [done|by apply elem_of_nil in H]]|]. split; [|done].
    intros _. split; [apply NoDup_nil_2|]. split; [|done]. intros p Hp. by apply elem_of_nil in Hp. }
  destruct (d !! p) as [[]|] eqn:Ep.
  - specialize (IH d). destruct (discover Quote module packages d) as [d' ps]. destruct IH as [Hd _]. split.
    + intros p'. rewrite Hd, elem_of_cons. split; [tauto|]. intros [H|[->|H]]; [by left|left; by rewrite Ep|by right].
    + split; [done|]. intros (_ & H & _). rewrite (H p) in Ep; [done|by left].
  - specialize (IH (<[p := tt]> d)). destruct (discover Quote module packages _) as [d' ps]. destruct IH as [Hd Hps]. split.
    + intros p'. rewrite Hd, elem_of_cons. destruct (decide (p = p')) as [<-|Hne].
      * rewrite lookup_insert_eq. split; [by right; left|by left].
      * rewrite lookup_insert_ne by done. split; [tauto|]. intros [H|[->|H]]; [by left|done|by right].
    + assert (Hiff : (forall p', p' ∈ packages -> <[p := tt]> d !! p' = None) <-> p ∉ packages /\ forall p', p' ∈ packages -> d !! p' = None).
      { split.
        - intros H. split; [intros Hin; apply H in Hin; by rewrite lookup_insert_eq in Hin|].
          intros p' Hp'. pose proof (H p' Hp') as H'. destruct (decide (p = p')) as [<-|Hne]; [by rewrite lookup_insert_eq in H'|].
          by rewrite lookup_insert_ne in H'.
        - intros [Hn H] p' Hp'. rewrite lookup_insert_ne; [by apply H|]. by intros ->. }
      rewrite Hiff in Hps. rewrite NoDup_cons, Forall_cons. destruct (withinModule p module).
      * rewrite Hps. split.
        -- intros (? & (? & Hn) & ?). repeat split; try done. intros p' [->|Hp']%elem_of_cons; [done|by apply Hn].
        -- intros ((? & ?) & Hn & ? & ?). repeat split; try done. intros p' Hp'. apply Hn. by right.
      * split; [done|]. by intros (_ & _ & [=] & _).
Qed.

Lemma undiscovered_ok {A} what d (m : gmap string A) :
  undiscovered range Quote what d m = [] <-> forall p, is_Some (m !! p) -> is_Some (d !! p).
Proof.
  unfold undiscovered. rewrite range_nil_iff. split.
  - intros H p [x Hx]. specialize (H p x Hx). cbn in H. by destruct (d !! p).
  - intros H p x Hx. destruct (H p) as [u ->]; [by eexists|done].
Qed.

Lemma included_cons policy p ps :
  included policy (p :: ps) =
  if excludedPackage p (modulePath policy) then included policy ps else p :: included policy ps.
Proof. unfold included. rewrite filter_cons. by destruct (excludedPackage p (modulePath policy)). Qed.

Definition noFail (rs : list coverageResult) : Prop := Forall (fun r => status r <> FAIL) rs.

(** The loop over the packages finds nothing wrong exactly when every package is
    all right and the sums fit; then it returns the sums. *)
Lemma evaluatePackages_spec policy cov packages : forall aggregate,
  policyOK policy -> map_Forall (fun _ c => covered c <= max_i64 /\ total c <= max_i64) cov -> validCounts aggregate ->
  let '(rs, ps, a) := evaluatePackages Quote policy cov packages aggregate in
  let sum f := f aggregate + sumOf f cov (included policy packages) in
  (ps = [] /\ noFail rs <-> Forall (packageOK policy cov) (included policy packages) /\ sum total <= max_i64) /\
  (ps = [] -> a = mkCoverage (sum covered) (sum total) /\ validCounts a).
Proof.
  induction packages as [|p packages IH]; intros aggregate Hpol Hcov Hagg.
  { cbn. rewrite !Z.add_0_r. split; [|by destruct aggregate]. unfold noFail.
    split; [intros _; split; [constructor|apply Hagg]|by repeat constructor]. }
  cbn [evaluatePackages]. rewrite included_cons.
  destruct (excludedPackage p (modulePath policy)) eqn:Ex; [by apply IH|].
  assert (Hsum : forall f, sumOf f cov (p :: included policy packages) =
    f (default zeroCoverage (cov !! p)) + sumOf f cov (included policy packages)) by done.
  cbv beta zeta. rewrite !Hsum. clear Hsum. assert (Hall := Forall_cons (packageOK policy cov) p (included policy packages)).
  destruct (cov !! p) as [c|] eqn:Ec.
  2: { destruct (evaluatePackages Quote policy cov packages aggregate) as [[rs ps] a].
       split; [|done]. rewrite Hall. split; [by intros [? _]|]. intros [[(c & Hc & _) _] _]. congruence. }
  destruct (Hcov p c Ec) as [Hc1 Hc2]. change (default zeroCoverage (Some c)) with c.
  destruct ((covered c <? 0) || (total c <? 0) || (total c <? covered c)) eqn:Ev.
  { destruct (evaluatePackages Quote policy cov packages aggregate) as [[rs ps] a].
    split; [|done]. rewrite Hall. split; [by intros [? _]|]. intros [[(c' & Hc' & [Hv _] & _) _] _].
    assert (c' = c) as -> by congruence.
    apply orb_true_iff in Ev as [[Ev|Ev]%orb_true_iff|Ev]; apply Z.ltb_lt in Ev; lia. }
  bool_to_prop. assert (Hv : validCounts c) by (split; lia).
  assert (Hm : percentage (minimumFor policy p)).
  { unfold minimumFor. destruct (packageMinimums policy !! p) as [m|] eqn:Em; [by apply (po_minimums _ Hpol) in Em|].
    apply (po_default _ Hpol). }
  destruct Hagg as [Ha1 Ha2].
  destruct ((max_i64 - covered aggregate <? covered c) || (max_i64 - total aggregate <? total c)) eqn:Eo.
  { destruct (evaluatePackages Quote policy cov packages aggregate) as [[rs ps] a].
    split; [|done]. rewrite Hall. split; [by intros [? _]|]. clear Hall. intros [[_ Hall] Hsum].
    assert (0 <= sumOf total cov (included policy packages)).
    { apply sumOf_nonneg. eapply Forall_impl; [exact Hall|]. intros q (c' & Hq & [? _] & _). rewrite Hq. cbn. lia. }
    apply orb_true_iff in Eo as [Eo|Eo]; apply Z.ltb_lt in Eo; lia. }
  bool_to_prop. set (agg' := mkCoverage _ _). assert (Hagg' : validCounts agg') by (unfold agg'; split; cbn; lia).
  specialize (IH agg' Hpol Hcov Hagg'). destruct (evaluatePackages Quote policy cov packages agg') as [[rs ps] a].
  destruct IH as [IH1 IH2]. unfold agg' in IH1, IH2. cbn [covered total] in IH1, IH2.
  rewrite !Z.add_assoc. split; [|done]. unfold noFail. rewrite Hall, Forall_cons. cbn [status].
  rewrite (packageStatus_ok c _ Hv Hm). unfold noFail in IH1. clear Hall. split.
  - intros (Hps & Hst & Hrs). destruct (proj1 IH1 (conj Hps Hrs)) as [Hall Hsum]. split; [|done]. split; [|done]. by exists c.
  - intros [[(c' & Hc' & _ & Hst) Hall] Hsum]. assert (c' = c) as -> by congruence.
    by destruct (proj2 IH1 (conj Hall Hsum)) as [Hps Hrs].
Qed.

(** ** The evaluation *)

Lemma discovered_perm packages d :
  NoDup packages -> (forall p, is_Some (d !! p) <-> is_Some ((∅ : gmap string unit) !! p) \/ p ∈ packages) ->
  SortStrings ((range unit d).*1) ≡ₚ packages.
Proof.
  intros Hnd Hd. rewrite SortStrings_perm, range_perm. apply NoDup_Permutation; [apply NoDup_fst_map_to_list|done|].
  intros p. rewrite list_elem_of_fmap. split.
  - intros ([q []] & -> & Hq%elem_of_map_to_list). destruct (proj1 (Hd q)) as [[x Hx]|?]; [by eexists|by rewrite lookup_empty in Hx|done].
  - intros Hp. destruct (proj2 (Hd p) (or_intror Hp)) as [[] Hx]. exists (p, tt). by rewrite elem_of_map_to_list.
Qed.

Lemma aggregateOf_perm policy cov ps ps' : ps ≡ₚ ps' -> aggregateOf policy cov ps = aggregateOf policy cov ps'.
Proof.
  intros H. unfold aggregateOf, included. f_equal; apply sumOf_perm; by rewrite H.
Qed.

Lemma failed_false rs ps :
  failed (mkEvaluation rs (SortStrings ps)) = false <-> ps = [] /\ noFail rs.
Proof.
  unfold failed. cbn [problems results]. rewrite orb_false_iff, bool_decide_eq_false. split; intros [Hp Hr]; split.
  - apply dec_stable in Hp. apply Permutation_nil. by rewrite <- Hp, SortStrings_perm.
  - apply Forall_forall. intros r Hin Hf. apply not_true_iff_false in Hr. apply Hr. apply existsb_exists. exists r.
    split; [by apply list_elem_of_In|by apply bool_decide_eq_true].
  - intros Hn. apply Hn. by rewrite Hp.
  - apply not_true_iff_false. intros (r & Hin%list_elem_of_In & Hf%bool_decide_eq_true)%existsb_exists.
    by apply (proj1 (Forall_forall _ _) Hr r Hin).
Qed.

Lemma aggregate_ok policy a :
  validCounts a -> policyOK policy ->
  (if (total a =? 0) || negb (meetsMinimum a (aggregateMinimum policy)) then FAIL else PASS) <> FAIL <->
  0 < total a /\ reaches (aggregateMinimum policy) a.
Proof.
  intros Ha Hp. rewrite <- (meetsMinimum_exact _ _ Ha (po_aggregate _ Hp)). destruct Ha as [Ha _].
  destruct (Z.eqb_spec (total a) 0) as [E|E]; cbn [orb]; [split; [by intros []|lia]|].
  destruct (meetsMinimum a (aggregateMinimum policy)); cbn [negb]; split.
  - intros _. split; [lia|done].
  - discriminate.
  - by intros H%(fun H => H eq_refl).
  - by intros [_ ?].
Qed.

(** The gate passes exactly when its specification holds. *)
Lemma evaluateCoverage_iff policy packages cov :
  map_Forall (fun _ c => covered c <= max_i64 /\ total c <= max_i64) cov ->
  failed (evaluateCoverage range Quote packages cov policy) = false <-> passes policy packages cov.
Proof.
  intros Hcov. unfold evaluateCoverage. pose proof (discover_spec (modulePath policy) packages ∅) as Hd.
  destruct (discover Quote (modulePath policy) packages ∅) as [d ps1]. destruct Hd as [Hd Hps1].
  assert (Hin : forall p, is_Some (d !! p) <-> p ∈ packages).
  { intros p. rewrite Hd, lookup_empty. split; [intros [[? [=]]|?]; done|by right]. }
  pose proof (fun Hpol => evaluatePackages_spec policy cov (SortStrings (range unit d).*1) zeroCoverage Hpol Hcov) as He.
  destruct (evaluatePackages Quote policy cov _ zeroCoverage) as [[rs ps2] a].
  assert (Hz : validCounts zeroCoverage) by (unfold validCounts, max_i64; cbn; lia).
  rewrite failed_false. rewrite !app_nil. unfold noFail. rewrite Forall_app, Forall_singleton. cbn [status].
  rewrite validatePolicy_ok, Hps1, !undiscovered_ok. fold (noFail rs).
  assert (Hsame : policyOK policy -> NoDup packages ->
    (ps2 = [] /\ noFail rs <-> Forall (packageOK policy cov) (included policy packages) /\
       total (aggregateOf policy cov packages) <= max_i64) /\
    (ps2 = [] -> a = aggregateOf policy cov packages /\ validCounts a)).
  { intros Hpol Hnd. destruct (He Hpol Hz) as [He1 He2]. pose proof (discovered_perm packages d Hnd Hd) as Hperm.
    rewrite !Z.add_0_l in He1, He2. cbn [covered total zeroCoverage] in He1, He2.
    change (mkCoverage _ _) with (aggregateOf policy cov (SortStrings (range unit d).*1)) in He2.
    rewrite (aggregateOf_perm _ _ _ _ Hperm) in He2. split; [|done]. rewrite He1.
    assert (Forall (packageOK policy cov) (included policy (SortStrings (range unit d).*1)) <->
            Forall (packageOK policy cov) (included policy packages)) as -> by (unfold included; by rewrite Hperm).
    change (sumOf total cov _) with (total (aggregateOf policy cov (SortStrings (range unit d).*1))).
    by rewrite (aggregateOf_perm _ _ _ _ Hperm). }
  split.
  - intros ((Hpol & (Hnd & _ & Hw) & Hc & Hp & Hps2) & Hrs & Hst). destruct (Hsame Hpol Hnd) as [H1 H2].
    destruct (H2 Hps2) as [-> Hv]. apply (aggregate_ok _ _ Hv Hpol) in Hst. destruct (proj1 H1 (conj Hps2 Hrs)) as [Hall Hle].
    split; try done; intros p Hs; apply Hin; [by apply Hc|by apply Hp].
  - intros [Hpol Hnd Hw Hc Hp Hall (Hle & Hpos & Hr)]. destruct (Hsame Hpol Hnd) as [H1 H2].
    destruct (proj2 H1 (conj Hall Hle)) as [Hps2 Hrs]. destruct (H2 Hps2) as [-> Hv].
    assert (Hu : forall p, p ∈ packages -> (∅ : gmap string unit) !! p = None) by (intros p _; apply lookup_empty).
    assert (Hst := proj2 (aggregate_ok _ _ Hv Hpol) (conj Hpos Hr)).
    assert (Hc' : forall p, is_Some (packageMinimums policy !! p) -> is_Some (d !! p)) by (intros p Hs; by apply Hin, Hc).
    assert (Hp' : forall p, is_Some (cov !! p) -> is_Some (d !! p)) by (intros p Hs; by apply Hin, Hp).
    tauto.
Qed.

End Props.

(** ** The order of maps *)

Section Order.
  Context (range range' : forall A, gmap string A -> list (string * A)) (Quote : string -> string).
  Hypothesis range_perm : forall A (m : gmap string A), range A m ≡ₚ map_to_list m.
  Hypothesis range_perm' : forall A (m : gmap string A), range' A m ≡ₚ map_to_list m.

Lemma range_omap {A} (f : string * A -> option string) (m : gmap string A) :
  omap f (range A m) ≡ₚ omap f (range' A m).
Proof. by rewrite range_perm, range_perm'. Qed.

Lemma evaluateCoverage_order packages cov policy :
  evaluateCoverage range Quote packages cov policy = evaluateCoverage range' Quote packages cov policy.
Proof.
  unfold evaluateCoverage. destruct (discover Quote (modulePath policy) packages ∅) as [d ps1].
  rewrite (SortStrings_unique (range unit d).*1 (range' unit d).*1) by (by rewrite range_perm, range_perm').
  destruct (evaluatePackages _ _ _ _ _) as [[rs ps2] a]. f_equal. apply SortStrings_unique.
  unfold validatePolicy, undiscovered. by rewrite !range_omap.
Qed.

End Order.

(** ** The run *)

(** C39: When the coverage gate passes.  The run returns nil exactly when every step
    of reading succeeds, the profile is sound, every listed package lies in the
    module, is listed once and, outside the examples, occurs in the profile with
    either no statement or at least the share of executed statements its floor
    asks for, every package of the policy and of the profile is listed, and all
    the packages together, which have statements, reach the aggregate floor; the
    shares are compared exactly, whatever the size of the counts. *)
Theorem gate_passes_iff range Quote i :
  (forall A (m : gmap string A), range A m ≡ₚ map_to_list m) ->
  run range Quote i = Ok tt <->
  exists listing packages profile bs cov,
    goList i = Some listing /\ parsePackageList listing = Ok packages /\
    profileFile i = Some (profile, false, false) /\
    (ScanLines maxToken profile).2 = true /\ profileBlocks profile = Some bs /\ sound bs /\
    (forall p, cov !! p = coverageOf bs p) /\ passes repositoryPolicy packages cov.
Proof.
  intros Hrange. unfold run, discoverPackages. split.
  - destruct (goList i) as [listing|]; [|done]. destruct (parsePackageList listing) as [e|packages] eqn:El; [done|].
    destruct (profileFile i) as [[[profile readFails] closeFails]|]; [|done].
    destruct (parseProfile profile readFails) as [e|cov] eqn:Ep; [done|]. destruct closeFails; [done|].
    destruct (failed _) eqn:Ef; [done|]. intros _. destruct readFails; [by apply parseProfile_fails in Ep|].
    apply parseProfile_sums in Ep as (Hs & bs & Hbs & Hsd & Hc). exists listing, packages, profile, bs, cov.
    repeat (split; [done|]). apply (evaluateCoverage_iff range Quote Hrange) in Ef; [done|]. by apply (coverage_bounds profile bs).
  - intros (listing & packages & profile & bs & cov & -> & -> & -> & Hs & Hbs & Hsd & Hc & Hp).
    assert (parseProfile profile false = Ok cov) as -> by (apply parseProfile_sums; eauto).
    apply (evaluateCoverage_iff range Quote Hrange) in Hp; [by rewrite Hp|]. by apply (coverage_bounds profile bs).
Qed.

(** The gate is deterministic.  Whatever order the maps of policy, discovery and
    profile are visited in, the evaluation has the same results and the same
    problems in the same order. *)
Theorem gate_deterministic range range' Quote packages cov policy :
  (forall A (m : gmap string A), range A m ≡ₚ map_to_list m) ->
  (forall A (m : gmap string A), range' A m ≡ₚ map_to_list m) ->
  evaluateCoverage range Quote packages cov policy = evaluateCoverage range' Quote packages cov policy.
Proof. intros H H'. by apply evaluateCoverage_order. Qed.

(** *** A concrete run *)

Definition rangeOf : forall A, gmap string A -> list (string * A) := fun A m => map_to_list m.
Definition quoted (s : string) : string := quote +:+ s +:+ quote.

Definition exPackages : list string :=
  [repositoryModule; repositoryModule +:+ "/desktopflow"; repositoryModule +:+ "/eventbus";
   repositoryModule +:+ "/examples/cli"; repositoryModule +:+ "/filestore"; repositoryModule +:+ "/mobileflow";
   repositoryModule +:+ "/oidctest"].
Definition exBlocks (percent : string) : list string :=
  flat_map (fun p => [p +:+ "/x.go:1.1,2.1 " +:+ percent +:+ " 3"; p +:+ "/x.go:3.1,4.1 12 0"])
    (filter (fun p => excludedPackage p repositoryModule = false) exPackages).
Definition exInputs (percent : string) : inputs :=
  mkInputs (Some (lines (listed <$> exPackages))) (Some (lines ("mode: set" :: exBlocks percent), false, false)).

Example run_examples :
  run rangeOf quoted (exInputs "88") = Ok tt /\ run rangeOf quoted (exInputs "87") = Err PolicyFailed.
Proof. vm_compute. done. Qed.

Lemma gate_passes_iff_witness :
  exists packages cov, parsePackageList (lines (listed <$> exPackages)) = Ok packages /\ passes repositoryPolicy packages cov.
Proof.
  destruct (proj1 (gate_passes_iff rangeOf quoted (exInputs "88") ltac:(intros A m; reflexivity)) ltac:(vm_compute; reflexivity))
    as (listing & packages & profile & bs & cov & Hg & Hl & _ & _ & _ & _ & _ & Hp).
  change (goList (exInputs "88")) with (Some (lines (listed <$> exPackages))) in Hg.
  apply (inj Some) in Hg. subst listing. exists packages, cov. split; [exact Hl|exact Hp].
Defined.
