(* ===== verification/CoverageReport.v ===== *)
(** What the coverage gate prints: [writeEvaluation] of
    [.github/scripts/coveragecheck/main.go], with the verbs of [fmt] it uses. *)
From stdpp Require Import pretty.
From Stdlib Require Import Ascii SpecFloat.
From S2P Require Import Prelude GoStrings UrlProps GoEncoding CoverageProfile CoverageGate.

(** ** fmt *)

Definition float64 (n : Z) : spec_float := binary_normalize 53 1024 n 0 false.

(** The integer nearest to [num / den], ties to even. *)
Definition roundHalfEven (num den : Z) : Z :=
  let q := num / den in let r := num mod den in
  if (2 * r <? den) || ((2 * r =? den) && Z.even q) then q else q + 1.

(** Hundredths of a finite float, rounded from its exact value. *)
Definition hundredths (f : spec_float) : option Z :=
  match f with
  | S754_finite false m e => Some (if 0 <=? e then 100 * (Zpos m * 2 ^ e) else roundHalfEven (100 * Zpos m) (2 ^ (- e)))
  | S754_zero _ => Some 0
  | _ => None
  end.

(** [%.2f] of a float that is not negative; others are not printed. *)
Definition Fixed2 (f : spec_float) : string :=
  match hundredths f with
  | Some n => pretty (n / 100) +:+ "." +:+ pretty (n / 10 mod 10) +:+ pretty (n mod 10)
  | None => "NaN"
  end.

Example Fixed2_examples :
  Fixed2 (SFdiv 53 1024 (float64 200) (float64 3)) = "66.67" /\ Fixed2 (SFdiv 53 1024 (float64 1) (float64 8)) = "0.12" /\
  Fixed2 (SFdiv 53 1024 (float64 3) (float64 8)) = "0.38" /\ Fixed2 (float64 100) = "100.00" /\ Fixed2 (float64 0) = "0.00".
Proof. vm_compute. done. Qed.

(** [utf8.RuneCountInString]: an invalid byte counts as one. *)
Fixpoint runeCount (n : nat) (s : string) : nat :=
  match n, s with
  | S n, String c rest => S (runeCount n (str_drop (Nat.max 1 (rune_len s)) s))
  | _, _ => O
  end.
Definition RuneCountInString (s : string) : nat := runeCount (String.length s) s.

Fixpoint spaces (n : nat) : string := match n with O => "" | S n => String " " (spaces n) end.

(** [%-20s]. *)
Definition padRight (width : nat) (s : string) : string := s +:+ spaces (width - RuneCountInString s).

(** ** The report *)

Definition statusText (s : coverageStatus) : string :=
  match s with PASS => "PASS" | FAIL => "FAIL" | NA => "N/A" end.

Definition resultLine (r : coverageResult) : string :=
  let counts := statusText (status r) +:+ " " +:+ padRight 20 (name r) +:+ " " +:+ pretty (rCovered r) +:+ "/" +:+
                pretty (rTotal r) +:+ " statements" in
  if rTotal r =? 0 then counts +:+ " (minimum " +:+ pretty (minimum r) +:+ "%)"
  else
    let percentage := SFdiv 53 1024 (SFmul 53 1024 (float64 100) (float64 (rCovered r))) (float64 (rTotal r)) in
    counts +:+ " = " +:+ Fixed2 percentage +:+ "% (minimum " +:+ pretty (minimum r) +:+ "%)".

(** [writeEvaluation]: the lines it writes. *)
Definition writeEvaluation (evaluated : evaluation) (policy : coveragePolicy) : list string :=
  (resultLine <$> results evaluated) ++
  ((fun problem => "ERROR " +:+ problem) <$> problems evaluated) ++
  (if bool_decide (length (problems evaluated) = 0%nat)
   then ["Policy: future packages >= " +:+ pretty (defaultMinimum policy) +:+ "%; examples excluded; aggregate >= " +:+
         pretty (aggregateMinimum policy) +:+ "%"]
   else []).

Example writeEvaluation_example :
  writeEvaluation (mkEvaluation [mkResult "root" 881 1000 88 PASS; mkResult "eventbus" 0 0 80 NA;
                                 mkResult "library aggregate" 79996 100000 80 FAIL] []) repositoryPolicy =
  ["PASS root                 881/1000 statements = 88.10% (minimum 88%)";
   "N/A eventbus             0/0 statements (minimum 80%)";
   "FAIL library aggregate    79996/100000 statements = 80.00% (minimum 80%)";
   "Policy: future packages >= 70%; examples excluded; aggregate >= 80%"].
Proof. vm_compute. done. Qed.

(** What [run] prints: nothing unless everything could be read. *)
Definition report (range : forall A, gmap string A -> list (string * A)) (Quote : string -> string) (i : inputs)
    : list string :=
  match discoverPackages i, profileFile i with
  | inr packages, Some (data, readFails, false) =>
      match parseProfile data readFails with
      | inr cov => writeEvaluation (evaluateCoverage range Quote packages cov repositoryPolicy) repositoryPolicy
      | inl _ => []
      end
  | _, _ => []
  end.

(** [main], after its flags are parsed: the exit status. *)
Definition main (range : forall A, gmap string A -> list (string * A)) (Quote : string -> string) (nArg : nat) (i : inputs)
    : Z :=
  if negb (nArg =? 0)%nat then 2 else match run range Quote i with inl _ => 1 | inr _ => 0 end.

(** ** The report tells whether the run fails *)

(** A line that reports a failure. *)
Definition alarming (line : string) : Prop := HasPrefix line "FAIL " = true \/ HasPrefix line "ERROR " = true.

Lemma resultLine_head r : exists rest, resultLine r = statusText (status r) +:+ String " " rest.
Proof. unfold resultLine. case_match; rewrite !str_app_assoc; by eexists. Qed.

Lemma resultLine_alarming r : alarming (resultLine r) <-> status r = FAIL.
Proof.
  destruct (resultLine_head r) as [rest ->]. unfold alarming.
  destruct (status r); split; try done; try (by intros [H|H]). intros _. left. by destruct rest.
Qed.

Lemma writeEvaluation_alarming e policy :
  failed e = true <-> exists line, line ∈ writeEvaluation e policy /\ alarming line.
Proof.
  unfold failed, writeEvaluation. rewrite orb_true_iff, existsb_exists, bool_decide_eq_true. setoid_rewrite elem_of_app.
  setoid_rewrite elem_of_app. setoid_rewrite list_elem_of_fmap. split.
  - intros [Hp|(r & Hr & Hf)].
    + destruct (problems e) as [|p ps]; [done|]. exists ("ERROR " +:+ p). split; [|right; by destruct p].
      right. left. exists p. split; [done|left].
    + apply list_elem_of_In in Hr. apply bool_decide_eq_true in Hf. exists (resultLine r). split; [left; eauto|].
      by apply resultLine_alarming.
  - intros (line & [(r & -> & Hr)|[(p & -> & Hp)|Hl]] & Ha).
    + right. exists r. split; [by apply list_elem_of_In|]. by apply bool_decide_eq_true, resultLine_alarming.
    + left. intros E. rewrite E in Hp. by apply elem_of_nil in Hp.
    + case_bool_decide; [|by apply elem_of_nil in Hl]. apply list_elem_of_singleton in Hl as ->.
      by destruct Ha.
Qed.

(** When everything could be read, the run fails exactly when one of the lines it
    prints says so. *)
Theorem report_tells_failure range Quote i :
  run range Quote i = Err PolicyFailed <-> exists line, line ∈ report range Quote i /\ alarming line.
Proof.
  assert (Hnil : forall P : string -> Prop, (exists line, line ∈ @nil string /\ P line) <-> False).
  { intros P. split; [intros (l & Hl & _); by apply elem_of_nil in Hl|done]. }
  assert (Hd : discoverPackages i <> Err PolicyFailed) by (unfold discoverPackages; repeat case_match; done).
  unfold run, report. destruct (discoverPackages i); [rewrite Hnil; split; [intros [= ->]; by destruct Hd|done]|].
  destruct (profileFile i) as [[[data readFails] [|]]|]; [| |by rewrite Hnil].
  - rewrite Hnil. by destruct (parseProfile data readFails).
  - destruct (parseProfile data readFails); [by rewrite Hnil|]. rewrite <- writeEvaluation_alarming.
    by destruct (failed _).
Qed.
