(* ===== verification/Mobileflow.v ===== *)
(** [mobileflow/mobileflow.go]: the deep-link flow handler of mobile
    applications: which callback URLs a flow accepts, and the one slot for the
    active flow, shared by the goroutines that start flows and deliver URLs. *)
From Stdlib Require Import Ascii.
From S2P Require Import Prelude Proc RelyGuarantee Schedules GoStrings GoUrl.
From stdpp Require Import gmultiset.

(** ** Callback URLs *)

Section Matching.
  (** [strings.EqualFold] where a byte is not ASCII: Unicode simple folding. *)
  Context (foldRunes : string -> string -> bool).

Definition is_ascii (s : string) : bool := str_forallb (fun c => (byte_of c <? 128)%N) s.

(** [strings.EqualFold]. *)
Definition EqualFold (s t : string) : bool :=
  if is_ascii s && is_ascii t then String.eqb (lower_ascii s) (lower_ascii t) else foldRunes s t.

Definition isWeb (u : URL) : bool := EqualFold (Scheme u) "http" || EqualFold (Scheme u) "https".
Definition noUser (u : URL) : bool := match User u with None => true | Some _ => false end.

(** [parseCallbackURI]. *)
Definition parseCallbackURI (raw : string) : result string URL :=
  if String.eqb (TrimSpace raw) "" then Err "callback URI must not be empty"
  else match Parse raw with
  | None => Err "callback URI is malformed"
  | Some parsed =>
      if String.eqb (Scheme parsed) "" then Err "callback URI must be absolute and include a scheme"
      else if negb (String.eqb (Opaque parsed) "") then Err "callback URI must not use opaque URI syntax"
      else if negb (noUser parsed) then Err "callback URI must not include user information"
      else if negb (String.eqb (Fragment parsed) "") then Err "callback URI must not include a fragment"
      else if isWeb parsed && String.eqb (Host parsed) "" then Err "http(s) callback URI must include a host"
      else if String.eqb (Host parsed) "" && String.eqb (Path parsed) "" && String.eqb (Opaque parsed) ""
      then Err "callback URI must include a target"
      else match ParseQuery (RawQuery parsed) with
      | None => Err "callback URI query is malformed"
      | Some _ => Ok parsed
      end
  end.

Definition hasExplicitEmptyPort (u : URL) : bool :=
  negb (String.eqb (Host u) "") && HasSuffix (Host u) ":".

(** [sameCallbackBase]. *)
Definition sameCallbackBase (expected actual : URL) : bool :=
  negb (negb (EqualFold (Scheme expected) (Scheme actual)) ||
        negb (Bool.eqb (OmitHost expected) (OmitHost actual)) ||
        negb (noUser expected) || negb (noUser actual) ||
        negb (String.eqb (Fragment expected) "") || negb (String.eqb (Fragment actual) "") ||
        negb (EqualFold (Hostname expected) (Hostname actual)) ||
        negb (String.eqb (Port expected) (Port actual)) ||
        negb (Bool.eqb (hasExplicitEmptyPort expected) (hasExplicitEmptyPort actual)) ||
        negb (String.eqb (EscapedPath expected) (EscapedPath actual))).

(** The counting loops of [containsFixedQuery]: [remaining] counts values. *)
Definition countValues (values : list string) : gmultiset string :=
  foldl (fun remaining value => {[+ value +]} ⊎ remaining) ∅ values.
Fixpoint consume (remaining : gmultiset string) (values : list string) : bool :=
  match values with
  | [] => true
  | value :: values =>
      if (multiplicity value remaining =? 0)%nat then false
      else consume (remaining ∖ {[+ value +]}) values
  end.

(** [containsFixedQuery]. *)
Definition fixedValues (actual : Values) (kv : string * list string) : bool :=
  match actual !! kv.1 with
  | None => false
  | Some actualValues =>
      (length actualValues =? length kv.2)%nat && consume (countValues actualValues) kv.2
  end.
Definition containsFixedQuery (actual expected : Values) : bool :=
  forallb (fixedValues actual) (map_to_list expected).

(** [equalQueryValues], [sameRedirectURI], [sameCallbackTarget]. *)
Definition equalQueryValues (actual expected : Values) : bool :=
  (size actual =? size expected)%nat && containsFixedQuery actual expected.
Definition sameRedirectURI (expected actual : URL) : bool :=
  sameCallbackBase expected actual && equalQueryValues (Query actual) (Query expected).
Definition sameCallbackTarget (expected actual : URL) (actualQuery : Values) : bool :=
  sameCallbackBase expected actual && containsFixedQuery actualQuery (Query expected).

Definition hasAuthorizationResponse (query : Values) : bool :=
  negb (length (Values_lookup query "code") =? 0)%nat ||
  negb (length (Values_lookup query "error") =? 0)%nat.

(** [singleNonEmptyValue] and [singleState]. *)
Definition singleNonEmptyValue (query : Values) (key : string) : option string :=
  match Values_lookup query key with
  | [v] => if String.eqb v "" then None else Some v
  | _ => None
  end.
Definition singleState (query : Values) : option string := singleNonEmptyValue query "state".

(** The fields of [flowWaiter] that do not change. *)
Record flowWaiter := mkWaiter {
  wRedirectURI : URL;
  wState : string;
  allowMissingState : bool
}.

(** [flowWaiter.matches]. *)
Definition matches (w : flowWaiter) (callback : URL) : bool :=
  match ParseQuery (RawQuery callback) with
  | None => false
  | Some callbackQuery =>
      if negb (sameCallbackTarget (wRedirectURI w) callback callbackQuery) then false
      else match callbackQuery !! "state" with
      | None => allowMissingState w && negb (hasAuthorizationResponse callbackQuery)
      | Some [returnedState] =>
          negb (String.eqb returnedState "") && String.eqb (wState w) returnedState
      | Some _ => false
      end
  end.

(** ** Starting a flow *)

(** What a flow is started with. *)
Record flowArgs := mkFlowArgs {
  fKind : string;                 (* "auth" or "logout" *)
  fTarget : string;
  fRedirect : string;
  fParam : string;                (* the query parameter that names the redirect URI *)
  fAllowMissing : bool
}.

(** The checks of [runFlow] before it registers: the waiter they construct. *)
Definition checkFlow (f : flowArgs) : result string flowWaiter :=
  let invalid := "mobileflow: invalid " +:+ fKind f +:+ " URL" in
  let mustContain := "mobileflow: " +:+ fKind f +:+ " URL must contain exactly one non-empty " in
  let mismatch := "mobileflow: " +:+ fKind f +:+ " URL " +:+ fParam f +:+
                  " does not match the configured redirect URI" in
  match Parse (fTarget f) with
  | None => Err invalid
  | Some target =>
      if negb (IsAbs target) || negb (isWeb target) || String.eqb (Host target) "" ||
         negb (noUser target) || negb (String.eqb (Fragment target) "")
      then Err invalid
      else match ParseQuery (RawQuery target) with
      | None => Err (invalid +:+ " query")
      | Some targetQuery =>
          match singleState targetQuery with
          | None => Err (mustContain +:+ "state")
          | Some state =>
              match parseCallbackURI (fRedirect f) with
              | inl _ => Err ("mobileflow: invalid " +:+ fKind f +:+ " redirect URI")
              | inr callback =>
                  match singleNonEmptyValue targetQuery (fParam f) with
                  | None => Err (mustContain +:+ fParam f)
                  | Some requestedRedirect =>
                      match parseCallbackURI requestedRedirect with
                      | inl _ => Err mismatch
                      | inr requestedCallback =>
                          if sameRedirectURI callback requestedCallback
                          then Ok (mkWaiter callback state (fAllowMissing f))
                          else Err mismatch
                      end
                  end
              end
          end
      end
  end.

(** A delivered URL that a waiter accepts. *)
Definition accepted (w : flowWaiter) (callbackURL : string) : Prop :=
  exists callback, parseCallbackURI callbackURL = Ok callback /\ matches w callback = true.

End Matching.

(** ** The handler's shared state *)

Inductive flowError :=
| FlowError (msg : string)
| ErrFlowInProgress
| FlowOpenError (kind : string) (cause : string)
| FlowCancelled (cause : option string).                (* the context's error *)

(** A registered waiter: its one-element channel and the flag. *)
Record waiterCell := mkCell {
  cWaiter : flowWaiter;
  cDelivery : option string;
  cDelivered : bool
}.

#[export] Instance waiterCell_settable : Settable waiterCell :=
  fun c => mkCell (cWaiter c) (cDelivery c) (cDelivered c).

(** What a flow returned. *)
Record flowReturn := mkReturn { rFlow : nat; rArgs : flowArgs; rResult : result flowError string }.

(** [Handler]: [active] points to a waiter.  The ghost fields are the flows that
    have registered and not returned yet, the URLs that were delivered to the
    handler and what the flows returned. *)
Record Handler := mkHandler {
  logoutRedirectURI : string;
  active : option nat;
  cells : gmap nat waiterCell;
  nextWaiter : nat;
  ctxErrors : gmap nat string;
  opened : gset nat;
  deliveries : list string;
  returned : list flowReturn
}.

#[export] Instance Handler_settable : Settable Handler :=
  fun h => mkHandler (logoutRedirectURI h) (active h) (cells h) (nextWaiter h) (ctxErrors h)
             (opened h) (deliveries h) (returned h).

(** A flow's waiter belongs to the goroutine that registered it. *)
Inductive mobileRole := ownerRole (p : nat).
#[export] Instance mobileRole_eq_dec : EqDecision mobileRole.
Proof. solve_decision. Defined.
#[export] Instance mobileRole_countable : Countable mobileRole.
Proof. by refine (inj_countable' (fun '(ownerRole p) => p) ownerRole _); intros []. Defined.

Inductive flowSelected := SelCallback (callbackURL : string) | SelCtxDone.

Inductive mobileQuery : Type -> Type :=
| QOpenURL (url : string) : mobileQuery (option string)      (* the opener's error *)
| QFlowWait : mobileQuery flowSelected.

Abbreviation prog := (@prog Handler mobileRole mobileQuery).

Definition New (redirectURI : string) : Handler :=
  mkHandler redirectURI None ∅ 0 ∅ ∅ [] [].

Section Handler.
  (** Unicode folding, the login redirect URI and whether an opener was given. *)
  Context (foldRunes : string -> string -> bool) (redirectURI : string) (hasOpener : bool).

(** [register]: the new waiter becomes the active one, unless there is one. *)
Definition register (w : flowWaiter) (h : Handler) : option nat * Handler :=
  match active h with
  | Some _ => (None, h)
  | None =>
      let p := nextWaiter h in
      (Some p, h <| active := Some p |> <| cells := <[p := mkCell w None false]> (cells h) |>
                 <| nextWaiter := S p |> <| opened := {[p]} ∪ opened h |>)
  end.

(** [unregister]. *)
Definition unregister (p : nat) (h : Handler) : Handler :=
  if bool_decide (active h = Some p) then h <| active := None |> else h.

(** The section of [DeliverURL] under [mu], for the parsed URL. *)
Definition deliver (callbackURL : string) (callback : URL) (h : Handler) : Handler :=
  let h := h <| deliveries := deliveries h ++ [callbackURL] |> in
  match active h with
  | None => h
  | Some p =>
      match cells h !! p with
      | None => h
      | Some c =>
          if cDelivered c || negb (matches foldRunes (cWaiter c) callback) then h
          else match cDelivery c with
          | Some _ => h
          | None => h <| cells := <[p := c <| cDelivery := Some callbackURL |> <| cDelivered := true |>]> (cells h) |>
          end
      end
  end.

(** [DeliverURL]. *)
Definition DeliverURL (callbackURL : string) : prog unit :=
  match parseCallbackURI foldRunes callbackURL with
  | inl _ => skip
  | inr callback => modify (deliver callbackURL callback)
  end.

(** A non-blocking receive from a waiter's channel. *)
Definition receive (p : nat) (h : Handler) : option string * Handler :=
  match cells h !! p with
  | None => (None, h)
  | Some c => (cDelivery c, h <| cells := <[p := c <| cDelivery := None |>]> (cells h) |>)
  end.

(** The select of [runFlow]: the channel, or the context. *)
Definition flowReady (ctx p : nat) (h : Handler) (x : flowSelected) : option Handler :=
  match x with
  | SelCallback u => if bool_decide ((receive p h).1 = Some u) then Some (receive p h).2 else None
  | SelCtxDone => match ctxErrors h !! ctx with Some _ => Some h | None => None end
  end.

Definition ctxError (ctx : nat) : prog (option string) := read (fun h => ctxErrors h !! ctx).

(** [runFlow] once registered. *)
Definition waitFlow (ctx : nat) (f : flowArgs) (p : nat) : prog (result flowError string) :=
  if negb hasOpener then Ret (Err (FlowError "mobileflow: URL opener is nil"))
  else
    let* opened := ask (QOpenURL (fTarget f)) in
    match opened with
    | Some cause => Ret (Err (FlowOpenError (fKind f) cause))
    | None =>
        let* x := select QFlowWait (flowReady ctx p) in
        match x with
        | SelCallback u => Ret (Ok u)
        | SelCtxDone =>
            modify (unregister p) ;;;
            let* last := act (receive p) in
            match last with
            | Some u => Ret (Ok u)
            | None => let* e := ctxError ctx in Ret (Err (FlowCancelled e))
            end
        end
    end.

(** The ghost record of a return. *)
Definition logReturn (p : nat) (f : flowArgs) (r : result flowError string) (h : Handler) : Handler :=
  h <| opened := opened h ∖ {[p]} |> <| returned := returned h ++ [mkReturn p f r] |>.

(** [runFlow]; [unregister] is deferred. *)
Definition runFlow (ctx : nat) (f : flowArgs) : prog (result flowError string) :=
  let* e := ctxError ctx in
  match e with
  | Some e => Ret (Err (FlowCancelled (Some e)))
  | None =>
      match checkFlow foldRunes f with
      | inl msg => Ret (Err (FlowError msg))
      | inr waiter =>
          let* r := act (register waiter) in
          match r with
          | None => Ret (Err ErrFlowInProgress)
          | Some p =>
              let* r := waitFlow ctx f p in
              modify (unregister p) ;;;
              modify (logReturn p f r) ;;;
              Ret r
          end
      end
  end.

(** [StartAuthFlow] and [StartLogoutFlow]. *)
Definition authArgs (authURL : string) : flowArgs :=
  mkFlowArgs "auth" authURL redirectURI "redirect_uri" false.
Definition StartAuthFlow (ctx : nat) (authURL : string) : prog (result flowError string) :=
  runFlow ctx (authArgs authURL).
Definition StartLogoutFlow (ctx : nat) (logoutURL : string) : prog (result flowError string) :=
  let* uri := read logoutRedirectURI in
  runFlow ctx (mkFlowArgs "logout" logoutURL uri "post_logout_redirect_uri" true).

(** [SetLogoutURI] and [PostLogoutRedirectURI]. *)
Definition SetLogoutURI (uri : string) : prog (option string) :=
  match parseCallbackURI foldRunes uri with
  | inl e => Ret (Some ("mobileflow: invalid logout URI: " +:+ e))
  | inr _ => modify (fun h => h <| logoutRedirectURI := uri |>) ;;; Ret None
  end.
Definition PostLogoutRedirectURI : prog string := read logoutRedirectURI.

Inductive mobileApi : prog unit -> Prop :=
| api_StartAuthFlow ctx u : mobileApi (let* _ := StartAuthFlow ctx u in skip)
| api_StartLogoutFlow ctx u : mobileApi (let* _ := StartLogoutFlow ctx u in skip)
| api_DeliverURL u : mobileApi (DeliverURL u)
| api_SetLogoutURI u : mobileApi (let* _ := SetLogoutURI u in skip)
| api_PostLogoutRedirectURI : mobileApi (let* _ := PostLogoutRedirectURI in skip).

(** A context may end at any time, once. *)
Inductive mobileEnv : Handler -> Handler -> Prop :=
| env_cancel ctx e h :
    ctxErrors h !! ctx = None -> mobileEnv h (h <| ctxErrors := <[ctx := e]> (ctxErrors h) |>).

End Handler.
