(* ===== verification/MobileProps.v ===== *)
(** What the mobile flow handler guarantees in every interleaving of flows,
    deliveries and cancellations. *)
From Stdlib Require Import Ascii.
From S2P Require Import Prelude Proc RelyGuarantee Schedules GoStrings GoUrl UrlProps Mobileflow.
From stdpp Require Import gmultiset.

Section MobileProps.
  Context (foldRunes : string -> string -> bool) (redirectURI : string) (hasOpener : bool).

(** ** The invariant *)

Definition cell_ok (h : Handler) (p : nat) (c : waiterCell) : Prop :=
  forall u, cDelivery c = Some u ->
    cDelivered c = true /\ accepted foldRunes (cWaiter c) u /\ u ∈ deliveries h.

(** What a flow returned is justified. *)
Definition return_ok (h : Handler) (r : flowReturn) : Prop :=
  exists w, checkFlow foldRunes (rArgs r) = Ok w /\
  (match rResult r with
  | inr u => accepted foldRunes w u /\ u ∈ deliveries h
  | inl (FlowCancelled _) =>
      (exists c, cells h !! rFlow r = Some c /\ cDelivered c = false)
  | inl _ => True
  end).

Record inv (h : Handler) : Prop := {
  inv_active : forall p, active h = Some p -> p ∈ opened h;
  inv_opened : forall p, p ∈ opened h -> is_Some (cells h !! p);
  inv_cells : forall p c, cells h !! p = Some c -> (p < nextWaiter h)%nat /\ cell_ok h p c;
  inv_returned : forall r, r ∈ returned h ->
    rFlow r ∉ opened h /\ (rFlow r < nextWaiter h)%nat /\ return_ok h r
}.

(** How others may change a waiter: only by delivering to it while it is active. *)
Definition cell_evolves (a : bool) (c c' : waiterCell) : Prop :=
  cWaiter c' = cWaiter c /\
  (c' = c \/ (a = true /\ cDelivered c = false /\ cDelivered c' = true /\ is_Some (cDelivery c'))).

Definition prot (l : mobileRole) (h h' : Handler) : Prop :=
  match l with
  | ownerRole p =>
      (p ∈ opened h <-> p ∈ opened h') /\ (active h = Some p <-> active h' = Some p) /\
      (forall c, cells h !! p = Some c ->
         exists c', cells h' !! p = Some c' /\ cell_evolves (bool_decide (active h = Some p)) c c')
  end.

Definition hist (h h' : Handler) : Prop :=
  (nextWaiter h <= nextWaiter h')%nat /\ deliveries h `prefix_of` deliveries h'.
Definition linv (_ : mobileRole) (_ : Handler) : Prop := True.
Definition role (_ : mobileRole) : bool := true.
Definition taken (l : mobileRole) (h : Handler) : bool :=
  match l with ownerRole p => bool_decide (p ∈ opened h) end.
Definition rank (_ : mobileRole) : nat := 0.
Definition bound (_ : Handler) : Prop := True.

(** The owner of the active waiter opens the URL and waits. *)
Definition pre (X : Type) (q : mobileQuery X) (H : gset mobileRole) (h : Handler) : Prop :=
  exists p, ownerRole p ∈ H /\ active h = Some p.
Definition answers (X : Type) (q : mobileQuery X) (_ : X) : Prop := True.

Lemma cell_evolves_refl a c : cell_evolves a c c.
Proof. split; auto. Qed.

Lemma cell_evolves_trans a b c1 c2 c3 :
  (b = true -> a = true) -> cell_evolves a c1 c2 -> cell_evolves b c2 c3 -> cell_evolves a c1 c3.
Proof.
  intros Hab [w1 e1] [w2 e2]. split; [congruence|].
  destruct e1 as [->|(? & ? & ? & ?)]; destruct e2 as [->|(Hb & ? & ? & ?)]; auto 8.
Qed.

Lemma mobile_laws : RG_laws hist prot inv linv role taken mobileEnv.
Proof.
  split; try done.
  - intros h1 h2 h3 [n1 p1] [n2 p2]. split; [lia|]. by etrans.
  - intros [p] h. split; [done|]. split; [done|]. intros c Hc. exists c. split; [done|]. apply cell_evolves_refl.
  - intros [p] h1 h2 h3 (o1 & a1 & c1) (o2 & a2 & c2). split; [tauto|]. split; [tauto|].
    intros c Hc. destruct (c1 c Hc) as (c' & Hc' & He1). destruct (c2 c' Hc') as (c'' & Hc'' & He2).
    exists c''. split; [done|]. eapply cell_evolves_trans; [|exact He1|exact He2].
    rewrite !bool_decide_eq_true. tauto.
  - intros [p] h h' _ (Ho & _). cbn. by apply bool_decide_ext.
  - intros h h' []. split; cbn; [lia|done].
  - intros [p] h h' []. split; [done|]. split; [done|]. intros c Hc. exists c. split; [done|]. apply cell_evolves_refl.
  - intros h h' [ctx e h0 _] []. by split.
Qed.

Abbreviation wp := (RelyGuarantee.wp hist prot inv linv rank role taken pre answers bound).
Abbreviation trans := (RelyGuarantee.trans hist prot inv role taken bound).
Abbreviation rely := (RelyGuarantee.rely hist prot).
Abbreviation held := (RelyGuarantee.held_roles role taken).

(** ** The actions *)

Lemma returned_mono h h' r :
  deliveries h `prefix_of` deliveries h' ->
  (forall c, cells h !! rFlow r = Some c -> cDelivered c = false ->
     exists c', cells h' !! rFlow r = Some c' /\ cDelivered c' = false) ->
  return_ok h r -> return_ok h' r.
Proof.
  intros [ds Hd] Hc (w & Hw & Hr). exists w. split; [done|].
  destruct (rResult r) as [[| | |cause]|u]; try done.
  - destruct Hr as (c & Hcc & Hf). by apply (Hc c).
  - destruct Hr as [Ha Hin]. split; [done|]. rewrite Hd. apply elem_of_app. by left.
Qed.

Lemma cell_ok_mono h h' p c : deliveries h `prefix_of` deliveries h' -> cell_ok h p c -> cell_ok h' p c.
Proof.
  intros [ds Hd] Hc u Hu. destruct (Hc u Hu) as (H1 & H2 & H3). split; [done|]. split; [done|].
  rewrite Hd. apply elem_of_app. by left.
Qed.

(** Delivering. *)
Lemma deliver_shape u callback h :
  let h' := deliver foldRunes u callback h in
  opened h' = opened h /\ active h' = active h /\ nextWaiter h' = nextWaiter h /\
  returned h' = returned h /\ deliveries h' = deliveries h ++ [u] /\
  (cells h' = cells h \/
   exists p c, active h = Some p /\ cells h !! p = Some c /\ cDelivered c = false /\
     matches foldRunes (cWaiter c) callback = true /\
     cells h' = <[p := c <| cDelivery := Some u |> <| cDelivered := true |>]> (cells h)).
Proof.
  intros h'. assert (E : h' = deliver foldRunes u callback h) by done. clearbody h'.
  assert (Hno : h' = h <| deliveries := deliveries h ++ [u] |> ->
            opened h' = opened h /\ active h' = active h /\ nextWaiter h' = nextWaiter h /\
            returned h' = returned h /\ deliveries h' = deliveries h ++ [u] /\
            (cells h' = cells h \/
             exists p c, active h = Some p /\ cells h !! p = Some c /\ cDelivered c = false /\
               matches foldRunes (cWaiter c) callback = true /\
               cells h' = <[p := c <| cDelivery := Some u |> <| cDelivered := true |>]> (cells h))).
  { intros ->. cbn. auto 10. }
  unfold deliver in E. set (h1 := h <| deliveries := deliveries h ++ [u] |>) in *.
  change (active h1) with (active h) in E. change (cells h1) with (cells h) in E.
  destruct (active h) as [p|] eqn:Ea in E; [|exact (Hno E)].
  destruct (cells h !! p) as [c|] eqn:Ec in E; [|exact (Hno E)].
  destruct (cDelivered c) eqn:Ed in E; cbn [orb] in E; [exact (Hno E)|].
  destruct (matches foldRunes (cWaiter c) callback) eqn:Em in E; cbn [negb] in E; [|exact (Hno E)].
  destruct (cDelivery c) in E; [exact (Hno E)|]. subst h' h1. cbn.
  do 5 (split; [done|]). right. by exists p, c.
Qed.

Lemma deliver_trans u callback H h (K : gset mobileRole -> Prop) :
  parseCallbackURI foldRunes u = Ok callback -> inv h -> held H h -> K H ->
  trans H h (deliver foldRunes u callback h) K.
Proof.
  intros Hu Hi Hh HK. pose proof (deliver_shape u callback h) as Hs. cbv zeta in Hs.
  revert Hs. generalize (deliver foldRunes u callback h) as h'. intros h' (Ho & Ha & Hn & Hr & Hd & Hc).
  assert (Hp : deliveries h `prefix_of` deliveries h') by (rewrite Hd; by eexists).
  apply trans_keep; [split; [lia|done]| | | |done].
  - intros [p] _. cbn. rewrite Ho, Ha. split; [done|]. split; [done|]. intros c Hcc.
    destruct Hc as [->|(q & cq & Hq & Hcq & Hf & _ & ->)]; [exists c; split; [done|apply cell_evolves_refl]|].
    destruct (decide (p = q)) as [->|Hne].
    + rewrite lookup_insert_eq. eexists. split; [done|]. rewrite Hcq in Hcc. injection Hcc as <-.
      split; [done|]. right. rewrite bool_decide_eq_true_2 by done. cbn. eauto.
    + rewrite lookup_insert_ne by done. exists c. split; [done|]. apply cell_evolves_refl.
  - intros [p] _ Hin. specialize (Hh _ Hin eq_refl). cbn in *. by rewrite Ho.
  - destruct Hi as [I1 I2 I3 I4]. split.
    + intros p. rewrite Ha, Ho. apply I1.
    + intros p. rewrite Ho. intros Hin. destruct (I2 p Hin) as [c Hcc].
      destruct Hc as [->|(q & cq & _ & _ & _ & _ & ->)]; [by exists c|].
      destruct (decide (p = q)) as [->|Hne]; [rewrite lookup_insert_eq; eauto|].
      rewrite lookup_insert_ne by done. by exists c.
    + intros p c. rewrite Hn. destruct Hc as [->|(q & cq & Hq & Hcq & Hf & Hm & ->)].
      { intros Hcc. destruct (I3 p c Hcc) as [? ?]. split; [done|]. by eapply cell_ok_mono. }
      destruct (decide (p = q)) as [->|Hne].
      * rewrite lookup_insert_eq. intros [= <-]. split; [by apply (I3 q cq)|]. intros u' [= <-].
        split; [done|]. split; [by exists callback|]. rewrite Hd, elem_of_app. right. by left.
      * rewrite lookup_insert_ne by done. intros Hcc. destruct (I3 p c Hcc) as [? ?].
        split; [done|]. by eapply cell_ok_mono.
    + intros r. rewrite Hr, Ho, Hn. intros Hin. destruct (I4 r Hin) as (Hro & Hrn & Hrk).
      split; [done|]. split; [done|]. eapply returned_mono; [done| |exact Hrk].
      intros c Hcc Hf. destruct Hc as [->|(q & cq & Hq & _ & _ & _ & ->)]; [by exists c|].
      rewrite lookup_insert_ne; [by exists c|]. intros ->. apply Hro, I1, Hq.
Qed.

(** What the owner of flow [p] knows of its waiter. *)
Definition owns (p : nat) (w : flowWaiter) (h : Handler) : Prop :=
  exists c, cells h !! p = Some c /\ cWaiter c = w /\ (cDelivered c = true -> is_Some (cDelivery c)).

Lemma rely_owner p h h' : rely {[ownerRole p]} h h' -> prot (ownerRole p) h h'.
Proof. intros [_ Hp]. apply Hp. set_solver. Qed.

Lemma owns_rely p w h h' : rely {[ownerRole p]} h h' -> owns p w h -> owns p w h'.
Proof.
  intros (_ & _ & Hc)%rely_owner (c & Hcc & Hw & Hf). destruct (Hc c Hcc) as (c' & Hc' & He & Hd).
  exists c'. split; [done|]. split; [congruence|]. by destruct Hd as [->|(_ & _ & _ & ?)].
Qed.

Lemma active_rely p h h' : rely {[ownerRole p]} h h' -> (active h = Some p <-> active h' = Some p).
Proof. by intros (_ & Ha & _)%rely_owner. Qed.

Lemma deliveries_rely H h h' u : rely H h h' -> u ∈ deliveries h -> u ∈ deliveries h'.
Proof. intros [[_ [ds Hd]] _] Hu. rewrite Hd. apply elem_of_app. by left. Qed.

(** Registering acquires the role of the new waiter. *)
Lemma register_trans w h (K : gset mobileRole -> Prop) :
  inv h -> (active h <> None -> K ∅) ->
  (active h = None -> owns (nextWaiter h) w (register w h).2 ->
   active (register w h).2 = Some (nextWaiter h) -> K {[ownerRole (nextWaiter h)]}) ->
  trans ∅ h (register w h).2 K.
Proof.
  intros Hi Hk1 Hk2. unfold register in *. destruct (active h) as [q|] eqn:Ea; cbn [snd].
  { by apply (trans_refl mobile_laws); [done|done|apply Hk1]. }
  destruct Hi as [I1 I2 I3 I4]. intros _. set (p := nextWaiter h) in *.
  assert (Hfresh : cells h !! p = None).
  { destruct (cells h !! p) as [c|] eqn:Ec; [|done]. destruct (I3 p c Ec). unfold p in *. lia. }
  assert (Hno : p ∉ opened h) by (intros Hin; destruct (I2 p Hin) as [c Hc]; congruence).
  exists {[ownerRole p]}. split; [split|split; [|split; [|split]]].
  - done.
  - intros l _ ->%elem_of_singleton. cbn. apply bool_decide_eq_true_2. set_solver.
  - set_solver.
  - intros l _ _ ->%elem_of_singleton. cbn. by apply bool_decide_eq_false_2.
  - split; cbn; [lia|done].
  - intros [q] _ Hq. cbn. assert (q <> p) by set_solver. split; [set_solver|].
    rewrite Ea. split; [split; [done|congruence]|]. intros c Hc. exists c.
    rewrite lookup_insert_ne by done. split; [done|]. apply cell_evolves_refl.
  - split; cbn.
    + intros q [= <-]. set_solver.
    + intros q Hq. destruct (decide (q = p)) as [->|Hne]; [rewrite lookup_insert_eq; eauto|].
      rewrite lookup_insert_ne by done. apply I2. set_solver.
    + intros q c. destruct (decide (q = p)) as [->|Hne].
      * rewrite lookup_insert_eq. intros [= <-]. split; [unfold p; lia|]. by intros u.
      * rewrite lookup_insert_ne by done. intros Hc. destruct (I3 q c Hc) as [? ?]. split; [lia|done].
    + intros r Hr. destruct (I4 r Hr) as (Hr1 & Hr2 & Hr3).
      assert (rFlow r <> p) by (unfold p; lia).
      split; [set_solver|]. split; [lia|]. eapply (returned_mono h); [done| |exact Hr3].
      intros c Hc Hf. exists c. cbn. by rewrite lookup_insert_ne.
  - apply Hk2; [done| |done]. eexists. cbn. by rewrite lookup_insert_eq.
Qed.

Lemma unregister_trans p h (K : gset mobileRole -> Prop) :
  inv h -> held {[ownerRole p]} h -> K {[ownerRole p]} -> trans {[ownerRole p]} h (unregister p h) K.
Proof.
  intros Hi Hh HK. unfold unregister. case_bool_decide as Ea; [|by apply (trans_refl mobile_laws)].
  apply trans_keep; [split; cbn; [lia|done]| | | |done].
  - intros [q] Hq. cbn. assert (q <> p) by set_solver. split; [done|].
    split; [split; [congruence|done]|]. intros c Hc. exists c. split; [done|]. apply cell_evolves_refl.
  - intros l _ Hin. by specialize (Hh l Hin eq_refl).
  - destruct Hi as [I1 I2 I3 I4]. by split.
Qed.

(** Receiving from the own channel. *)
Lemma receive_trans p h (K : gset mobileRole -> Prop) :
  inv h -> held {[ownerRole p]} h -> K {[ownerRole p]} -> trans {[ownerRole p]} h (receive p h).2 K.
Proof.
  intros Hi Hh HK. unfold receive. destruct (cells h !! p) as [c|] eqn:Ec; [|by apply (trans_refl mobile_laws)].
  pose proof (Hh (ownerRole p) ltac:(set_solver) eq_refl) as Hop. cbn in Hop. apply bool_decide_eq_true in Hop.
  apply trans_keep; [split; cbn; [lia|done]| | | |done].
  - intros [q] Hq. cbn. assert (q <> p) by set_solver. split; [done|]. split; [done|].
    intros c' Hc. exists c'. rewrite lookup_insert_ne by done. split; [done|]. apply cell_evolves_refl.
  - intros l _ Hin. by specialize (Hh l Hin eq_refl).
  - destruct Hi as [I1 I2 I3 I4]. split; cbn; [done| | |].
    + intros q Hq. destruct (decide (q = p)) as [->|Hne]; [rewrite lookup_insert_eq; eauto|].
      rewrite lookup_insert_ne by done. by apply I2.
    + intros q c'. destruct (decide (q = p)) as [->|Hne].
      * rewrite lookup_insert_eq. intros [= <-]. split; [by apply (I3 p c)|]. by intros u.
      * rewrite lookup_insert_ne by done. apply I3.
    + intros r Hr. destruct (I4 r Hr) as (Hr1 & Hr2 & Hr3). split; [done|]. split; [done|].
      eapply (returned_mono h); [done| |exact Hr3]. intros c' Hc Hf. cbn.
      rewrite lookup_insert_ne by (intros ->; by apply Hr1). by exists c'.
Qed.

(** What a flow may return, for its owner. *)
Definition justified (p : nat) (w : flowWaiter) (r : result flowError string) (h : Handler) : Prop :=
  match r with
  | inr u => accepted foldRunes w u /\ u ∈ deliveries h
  | inl (FlowCancelled _) =>
      active h <> Some p /\ exists c, cells h !! p = Some c /\ cDelivered c = false
  | inl _ => True
  end.

Lemma justified_rely p w r h h' : rely {[ownerRole p]} h h' -> justified p w r h -> justified p w r h'.
Proof.
  intros HR. destruct r as [[| | |cause]|u]; try done; cbn.
  - intros [Ha (c & Hc & Hf)]. pose proof (active_rely _ _ _ HR) as Hi.
    destruct (rely_owner _ _ _ HR) as (_ & _ & Hcc). destruct (Hcc c Hc) as (c' & Hc' & _ & [->|(Hb & _)]).
    + split; [by rewrite <- Hi|]. eauto.
    + apply bool_decide_eq_true in Hb. by apply Ha in Hb.
  - intros [Ha Hin]. split; [done|]. by eapply deliveries_rely.
Qed.

Lemma justified_unregister p w r h : justified p w r h -> justified p w r (unregister p h).
Proof.
  intros Hj. unfold unregister. case_bool_decide; [|done].
  destruct r as [[| | |cause]|u]; try done; cbn in *. by destruct Hj.
Qed.

Lemma unregister_inactive p h : active (unregister p h) <> Some p.
Proof. unfold unregister. by case_bool_decide. Qed.

Lemma unregister_owns p w h : owns p w h -> owns p w (unregister p h).
Proof. unfold unregister. by case_bool_decide. Qed.

(** A received URL was delivered, and the waiter accepts it. *)
Lemma receive_some p w h u :
  inv h -> owns p w h -> (receive p h).1 = Some u -> justified p w (Ok u) (receive p h).2.
Proof.
  intros Hi (c & Hc & Hw & _). unfold receive. rewrite Hc. cbn. intros Hu.
  destruct (inv_cells _ Hi _ _ Hc) as [_ Hok]. destruct (Hok u Hu) as (_ & Ha & Hd). by rewrite <- Hw.
Qed.

(** An empty channel was never delivered to. *)
Lemma receive_none p w h e :
  owns p w h -> active h <> Some p -> (receive p h).1 = None ->
  justified p w (Err (FlowCancelled e)) (receive p h).2.
Proof.
  intros (c & Hc & Hw & Hf) Ha. unfold receive. rewrite Hc. cbn. intros Hn. split; [done|].
  eexists. rewrite lookup_insert_eq. split; [done|]. cbn. destruct (cDelivered c); [|done].
  rewrite Hn in Hf. by destruct (Hf eq_refl).
Qed.

(** The goroutine of a flow that has ended gives up its waiter. *)
Lemma logReturn_trans p w f r h (K : gset mobileRole -> Prop) :
  inv h -> held {[ownerRole p]} h -> checkFlow foldRunes f = Ok w -> justified p w r h ->
  active h <> Some p -> K ∅ -> trans {[ownerRole p]} h (logReturn p f r h) K.
Proof.
  intros Hi Hh Hf Hj Ha HK _. pose proof (Hh (ownerRole p) ltac:(set_solver) eq_refl) as Hop.
  cbn in Hop. apply bool_decide_eq_true in Hop. exists ∅. split; [split|split; [|split; [|split]]].
  - done.
  - set_solver.
  - intros l _ ->%elem_of_singleton _. cbn. apply bool_decide_eq_false_2. set_solver.
  - set_solver.
  - split; cbn; [lia|done].
  - intros [q] Hq _. cbn. assert (q <> p) by set_solver. split; [set_solver|]. split; [done|].
    intros c Hc. exists c. split; [done|]. apply cell_evolves_refl.
  - destruct Hi as [I1 I2 I3 I4]. split; cbn; [| |done|].
    + intros q Hq. apply elem_of_difference. split; [by apply I1|].
      rewrite elem_of_singleton. congruence.
    + intros q Hq. apply I2. set_solver.
    + intros r' [Hr| ->%list_elem_of_singleton]%elem_of_app.
      * destruct (I4 r' Hr) as (Hr1 & Hr2 & Hr3). split; [set_solver|]. by split.
      * cbn. split; [set_solver|]. destruct (I2 p Hop) as [c Hc]. destruct (I3 p c Hc) as [Hlt _].
        split; [done|]. exists w. split; [done|]. cbn. destruct r as [[| | |cause]|u]; try done.
        by destruct Hj as [_ Hj].
  - done.
Qed.

(** ** The flows *)

Lemma wp_waitFlow ctx f p w h :
  owns p w h -> active h = Some p ->
  wp (waitFlow hasOpener ctx f p) {[ownerRole p]}
    (fun r H h => H = {[ownerRole p]} /\ justified p w r h) h.
Proof.
  intros Ho Ha. unfold waitFlow. destruct hasOpener; cbn [negb]; [|by apply wp_ret].
  apply (wp_ask mobile_laws). intros h1 HR1 _ _. pose proof (proj1 (active_rely _ _ _ HR1) Ha) as Ha1.
  apply (owns_rely _ _ _ _ HR1) in Ho. split; [exists p; set_solver|].
  intros [cause|] _; [by apply wp_ret|].
  apply wp_select. intros h2 HR2 Hi2 Hh2. pose proof (proj1 (active_rely _ _ _ HR2) Ha1) as Ha2.
  apply (owns_rely _ _ _ _ HR2) in Ho. split; [exists p; set_solver|].
  intros [u|] h3 _ Hr; cbn in Hr.
  - case_bool_decide as Hu; [|done]. injection Hr as <-. apply receive_trans; [done|done|].
    apply wp_ret. intros h4 HR4 _ _. split; [done|]. eapply justified_rely; [done|].
    by apply receive_some.
  - destruct (ctxErrors h2 !! ctx); [|done]. injection Hr as <-. apply (trans_refl mobile_laws); [done|done|].
    apply wp_modify. intros h3 HR3 Hi3 Hh3. apply (owns_rely _ _ _ _ HR3) in Ho.
    apply unregister_trans; [done|done|].
    apply (unregister_owns p) in Ho. pose proof (unregister_inactive p h3) as Hn.
    revert Ho Hn. generalize (unregister p h3). clear -redirectURI hasOpener. intros h Ho Hn.
    apply wp_act. intros h1 HR1 Hi1 Hh1. apply (owns_rely _ _ _ _ HR1) in Ho.
    rewrite (active_rely _ _ _ HR1) in Hn. apply receive_trans; [done|done|].
    destruct (receive p h1).1 as [u|] eqn:Eu.
    + apply wp_ret. intros h2 HR2 _ _. split; [done|]. eapply justified_rely; [done|]. by apply receive_some.
    + apply (wp_read mobile_laws). intros h2 HR2 _ _. apply wp_ret. intros h3' HR3' _ _. split; [done|].
      eapply justified_rely; [done|]. eapply justified_rely; [done|]. by apply receive_none.
Qed.

Lemma wp_runFlow ctx f h : wp (runFlow foldRunes hasOpener ctx f) ∅ (fun _ H _ => H = ∅) h.
Proof.
  unfold runFlow. apply (wp_read mobile_laws). intros h1 _ _ _. destruct (ctxErrors h1 !! ctx); [by apply wp_ret|].
  destruct (checkFlow foldRunes f) as [msg|w] eqn:Ef; [by apply wp_ret|].
  apply wp_act. intros h2 _ Hi2 _. apply register_trans; [done| |].
  - intros Ha. unfold register. destruct (active h2); [|done]. by apply wp_ret.
  - intros Ha Ho Ha'. unfold register in *. rewrite Ha in *. cbn [fst snd] in *.
    revert Ho Ha'. generalize (nextWaiter h2) as p. intros p Ho Ha'.
    eapply (wp_call mobile_laws); [by apply wp_waitFlow|]. intros r H h3 [-> Hj].
    apply wp_modify. intros h4 HR4 Hi4 Hh4. apply (justified_rely _ _ _ _ _ HR4) in Hj.
    apply unregister_trans; [done|done|]. apply justified_unregister in Hj.
    pose proof (unregister_inactive p h4) as Hn.
    revert Hj Hn. generalize (unregister p h4). clear -Ef redirectURI hasOpener. intros h Hj Hn.
    apply wp_modify. intros h1 HR1 Hi1 Hh1. apply (justified_rely _ _ _ _ _ HR1) in Hj.
    rewrite (active_rely _ _ _ HR1) in Hn. eapply logReturn_trans; [done..|]. by apply wp_ret.
Qed.

Lemma wp_api p h : mobileApi foldRunes redirectURI hasOpener p -> wp p ∅ (fun _ H _ => H = ∅) h.
Proof.
  intros [ctx u|ctx u|u|u|].
  - eapply (wp_call mobile_laws); [apply wp_runFlow|]. intros r H h1 ->. by apply wp_ret.
  - unfold StartLogoutFlow. apply (wp_read mobile_laws). intros h1 _ _ _.
    eapply (wp_call mobile_laws); [apply wp_runFlow|]. intros r H h2 ->. by apply wp_ret.
  - unfold DeliverURL. destruct (parseCallbackURI foldRunes u) as [e|callback] eqn:Eu; [by apply wp_ret|].
    intros h1 _ Hi1 Hh1. apply deliver_trans; [done..|]. by apply wp_ret.
  - unfold SetLogoutURI. destruct (parseCallbackURI foldRunes u) as [e|callback]; [by apply wp_ret|].
    apply wp_modify. intros h1 _ Hi1 Hh1. apply trans_keep; [split; cbn; [lia|done]| |done| |by apply wp_ret].
    + intros [q] _. split; [done|]. split; [done|]. intros c Hc. exists c. split; [done|]. apply cell_evolves_refl.
    + destruct Hi1 as [I1 I2 I3 I4]. by split.
  - apply (wp_read mobile_laws). intros h1 _ _ _. by apply wp_ret.
Qed.

(** ** Every interleaving *)

Abbreviation mobileConfig := (@Proc.config Handler mobileRole _ _ mobileQuery).
Definition mobileReachable : mobileConfig -> Prop :=
  reachable mobileEnv (mobileApi foldRunes redirectURI hasOpener) answers bound (New redirectURI).

Lemma mobileReachable_ok c :
  mobileReachable c -> config_ok hist prot inv linv rank role taken pre answers bound c.
Proof.
  apply (reachable_ok mobile_laws).
  - intros p h Hp _. by apply wp_api.
  - split; cbn; [done|set_solver| |set_solver]. intros p cell Hc. by rewrite lookup_empty in Hc.
  - done.
  - intros [p] _. cbn. apply bool_decide_eq_false_2. set_solver.
Qed.

(** A callback that was returned passed the checks of its flow. *)
Lemma mobile_accepted c r u :
  mobileReachable c -> r ∈ returned (world c) -> rResult r = Ok u ->
  exists w, checkFlow foldRunes (rArgs r) = Ok w /\ accepted foldRunes w u /\ u ∈ deliveries (world c).
Proof.
  intros Hc Hr Hu. apply mobileReachable_ok in Hc as [own Hok].
  destruct (inv_returned _ (ok_inv _ _ Hok) r Hr) as (_ & _ & w & Hw & Hres). rewrite Hu in Hres. by exists w.
Qed.

(** C24: What a mobile flow returns is what the application delivered to it.  In
    every interleaving of flows, deliveries and cancellations, a flow that returned
    a callback returned a URL that was passed to [DeliverURL] and that satisfies the
    checks of that flow (its redirect URI and its state); a flow that returned the
    context's error had not been delivered anything, so that an accepted callback
    is never lost to a cancellation. *)
Theorem mobile_returns c r :
  mobileReachable c -> r ∈ returned (world c) ->
  exists w, checkFlow foldRunes (rArgs r) = Ok w /\
  (forall u, rResult r = Ok u -> accepted foldRunes w u /\ u ∈ deliveries (world c)) /\
  (forall e, rResult r = Err (FlowCancelled e) ->
     exists cell, cells (world c) !! rFlow r = Some cell /\ cDelivered cell = false).
Proof.
  intros Hc Hr. apply mobileReachable_ok in Hc as [own Hok].
  destruct (inv_returned _ (ok_inv _ _ Hok) r Hr) as (_ & _ & w & Hw & Hres).
  exists w. split; [done|]. split.
  - intros u Hu. by rewrite Hu in Hres.
  - intros e He. by rewrite He in Hres.
Qed.

(** At most one flow runs.  Two goroutines are never at the same time between
    the registration of their flow and its end: opening a URL or waiting for a
    callback; and the flow that is there is the one [DeliverURL] delivers to. *)
Theorem mobile_single_flow c t1 t2 X1 X2 (q1 : mobileQuery X1) (q2 : mobileQuery X2) r1 r2 k1 k2 :
  mobileReachable c ->
  pool c !! t1 = Some (Ask q1 r1 k1) -> pool c !! t2 = Some (Ask q2 r2 k2) ->
  t1 = t2 /\ exists p, active (world c) = Some p.
Proof.
  intros Hr%mobileReachable_ok H1 H2. split.
  - destruct (decide (t1 = t2)) as [|Hne]; [done|exfalso].
    destruct (asking_disjoint mobile_laws _ _ _ _ _ _ _ _ _ _ _ Hr Hne H1 H2)
      as (G1 & G2 & Hd & (_ & p1 & P1 & A1) & (_ & p2 & P2 & A2)).
    assert (p1 = p2) as -> by congruence. set_solver.
  - destruct (asking_pre mobile_laws _ _ _ _ _ _ Hr H1) as (G & (p & _ & Ha) & _). by exists p.
Qed.

End MobileProps.

(** ** The callback of a flow *)

(** [containsFixedQuery] compares multisets of values. *)
Lemma countValues_spec vs : countValues vs = list_to_set_disj vs.
Proof.
  unfold countValues. rewrite <- (right_id_L ∅ (⊎) (list_to_set_disj vs : gmultiset string)).
  generalize (∅ : gmultiset string). induction vs as [|v vs IH]; intros acc; cbn [foldl].
  - rewrite list_to_set_disj_nil. multiset_solver.
  - rewrite IH, list_to_set_disj_cons. multiset_solver.
Qed.

Lemma consume_spec vs : forall m, consume m vs = true <-> list_to_set_disj vs ⊆@{gmultiset string} m.
Proof.
  induction vs as [|v vs IH]; intros m; cbn [consume].
  { rewrite list_to_set_disj_nil. split; [intros _; multiset_solver|done]. }
  rewrite list_to_set_disj_cons. destruct (Nat.eqb_spec (multiplicity v m) 0) as [H0|H0].
  - split; [done|]. intros Hs. exfalso.
    assert (Hv : v ∈ m) by multiset_solver. rewrite elem_of_multiplicity in Hv. lia.
  - rewrite IH. split; intros Hs.
    + assert (v ∈ m) by (rewrite elem_of_multiplicity; lia). multiset_solver.
    + multiset_solver.
Qed.

Lemma elements_list_to_set_disj vs : elements (list_to_set_disj vs : gmultiset string) ≡ₚ vs.
Proof.
  induction vs as [|v vs IH]; [by rewrite list_to_set_disj_nil, gmultiset_elements_empty|].
  rewrite list_to_set_disj_cons, gmultiset_elements_disj_union, gmultiset_elements_singleton.
  by apply Permutation_cons.
Qed.

Lemma fixedValues_perm vs vs' :
  (length vs' =? length vs)%nat && consume (countValues vs') vs = true <-> vs' ≡ₚ vs.
Proof.
  rewrite andb_true_iff, Nat.eqb_eq, countValues_spec, consume_spec. split.
  - intros [Hl Hs]. apply gmultiset_elements_submseteq in Hs.
    rewrite !elements_list_to_set_disj in Hs. symmetry.
    by apply submseteq_length_Permutation; [|lia].
  - intros HP. split; [by apply Permutation_length|]. by rewrite HP.
Qed.

(** The fixed parameters of the redirect URI, each with the same values. *)
Definition fixedQuery (actual expected : Values) : Prop :=
  forall k vs, expected !! k = Some vs -> exists vs', actual !! k = Some vs' /\ vs' ≡ₚ vs.

Lemma containsFixedQuery_iff actual expected :
  containsFixedQuery actual expected = true <-> fixedQuery actual expected.
Proof.
  unfold containsFixedQuery, fixedQuery. rewrite forallb_forall. split.
  - intros Hall k vs Hk. specialize (Hall (k, vs)). unfold fixedValues in Hall. cbn in Hall.
    destruct (actual !! k) as [vs'|].
    + exists vs'. split; [done|]. apply fixedValues_perm, Hall. by apply list_elem_of_In, elem_of_map_to_list.
    + ospecialize (Hall _); [|done]. by apply list_elem_of_In, elem_of_map_to_list.
  - intros Hall [k vs] Hin%list_elem_of_In%elem_of_map_to_list. destruct (Hall k vs Hin) as (vs' & Hk & HP).
    unfold fixedValues. cbn. rewrite Hk. by apply fixedValues_perm.
Qed.

(** Which callback a mobile flow accepts: the registered redirect URI (scheme and
    host up to case, same port, escaped path, no user information or fragment),
    with each of its fixed query parameters carrying the same values, and either
    exactly one non-empty [state], equal to the flow's, or, for a flow that allows
    it, no [state] in a response that is not an authorization response. *)
Theorem matches_iff foldRunes w callback :
  matches foldRunes w callback = true <->
  exists query, ParseQuery (RawQuery callback) = Some query /\
    sameCallbackBase foldRunes (wRedirectURI w) callback = true /\
    fixedQuery query (Query (wRedirectURI w)) /\
    ((query !! "state" = Some [wState w] /\ wState w <> "") \/
     (query !! "state" = None /\ allowMissingState w = true /\
      Values_lookup query "code" = [] /\ Values_lookup query "error" = [])).
Proof.
  unfold matches. destruct (ParseQuery (RawQuery callback)) as [query|]; [|split; [done|by intros (q & [=] & _)]].
  unfold sameCallbackTarget.
  destruct (sameCallbackBase foldRunes (wRedirectURI w) callback) eqn:Eb; cbn [andb];
    [|split; [done|by intros (q & _ & [=] & _)]].
  destruct (containsFixedQuery query (Query (wRedirectURI w))) eqn:Ef; cbn [negb].
  2:{ split; [done|]. intros (q & [= <-] & _ & Hf & _). apply containsFixedQuery_iff in Hf. congruence. }
  apply containsFixedQuery_iff in Ef.
  assert (Hx : forall P, (exists q, Some query = Some q /\ true = true /\ fixedQuery q (Query (wRedirectURI w)) /\ P q) <-> P query).
  { intros P. split; [by intros (q & [= <-] & _ & _ & ?)|]. intros. by exists query. }
  rewrite (Hx (fun q => (q !! "state" = Some [wState w] /\ wState w <> "") \/
     (q !! "state" = None /\ allowMissingState w = true /\
      Values_lookup q "code" = [] /\ Values_lookup q "error" = []))). clear Hx Eb Ef.
  destruct (query !! "state") as [[|s [|]]|].
  - split; [done|]. by intros [[[=] _]|[[=] _]].
  - rewrite andb_true_iff, negb_true_iff, String.eqb_neq, String.eqb_eq. split.
    + intros [Hs <-]. by left.
    + intros [[[= ->] ?]|[[=] _]]. done.
  - split; [done|]. by intros [[[=] _]|[[=] _]].
  - unfold hasAuthorizationResponse.
    rewrite andb_true_iff, negb_true_iff, orb_false_iff, !negb_false_iff, !Nat.eqb_eq, !length_zero_iff_nil.
    split; [|by intros [[[=] _]|[_ ?]]]. intros. by right.
Qed.

(** ** A concrete run: a flow that gets its callback, and one that is cancelled *)

Definition noFold : string -> string -> bool := fun _ _ => false.
Definition exApp : string := "https://app.example/cb".
Definition exAuth : string :=
  "https://idp.example/auth?state=s1&redirect_uri=https%3A%2F%2Fapp.example%2Fcb".
Definition exWrong : string := "https://app.example/cb?code=c&state=s2".
Definition exCallback : string := "https://app.example/cb?code=c&state=s1".

(** The wait ends with the callback, if there is one, and else with the context. *)
Definition mobileOracle : oracle (W := Handler) (Q := mobileQuery) := fun X q h =>
  match q in mobileQuery X return option X with
  | QOpenURL _ => Some None
  | QFlowWait =>
      Some (match p ← active h; c ← cells h !! p; cDelivery c with
            | Some u => SelCallback u
            | None => SelCtxDone
            end)
  end.

#[export] Instance mobile_bound_decision h : Decision (bound h).
Proof. left. exact I. Defined.

Abbreviation mobileConfig := (@Proc.config Handler mobileRole _ _ mobileQuery).
Abbreviation runMobile := (exec_thread bound mobileOracle).
Abbreviation exReachable := (mobileReachable noFold exApp true).
Definition mobileStart : mobileConfig :=
  call 1 (let* _ := StartAuthFlow noFold exApp true 7 exAuth in skip) (init_config (New exApp)).
Definition mobileOpening : mobileConfig := runMobile 2 1 0 mobileStart.
Definition mobileWaiting : mobileConfig := runMobile 1 1 0 mobileOpening.
Definition mobileDelivered : mobileConfig :=
  runMobile 9 3 0 (call 3 (DeliverURL noFold exCallback)
    (runMobile 9 2 0 (call 2 (DeliverURL noFold exWrong) mobileWaiting))).
Definition cancelled (c : mobileConfig) : mobileConfig :=
  mkConfig ((world c) <| ctxErrors := <[7%nat := "canceled"]> (ctxErrors (world c)) |>) (owner c) (pool c).
Definition mobileEnd : mobileConfig := runMobile 9 1 0 (cancelled mobileDelivered).
Definition mobileGivenUp : mobileConfig := runMobile 9 1 0 (cancelled mobileWaiting).

Lemma mobile_run_reachable n t c : exReachable c -> exReachable (runMobile n t 0 c).
Proof. by apply exec_thread_reachable. Qed.

Lemma mobile_call_reachable t p c :
  mobileApi noFold exApp true p -> exReachable c -> exReachable (call t p c).
Proof. intros. by apply call_reachable. Qed.

Lemma cancelled_reachable c :
  ctxErrors (world c) !! 7%nat = None -> exReachable c -> exReachable (cancelled c).
Proof.
  intros Hn Hc. eapply rtc_r; [exact Hc|]. split; [|done]. destruct c as [h ow pl].
  apply step_env. by constructor.
Qed.

Lemma mobileOpening_reachable : exReachable mobileOpening.
Proof. apply mobile_run_reachable, mobile_call_reachable; [constructor|apply rtc_refl]. Qed.

Lemma mobileDelivered_reachable : exReachable mobileDelivered.
Proof.
  repeat (apply mobile_run_reachable, mobile_call_reachable; [constructor|]).
  apply mobile_run_reachable, mobileOpening_reachable.
Qed.
Lemma mobileEnd_reachable : exReachable mobileEnd.
Proof.
  apply mobile_run_reachable, cancelled_reachable; [vm_compute; reflexivity|].
  apply mobileDelivered_reachable.
Qed.
Lemma mobileGivenUp_reachable : exReachable mobileGivenUp.
Proof.
  apply mobile_run_reachable, cancelled_reachable; [vm_compute; reflexivity|].
  apply mobile_run_reachable, mobileOpening_reachable.
Qed.

Lemma mobile_returns_witness :
  (exists w, checkFlow noFold (authArgs exApp exAuth) = Ok w /\ accepted noFold w exCallback) /\
  (exists cell, cells (world mobileGivenUp) !! 0%nat = Some cell /\ cDelivered cell = false).
Proof.
  split.
  - destruct (mobile_returns noFold exApp true mobileEnd (mkReturn 0 (authArgs exApp exAuth) (Ok exCallback))
      mobileEnd_reachable) as (w & Hw & Hok & _); [|exists w; split; [exact Hw|by apply Hok]].
    assert (E : returned (world mobileEnd) = [mkReturn 0 (authArgs exApp exAuth) (Ok exCallback)])
      by (vm_compute; reflexivity).
    rewrite E. by apply list_elem_of_singleton.
  - destruct (mobile_returns noFold exApp true mobileGivenUp
      (mkReturn 0 (authArgs exApp exAuth) (Err (FlowCancelled (Some "canceled"))))
      mobileGivenUp_reachable) as (w & _ & _ & Hc); [|by apply (Hc (Some "canceled"))].
    assert (E : returned (world mobileGivenUp) =
      [mkReturn 0 (authArgs exApp exAuth) (Err (FlowCancelled (Some "canceled")))])
      by (vm_compute; reflexivity).
    rewrite E. by apply list_elem_of_singleton.
Defined.

Lemma mobile_single_flow_witness :
  (exists k r, pool mobileOpening !! 1%nat = Some (Ask (QOpenURL exAuth) r k)) /\
  exists p, active (world mobileOpening) = Some p.
Proof.
  assert (Hp : exists k r, pool mobileOpening !! 1%nat = Some (Ask (QOpenURL exAuth) r k)) by
    (eexists _, _; vm_compute; reflexivity).
  split; [exact Hp|]. destruct Hp as (k & r & Hp).
  exact (proj2 (mobile_single_flow noFold exApp true mobileOpening 1 1 _ _ _ _ _ _ _ _ mobileOpening_reachable Hp Hp)).
Defined.
