(* ===== verification/Desktopflow.v ===== *)
(** [desktopflow/desktopflow.go]: the desktop flow handler and its shared
    callback broker, one localhost server for all flows in progress. *)
From Stdlib Require Import Ascii.
From S2P Require Import Prelude Proc RelyGuarantee Schedules GoStrings GoUrl Loopback.

(** ** Keys *)

Definition NUL : string := String (ascii_of_nat 0) EmptyString.

(** [callbackKey]. *)
Definition callbackKey (path state : string) : string := path +:+ NUL +:+ state.

(** [stateFromURL]. *)
Definition stateFromURL (rawURL : string) : string :=
  match Parse rawURL with
  | None => ""
  | Some u => Values_Get (Query u) "state"
  end.

(** ** The state *)

Inductive flowError :=
| FlowDuplicate                                        (* path and state already registered *)
| FlowListenError (addrs : list string) (cause : option string)
| FlowOpenError (cause : string)
| FlowCancelled (cause : option string).                (* the context's error *)

(** A waiter: its one-element channel; the ghost fields are its key and the
    request that resolved it. *)
Record channel := mkChannel { cKey : string; cBuf : option string; cTaken : option nat }.
#[export] Instance channel_settable : Settable channel :=
  fun c => mkChannel (cKey c) (cBuf c) (cTaken c).

(** [time.AfterFunc]: a timer that [Stop] reaches in time never runs its function. *)
Inductive timerState := TimerArmed | TimerStopped | TimerFired.
#[export] Instance timerState_eq_dec : EqDecision timerState.
Proof. solve_decision. Defined.

(** A request to the server, and the waiter it resolved. *)
Record request := mkRequest { qPath : string; qRawQuery : string; qResolved : option nat }.

(** What a flow returned. *)
Record flowReturn := mkReturn {
  rFlow : nat; rTarget : string; rPath : string; rRedirectURI : string;
  rResult : result flowError string
}.

(** What a handler is constructed with. *)
Record handlerConfig := mkHandlerConfig {
  redirectURI : string; host : string; port : string; path : string
}.

(** The pages the application may have set. *)
Record pages := mkPages { SuccessHTML : string; ErrorHTML : string; LogoutHTML : string }.

(** The mutable fields of [Handler] and its [broker]: a waiter is the channel of
    a flow.  Ghost: the flows that have not returned, the waiters whose request
    has not sent yet, the requests handled and what the flows returned. *)
Record Handler := mkHandler {
  logoutRedirectURI : string;
  logoutPath : string;
  waiters : gmap string nat;
  server : bool;
  listeners : list string;
  graceTimer : option nat;
  timers : gmap nat timerState;
  nextTimer : nat;
  chans : gmap nat channel;
  nextChan : nat;
  ctxErrors : gmap nat string;
  opened : gset nat;
  resolving : gset nat;
  requests : list request;
  returned : list flowReturn
}.
#[export] Instance Handler_settable : Settable Handler :=
  fun h => mkHandler (logoutRedirectURI h) (logoutPath h) (waiters h) (server h) (listeners h)
             (graceTimer h) (timers h) (nextTimer h) (chans h) (nextChan h) (ctxErrors h)
             (opened h) (resolving h) (requests h) (returned h).

(** [New] and [NewWithURI]: what is constructed. *)
Definition newHandler (c : handlerConfig) : Handler :=
  mkHandler (redirectURI c) (path c) ∅ false [] None ∅ 0 ∅ 0 ∅ ∅ ∅ [] [].

Definition New (portText : string) : handlerConfig :=
  mkHandlerConfig ("http://127.0.0.1:" +:+ portText +:+ "/callback") "127.0.0.1" portText "/callback".

Definition orSlash (path : string) : string := if String.eqb path "" then "/" else path.

Definition NewWithURI (uri : string) : result string handlerConfig :=
  match Parse uri with
  | None => Err "desktopflow: invalid redirect URI"
  | Some parsed =>
      if negb (isLoopback (Hostname parsed)) then Err "desktopflow: redirect URI host is not a loopback address"
      else if String.eqb (Port parsed) "" then Err "desktopflow: redirect URI must include a port"
      else Ok (mkHandlerConfig uri (Hostname parsed) (Port parsed) (orSlash (Path parsed)))
  end.

(** Mutexes and roles: the flow that owns a waiter, the request that resolved it
    and has to send, the goroutine of a timer. *)
Inductive role_ := mu | ownerRole (p : nat) | senderRole (p : nat) | timerRole (id : nat).
#[export] Instance role_eq_dec : EqDecision role_.
Proof. solve_decision. Defined.
#[export] Instance role_countable : Countable role_.
Proof.
  refine (inj_countable'
    (fun r => match r with mu => inl tt | ownerRole p => inr (inl p)
              | senderRole p => inr (inr (inl p)) | timerRole p => inr (inr (inr p)) end)
    (fun r => match r with inl _ => mu | inr (inl p) => ownerRole p
              | inr (inr (inl p)) => senderRole p | inr (inr (inr p)) => timerRole p end) _).
  by intros [].
Defined.

Inductive flowSelected := SelCallback (rawQuery : string) | SelCtxDone.

Inductive desktopQuery : Type -> Type :=
| QListen (addr : string) : desktopQuery (option string)
| QOpenBrowser (url : string) : desktopQuery (option string)
| QFlowWait (p : nat) : desktopQuery flowSelected
| QRespond (page : string) : desktopQuery unit
| QSend (p : nat) : desktopQuery unit
| QTimer (id : nat) : desktopQuery bool.                 (* fired, or stopped *)

Abbreviation prog := (@prog Handler role_ desktopQuery).

(** ** The broker *)

Section Broker.
  Context (cfg : handlerConfig).

(** The body of [time.AfterFunc]'s goroutine waits for the timer. *)
Definition timerReady (id : nat) (h : Handler) (fired : bool) : option Handler :=
  match timers h !! id with
  | Some TimerArmed => if fired then Some (h <| timers := <[id := TimerFired]> (timers h) |>) else None
  | Some TimerStopped => if fired then None else Some (h <| timers := delete id (timers h) |>)
  | _ => None
  end.

(** The section of [graceShutdown] under [mu]; the timer's goroutine then ends. *)
Definition closeIfIdle (id : nat) (h : Handler) : Handler :=
  let h := h <| graceTimer := None |> <| timers := delete id (timers h) |> in
  if negb (bool_decide (waiters h = ∅)) || negb (server h) then h
  else h <| server := false |> <| listeners := [] |>.

(** [graceShutdown]. *)
Definition graceShutdown (id : nat) : prog unit :=
  lock mu ;;; modify (closeIfIdle id) ;;; unlock mu.

Definition timer (id : nat) : prog unit :=
  let* fired := select (QTimer id) (timerReady id) in
  when fired (graceShutdown id).

(** [scheduleShutdownLocked]. *)
Definition arm (h : Handler) : option nat * Handler :=
  if bool_decide (waiters h = ∅) && server h && bool_decide (graceTimer h = None) then
    let id := nextTimer h in
    (Some id, h <| graceTimer := Some id |> <| timers := <[id := TimerArmed]> (timers h) |>
                <| nextTimer := S id |>)
  else (None, h).
Definition scheduleShutdownLocked : prog unit :=
  let* armed := act arm in
  match armed with
  | None => skip
  | Some id => fork (timer id)
  end.

(** The loop of [startLocked] over the addresses. *)
Fixpoint listenAll (addrs bound : list string) (lastErr : option string)
    : prog (list string * option string) :=
  match addrs with
  | [] => Ret (bound, lastErr)
  | addr :: addrs =>
      let* err := ask (QListen addr) in
      match err with
      | Some _ => listenAll addrs bound err
      | None => listenAll addrs (bound ++ [addr]) lastErr
      end
  end.

(** [startLocked]. *)
Definition addrs : list string := loopbackAddrs (host cfg) (port cfg).
Definition startLocked : prog (result flowError unit) :=
  let* r := listenAll addrs [] None in
  match r with
  | ([], lastErr) => Ret (Err (FlowListenError addrs lastErr))
  | (bound, _) => modify (fun h => h <| server := true |> <| listeners := bound |>) ;;; Ret (Ok tt)
  end.

(** [graceTimer.Stop()] in [register]. *)
Definition stopTimer (h : Handler) : Handler :=
  match graceTimer h with
  | None => h
  | Some id =>
      (match timers h !! id with
       | Some TimerArmed => h <| timers := <[id := TimerStopped]> (timers h) |>
       | _ => h
       end) <| graceTimer := None |>
  end.

Definition addWaiter (key : string) (p : nat) (h : Handler) : Handler :=
  h <| waiters := <[key := p]> (waiters h) |>.

(** [register]. *)
Definition register (key : string) (p : nat) : prog (option flowError) :=
  lock mu ;;;
  let* dup := read (fun h => bool_decide (is_Some (waiters h !! key))) in
  if dup then unlock mu ;;; Ret (Some FlowDuplicate)
  else
    modify stopTimer ;;;
    let* up := read server in
    let* started := if up then Ret (Ok tt) else startLocked in
    match started with
    | inl err => unlock mu ;;; Ret (Some err)
    | inr _ => modify (addWaiter key p) ;;; unlock mu ;;; Ret None
    end.

(** [deregister]. *)
Definition removeWaiter (key : string) (h : Handler) : bool * Handler :=
  (bool_decide (is_Some (waiters h !! key)), h <| waiters := delete key (waiters h) |>).
Definition deregister (key : string) : prog unit :=
  lock mu ;;;
  let* present := act (removeWaiter key) in
  when present scheduleShutdownLocked ;;;
  unlock mu.

(** ** Requests *)

Definition queryOf (rawQuery : string) : Values := (parseQueryAll rawQuery).1.
Definition requestKey (qpath rawQuery : string) : string :=
  callbackKey qpath (Values_Get (queryOf rawQuery) "state").

(** The section of [handle] under [mu], up to [scheduleShutdownLocked]. *)
Definition takeWaiter (qpath rawQuery : string) (h : Handler) : option nat * Handler :=
  let key := requestKey qpath rawQuery in
  match waiters h !! key with
  | None => (None, h <| requests := requests h ++ [mkRequest qpath rawQuery None] |>)
  | Some p =>
      (Some p,
       h <| waiters := delete key (waiters h) |>
         <| requests := requests h ++ [mkRequest qpath rawQuery (Some p)] |>
         <| chans := alter (fun c => c <| cTaken := Some (length (requests h)) |>) p (chans h) |>
         <| resolving := {[p]} ∪ resolving h |>)
  end.

(** [ch <- callbackResult{...}] on the one-element channel. *)
Definition sendReady (p : nat) (rawQuery : string) (h : Handler) (_ : unit) : option Handler :=
  match chans h !! p with
  | None => None
  | Some c =>
      match cBuf c with
      | Some _ => None
      | None => Some (h <| chans := <[p := c <| cBuf := Some rawQuery |>]> (chans h) |>
                        <| resolving := resolving h ∖ {[p]} |>)
      end
  end.

Section Pages.
  Context (html : pages) (defaultSuccessHTML defaultErrorHTML defaultLogoutHTML : string).

Definition orDefault (page dflt : string) : string := if String.eqb page "" then dflt else page.

(** [pageFor]. *)
Definition pageFor (h : Handler) (qpath : string) (isError : bool) : string :=
  if isError then orDefault (ErrorHTML html) defaultErrorHTML
  else if String.eqb qpath (logoutPath h) && negb (String.eqb (logoutPath h) (path cfg))
  then orDefault (LogoutHTML html) defaultLogoutHTML
  else orDefault (SuccessHTML html) defaultSuccessHTML.

(** [handle]. *)
Definition handle (qpath rawQuery : string) : prog unit :=
  lock mu ;;;
  let* found := act (takeWaiter qpath rawQuery) in
  (match found with Some _ => scheduleShutdownLocked | None => skip end) ;;;
  unlock mu ;;;
  let isError := match found with
                 | Some _ => negb (String.eqb (Values_Get (queryOf rawQuery) "error") "")
                 | None => false
                 end in
  let pagePath := match found with Some _ => qpath | None => "" end in
  let* page := read (fun h => pageFor h pagePath isError) in
  ask (QRespond page) ;;;
  match found with
  | None => skip
  | Some p => select (QSend p) (sendReady p rawQuery)
  end.

(** ** Flows *)

Definition receive (p : nat) (h : Handler) : option string * Handler :=
  match chans h !! p with
  | None => (None, h)
  | Some c => (cBuf c, h <| chans := <[p := c <| cBuf := None |>]> (chans h) |>)
  end.

(** The select of [runFlow]: the channel, or the context. *)
Definition flowReady (ctx p : nat) (h : Handler) (x : flowSelected) : option Handler :=
  match x with
  | SelCallback raw => if bool_decide ((receive p h).1 = Some raw) then Some (receive p h).2 else None
  | SelCtxDone => match ctxErrors h !! ctx with Some _ => Some h | None => None end
  end.

(** [make(chan callbackResult, 1)]. *)
Definition makeChan (key : string) (h : Handler) : nat * Handler :=
  let p := nextChan h in
  (p, h <| chans := <[p := mkChannel key None None]> (chans h) |> <| nextChan := S p |>
        <| opened := {[p]} ∪ opened h |>).

Definition callbackURL (redirect rawQuery : string) : string :=
  if String.eqb rawQuery "" then redirect else redirect +:+ "?" +:+ rawQuery.

(** [runFlow] once registered. *)
Definition waitFlow (ctx : nat) (target redirect : string) (p : nat) : prog (result flowError string) :=
  let* opened := ask (QOpenBrowser target) in
  match opened with
  | Some cause => Ret (Err (FlowOpenError cause))
  | None =>
      let* x := select (QFlowWait p) (flowReady ctx p) in
      match x with
      | SelCallback raw => Ret (Ok (callbackURL redirect raw))
      | SelCtxDone => let* e := read (fun h => ctxErrors h !! ctx) in Ret (Err (FlowCancelled e))
      end
  end.

(** The ghost record of a return. *)
Definition logReturn (p : nat) (target fpath redirect : string) (r : result flowError string)
    (h : Handler) : Handler :=
  h <| opened := opened h ∖ {[p]} |> <| returned := returned h ++ [mkReturn p target fpath redirect r] |>.

(** [runFlow]; [deregister] is deferred. *)
Definition runFlow (ctx : nat) (target fpath redirect : string) : prog (result flowError string) :=
  let key := callbackKey fpath (stateFromURL target) in
  let* p := act (makeChan key) in
  let* err := register key p in
  match err with
  | Some err => modify (logReturn p target fpath redirect (Err err)) ;;; Ret (Err err)
  | None =>
      let* r := waitFlow ctx target redirect p in
      deregister key ;;;
      modify (logReturn p target fpath redirect r) ;;;
      Ret r
  end.

(** [StartAuthFlow], [StartLogoutFlow], [PostLogoutRedirectURI]. *)
Definition StartAuthFlow (ctx : nat) (authURL : string) : prog (result flowError string) :=
  runFlow ctx authURL (path cfg) (redirectURI cfg).
Definition StartLogoutFlow (ctx : nat) (logoutURL : string) : prog (result flowError string) :=
  let* pu := read (fun h => (logoutPath h, logoutRedirectURI h)) in
  runFlow ctx logoutURL pu.1 pu.2.
Definition PostLogoutRedirectURI : prog string := read logoutRedirectURI.

Definition setLogout (uri lpath : string) (h : Handler) : Handler :=
  h <| logoutRedirectURI := uri |> <| logoutPath := lpath |>.

(** [SetLogoutURI] and [SetLogoutPath]: what they set, or why they do not. *)
Definition checkLogoutURI (uri : string) : result string (string * string) :=
  match Parse uri with
  | None => Err "desktopflow: invalid logout URI"
  | Some parsed =>
      if negb (isLoopback (Hostname parsed)) then Err "desktopflow: logout URI host is not a loopback address"
      else if negb (String.eqb (Hostname parsed) (host cfg)) || negb (String.eqb (Port parsed) (port cfg))
      then Err "desktopflow: logout URI must share host and port with the login redirect URI"
      else Ok (uri, orSlash (Path parsed))
  end.
Definition checkLogoutPath (lpath : string) : result string (string * string) :=
  if negb (HasPrefix lpath "/") then Err "desktopflow: logout path must start with /"
  else match Parse (redirectURI cfg) with
  | None => Err "desktopflow: invalid redirect URI"
  | Some u => Ok (URL_String (u <| Path := lpath |>), lpath)
  end.
Definition setChecked (r : result string (string * string)) : prog (option string) :=
  match r with
  | inl e => Ret (Some e)
  | inr (uri, lpath) => modify (setLogout uri lpath) ;;; Ret None
  end.
Definition SetLogoutURI (uri : string) : prog (option string) := setChecked (checkLogoutURI uri).
Definition SetLogoutPath (lpath : string) : prog (option string) := setChecked (checkLogoutPath lpath).

Inductive desktopApi : prog unit -> Prop :=
| api_StartAuthFlow ctx u : desktopApi (let* _ := StartAuthFlow ctx u in skip)
| api_StartLogoutFlow ctx u : desktopApi (let* _ := StartLogoutFlow ctx u in skip)
| api_handle qpath rawQuery : desktopApi (handle qpath rawQuery)
| api_SetLogoutURI u : desktopApi (let* _ := SetLogoutURI u in skip)
| api_SetLogoutPath p : desktopApi (let* _ := SetLogoutPath p in skip)
| api_PostLogoutRedirectURI : desktopApi (let* _ := PostLogoutRedirectURI in skip).

End Pages.
End Broker.

(** A context may end at any time, once. *)
Inductive desktopEnv : Handler -> Handler -> Prop :=
| env_cancel ctx e h :
    ctxErrors h !! ctx = None -> desktopEnv h (h <| ctxErrors := <[ctx := e]> (ctxErrors h) |>).
