(* ===== verification/DesktopInv.v ===== *)
(** The invariant of the desktop callback broker, and that every action of its
    goroutines preserves it. *)
From Stdlib Require Import Ascii.
From S2P Require Import Prelude Proc RelyGuarantee Schedules GoStrings GoUrl UrlProps Loopback Desktopflow.

(** ** Keys *)

(** The separator: a key without other NUL bytes determines path and state, also
    for a request whose path and state are arbitrary. *)
Lemma callbackKey_inj p s p' s' :
  ContainsByte p (ascii_of_nat 0) = false -> ContainsByte s (ascii_of_nat 0) = false ->
  callbackKey p s = callbackKey p' s' -> p = p' /\ s = s'.
Proof.
  unfold callbackKey, NUL. revert p'.
  induction p as [|c p IH]; intros [|c' p'] Hp Hs;
    rewrite ?str_app_empty, ?str_app_cons, ?str_app_empty.
  - by intros [= ->].
  - intros [= <- ->]. exfalso.
    rewrite ContainsByte_app, ContainsByte_cons in Hs. cbn in Hs. by rewrite orb_true_r in Hs.
  - intros [= -> _]. rewrite ContainsByte_cons in Hp. by rewrite Ascii.eqb_refl in Hp.
  - rewrite ContainsByte_cons in Hp. apply orb_false_iff in Hp as [_ Hp].
    intros [= -> E]. destruct (IH p' Hp Hs) as [-> ->]; [|done].
    by rewrite ?str_app_cons, ?str_app_empty.
Qed.

(** ** The invariant *)

(** What a channel holds comes from the request that took its waiter. *)
Definition chan_ok (h : Handler) (p : nat) (c : channel) : Prop :=
  match cTaken c with
  | None => cBuf c = None
  | Some i => exists req, requests h !! i = Some req /\ qResolved req = Some p /\
      requestKey (qPath req) (qRawQuery req) = cKey c /\
      (forall raw, cBuf c = Some raw -> raw = qRawQuery req)
  end.

(** What a flow returned is the callback of the request that resolved it. *)
Definition justified (h : Handler) (p : nat) (key redirect : string) (r : result flowError string) : Prop :=
  forall u, r = Ok u -> exists i req, requests h !! i = Some req /\ qResolved req = Some p /\
    requestKey (qPath req) (qRawQuery req) = key /\ u = callbackURL redirect (qRawQuery req).

Definition return_ok (h : Handler) (r : flowReturn) : Prop :=
  justified h (rFlow r) (callbackKey (rPath r) (stateFromURL (rTarget r))) (rRedirectURI r) (rResult r).

Definition waiter_ok (h : Handler) (key : string) (p : nat) : Prop :=
  exists c, chans h !! p = Some c /\ cKey c = key /\ cTaken c = None /\ cBuf c = None.

Record inv (h : Handler) : Prop := {
  inv_server : waiters h <> ∅ -> server h = true;
  inv_waiters : forall key p, waiters h !! key = Some p -> waiter_ok h key p;
  inv_chans : forall p c, chans h !! p = Some c -> (p < nextChan h)%nat /\ chan_ok h p c;
  inv_timers : forall id, is_Some (timers h !! id) -> (id < nextTimer h)%nat;
  inv_opened : forall p, p ∈ opened h -> (p < nextChan h)%nat;
  inv_resolving : forall p, p ∈ resolving h -> exists c i, chans h !! p = Some c /\ cTaken c = Some i;
  inv_nodup : NoDup (rFlow <$> returned h);
  inv_returned : forall r, r ∈ returned h ->
    rFlow r ∉ opened h /\ (rFlow r < nextChan h)%nat /\ return_ok h r
}.

(** A timer whose function is still to run. *)
Definition live (h : Handler) (id : nat) : Prop :=
  timers h !! id = Some TimerArmed \/ timers h !! id = Some TimerFired.

(** A channel that is not registered, and never was resolved. *)
Definition unregistered (h : Handler) (p : nat) : Prop :=
  (exists c, chans h !! p = Some c /\ cTaken c = None /\ cBuf c = None) /\
  forall key, waiters h !! key <> Some p.

Definition timer_evolves (x x' : option timerState) : Prop :=
  x' = x \/ (x = Some TimerArmed /\ x' = Some TimerStopped).

Definition prot (l : role_) (h h' : Handler) : Prop :=
  match l with
  | mu => waiters h' = waiters h /\ server h' = server h /\ graceTimer h' = graceTimer h /\
          (forall id, live h id <-> live h' id)
  | ownerRole p => (p ∈ opened h <-> p ∈ opened h') /\ (unregistered h p -> unregistered h' p)
  | senderRole p => (p ∈ resolving h <-> p ∈ resolving h') /\
      (forall c, chans h !! p = Some c -> cBuf c = None ->
         exists c', chans h' !! p = Some c' /\ cBuf c' = None /\ (is_Some (cTaken c) -> cTaken c' = cTaken c))
  | timerRole id => timer_evolves (timers h !! id) (timers h' !! id)
  end.

Definition hist (h h' : Handler) : Prop :=
  (nextChan h <= nextChan h')%nat /\ (nextTimer h <= nextTimer h')%nat /\
  requests h `prefix_of` requests h' /\
  (forall p c, chans h !! p = Some c -> exists c', chans h' !! p = Some c' /\ cKey c' = cKey c).

Definition timers_ok (h : Handler) : Prop := forall id, graceTimer h = Some id -> live h id.
Definition idle_ok (h : Handler) : Prop := server h = true -> waiters h = ∅ -> exists id, live h id.
Definition linv (l : role_) (h : Handler) : Prop :=
  match l with mu => timers_ok h /\ idle_ok h | _ => True end.

Definition role (l : role_) : bool := match l with mu => false | _ => true end.
Definition taken (l : role_) (h : Handler) : bool :=
  match l with
  | mu => false
  | ownerRole p => bool_decide (p ∈ opened h)
  | senderRole p => bool_decide (p ∈ resolving h)
  | timerRole id => bool_decide (is_Some (timers h !! id))
  end.
Definition rank (_ : role_) : nat := 0.
Definition bound (_ : Handler) : Prop := True.

(** The mutex is only held while an address is bound; a callback is sent to an
    empty channel. *)
Definition pre (cfg : handlerConfig) (X : Type) (q : desktopQuery X) (H : gset role_) (h : Handler) : Prop :=
  match q with
  | QListen addr => mu ∈ H /\ addr ∈ addrs cfg
  | QSend p => mu ∉ H /\ exists c, chans h !! p = Some c /\ cBuf c = None
  | _ => mu ∉ H
  end.
Definition answers (X : Type) (q : desktopQuery X) (_ : X) : Prop := True.

Lemma timer_evolves_some x x' : timer_evolves x x' -> is_Some x <-> is_Some x'.
Proof. intros [->|[-> ->]]; [done|]. split; eauto. Qed.

Lemma prot_refl_ l h : prot l h h.
Proof. destruct l; cbn; try done. - split; [done|]. eauto. - by left. Qed.

Lemma desktop_laws : RG_laws hist prot inv linv role taken desktopEnv.
Proof.
  split; try done.
  - intros h. split; [lia|]. split; [lia|]. split; [done|]. eauto.
  - intros h1 h2 h3 (a1 & b1 & c1 & d1) (a2 & b2 & c2 & d2). split; [lia|]. split; [lia|].
    split; [by etrans|]. intros p c Hc. destruct (d1 p c Hc) as (c' & Hc' & E1).
    destruct (d2 p c' Hc') as (c'' & Hc'' & E2). exists c''. split; [done|congruence].
  - apply prot_refl_.
  - intros [|p|p|id] h1 h2 h3; cbn.
    + intros (w1 & s1 & g1 & l1) (w2 & s2 & g2 & l2). split; [congruence|]. split; [congruence|].
      split; [congruence|]. intros id. by rewrite l1.
    + intros [o1 u1] [o2 u2]. split; [tauto|auto].
    + intros [r1 c1] [r2 c2]. split; [tauto|]. intros c Hc Hb. destruct (c1 c Hc Hb) as (c' & Hc' & Hb' & Ht').
      destruct (c2 c' Hc' Hb') as (c'' & Hc'' & Hb'' & Ht''). exists c''. split; [done|]. split; [done|].
      intros Hs. rewrite <- (Ht' Hs). apply Ht''. by rewrite (Ht' Hs).
    + intros [e1|[e1 f1]] [e2|[e2 f2]]; unfold timer_evolves; try (left; congruence); right; split; congruence.
  - intros [|p|p|id] h h' Hr; cbn; [done| | |].
    + intros [? _]. by apply bool_decide_ext.
    + intros [? _]. by apply bool_decide_ext.
    + intros. by apply bool_decide_ext, timer_evolves_some.
  - intros l h h' _ Hp _ _. destruct l; [|done..]. destruct Hp as (Hw & Hs & Hg & Hl).
    unfold linv, timers_ok, idle_ok. rewrite Hw, Hs, Hg. intros [Ht Hx]. split.
    + intros id Hid. by apply Hl, Ht.
    + intros H1 H2. destruct (Hx H1 H2) as [id Hid]. exists id. by apply Hl.
  - intros h h' []. cbn. split; [cbn; lia|]. split; [cbn; lia|]. split; [done|]. eauto.
  - intros l h h' [ctx e h0 _]. pose proof (prot_refl_ l h0) as Hp. destruct l; exact Hp.
  - intros h h' [ctx e h0 _] []. by split.
Qed.

Abbreviation trans := (RelyGuarantee.trans hist prot inv role taken bound).
Abbreviation rely := (RelyGuarantee.rely hist prot).
Abbreviation held := (RelyGuarantee.held_roles role taken).

(** ** The actions *)

Lemma justified_mono h h' p key redirect r :
  requests h `prefix_of` requests h' -> justified h p key redirect r -> justified h' p key redirect r.
Proof.
  intros Hp Hj u Hu. destruct (Hj u Hu) as (i & req & Hi & ?). exists i, req. split; [|done].
  by eapply prefix_lookup_Some.
Qed.

Lemma chan_ok_mono h h' p c :
  requests h `prefix_of` requests h' -> chan_ok h p c -> chan_ok h' p c.
Proof.
  intros Hp. unfold chan_ok. destruct (cTaken c); [|done]. intros (req & Hi & ?). exists req.
  split; [|done]. by eapply prefix_lookup_Some.
Qed.

Lemma hist_chans h h' :
  chans h' = chans h -> (nextChan h <= nextChan h')%nat -> (nextTimer h <= nextTimer h')%nat ->
  requests h `prefix_of` requests h' -> hist h h'.
Proof. intros Hc ? ? ?. split; [done|]. split; [done|]. split; [done|]. rewrite Hc. eauto. Qed.

(** An action of the holder of [mu] on the broker alone: it may acquire and give
    up timers. *)
Lemma broker_trans H H' h h' (K : gset role_ -> Prop) :
  mu ∈ H -> inv h -> held H h ->
  chans h' = chans h -> opened h' = opened h -> resolving h' = resolving h ->
  returned h' = returned h -> requests h' = requests h -> nextChan h' = nextChan h ->
  (nextTimer h <= nextTimer h')%nat ->
  (forall l, (forall id, l <> timerRole id) -> l ∈ H <-> l ∈ H') ->
  (forall id, timerRole id ∈ H' -> is_Some (timers h' !! id)) ->
  (forall id, timerRole id ∈ H -> timerRole id ∉ H' -> timers h' !! id = None) ->
  (forall id, timerRole id ∉ H -> timerRole id ∈ H' -> timers h !! id = None) ->
  (forall id, timerRole id ∉ H -> timerRole id ∉ H' -> timer_evolves (timers h !! id) (timers h' !! id)) ->
  (forall id, is_Some (timers h' !! id) -> (id < nextTimer h')%nat) ->
  (waiters h' <> ∅ -> server h' = true) ->
  (forall key p, waiters h' !! key = Some p ->
     waiter_ok h key p /\ (ownerRole p ∈ H \/ exists key', waiters h !! key' = Some p)) ->
  K H' -> trans H h h' K.
Proof.
  intros Hmu Hi Hh Ec Eo Er Et Eq En Hnt Hl T1 T2 T3 T4 T5 Hsrv Hw HK _.
  assert (Hpre : requests h `prefix_of` requests h') by (by rewrite Eq).
  exists H'. split; [split|split; [|split; [|split]]]; [| | | | | | |done].
  - intros [] Hr; try done. by apply Hl.
  - intros [|p|p|id] Hr Hin; cbn; [done| | |].
    + rewrite Eo. apply (Hh (ownerRole p)); [|done]. by apply Hl.
    + rewrite Er. apply (Hh (senderRole p)); [|done]. by apply Hl.
    + by apply bool_decide_eq_true_2, T1.
  - intros [|p|p|id] Hr Hin Hout; [done| | |]; cbn.
    + by apply Hl in Hin.
    + by apply Hl in Hin.
    + apply bool_decide_eq_false_2. rewrite (T2 id Hin Hout). by intros [].
  - intros [|p|p|id] Hr Hout Hin; [done| | |]; cbn.
    + by apply Hl in Hin.
    + by apply Hl in Hin.
    + apply bool_decide_eq_false_2. rewrite (T3 id Hout Hin). by intros [].
  - by apply hist_chans; [|lia|..].
  - intros [|p|p|id] Hout Hout'; cbn; [done| | |by apply T4].
    + rewrite Eo. split; [done|]. unfold unregistered. rewrite Ec. intros [? Hn]. split; [done|].
      intros key Hkp. destruct (Hw key p Hkp) as [_ [?|[key' ?]]]; [done|]. by apply (Hn key').
    + rewrite Er, Ec. split; [done|]. eauto.
  - destruct Hi as [I1 I2 I3 I4 I5 I6 I7 I8]. split; try done.
    + intros key p Hkp. destruct (Hw key p Hkp) as [(c & ?) _]. exists c. by rewrite Ec.
    + intros p c. rewrite Ec, En. intros Hc. destruct (I3 p c Hc). split; [done|]. by eapply chan_ok_mono.
    + intros p. rewrite Eo, En. apply I5.
    + intros p. rewrite Er, Ec. apply I6.
    + by rewrite Et.
    + intros r. rewrite Et, Eo, En. intros Hr. destruct (I8 r Hr) as (? & ? & ?). split; [done|].
      split; [done|]. by eapply justified_mono.
Qed.

(** An action that changes neither channels nor roles nor the broker. *)
Lemma frame_trans H h h' (K : gset role_ -> Prop) :
  inv h -> held H h ->
  waiters h' = waiters h -> server h' = server h -> graceTimer h' = graceTimer h ->
  timers h' = timers h -> nextTimer h' = nextTimer h ->
  chans h' = chans h -> opened h' = opened h -> resolving h' = resolving h ->
  returned h' = returned h -> requests h' = requests h -> nextChan h' = nextChan h ->
  K H -> trans H h h' K.
Proof.
  intros Hi Hh Ew Es Eg Eti Ent Ec Eo Er Et Eq En HK. apply trans_keep; [| | | |done].
  - apply hist_chans; [done|lia|lia|by rewrite Eq].
  - intros [|p|p|id] _; cbn.
    + unfold live. by rewrite Eti.
    + unfold unregistered. by rewrite Eo, Ec, Ew.
    + rewrite Er, Ec. split; [done|]. eauto.
    + rewrite Eti. by left.
  - intros [|p|p|id] Hr Hin; pose proof (Hh _ Hin Hr) as Ht; cbn in *;
      [done|by rewrite Eo|by rewrite Er|by rewrite Eti].
  - destruct Hi as [I1 I2 I3 I4 I5 I6 I7 I8]. unfold waiter_ok, chan_ok, return_ok, justified in *.
    split; rewrite ?Ew, ?Es, ?Eti, ?Ent, ?Ec, ?Eo, ?Er, ?Et, ?En; try done;
      unfold waiter_ok, chan_ok, return_ok, justified; intros *; rewrite ?Ec, ?Eq; eauto.
Qed.

(** An action of the holder of [mu] on the waiters and the server. *)
Lemma waiters_trans H h h' (K : gset role_ -> Prop) :
  mu ∈ H -> inv h -> held H h ->
  timers h' = timers h -> nextTimer h' = nextTimer h ->
  chans h' = chans h -> opened h' = opened h -> resolving h' = resolving h ->
  returned h' = returned h -> requests h' = requests h -> nextChan h' = nextChan h ->
  (waiters h' <> ∅ -> server h' = true) ->
  (forall key p, waiters h' !! key = Some p ->
     waiter_ok h key p /\ (ownerRole p ∈ H \/ exists key', waiters h !! key' = Some p)) ->
  K H -> trans H h h' K.
Proof.
  intros Hmu Hi Hh Et En. intros. apply (broker_trans H H); try done.
  - lia.
  - intros id Hin. rewrite Et. specialize (Hh _ Hin eq_refl). cbn in Hh. by apply bool_decide_eq_true in Hh.
  - intros id _ _. rewrite Et. by left.
  - intros id. rewrite Et, En. apply (inv_timers _ Hi).
Qed.

Lemma removeWaiter_trans key H h (K : gset role_ -> Prop) :
  mu ∈ H -> inv h -> held H h -> K H -> trans H h (removeWaiter key h).2 K.
Proof.
  intros Hmu Hi Hh HK. apply waiters_trans; try done; cbn.
  - intros Hn. apply (inv_server _ Hi). intros He. by rewrite He, delete_empty in Hn.
  - intros key' p [_ Hl]%lookup_delete_Some. split; [by apply (inv_waiters _ Hi)|eauto].
Qed.

Lemma addWaiter_trans key p H h (K : gset role_ -> Prop) :
  mu ∈ H -> inv h -> held H h -> server h = true -> waiter_ok h key p ->
  ownerRole p ∈ H -> K H -> trans H h (addWaiter key p h) K.
Proof.
  intros Hmu Hi Hh Hs Hw Ho HK. apply waiters_trans; try done; cbn.
  intros key' p' [[<- <-]|[_ Hl]]%lookup_insert_Some; [by auto|]. split; [by apply (inv_waiters _ Hi)|eauto].
Qed.

Lemma stopTimer_shape h :
  (exists x, stopTimer h = h <| timers := x |> <| graceTimer := graceTimer (stopTimer h) |>) /\
  graceTimer (stopTimer h) = None /\
  (forall id, timer_evolves (timers h !! id) (timers (stopTimer h) !! id)).
Proof.
  unfold stopTimer. destruct (graceTimer h) as [id|] eqn:Eg.
  - destruct (timers h !! id) as [[]|] eqn:Et; cbn;
      try (split; [exists (timers h); by destruct h|]; split; [done|]; intros id'; by left).
    split; [by eexists|]. split; [done|]. intros id'. destruct (decide (id' = id)) as [->|Hne].
    + rewrite lookup_insert_eq, Et. by right.
    + rewrite lookup_insert_ne by done. by left.
  - split; [exists (timers h); destruct h; cbn in *; by subst|]. split; [done|]. intros id. by left.
Qed.

Lemma stopTimer_trans H h (K : gset role_ -> Prop) :
  mu ∈ H -> inv h -> held H h -> K H -> trans H h (stopTimer h) K.
Proof.
  intros Hmu Hi Hh HK. destruct (stopTimer_shape h) as ([x Hx] & _ & Ht).
  assert (Hs : forall id, is_Some (timers h !! id) <-> is_Some (timers (stopTimer h) !! id))
    by (intros id; by apply timer_evolves_some).
  rewrite Hx in Ht, Hs |- *. apply (broker_trans H H); try done; cbn in *.
  - intros id Hin. apply Hs. specialize (Hh _ Hin eq_refl). by apply bool_decide_eq_true in Hh.
  - intros id Hid%Hs. by apply (inv_timers _ Hi).
  - apply (inv_server _ Hi).
  - intros key p Hkp. split; [by apply (inv_waiters _ Hi)|eauto].
Qed.

(** Arming a timer acquires it for the goroutine that will run it. *)
Lemma arm_trans H h (K : gset role_ -> Prop) :
  mu ∈ H -> inv h -> held H h ->
  ((arm h).1 = None -> (arm h).2 = h -> K H) ->
  (forall id, (arm h).1 = Some id -> timerRole id ∉ H -> K ({[timerRole id]} ∪ H)) ->
  trans H h (arm h).2 K.
Proof.
  intros Hmu Hi Hh Hk1 Hk2. unfold arm in *. case_match; cbn in *; [|by apply (trans_refl desktop_laws); auto].
  assert (Hf : timers h !! nextTimer h = None).
  { apply eq_None_not_Some. intros Hs%(inv_timers _ Hi). lia. }
  assert (Hnew : timerRole (nextTimer h) ∉ H).
  { intros Hin. specialize (Hh _ Hin eq_refl). cbn in Hh. apply bool_decide_eq_true in Hh.
    rewrite Hf in Hh. by destruct Hh. }
  apply (broker_trans H ({[timerRole (nextTimer h)]} ∪ H)); try done; cbn.
  - lia.
  - intros l Hl. specialize (Hl (nextTimer h)). set_solver.
  - intros id [Hid%elem_of_singleton|Hin]%elem_of_union.
    + injection Hid as ->. rewrite lookup_insert_eq. eauto.
    + destruct (decide (id = nextTimer h)) as [->|Hne]; [by rewrite lookup_insert_eq; eauto|].
      rewrite lookup_insert_ne by done. specialize (Hh _ Hin eq_refl). by apply bool_decide_eq_true in Hh.
  - intros id Hin Hout. destruct Hout. by apply elem_of_union_r.
  - intros id Hout [Hid%elem_of_singleton|Hin]%elem_of_union; [by injection Hid as ->|done].
  - intros id _ Hout. rewrite lookup_insert_ne by (intros <-; set_solver). by left.
  - intros id. destruct (decide (id = nextTimer h)) as [->|Hne]; [lia|].
    rewrite lookup_insert_ne by done. intros Hs%(inv_timers _ Hi). lia.
  - apply (inv_server _ Hi).
  - intros key p Hkp. split; [by apply (inv_waiters _ Hi)|eauto].
  - by apply Hk2.
Qed.

(** The end of a timer's goroutine. *)
Lemma closeIfIdle_trans id h (K : gset role_ -> Prop) :
  inv h -> held {[mu; timerRole id]} h -> K {[mu]} ->
  trans {[mu; timerRole id]} h (closeIfIdle id h) K.
Proof.
  intros Hi Hh HK.
  assert (Hx : timers (closeIfIdle id h) = delete id (timers h) /\ waiters (closeIfIdle id h) = waiters h /\
    (waiters h <> ∅ -> server (closeIfIdle id h) = true)).
  { pose proof (inv_server _ Hi) as Hs. unfold closeIfIdle. cbn. case_match eqn:E; cbn; [done|].
    apply orb_false_iff in E as [E _]. apply negb_false_iff, bool_decide_eq_true in E. by split_and!. }
  destruct Hx as (Et & Ew & Es).
  apply (broker_trans {[mu; timerRole id]} {[mu]}); try done;
    try (unfold closeIfIdle; cbn; by case_match).
  - set_solver.
  - intros l Hl. specialize (Hl id). set_solver.
  - intros id' Hin Hout. assert (id' = id) as -> by set_solver. by rewrite Et, lookup_delete_eq.
  - intros id' Hout _. rewrite Et, lookup_delete_ne by set_solver. by left.
  - intros id'. rewrite Et. intros [x [_ Hx]%lookup_delete_Some].
    replace (nextTimer (closeIfIdle id h)) with (nextTimer h) by (unfold closeIfIdle; cbn; by case_match).
    apply (inv_timers _ Hi). by exists x.
  - by rewrite Ew.
  - rewrite Ew. intros key p Hkp. split; [by apply (inv_waiters _ Hi)|eauto].
Qed.

(** The actions on channels.  Each changes one of them. *)
Lemma live_timers h h' : timers h' = timers h -> forall id, live h id <-> live h' id.
Proof. intros E id. unfold live. by rewrite E. Qed.

Lemma makeChan_trans key h (K : gset role_ -> Prop) :
  inv h -> K {[ownerRole (nextChan h)]} ->
  trans ∅ h (makeChan key h).2 K.
Proof.
  intros Hi HK _. destruct Hi as [I1 I2 I3 I4 I5 I6 I7 I8].
  assert (Hf : chans h !! nextChan h = None).
  { destruct (chans h !! nextChan h) as [c|] eqn:Ec; [|done]. destruct (I3 _ _ Ec). lia. }
  assert (Hno : nextChan h ∉ opened h) by (intros Hin%I5; lia).
  assert (Hk : forall p c, chans h !! p = Some c -> chans (makeChan key h).2 !! p = Some c).
  { intros p c Hc. cbn. rewrite lookup_insert_ne; [done|]. congruence. }
  exists {[ownerRole (nextChan h)]}. split; [split|split; [|split; [|split]]]; [| | | | | | |done].
  - intros [] Hr; try done; set_solver.
  - intros l _ ->%elem_of_singleton. cbn. apply bool_decide_eq_true_2. set_solver.
  - set_solver.
  - intros l _ _ ->%elem_of_singleton. cbn. by apply bool_decide_eq_false_2.
  - split; [cbn; lia|]. split; [cbn; lia|]. split; [done|]. intros p c Hc. exists c. by rewrite (Hk p c Hc).
  - intros [|p|p|id] _ Hp; cbn.
    + done.
    + assert (p <> nextChan h) by set_solver. split; [set_solver|]. intros [(c & Hc & ?) ?].
      split; [|done]. exists c. cbn. by rewrite lookup_insert_ne by done.
    + split; [done|]. intros c Hc Hb. exists c. pose proof (Hk p c Hc) as Hkc. by cbn in Hkc.
    + by left.
  - split; try done.
    + intros key' p (c & Hc & ?)%I2. exists c. by rewrite (Hk p c Hc).
    + intros p c. cbn. intros [[<- <-]|[_ Hc]]%lookup_insert_Some; [split; [lia|done]|].
      destruct (I3 p c Hc). split; [lia|done].
    + intros p. cbn. intros [->%elem_of_singleton|Hin%I5]%elem_of_union; lia.
    + intros p (c & i & Hc & ?)%I6. exists c, i. by rewrite (Hk p c Hc).
    + intros r Hr. destruct (I8 r Hr) as (Hn & Hlt & Hok). cbn. split; [|split; [lia|done]].
      rewrite not_elem_of_union, not_elem_of_singleton. split; [lia|done].
Qed.

Lemma makeChan_unregistered key h : inv h -> unregistered (makeChan key h).2 (nextChan h).
Proof.
  intros Hi. split; [eexists; cbn; by rewrite lookup_insert_eq|]. intros key' Hk. cbn in Hk.
  destruct (inv_waiters _ Hi _ _ Hk) as (c & Hc & _). destruct (inv_chans _ Hi _ _ Hc). lia.
Qed.

(** Changing what a channel holds. *)
Lemma buffer_trans H H' h h' p c b (K : gset role_ -> Prop) :
  inv h -> held H h -> chans h !! p = Some c ->
  h' = h <| chans := <[p := c <| cBuf := b |>]> (chans h) |> <| resolving := resolving h' |> ->
  (forall l, l <> senderRole p -> l ∈ H <-> l ∈ H') -> senderRole p ∉ H' ->
  (forall q, q <> p -> q ∈ resolving h' <-> q ∈ resolving h) ->
  ((senderRole p ∈ H /\ p ∉ resolving h') \/ (senderRole p ∉ H /\ (p ∈ resolving h' <-> p ∈ resolving h) /\ b = None)) ->
  (exists i, cTaken c = Some i /\ forall req raw, b = Some raw -> requests h !! i = Some req -> raw = qRawQuery req) ->
  K H' -> trans H h h' K.
Proof.
  intros Hi Hh Hc E Hl Hs' Hq Hcase (i & Hti & Hraw) HK _. revert E Hq Hcase. generalize (resolving h') as rs.
  intros rs -> Hq Hcase. destruct Hi as [I1 I2 I3 I4 I5 I6 I7 I8].
  assert (Hnw : forall key, waiters h !! key <> Some p).
  { intros key (c' & Hc' & _ & Ht & _)%I2. congruence. }
  exists H'. split; [split|split; [|split; [|split]]]; [| | | | | | |done].
  - intros [] Hr; try done. by apply Hl.
  - intros l Hr Hin. assert (Hl' : l <> senderRole p) by (intros ->; done).
    specialize (Hh l (proj2 (Hl l Hl') Hin) Hr). destruct l as [|q|q|id]; cbn in *; [done|done| |done].
    apply bool_decide_eq_true in Hh. apply bool_decide_eq_true_2, Hq; [congruence|done].
  - intros l Hr Hin Hout. destruct (decide (l = senderRole p)) as [->|Hne]; [|by apply Hl in Hin].
    cbn. apply bool_decide_eq_false_2. by destruct Hcase as [[_ ?]|[? _]].
  - intros l Hr Hout Hin. destruct (decide (l = senderRole p)) as [->|Hne]; [done|]. by apply Hl in Hin.
  - split; [cbn; lia|]. split; [cbn; lia|]. split; [done|]. intros q cq Hcq. cbn.
    destruct (decide (q = p)) as [->|Hne]; [rewrite lookup_insert_eq|rewrite lookup_insert_ne by done; eauto].
    rewrite Hc in Hcq. injection Hcq as <-. eauto.
  - intros [|q|q|id] Hout _; cbn; [done| | |by left].
    + split; [done|]. intros [(cq & Hcq & Ht & Hb) Hn]. split; [|done].
      assert (q <> p) by congruence. exists cq. cbn. by rewrite lookup_insert_ne.
    + destruct (decide (q = p)) as [->|Hne].
      * destruct Hcase as [[? _]|(_ & Hr & ->)]; [done|]. split; [done|]. intros cq Hcq Hb.
        rewrite Hc in Hcq. injection Hcq as <-. rewrite lookup_insert_eq. eauto.
      * split; [by rewrite Hq|]. intros cq Hcq Hb. rewrite lookup_insert_ne by done. eauto.
  - split; cbn; try done.
    + intros key q Hkq. destruct (I2 key q Hkq) as (cq & Hcq & ?). exists cq. cbn.
      rewrite lookup_insert_ne; [done|]. intros <-. by apply Hnw in Hkq.
    + intros q cq [[<- <-]|[_ Hcq]]%lookup_insert_Some; [|by apply I3].
      destruct (I3 _ _ Hc) as [Hlt Hok]. split; [done|]. unfold chan_ok in *. cbn. rewrite Hti in *.
      destruct Hok as (req & Hreq & Hres & Hkey & _). exists req. split; [done|]. split; [done|].
      split; [done|]. intros raw Hb. by apply (Hraw req raw).
    + intros q Hin. destruct (decide (q = p)) as [->|Hne].
      * rewrite lookup_insert_eq. by exists (c <| cBuf := b |>), i.
      * rewrite lookup_insert_ne by done. apply I6. by apply Hq.
Qed.

Lemma flowReady_callback ctx p raw h h' :
  inv h -> flowReady ctx p h (SelCallback raw) = Some h' ->
  exists c i req, chans h !! p = Some c /\ cBuf c = Some raw /\ cTaken c = Some i /\
    requests h !! i = Some req /\ qResolved req = Some p /\
    requestKey (qPath req) (qRawQuery req) = cKey c /\ raw = qRawQuery req /\
    h' = h <| chans := <[p := c <| cBuf := None |>]> (chans h) |>.
Proof.
  intros Hi. cbn. case_bool_decide as Hr; [|done]. intros [= <-]. revert Hr.
  unfold receive. destruct (chans h !! p) as [c|] eqn:Ec; [|done]. cbn. intros Hb.
  destruct (inv_chans _ Hi _ _ Ec) as [_ Hok]. unfold chan_ok in Hok.
  destruct (cTaken c) as [i|] eqn:Et in Hok; [|congruence]. destruct Hok as (req & ? & ? & ? & Hraw).
  exists c, i, req. pose proof (Hraw raw Hb). by split_and!.
Qed.

Lemma desktop_receive_trans ctx p raw h h' (K : gset role_ -> Prop) :
  inv h -> held {[ownerRole p]} h -> flowReady ctx p h (SelCallback raw) = Some h' ->
  K {[ownerRole p]} -> trans {[ownerRole p]} h h' K.
Proof.
  intros Hi Hh Hr HK. destruct (flowReady_callback _ _ _ _ _ Hi Hr) as (c & i & req & Hc & _ & Ht & _ & _ & _ & _ & ->).
  apply (buffer_trans {[ownerRole p]} {[ownerRole p]} _ _ p c None); try done.
  - right. split; [|done]. set_solver.
  - by exists i.
Qed.

(** What the request that resolved a waiter knows until it has sent. *)
Definition sending (p : nat) (raw : string) (h : Handler) : Prop :=
  exists c i req, chans h !! p = Some c /\ cTaken c = Some i /\ cBuf c = None /\
    requests h !! i = Some req /\ qRawQuery req = raw.

Lemma desktop_sending_rely H p raw h h' : senderRole p ∈ H -> rely H h h' -> sending p raw h -> sending p raw h'.
Proof.
  intros Hin [(_ & _ & Hp & _) Hpr] (c & i & req & Hc & Ht & Hb & Hreq & Hraw).
  destruct (Hpr _ Hin) as [_ Hx]. destruct (Hx c Hc Hb) as (c' & Hc' & Hb' & Ht').
  exists c', i, req. split; [done|]. split; [rewrite Ht'; [done|by rewrite Ht]|]. split; [done|].
  split; [by eapply prefix_lookup_Some|done].
Qed.

Lemma send_trans p raw h h' (K : gset role_ -> Prop) :
  inv h -> held {[senderRole p]} h -> sending p raw h -> sendReady p raw h tt = Some h' ->
  K ∅ -> trans {[senderRole p]} h h' K.
Proof.
  intros Hi Hh (c & i & req & Hc & Ht & Hb & Hreq & Hraw). unfold sendReady. rewrite Hc, Hb.
  intros [= <-] HK. apply (buffer_trans {[senderRole p]} ∅ _ _ p c (Some raw)); try done; cbn.
  - set_solver.
  - set_solver.
  - left. set_solver.
  - exists i. split; [done|]. intros req' raw' [= <-] Hreq'. congruence.
Qed.

(** Handling a request: it becomes one of [requests], and it takes the waiter. *)
Lemma takeWaiter_inv qpath raw h : inv h -> inv (takeWaiter qpath raw h).2.
Proof.
  intros [I1 I2 I3 I4 I5 I6 I7 I8]. unfold takeWaiter. destruct (waiters h !! requestKey qpath raw) as [p|] eqn:Ew.
  - destruct (I2 _ _ Ew) as (c & Hc & Hk & Ht & Hb).
    assert (Hother : forall key q, delete (requestKey qpath raw) (waiters h) !! key = Some q -> q <> p).
    { intros key q [Hne Hq]%lookup_delete_Some ->. destruct (I2 _ _ Hq) as (c' & Hc' & Hk' & _). congruence. }
    split; cbn; try done.
    + intros Hn. apply I1. intros He. by rewrite He, delete_empty in Hn.
    + intros key q Hq. pose proof (Hother _ _ Hq). apply lookup_delete_Some in Hq as [_ Hq].
      destruct (I2 _ _ Hq) as (cq & Hcq & ?). exists cq. cbn. by rewrite lookup_alter_ne.
    + intros q cq. destruct (decide (q = p)) as [->|Hne].
      * rewrite lookup_alter_eq, Hc. intros [= <-]. split; [by apply (I3 _ _ Hc)|].
        unfold chan_ok. cbn. eexists. split; [by apply list_lookup_middle|]. by rewrite Hb.
      * rewrite lookup_alter_ne by done. intros Hcq. destruct (I3 _ _ Hcq). split; [done|].
        eapply chan_ok_mono; [|done]. by eexists.
    + intros q [->%elem_of_singleton|Hin]%elem_of_union.
      * rewrite lookup_alter_eq, Hc. cbn. eauto.
      * destruct (I6 q Hin) as (cq & i & Hcq & Hti). destruct (decide (q = p)) as [->|Hne]; [congruence|].
        rewrite lookup_alter_ne by done. eauto.
    + intros r Hr. destruct (I8 r Hr) as (? & ? & ?). split; [done|]. split; [done|].
      eapply justified_mono; [|done]. by eexists.
  - split; cbn; try done.
    + intros q cq Hcq. destruct (I3 _ _ Hcq). split; [done|]. eapply chan_ok_mono; [|done]. by eexists.
    + intros r Hr. destruct (I8 r Hr) as (? & ? & ?). split; [done|]. split; [done|].
      eapply justified_mono; [|done]. by eexists.
Qed.

Lemma takeWaiter_hist qpath raw h : hist h (takeWaiter qpath raw h).2.
Proof.
  unfold takeWaiter. case_match; (split; [cbn; lia|split; [cbn; lia|split; [by eexists|]]]); cbn; [|eauto].
  intros q c Hc. destruct (decide (q = n)) as [->|Hne].
  - rewrite lookup_alter_eq, Hc. cbn. eauto.
  - rewrite lookup_alter_ne by done. eauto.
Qed.

Lemma takeWaiter_trans qpath raw h (K : gset role_ -> Prop) :
  inv h -> held {[mu]} h ->
  ((takeWaiter qpath raw h).1 = None -> K {[mu]}) ->
  (forall p, (takeWaiter qpath raw h).1 = Some p -> sending p raw (takeWaiter qpath raw h).2 ->
     K {[mu; senderRole p]}) ->
  trans {[mu]} h (takeWaiter qpath raw h).2 K.
Proof.
  intros Hi Hh Hk1 Hk2 _. pose proof (takeWaiter_inv qpath raw h Hi) as Hi'.
  pose proof (takeWaiter_hist qpath raw h) as Hhi. unfold takeWaiter in *.
  destruct (waiters h !! requestKey qpath raw) as [p|] eqn:Ew; cbn [fst snd] in *.
  - destruct (inv_waiters _ Hi _ _ Ew) as (c & Hc & Hk & Ht & Hb).
    exists {[mu; senderRole p]}. split; [split|split; [done|split; [|split; [done|]]]].
    + intros [] Hr; try done; set_solver.
    + intros l Hr [->%elem_of_singleton| ->%elem_of_singleton]%elem_of_union; [done|].
      cbn. apply bool_decide_eq_true_2. set_solver.
    + set_solver.
    + intros l Hr Hout [->%elem_of_singleton| ->%elem_of_singleton]%elem_of_union; [done|].
      cbn. apply bool_decide_eq_false_2. intros (c' & i & Hc' & ?)%(inv_resolving _ Hi). congruence.
    + intros [|q|q|id] Hout Hout'; cbn; [set_solver| | |by left].
      * split; [done|]. intros [(cq & Hcq & ?) Hn]. assert (q <> p) by (intros ->; by apply Hn in Ew).
        split; [exists cq; cbn; by rewrite lookup_alter_ne|]. cbn.
        intros key [_ Hq]%lookup_delete_Some. by apply Hn in Hq.
      * assert (q <> p) by set_solver. split; [set_solver|]. intros cq Hcq Hbq.
        rewrite lookup_alter_ne by done. eauto.
    + apply Hk2; [done|]. exists (c <| cTaken := Some (length (requests h)) |>), (length (requests h)), (mkRequest qpath raw (Some p)).
      cbn. rewrite lookup_alter_eq, Hc. split; [done|]. split; [done|]. split; [done|].
      split; [by apply list_lookup_middle|done].
  - exists {[mu]}. split; [split|split; [done|split; [|split; [done|by apply Hk1]]]].
    + done.
    + by intros l Hr ->%elem_of_singleton.
    + done.
    + done.
    + intros [|q|q|id] Hout Hout'; cbn; [done|done| |by left]. split; [done|eauto].
Qed.

(** The timer's goroutine when it is woken. *)
Lemma timer_trans id fired h h' (K : gset role_ -> Prop) :
  inv h -> held {[timerRole id]} h -> timerReady id h fired = Some h' ->
  K (if fired then {[timerRole id]} else ∅) -> trans {[timerRole id]} h h' K.
Proof.
  intros Hi Hh. unfold timerReady. destruct (timers h !! id) as [[]|] eqn:Et; [|destruct fired|done|done];
    [destruct fired; [|done]|done|]; intros [= <-] HK _.
  - exists {[timerRole id]}. split; [split|split; [|split; [|split]]]; try done.
    + intros l _ ->%elem_of_singleton. cbn. apply bool_decide_eq_true_2. rewrite lookup_insert_eq. eauto.
    + by apply hist_chans; [|cbn; lia..|].
    + intros [|q|q|id'] Hout _; cbn.
      * split; [done|]. split; [done|]. split; [done|]. intros id'. unfold live. cbn.
        destruct (decide (id' = id)) as [->|Hne]; [rewrite lookup_insert_eq, Et; naive_solver|].
        by rewrite lookup_insert_ne.
      * done.
      * split; [done|eauto].
      * rewrite lookup_insert_ne by set_solver. by left.
    + destruct Hi as [I1 I2 I3 I4 I5 I6 I7 I8]. split; try done. cbn. intros id'.
      destruct (decide (id' = id)) as [->|Hne]; [intros _; apply I4; by rewrite Et|].
      rewrite lookup_insert_ne by done. apply I4.
  - exists ∅. split; [split|split; [|split; [|split]]]; try done.
    + intros [] Hr; try done; set_solver.
    + intros l _ ->%elem_of_singleton _. cbn. apply bool_decide_eq_false_2. rewrite lookup_delete_eq. by intros [].
    + by apply hist_chans; [|cbn; lia..|].
    + intros [|q|q|id'] Hout _; cbn.
      * split; [done|]. split; [done|]. split; [done|]. intros id'. unfold live. cbn.
        destruct (decide (id' = id)) as [->|Hne]; [rewrite lookup_delete_eq, Et; naive_solver|].
        by rewrite lookup_delete_ne.
      * done.
      * split; [done|eauto].
      * rewrite lookup_delete_ne by set_solver. by left.
    + destruct Hi as [I1 I2 I3 I4 I5 I6 I7 I8]. split; try done. cbn. intros id' [x [_ Hx]%lookup_delete_Some].
      apply I4. by exists x.
Qed.

(** A flow returns. *)
Lemma desktop_logReturn_trans p target fpath redirect r h (K : gset role_ -> Prop) :
  inv h -> held {[ownerRole p]} h ->
  justified h p (callbackKey fpath (stateFromURL target)) redirect r -> K ∅ ->
  trans {[ownerRole p]} h (logReturn p target fpath redirect r h) K.
Proof.
  intros Hi Hh Hj HK _. pose proof (Hh (ownerRole p) ltac:(set_solver) eq_refl) as Hop.
  cbn in Hop. apply bool_decide_eq_true in Hop. exists ∅. split; [split|split; [|split; [|split]]]; [| | | | | | |done].
  - intros [] Hr; try done; set_solver.
  - set_solver.
  - intros l _ ->%elem_of_singleton _. cbn. apply bool_decide_eq_false_2. set_solver.
  - set_solver.
  - by apply hist_chans; [|cbn; lia..|].
  - intros [|q|q|id] Hout _; cbn; [done| |split; [done|eauto]|by left].
    assert (q <> p) by set_solver. split; [set_solver|]. by intros [? ?].
  - destruct Hi as [I1 I2 I3 I4 I5 I6 I7 I8]. split; cbn; try done.
    + intros q Hq. apply I5. set_solver.
    + rewrite fmap_app. cbn. apply NoDup_app. split; [done|]. split.
      * intros q (r' & -> & Hr)%list_elem_of_fmap Hp%list_elem_of_singleton. destruct (I8 r' Hr) as [Hn _].
        cbn in Hp. apply Hn. by rewrite Hp.
      * apply NoDup_singleton.
    + intros r' [Hr| ->%list_elem_of_singleton]%elem_of_app.
      * destruct (I8 r' Hr) as (Hr1 & Hr2 & Hr3). split; [set_solver|]. by split.
      * cbn. split; [set_solver|]. split; [by apply I5|]. exact Hj.
Qed.
