(* ===== verification/DesktopProps.v ===== *)
(** What the desktop callback broker guarantees in every interleaving of flows,
    requests, timers and cancellations. *)
From stdpp Require Import pretty.
From Stdlib Require Import Ascii.
From S2P Require Import Prelude Proc RelyGuarantee Schedules GoStrings GoUrl UrlProps Loopback Desktopflow DesktopInv.

Section DesktopProps.
  Context (cfg : handlerConfig) (html : pages)
          (defaultSuccessHTML defaultErrorHTML defaultLogoutHTML : string).

Abbreviation wp := (RelyGuarantee.wp hist prot inv linv rank role taken (pre cfg) answers bound).

(** ** The goroutines *)

Lemma timers_ok_rely H h h' : mu ∈ H -> rely H h h' -> timers_ok h -> timers_ok h'.
Proof.
  intros Hmu [_ Hp] Ht id Hid. destruct (Hp mu Hmu) as (_ & _ & Hg & Hl). apply Hl, Ht. congruence.
Qed.

Lemma desktop_linv_rely H h h' : mu ∈ H -> rely H h h' -> linv mu h -> linv mu h'.
Proof.
  intros Hmu HR [Ht Hx]. split; [by eapply timers_ok_rely|]. destruct HR as [_ Hp].
  destruct (Hp mu Hmu) as (Hw & Hs & _ & Hl). intros H1 H2. rewrite Hs in H1. rewrite Hw in H2.
  destruct (Hx H1 H2) as [id Hid]. exists id. by apply Hl.
Qed.

Lemma wp_unlock_mu {A} (a : A) H h (Post : A -> gset role_ -> Handler -> Prop) :
  mu ∉ H -> linv mu h -> (forall h', hist h h' -> Post a H h') ->
  wp (unlock mu ;;; Ret a) ({[mu]} ∪ H) Post h.
Proof.
  intros Hout Hl HP. apply wp_unlock; [done|set_solver|]. intros h1 HR1 _ _.
  split; [eapply desktop_linv_rely; [|done..]; set_solver|].
  replace (({[mu]} ∪ H) ∖ {[mu]}) with H by set_solver. apply wp_ret. intros h2 HR2 _ _. apply HP.
  destruct HR1, HR2. by eapply (hist_trans _ desktop_laws).
Qed.

Lemma wp_timer id h : wp (timer id) {[timerRole id]} (fun _ H _ => H = ∅) h.
Proof.
  unfold timer. apply wp_select. intros h1 _ Hi1 Hh1. split; [set_solver|]. intros fired h2 _ Hr.
  eapply timer_trans; [done..|]. destruct fired; cbn [when]; [|by apply wp_ret].
  unfold graceShutdown. apply wp_lock; [done|set_solver|set_solver|]. intros h3 _ _ _ _.
  apply wp_modify. intros h4 _ Hi4 Hh4. apply closeIfIdle_trans; [done|done|].
  change (unlock mu) with (@bind Handler role_ desktopQuery _ _ (unlock mu) Ret).
  replace ({[mu]} : gset role_) with ({[mu]} ∪ ∅ : gset role_) by set_solver.
  apply (wp_unlock_mu tt); [set_solver| |done].
  unfold closeIfIdle. cbn zeta. change (waiters (h4 <| graceTimer := None |> <| timers := delete id (timers h4) |>)) with (waiters h4).
  change (server (h4 <| graceTimer := None |> <| timers := delete id (timers h4) |>)) with (server h4).
  destruct (bool_decide (waiters h4 = ∅)) eqn:Ew; cbn [negb orb].
  - destruct (server h4) eqn:Es; cbn [negb]; (split; [done|]); intros Hs; cbn in Hs; congruence.
  - split; [done|]. intros _ He. by apply bool_decide_eq_false in Ew.
Qed.

Lemma desktop_rely_sub H H' h h' : H ⊆ H' -> rely H' h h' -> rely H h h'.
Proof. intros Hs [Hh Hp]. split; [done|]. intros l Hl. by apply Hp, Hs. Qed.

Lemma arm_linv id h : timers_ok h -> (arm h).1 = Some id -> linv mu (arm h).2.
Proof.
  intros Ht. unfold arm. case_match; [|done]. intros _.
  assert (Hl : live (h <| graceTimer := Some (nextTimer h) |>
     <| timers := <[nextTimer h := TimerArmed]> (timers h) |> <| nextTimer := S (nextTimer h) |>) (nextTimer h)).
  { left. cbn. apply lookup_insert_eq. }
  split; [by intros id' [= <-]|]. intros _ _. by exists (nextTimer h).
Qed.

Lemma unarmed_linv h : timers_ok h -> (arm h).1 = None -> linv mu h.
Proof.
  intros Ht En. split; [done|]. intros Hs Hw. unfold arm in En.
  rewrite Hw, Hs, bool_decide_eq_true_2 in En by done.
  destruct (graceTimer h) as [id|] eqn:Eg; [|done]. exists id. by apply Ht.
Qed.

(** [scheduleShutdownLocked] repairs the invariant of the mutex. *)
Lemma wp_schedule H (P : Handler -> Prop) h :
  mu ∈ H -> (forall h h', rely H h h' -> P h -> P h') -> (forall h, P h -> P (arm h).2) ->
  timers_ok h -> P h -> wp scheduleShutdownLocked H (fun _ H' h => H' = H /\ linv mu h /\ P h) h.
Proof.
  intros Hmu HP Harm Ht Hh. unfold scheduleShutdownLocked. apply wp_act. intros h1 HR1 Hi1 Hh1.
  apply (HP _ _ HR1) in Hh. apply (timers_ok_rely H) in HR1 as Ht1; [|done..].
  apply arm_trans; [done|done|done| |].
  - intros En Eh. rewrite En, Eh. apply wp_ret. intros h2 HR2 _ _. split; [done|].
    split; [|by eapply HP]. eapply desktop_linv_rely; [done|exact HR2|]. by apply unarmed_linv.
  - intros id En Hnew. rewrite En. apply Harm in Hh. pose proof (arm_linv _ _ Ht1 En) as Hl.
    revert Hl Hh. generalize (arm h1).2. intros h2 Hl Hh.
    change (fork (timer id)) with (@bind Handler role_ desktopQuery _ _ (fork (timer id)) Ret).
    apply (wp_fork _ _ _ _ _ {[timerRole id]}); [set_solver|by intros l ->%elem_of_singleton|].
    intros h3 HR3 _ _. split; [apply wp_timer|].
    replace (({[timerRole id]} ∪ H) ∖ {[timerRole id]}) with H by set_solver.
    apply (desktop_rely_sub H) in HR3; [|set_solver].
    apply wp_ret. intros h4 HR4 _ _. pose proof (rely_trans desktop_laws _ _ _ _ HR3 HR4) as HR.
    split; [done|]. split; [by eapply desktop_linv_rely|by eapply HP].
Qed.

(** *** Registration *)

Definition keyed (p : nat) (key : string) (h : Handler) : Prop :=
  exists c, chans h !! p = Some c /\ cKey c = key.

Lemma keyed_hist p key h h' : hist h h' -> keyed p key h -> keyed p key h'.
Proof. intros (_ & _ & _ & Hk) (c & Hc & <-). destruct (Hk p c Hc) as (c' & ? & ?). by exists c'. Qed.

Lemma keyed_rely H p key h h' : rely H h h' -> keyed p key h -> keyed p key h'.
Proof. intros [Hh _]. by apply keyed_hist. Qed.

(** What [register] knows once it has stopped the timer. *)
Definition registering (p : nat) (key : string) (up : bool) (h : Handler) : Prop :=
  timers_ok h /\ unregistered h p /\ keyed p key h /\ server h = up.

Lemma registering_rely H p key up h h' :
  mu ∈ H -> ownerRole p ∈ H -> rely H h h' -> registering p key up h -> registering p key up h'.
Proof.
  intros Hmu Ho HR (Ht & Hu & Hk & Hs). split; [by eapply timers_ok_rely|].
  split; [destruct HR as [_ Hp]; by apply (Hp _ Ho)|]. split; [by eapply keyed_rely|].
  destruct HR as [_ Hp]. destruct (Hp _ Hmu) as (_ & Hse & _). congruence.
Qed.

Lemma unregistered_waiter p key h : unregistered h p -> keyed p key h -> waiter_ok h key p.
Proof. intros [(c & Hc & ? & ?) _] (c' & Hc' & ?). exists c. split; [done|]. split; [congruence|done]. Qed.

Lemma wp_listenAll H (P : Handler -> Prop) l :
  mu ∈ H -> (forall a, a ∈ l -> a ∈ addrs cfg) ->
  (forall h h', rely H h h' -> P h -> P h') -> forall bnd e h,
  P h -> wp (listenAll l bnd e) H (fun _ H' h => H' = H /\ P h) h.
Proof.
  intros Hmu Hl HP. induction l as [|a l IH]; intros bnd e h Hh; cbn [listenAll].
  - apply wp_ret. intros h1 HR1 _ _. split; [done|by eapply HP].
  - apply (wp_ask desktop_laws). intros h1 HR1 _ _. split; [split; [done|apply Hl; by left]|].
    intros [x|] _; (apply IH; [intros b Hb; apply Hl; by right|by eapply HP]).
Qed.

Lemma wp_startLocked p key h :
  registering p key false h ->
  wp (startLocked cfg) {[mu; ownerRole p]}
    (fun r H h => H = {[mu; ownerRole p]} /\ registering p key (is_ok r) h) h.
Proof.
  intros Hr. unfold startLocked.
  assert (Hstable : forall h h', rely {[mu; ownerRole p]} h h' -> registering p key false h ->
            registering p key false h') by (intros ? ?; apply registering_rely; set_solver).
  eapply (wp_call desktop_laws).
  { apply (wp_listenAll _ (registering p key false)); [set_solver|done|done|exact Hr]. }
  intros [[|b bs] e] H h1 [-> Hr1].
  - apply wp_ret. intros h2 HR2 _ _. split; [done|by eapply Hstable].
  - apply wp_modify. intros h2 HR2 Hi2 Hh2. pose proof (Hstable _ _ HR2 Hr1) as (Ht & Hu & Hk & Hs).
    apply waiters_trans; try done; [set_solver| |].
    { intros key' q Hq. split; [by apply (inv_waiters _ Hi2)|eauto]. }
    apply wp_ret. intros h3 HR3 _ _. split; [done|].
    eapply registering_rely; [| |exact HR3|by split_and!]; set_solver.
Qed.

Lemma wp_register key p h :
  unregistered h p -> keyed p key h ->
  wp (register cfg key p) {[ownerRole p]} (fun _ H _ => H = {[ownerRole p]}) h.
Proof.
  intros Hu Hk. unfold register. apply wp_lock; [done|set_solver|set_solver|]. intros h1 HR1 _ _ Hl1.
  assert (Hu1 : unregistered h1 p) by (destruct HR1 as [_ Hp]; apply (Hp (ownerRole p)); [set_solver|done]).
  apply (keyed_rely _ _ _ _ _ HR1) in Hk.
  apply (wp_read desktop_laws). intros h2 HR2 _ _. pose proof (desktop_linv_rely {[mu; ownerRole p]} _ _ ltac:(set_solver) HR2 Hl1) as Hl2.
  case_bool_decide as Hdup; [by apply wp_unlock_mu; [set_solver|..]|].
  apply wp_modify. intros h3 HR3 Hi3 Hh3. apply stopTimer_trans; [set_solver|done|done|].
  assert (Hr : registering p key (server h3) (stopTimer h3)).
  { pose proof (rely_trans desktop_laws _ _ _ _ HR2 HR3) as HR.
    assert (Hu3 : unregistered h3 p) by (destruct HR as [_ Hp]; apply (Hp (ownerRole p)); [set_solver|done]).
    apply (keyed_rely _ _ _ _ _ HR) in Hk. destruct (stopTimer_shape h3) as ([x Hx] & Hn & _).
    rewrite Hx in Hn |- *. split; [intros id Hid; cbn in Hid, Hn; congruence|]. by split_and!. }
  revert Hr. generalize (stopTimer h3) (server h3). clear -cfg html defaultSuccessHTML defaultErrorHTML defaultLogoutHTML.
  intros h up Hr. apply (wp_read desktop_laws). intros h1 HR1 _ _.
  pose proof (registering_rely {[mu; ownerRole p]} p _ _ _ _ ltac:(set_solver) ltac:(set_solver) HR1 Hr) as Hr1.
  assert (Hup : server h1 = up) by apply Hr1. rewrite Hup. clear Hup Hr HR1.
  eapply (wp_call desktop_laws _ _ _ (fun r H h => H = {[mu; ownerRole p]} /\ registering p key (is_ok r) h)).
  - destruct up; [|by apply wp_startLocked]. apply wp_ret. intros h2 HR2 _ _. split; [done|].
    by eapply (registering_rely {[mu; ownerRole p]}); [set_solver|set_solver|exact HR2|].
  - intros [err|[]] H h2 [-> Hr2]; cbn [is_ok] in Hr2.
    + apply wp_unlock_mu; [set_solver| |done]. destruct Hr2 as (Ht & _ & _ & Hs). split; [done|].
      intros Hs'. congruence.
    + apply wp_modify. intros h3 HR3 Hi3 Hh3.
      destruct (registering_rely {[mu; ownerRole p]} p _ _ _ _ ltac:(set_solver) ltac:(set_solver) HR3 Hr2) as (Ht & Hu & Hk & Hs).
      apply addWaiter_trans; [set_solver|done|done|done|by apply unregistered_waiter|set_solver|].
      apply wp_unlock_mu; [set_solver| |done]. split; [done|]. intros _ He. exfalso.
      cbn in He. by apply insert_non_empty in He.
Qed.

(** *** Flows *)

Lemma wp_deregister key p h :
  wp (deregister key) {[ownerRole p]} (fun _ H _ => H = {[ownerRole p]}) h.
Proof.
  unfold deregister. apply wp_lock; [done|set_solver|set_solver|]. intros h1 _ _ _ Hl1.
  apply wp_act. intros h2 HR2 Hi2 Hh2. pose proof (desktop_linv_rely {[mu; ownerRole p]} _ _ ltac:(set_solver) HR2 Hl1) as Hl2.
  apply removeWaiter_trans; [set_solver|done|done|].
  change (unlock mu) with (@bind Handler role_ desktopQuery _ _ (unlock mu) Ret).
  cbn [removeWaiter fst snd]. case_bool_decide as Hp; cbn [when].
  - eapply (wp_call desktop_laws); [apply (wp_schedule _ (fun _ => True)); [set_solver|done|done|apply Hl2|done]|].
    intros [] H h3 (-> & Hl3 & _). by apply (wp_unlock_mu tt); [set_solver|..].
  - apply (wp_unlock_mu tt); [set_solver| |done]. destruct Hl2 as [Ht Hx]. split; [done|].
    intros Hs Hw. apply Hx; [done|]. cbn in Hw. rewrite delete_id in Hw; [done|].
    by apply eq_None_not_Some.
Qed.

Lemma wp_desktopWaitFlow ctx target redirect p key h :
  keyed p key h ->
  wp (waitFlow ctx target redirect p) {[ownerRole p]}
    (fun r H h => H = {[ownerRole p]} /\ justified h p key redirect r) h.
Proof.
  intros Hk. unfold waitFlow. apply (wp_ask desktop_laws). intros h1 HR1 _ _. split; [set_solver|].
  apply (keyed_rely _ _ _ _ _ HR1) in Hk. intros [cause|] _; [by apply wp_ret|].
  apply wp_select. intros h2 HR2 Hi2 Hh2. apply (keyed_rely _ _ _ _ _ HR2) in Hk. split; [set_solver|].
  intros [raw|] h3 _ Hr.
  - eapply desktop_receive_trans; [done|done|exact Hr|].
    destruct (flowReady_callback _ _ _ _ _ Hi2 Hr) as (c & i & req & Hc & _ & _ & Hreq & Hres & Hkey & -> & ->).
    apply wp_ret. intros h4 HR4 _ _. split; [done|]. destruct HR4 as [(_ & _ & Hpre & _) _].
    eapply justified_mono; [exact Hpre|]. intros u [= <-]. exists i, req. split; [done|]. split; [done|].
    split; [|done]. destruct Hk as (c' & Hc' & <-). congruence.
  - cbn in Hr. destruct (ctxErrors h2 !! ctx); [|done]. injection Hr as <-.
    apply (trans_refl desktop_laws); [done|done|]. apply (wp_read desktop_laws). intros h3 _ _ _. by apply wp_ret.
Qed.

Lemma wp_desktopRunFlow ctx target fpath redirect h :
  wp (runFlow cfg ctx target fpath redirect) ∅ (fun _ H _ => H = ∅) h.
Proof.
  unfold runFlow. set (key := callbackKey fpath (stateFromURL target)).
  apply wp_act. intros h1 _ Hi1 _. apply makeChan_trans; [done|].
  pose proof (makeChan_unregistered key h1 Hi1) as Hu.
  assert (Hk : keyed (nextChan h1) key (makeChan key h1).2) by
    (eexists; cbn; by rewrite lookup_insert_eq).
  revert Hu Hk. change (makeChan key h1).1 with (nextChan h1).
  generalize (nextChan h1) (makeChan key h1).2. intros p h2 Hu Hk.
  eapply (wp_call_hist desktop_laws); [by apply wp_register|]. intros [err|] H h3 Hh3 ->.
  - apply wp_modify. intros h4 _ Hi4 Hh4. apply desktop_logReturn_trans; [done|done|by intros u|by apply wp_ret].
  - apply (keyed_hist _ _ _ _ Hh3) in Hk.
    eapply (wp_call desktop_laws); [by apply (wp_desktopWaitFlow ctx target redirect p key)|].
    intros r H h4 [-> Hj]. eapply (wp_call_hist desktop_laws); [apply wp_deregister|].
    intros [] H h5 Hh5 ->. apply wp_modify. intros h6 [Hh6 _] Hi6 Hhe6.
    apply desktop_logReturn_trans; [done|done| |by apply wp_ret].
    eapply justified_mono; [apply Hh6|]. eapply justified_mono; [apply Hh5|]. exact Hj.
Qed.

(** *** Requests *)

Lemma takeWaiter_broker qpath raw h :
  let h' := (takeWaiter qpath raw h).2 in
  graceTimer h' = graceTimer h /\ timers h' = timers h /\ server h' = server h /\
  ((takeWaiter qpath raw h).1 = None -> waiters h' = waiters h).
Proof. unfold takeWaiter. by case_match. Qed.

Abbreviation handle := (Desktopflow.handle cfg html defaultSuccessHTML defaultErrorHTML defaultLogoutHTML).

Lemma wp_handle qpath raw h : wp (handle qpath raw) ∅ (fun _ H _ => H = ∅) h.
Proof.
  unfold Desktopflow.handle. apply wp_lock; [done|set_solver|set_solver|]. intros h1 _ _ _ Hl1.
  replace ({[mu]} ∪ ∅ : gset role_) with ({[mu]} : gset role_) by set_solver.
  apply wp_act. intros h2 HR2 Hi2 Hh2.
  pose proof (desktop_linv_rely {[mu]} _ _ ltac:(set_solver) HR2 Hl1) as [Ht2 Hx2].
  destruct (takeWaiter_broker qpath raw h2) as (Eg & Et & Es & Ew).
  assert (Ht : timers_ok (takeWaiter qpath raw h2).2).
  { intros id. unfold live. rewrite Eg, Et. apply Ht2. }
  apply takeWaiter_trans; [done|done| |].
  - intros En. rewrite En. cbn [bind skip]. apply wp_unlock; [done|set_solver|]. intros h3 HR3 _ _. split.
    { eapply desktop_linv_rely; [|exact HR3|]; [set_solver|]. split; [exact Ht|].
      unfold idle_ok, live. rewrite Et, Es, (Ew En). exact Hx2. }
    replace ({[mu]} ∖ {[mu]} : gset role_) with (∅ : gset role_) by set_solver.
    apply (wp_read desktop_laws). intros h4 _ _ _. apply (wp_ask desktop_laws). intros h5 _ _ _.
    split; [set_solver|]. intros [] _. by apply wp_ret.
  - intros p En Hs. rewrite En. revert Ht Hs. generalize (takeWaiter qpath raw h2).2.
    clear -cfg html defaultSuccessHTML defaultErrorHTML defaultLogoutHTML. intros h Ht Hs.
    eapply (wp_call desktop_laws).
    { apply (wp_schedule _ (sending p raw)); [set_solver| | |done|done].
      - intros ? ?. apply desktop_sending_rely. set_solver.
      - intros h'. unfold arm. by case_match. }
    intros [] H h1 (-> & Hl & Hs1). apply wp_unlock; [done|set_solver|]. intros h2 HR2 _ _.
    split; [by eapply (desktop_linv_rely {[mu; senderRole p]}); [set_solver|exact HR2|]|].
    apply (desktop_rely_sub {[senderRole p]}) in HR2; [|set_solver].
    replace ({[mu; senderRole p]} ∖ {[mu]} : gset role_) with ({[senderRole p]} : gset role_) by set_solver.
    assert (Hst : forall h h', rely {[senderRole p]} h h' -> sending p raw h -> sending p raw h')
      by (intros ? ?; apply desktop_sending_rely; set_solver).
    apply (wp_read desktop_laws). intros h3 HR3 _ _. apply (wp_ask desktop_laws). intros h4 HR4 _ _.
    split; [set_solver|]. intros [] _. unfold select. intros h5 HR5 Hi5 Hh5.
    assert (Hs5 : sending p raw h5) by eauto. split.
    + split; [set_solver|]. destruct Hs5 as (c & i & req & ? & ? & ? & ?). by exists c.
    + intros [] h6 _ Hr. eapply send_trans; [done|done|done|done|by apply wp_ret].
Qed.

Abbreviation desktopApi := (Desktopflow.desktopApi cfg html defaultSuccessHTML defaultErrorHTML defaultLogoutHTML).

Lemma wp_setChecked r h : wp (let* _ := setChecked r in skip) ∅ (fun _ H _ => H = ∅) h.
Proof.
  destruct r as [e|[uri lpath]]; cbn [setChecked bind]; [by apply wp_ret|].
  apply wp_modify. intros h1 _ Hi1 Hh1. by apply frame_trans.
Qed.

Lemma wp_desktopApi p h : desktopApi p -> wp p ∅ (fun _ H _ => H = ∅) h.
Proof.
  intros [ctx u|ctx u|qpath raw|u|lpath|].
  - eapply (wp_call desktop_laws); [apply wp_desktopRunFlow|]. intros r H h1 ->. by apply wp_ret.
  - unfold StartLogoutFlow. apply (wp_read desktop_laws). intros h1 _ _ _.
    eapply (wp_call desktop_laws); [apply wp_desktopRunFlow|]. intros r H h2 ->. by apply wp_ret.
  - apply wp_handle.
  - apply wp_setChecked.
  - apply wp_setChecked.
  - apply (wp_read desktop_laws). intros h1 _ _ _. by apply wp_ret.
Qed.

(** ** Every interleaving *)

Abbreviation desktopConfig := (@Proc.config Handler role_ _ _ desktopQuery).
Definition desktopReachable : desktopConfig -> Prop :=
  reachable desktopEnv desktopApi answers bound (newHandler cfg).

Lemma desktopReachable_ok c :
  desktopReachable c -> config_ok hist prot inv linv rank role taken (pre cfg) answers bound c.
Proof.
  apply (reachable_ok desktop_laws).
  - intros p h Hp _. by apply wp_desktopApi.
  - split; try done.
    + intros id [x Hx]. done.
    + apply NoDup_nil_2.
    + intros r Hr. by apply elem_of_nil in Hr.
  - by intros [] Hr.
  - intros [|p|p|id] Hr; [done| | |]; cbn; apply bool_decide_eq_false_2; try set_solver.
    rewrite lookup_empty. by intros [].
Qed.

(** What a flow returned, and the request that resolved it. *)
Lemma desktop_returned c r u :
  desktopReachable c -> r ∈ returned (world c) -> rResult r = Ok u ->
  exists req, req ∈ requests (world c) /\ u = callbackURL (rRedirectURI r) (qRawQuery req) /\
    (ContainsByte (rPath r) (ascii_of_nat 0) = false ->
     ContainsByte (stateFromURL (rTarget r)) (ascii_of_nat 0) = false ->
     qPath req = rPath r /\ Values_Get (queryOf (qRawQuery req)) "state" = stateFromURL (rTarget r)) /\
    (forall r', r' ∈ returned (world c) -> qResolved req = Some (rFlow r') -> r' = r) /\
    qResolved req = Some (rFlow r).
Proof.
  intros Hc Hr Hu. apply desktopReachable_ok in Hc as [own Hok]. pose proof (ok_inv _ _ Hok) as Hi.
  destruct (inv_returned _ Hi r Hr) as (_ & _ & Hj). destruct (Hj u Hu) as (i & req & Hreq & Hres & Hkey & ->).
  exists req. split; [by eapply list_elem_of_lookup_2|]. split; [done|]. split; [|split; [|done]].
  - intros H1 H2. by destruct (callbackKey_inj _ _ _ _ H1 H2 (eq_sym Hkey)).
  - intros r' Hr' Heq. rewrite Hres in Heq. injection Heq as Heq.
    apply list_elem_of_lookup in Hr as [n Hn], Hr' as [n' Hn'].
    assert (n = n') as ->; [|congruence].
    apply (NoDup_lookup _ _ _ (rFlow r) (inv_nodup _ Hi)); rewrite list_lookup_fmap; [by rewrite Hn|].
    by rewrite Hn'; cbn; rewrite Heq.
Qed.

(** C22: A callback resolves only the flow that started it.  In every interleaving
    of flows, requests, timers and cancellations, a flow that returned a callback
    returned the query of a request to the server that named this flow (its path
    and its state, when these contain no NUL byte); that request resolved no other
    flow. *)
Theorem desktop_returns c r u :
  desktopReachable c -> r ∈ returned (world c) -> rResult r = Ok u ->
  exists req, req ∈ requests (world c) /\ u = callbackURL (rRedirectURI r) (qRawQuery req) /\
    (ContainsByte (rPath r) (ascii_of_nat 0) = false ->
     ContainsByte (stateFromURL (rTarget r)) (ascii_of_nat 0) = false ->
     qPath req = rPath r /\ Values_Get (queryOf (qRawQuery req)) "state" = stateFromURL (rTarget r)) /\
    (forall r', r' ∈ returned (world c) -> qResolved req = Some (rFlow r') -> r' = r) /\
    qResolved req = Some (rFlow r).
Proof. apply desktop_returned. Qed.

(** C23: The server is up while a flow waits for its callback, and an idle server is
    about to be closed: unless the broker is being changed, a goroutine of a
    pending timer is still to run. *)
Theorem desktop_server c :
  desktopReachable c ->
  (waiters (world c) <> ∅ -> server (world c) = true) /\
  (owner c !! mu = None -> server (world c) = true -> waiters (world c) = ∅ ->
   exists id t p, live (world c) id /\ pool c !! t = Some p /\ ~ done_prog p).
Proof.
  intros Hc. apply desktopReachable_ok in Hc as [own Hok]. split; [apply (inv_server _ (ok_inv _ _ Hok))|].
  intros Ho Hs Hw. rewrite <- (ok_mutex _ _ Hok mu eq_refl) in Ho.
  destruct (ok_linv _ _ Hok mu eq_refl Ho) as [_ Hx]. destruct (Hx Hs Hw) as [id Hid].
  destruct (proj2 (ok_role _ _ Hok (timerRole id) eq_refl)) as [t Ht].
  { cbn. apply bool_decide_eq_true_2. destruct Hid as [-> | ->]; eauto. }
  destruct (ok_owner _ _ Hok _ _ Ht) as [p Hp]. exists id, t, p. split; [done|]. split; [done|].
  destruct (ok_pool _ _ Hok _ _ Hp) as (H & HE & Hwp). destruct p; cbn; try tauto. intros _.
  specialize (Hwp _ (rely_refl desktop_laws _ _) (ok_inv _ _ Hok) (own_held _ _ _ _ Hok HE)).
  cbn in Hwp. unfold finished in Hwp. apply HE in Ht. set_solver.
Qed.

(** The address a goroutine is binding, the waiter it is sending to. *)
Definition listens {X} (q : desktopQuery X) : option string :=
  match q with QListen addr => Some addr | _ => None end.
Definition sends {X} (q : desktopQuery X) : option nat :=
  match q with QSend p => Some p | _ => None end.

(** What the broker does while it waits.  The mutex is only held for binding an
    address of this handler; a matched request hands its callback to an empty
    channel, so that its goroutine never blocks. *)
Theorem desktop_waits c t X (q : desktopQuery X) r k :
  desktopReachable c -> pool c !! t = Some (Ask q r k) ->
  (owner c !! mu = Some t <-> is_Some (listens q)) /\
  (forall addr, listens q = Some addr -> addr ∈ addrs cfg) /\
  (forall p, sends q = Some p -> exists ch, chans (world c) !! p = Some ch /\ cBuf ch = None).
Proof.
  intros Hc%desktopReachable_ok Hp. destruct (asking_pre desktop_laws _ _ _ _ _ _ Hc Hp) as (H & Hpre & _ & Hm).
  rewrite <- (Hm mu eq_refl). clear Hm Hp k r.
  destruct q; cbn in *; (split; [split|split]); try (by intros []); naive_solver.
Qed.

End DesktopProps.

(** Requests nobody waits for.  Such a request, run on any state of the broker,
    changes nothing and is answered with the page of a successful login: the page
    a matched callback gets unless it reports an error or arrives at a distinct
    logout path. *)
Theorem unmatched_request cfg html defSuccess defError defLogout (o : oracle) n qpath raw h :
  waiters h !! requestKey qpath raw = None -> logoutPath h <> "" ->
  let page := orDefault (SuccessHTML html) defSuccess in
  run o n (handle cfg html defSuccess defError defLogout qpath raw) ∅ h =
    (let h' := h <| requests := requests h ++ [mkRequest qpath raw None] |> in
     x ← o _ (QRespond page) h'; Some (tt, ∅, h')) /\
  (forall p, p <> logoutPath h \/ logoutPath h = path cfg ->
     pageFor cfg html defSuccess defError defLogout h p false = page).
Proof.
  intros Hw Hl page. split.
  - unfold handle, takeWaiter. cbn. rewrite decide_False by set_solver. rewrite Hw. cbn.
    replace ({[mu]} ∪ ∅ : gset role_) with ({[mu]} : gset role_) by set_solver.
    rewrite decide_True by set_solver. rewrite difference_diag_L.
    unfold pageFor. cbn. destruct (logoutPath h); [done|]. cbn.
    fold page. by destruct (o unit (QRespond page) _).
  - intros p Hp. unfold pageFor. case_match eqn:E; [|done]. apply andb_true_iff in E as [E1 E2].
    apply String.eqb_eq in E1. apply negb_true_iff, String.eqb_neq in E2. by destruct Hp.
Qed.

(** What the two constructors of the package make; [New] writes its port in decimal. *)
Inductive constructed : handlerConfig -> Prop :=
| constructed_New (portNumber : Z) : constructed (New (pretty portNumber))
| constructed_NewWithURI uri cfg : NewWithURI uri = Ok cfg -> constructed cfg.

Lemma pretty_N_go_nonempty x s : s <> "" -> pretty_N_go x s <> "".
Proof.
  revert s. induction (N.lt_wf_0 x) as [x _ IH]; intros s Hs.
  destruct (decide (x = 0%N)) as [->|Hx]; [by rewrite pretty_N_go_0|].
  rewrite pretty_N_go_step by lia. apply IH; [apply N.div_lt; lia|done].
Qed.
Lemma pretty_Z_nonempty (z : Z) : pretty z <> "".
Proof.
  assert (Hp : forall p, pretty (N.pos p) <> "").
  { intros p. unfold pretty, pretty_N. rewrite decide_False by done. rewrite pretty_N_go_step by lia.
    by apply pretty_N_go_nonempty. }
  destruct z as [|p|p]; [done|apply Hp|done].
Qed.

Lemma constructed_loopback cfg : constructed cfg ->
  port cfg <> "" /\ Forall (loopbackAddress (port cfg)) (addrs cfg).
Proof.
  intros [p|uri cfg' Hu].
  - split; [apply pretty_Z_nonempty|]. apply (loopbackAddrs_loopback "127.0.0.1"). vm_compute. reflexivity.
  - revert Hu. unfold NewWithURI. destruct (Parse uri) as [u|]; [|done].
    destruct (isLoopback (Hostname u)) eqn:El; cbn [negb]; [|done].
    destruct (String.eqb_spec (Port u) "") as [|Hp]; [done|]. intros [= <-]. split; [done|].
    by apply loopbackAddrs_loopback.
Qed.

(** C33: Only the loopback interface is ever bound.  A handler made by one of the
    package's constructors, [New] with any port number or [NewWithURI] with any URI,
    listens on loopback addresses of its own, non-empty port only, whatever host
    the URI names. *)
Theorem desktop_binds_loopback html defSuccess defError defLogout cfg c t X (q : desktopQuery X) addr r k :
  constructed cfg -> desktopReachable cfg html defSuccess defError defLogout c ->
  pool c !! t = Some (Ask q r k) -> listens q = Some addr ->
  port cfg <> "" /\ loopbackAddress (port cfg) addr.
Proof.
  intros [Hp Hall]%constructed_loopback Hc Ht Ha. split; [done|].
  apply desktopReachable_ok in Hc. destruct (asking_pre desktop_laws _ _ _ _ _ _ Hc Ht) as (H & Hpre & _).
  destruct q; try done. injection Ha as ->. destruct Hpre as [_ Hin]. by apply (proj1 (Forall_forall _ _) Hall).
Qed.

(** ** Concrete runs *)

Definition exDesktop : handlerConfig := New "15051".
Definition exHtml : pages := mkPages "" "" "".
Definition exURL : string := "https://idp.example/auth?state=s1".
Definition exQuery : string := "code=c&state=s1".

(** Addresses bind, the browser opens, a flow waits for its callback, and timers do
    not fire. *)
Definition desktopOracle : oracle (W := Handler) (Q := desktopQuery) := fun X q h =>
  match q in desktopQuery X return option X with
  | QListen _ => Some None
  | QOpenBrowser _ => Some None
  | QFlowWait p => SelCallback <$> (c ← chans h !! p; cBuf c)
  | QRespond _ => Some tt
  | QSend _ => Some tt
  | QTimer id => match timers h !! id with Some TimerStopped => Some false | _ => None end
  end.

#[export] Instance desktop_bound_decision h : Decision (bound h).
Proof. left. exact I. Defined.

Abbreviation runDesktop := (exec_thread bound desktopOracle).
Abbreviation exReachable := (desktopReachable exDesktop exHtml "ok" "error" "bye").
Abbreviation exHandle := (handle exDesktop exHtml "ok" "error" "bye" "/callback" exQuery).
Abbreviation exFlow := (let* _ := StartAuthFlow exDesktop 7 exURL in skip).
Abbreviation exConfig := (@Proc.config Handler role_ _ _ desktopQuery).

Definition desktopListening : exConfig := runDesktop 5 1 0 (call 1 exFlow (init_config (newHandler exDesktop))).
Definition desktopWaiting : exConfig := runDesktop 20 1 0 desktopListening.
Definition desktopResponding : exConfig := runDesktop 7 2 3 (call 2 exHandle desktopWaiting).
Definition desktopDone : exConfig := runDesktop 30 1 0 (runDesktop 9 2 3 desktopResponding).

Lemma desktop_run_reachable n t child c : exReachable c -> exReachable (runDesktop n t child c).
Proof. by apply exec_thread_reachable. Qed.
Lemma desktop_call_reachable t p c :
  desktopApi exDesktop exHtml "ok" "error" "bye" p -> exReachable c -> exReachable (call t p c).
Proof. intros. by apply call_reachable. Qed.

Lemma desktopListening_reachable : exReachable desktopListening.
Proof. apply desktop_run_reachable, desktop_call_reachable; [constructor|apply rtc_refl]. Qed.
Lemma desktopResponding_reachable : exReachable desktopResponding.
Proof.
  apply desktop_run_reachable, desktop_call_reachable; [constructor|].
  apply desktop_run_reachable, desktopListening_reachable.
Qed.
Lemma desktopDone_reachable : exReachable desktopDone.
Proof. do 2 apply desktop_run_reachable. apply desktopResponding_reachable. Qed.

Lemma desktop_returns_witness :
  returned (world desktopDone) = [mkReturn 0 exURL "/callback" "http://127.0.0.1:15051/callback"
    (Ok "http://127.0.0.1:15051/callback?code=c&state=s1")] /\
  exists req, req ∈ requests (world desktopDone) /\ qPath req = "/callback" /\
    Values_Get (queryOf (qRawQuery req)) "state" = "s1" /\ qResolved req = Some 0%nat.
Proof.
  assert (E : returned (world desktopDone) = [mkReturn 0 exURL "/callback" "http://127.0.0.1:15051/callback"
    (Ok "http://127.0.0.1:15051/callback?code=c&state=s1")]) by (vm_compute; reflexivity).
  split; [exact E|].
  destruct (desktop_returns exDesktop exHtml "ok" "error" "bye" desktopDone
    (mkReturn 0 exURL "/callback" "http://127.0.0.1:15051/callback"
       (Ok "http://127.0.0.1:15051/callback?code=c&state=s1")) _ desktopDone_reachable
    ltac:(rewrite E; by apply list_elem_of_singleton) eq_refl) as (req & Hin & _ & Hnul & _ & Hres).
  destruct (Hnul ltac:(vm_compute; reflexivity) ltac:(vm_compute; reflexivity)) as [Hp Hs].
  exists req. split; [exact Hin|]. split; [exact Hp|]. split; [|exact Hres].
  rewrite Hs. vm_compute. reflexivity.
Defined.

Lemma desktop_server_witness :
  server (world desktopWaiting) = true /\
  exists id t p, live (world desktopDone) id /\ pool desktopDone !! t = Some p /\ ~ done_prog p.
Proof.
  split.
  - assert (Hr : exReachable desktopWaiting) by apply desktop_run_reachable, desktopListening_reachable.
    apply (proj1 (desktop_server exDesktop exHtml "ok" "error" "bye" desktopWaiting Hr)).
    assert (E : waiters (world desktopWaiting) !! callbackKey "/callback" "s1" = Some 0%nat)
      by (vm_compute; reflexivity).
    intros He. rewrite He in E. discriminate E.
  - apply (proj2 (desktop_server exDesktop exHtml "ok" "error" "bye" desktopDone desktopDone_reachable));
      vm_compute; reflexivity.
Defined.

Lemma desktop_waits_witness :
  (exists ch, chans (world desktopResponding) !! 0%nat = Some ch /\ cBuf ch = None) /\
  owner desktopListening !! mu = Some 1%nat.
Proof.
  split.
  - assert (Hp : exists r k, pool desktopResponding !! 2%nat = Some (Ask (QSend 0) r k)) by
      (apply (asked_pool _ _ (existT _ (QSend 0))); vm_compute; reflexivity).
    destruct Hp as (r & k & Hp).
    destruct (desktop_waits exDesktop exHtml "ok" "error" "bye" desktopResponding _ _ _ _ _
      desktopResponding_reachable Hp) as (_ & _ & Hs). by apply (Hs 0%nat).
  - assert (Hp : exists r k, pool desktopListening !! 1%nat = Some (Ask (QListen "127.0.0.1:15051") r k)) by
      (apply (asked_pool _ _ (existT _ (QListen "127.0.0.1:15051"))); vm_compute; reflexivity).
    destruct Hp as (r & k & Hp).
    apply (proj1 (desktop_waits exDesktop exHtml "ok" "error" "bye" desktopListening _ _ _ _ _
      desktopListening_reachable Hp)). by eexists.
Defined.

Lemma unmatched_request_witness :
  run desktopOracle 1 (handle exDesktop exHtml "ok" "error" "bye" "/callback" "state=unknown&error=x") ∅
    (world desktopWaiting) =
  Some (tt, ∅, (world desktopWaiting) <| requests := [mkRequest "/callback" "state=unknown&error=x" None] |>).
Proof.
  assert (Hl : logoutPath (world desktopWaiting) <> "") by (vm_compute; discriminate).
  rewrite (proj1 (unmatched_request exDesktop exHtml "ok" "error" "bye" desktopOracle 1 "/callback"
    "state=unknown&error=x" (world desktopWaiting) ltac:(vm_compute; reflexivity) Hl)).
  vm_compute. reflexivity.
Defined.

Lemma binds_witness cfg addr : NewWithURI "http://localhost:15051" = Ok cfg \/ cfg = New "15051" ->
  addr = "127.0.0.1:15051" -> exists c r k,
    desktopReachable cfg exHtml "ok" "error" "bye" c /\ pool c !! 1%nat = Some (Ask (QListen addr) r k).
Proof.
  intros Hc ->.
  set (c := runDesktop 5 1 0 (call 1 (let* _ := StartAuthFlow cfg 7 exURL in skip) (init_config (newHandler cfg)))).
  assert (Hr : desktopReachable cfg exHtml "ok" "error" "bye" c).
  { apply exec_thread_reachable; [done|]. apply call_reachable; [constructor|done|apply rtc_refl]. }
  exists c. assert (Hp : exists r k, pool c !! 1%nat = Some (Ask (QListen "127.0.0.1:15051") r k)).
  { apply (asked_pool _ _ (existT _ (QListen "127.0.0.1:15051"))). destruct Hc as [Hc| ->]; [|vm_compute; reflexivity].
    assert (cfg = mkHandlerConfig "http://localhost:15051" "localhost" "15051" "/") as ->; [|vm_compute; reflexivity].
    vm_compute in Hc. congruence. }
  destruct Hp as (r & k & Hp). exists r, k. split; [exact Hr|exact Hp].
Qed.

Lemma desktop_binds_loopback_witness :
  (exists cfg, NewWithURI "http://localhost:15051" = Ok cfg /\ addrs cfg = ["127.0.0.1:15051"; "[::1]:15051"] /\
     loopbackAddress (port cfg) "127.0.0.1:15051") /\
  addrs (New (pretty 15051)) = ["127.0.0.1:15051"] /\ loopbackAddress (port (New (pretty 15051))) "127.0.0.1:15051".
Proof.
  split; [eexists; split; [vm_compute; reflexivity|]|]; (split; [vm_compute; reflexivity|]).
  - set (cfg := mkHandlerConfig "http://localhost:15051" "localhost" "15051" "/").
    assert (Hu : NewWithURI "http://localhost:15051" = Ok cfg) by (vm_compute; reflexivity).
    destruct (binds_witness cfg _ (or_introl Hu) eq_refl) as (c & r & k & Hr & Hp).
    apply (desktop_binds_loopback exHtml "ok" "error" "bye" cfg c 1 _ _ _ r k (constructed_NewWithURI _ _ Hu) Hr Hp eq_refl).
  - assert (E : New (pretty 15051) = New "15051") by (vm_compute; reflexivity).
    destruct (binds_witness (New (pretty 15051)) _ (or_intror E) eq_refl) as (c & r & k & Hr & Hp).
    apply (desktop_binds_loopback exHtml "ok" "error" "bye" _ c 1 _ _ _ r k (constructed_New 15051) Hr Hp eq_refl).
Defined.

(** *** A flow whose waiter another flow removes

    [deregister] removes by key.  When a flow is resolved but has not returned yet,
    a second flow with the same path and state can register; the first one's
    deferred [deregister] then removes the second one's waiter, and no callback
    can reach it any more. *)
Definition desktopTwice : exConfig := runDesktop 20 4 0 (call 4 exFlow (runDesktop 9 2 3 desktopResponding)).
Definition desktopDropped : exConfig := runDesktop 30 1 5 desktopTwice.

Theorem deregister_drops_other_flow :
  exReachable desktopDropped /\
  (exists r k, pool desktopDropped !! 4%nat = Some (Ask (QFlowWait 1) r k)) /\
  waiters (world desktopTwice) !! callbackKey "/callback" "s1" = Some 1%nat /\
  waiters (world desktopDropped) = ∅ /\ ctxErrors (world desktopDropped) = ∅ /\
  chans (world desktopDropped) !! 1%nat = Some (mkChannel (callbackKey "/callback" "s1") None None).
Proof.
  split.
  { apply desktop_run_reachable, desktop_run_reachable, desktop_call_reachable; [constructor|].
    apply desktop_run_reachable, desktopResponding_reachable. }
  split; [apply (asked_pool _ _ (existT _ (QFlowWait 1))); vm_compute; reflexivity|]. repeat split; vm_compute; reflexivity.
Qed.

(** A key with a NUL byte in the state is also the key of another path and state. *)
Theorem callbackKey_collision :
  exists u, Parse "http://127.0.0.1:15051/callback%00a?state=b" = Some u /\
  requestKey (Path u) (RawQuery u) =
    callbackKey "/callback" (stateFromURL "https://idp.example/auth?state=a%00b").
Proof. eexists. split; vm_compute; reflexivity. Qed.
