(* ===== verification/MobileLogin.v ===== *)
(** The mobile flow handler under [Login]: a callback the handler returns is one
    that [Login] accepts. *)
From S2P Require Import Prelude Proc GoStrings GoUrl UrlProps Errors Login FlowProps Mobileflow MobileProps.

(** What the checks of a flow and of a delivery say about the parameters. *)
Lemma checkFlow_state foldRunes f w target query :
  checkFlow foldRunes f = Ok w -> Parse (fTarget f) = Some target -> ParseQuery (RawQuery target) = Some query ->
  Values_lookup query "state" = [wState w] /\ wState w <> "" /\ allowMissingState w = fAllowMissing f.
Proof.
  unfold checkFlow. intros Hw Hp Hq. rewrite Hp, Hq in Hw. destruct (_ || _) in Hw; [done|].
  unfold singleState, singleNonEmptyValue at 1 in Hw.
  destruct (Values_lookup query "state") as [|x [|y l]]; try done.
  destruct (String.eqb_spec x ""); [done|]. repeat case_match; simplify_eq; done.
Qed.

Lemma accepted_query foldRunes w u :
  accepted foldRunes w u -> allowMissingState w = false ->
  exists callback query, Parse u = Some callback /\ IsAbs callback = true /\
    ParseQuery (RawQuery callback) = Some query /\ Values_lookup query "state" = [wState w].
Proof.
  intros (callback & Hc & Hm) Ha. unfold parseCallbackURI in Hc. destruct (String.eqb _ "") in Hc; [done|].
  destruct (Parse u) as [parsed|]; [|done]. destruct (String.eqb (Scheme parsed) "") eqn:Es; [done|].
  assert (parsed = callback) as -> by (repeat case_match; simplify_eq; done). clear Hc.
  unfold matches in Hm. destruct (ParseQuery (RawQuery callback)) as [query|] eqn:Eq; [|done].
  exists callback, query. split; [done|]. split; [unfold IsAbs; by rewrite Es|]. split; [done|].
  unfold Values_lookup. destruct (negb (sameCallbackTarget _ _ _ _)); [done|].
  destruct (query !! "state") as [[|x [|y l]]|]; try done; [|by rewrite Ha in Hm].
  apply andb_prop in Hm as [_ ->%String.eqb_eq]. done.
Qed.

(** C19: A mobile flow serves [Login].  In every interleaving, whatever the
    application delivered, a callback that an authentication flow returned passes
    the checks [Login] makes of it: it is an absolute URL whose query parses and
    names exactly the state [Login] put into its authorization URL, so that
    [Login] takes the code or the provider's error from it and never reports a
    state mismatch. *)
Theorem mobile_serves_login foldRunes redirectURI hasOpener c r u authURL target params state :
  mobileReachable foldRunes redirectURI hasOpener c -> r ∈ returned (world c) ->
  rArgs r = authArgs redirectURI authURL -> rResult r = Ok u ->
  Parse authURL = Some target -> ParseQuery (RawQuery target) = Some params -> Values_lookup params "state" = [state] ->
  exists callback query, Parse u = Some callback /\ ParseQuery (RawQuery callback) = Some query /\
    Values_lookup query "state" = [state] /\ checkCallback state u = authorizationResponse query.
Proof.
  intros Hc Hr Hargs Hu Hp Hq Hst. destruct (mobile_accepted _ _ _ _ _ _ Hc Hr Hu) as (w & Hw & Hacc & _).
  rewrite Hargs in Hw. destruct (checkFlow_state _ _ _ target params Hw Hp Hq) as (Hs & Hne & Ha).
  rewrite Hst in Hs. injection Hs as ->. destruct (accepted_query _ _ _ Hacc Ha) as (callback & query & Hcb & Habs & Hqu & Hone).
  exists callback, query. split; [done|]. split; [done|]. split; [done|].
  rewrite (checkCallback_parsed _ _ _ _ Hcb Habs Hqu Hne). by rewrite decide_True.
Qed.

Lemma mobile_serves_login_witness : checkCallback "s1" exCallback = Ok "c".
Proof.
  assert (E : returned (world mobileEnd) = [mkReturn 0 (authArgs exApp exAuth) (Ok exCallback)]) by (vm_compute; reflexivity).
  assert (P : (fun target => (fun params => Values_lookup params "state") <$> ParseQuery (RawQuery target)) <$> Parse exAuth =
              Some (Some ["s1"])) by (vm_compute; reflexivity).
  assert (F : (fun cb => authorizationResponse <$> ParseQuery (RawQuery cb)) <$> Parse exCallback = Some (Some (Ok "c")))
    by (vm_compute; reflexivity).
  destruct (Parse exAuth) as [target|] eqn:Et; [|discriminate P]. apply (inj Some) in P.
  destruct (ParseQuery (RawQuery target)) as [params|] eqn:Ep; [|discriminate P]. apply (inj Some) in P.
  destruct (mobile_serves_login noFold exApp true mobileEnd (mkReturn 0 (authArgs exApp exAuth) (Ok exCallback))
    exCallback exAuth target params "s1" mobileEnd_reachable ltac:(rewrite E; by apply list_elem_of_singleton)
    eq_refl eq_refl Et Ep P) as (cb & q & Hcb & Hq & _ & H).
  rewrite Hcb in F. apply (inj Some) in F. rewrite Hq in F. apply (inj Some) in F. by rewrite H.
Defined.
