(* ===== verification/DesktopLogin.v ===== *)
(** The desktop flow handler under [Login]: what [Login] makes of a callback the
    handler returns. *)
From Stdlib Require Import Ascii.
From S2P Require Import Prelude Proc GoStrings GoUrl UrlProps Errors Login FlowProps Loopback Desktopflow DesktopInv DesktopProps.




