(* ===== verification/Cli.v ===== *)
(** [examples/cli/main.go]: the interactive example.  The flow handler and the
    configuration are those of [Desktopflow] and [Config]; what the store and the client
    answer comes from the environment, the text typed is an input. *)
From stdpp Require Import pretty.
From Stdlib Require Import Ascii.
From S2P Require Import Prelude Proc GoTime GoStrings GoText GoUrl Errors Tokens Config Claims.
From S2P Require Desktopflow.

(** ** Calls and output *)

(** The calls on the store and the client. *)
Inductive cliCall :=
| CallNewStore (appName dir : string)
| CallRestoreSession
| CallInit
| CallStartRefreshLoop
| CallStopRefreshLoop
| CallAuthStatus
| CallClaims
| CallLoad
| CallLogin
| CallLogout
| CallAccessToken.

(** What they answer; an error is what [%v] prints of it. *)
Inductive cliQuery : Type -> Type :=
| QErr (c : cliCall) : cliQuery (option string)             (* calls that return an error only *)
| QHomeDir : cliQuery string                                (* [os.UserHomeDir], empty with its error *)
| QRestoreSession : cliQuery (bool * option string)
| QAuthStatus : cliQuery AuthStatusResult
| QClaims : cliQuery (string + Claims)
| QLoad : cliQuery TokenState                               (* with its error ignored *)
| QAccessToken : cliQuery string
| QNow : cliQuery Time.

(** The lines not read yet and the error after the last one; what was printed, on the
    standard output or (with [true]) the standard error; the calls made. *)
Record Terminal := mkTerminal {
  stdin : list string;
  scanErr : option string;
  output : list (bool * string);
  calls : list cliCall
}.
#[export] Instance Terminal_settable : Settable Terminal :=
  fun t => mkTerminal (stdin t) (scanErr t) (output t) (calls t).

Abbreviation prog := (@prog Terminal unit cliQuery).

Definition nl : string := String newline "".
Definition Print (s : string) : prog unit := modify (fun t => t <| output := output t ++ [(false, s)] |>).
Definition Println (s : string) : prog unit := Print (s +:+ nl).
Definition Eprintln (s : string) : prog unit := modify (fun t => t <| output := output t ++ [(true, s +:+ nl)] |>).
Definition callVoid (c : cliCall) : prog unit := modify (fun t => t <| calls := calls t ++ [c] |>).
Definition invoke {A} (c : cliCall) (q : cliQuery A) : prog A := callVoid c ;;; ask q.
Definition tryCall (c : cliCall) : prog (option string) := invoke c (QErr c).

(** [bufio.Scanner] on the standard input: the text typed, and the error of the read
    that ended it, if that was not the end of the file. *)
Definition maxScanTokenSize : Z := 65536.
Definition typed (text : string) (readErr : option string) : Terminal :=
  let '(lines, complete) := ScanLines maxScanTokenSize text in
  mkTerminal lines (if complete then readErr else Some "bufio.Scanner: token too long") [] [].
Definition Scan : prog (option string) :=
  act (fun t => match stdin t with [] => (None, t) | line :: rest => (Some line, t <| stdin := rest |>) end).

(** ** The flags *)

Record flags := mkFlags {
  issuer : string;
  clientID : string;
  port : Z;
  callbackPath : string;
  redirectURI : string;
  logoutURI : string;
  logoutPath : string;
  scopes : string;
  graceDays : Z;
  dataDir : string;
  visited : gset string                                     (* the flags set on the command line *)
}.
#[export] Instance flags_settable : Settable flags :=
  fun f => mkFlags (issuer f) (clientID f) (port f) (callbackPath f) (redirectURI f) (logoutURI f) (logoutPath f)
             (scopes f) (graceDays f) (dataDir f) (visited f).
Definition defaultFlags : flags := mkFlags "" "" 15051 "/callback" "" "" "/logout-callback" "" 0 "" ∅.
Definition isFlagSet (f : flags) (name : string) : bool := bool_decide (name ∈ visited f).

(** The combinations that are refused, with what is printed; the first one prints the
    usage, too. *)
Definition required (f : flags) : bool := negb (String.eqb (issuer f) "" || String.eqb (clientID f) "").
Definition flagProblem (f : flags) : option string :=
  if negb (String.eqb (redirectURI f) "") && (negb (String.eqb (callbackPath f) "/callback") || isFlagSet f "port")
  then Some "Error: --redirect-uri cannot be combined with --port or --callback-path"
  else if negb (String.eqb (logoutURI f) "") && isFlagSet f "logout-path"
  then Some "Error: --logout-uri and --logout-path are mutually exclusive; use one or the other"
  else None.

(** The redirect URI and what to print before the error when it is not one. *)
Definition handlerURI (f : flags) : string * string :=
  if negb (String.eqb (redirectURI f) "") then (redirectURI f, "Error: invalid redirect URI: ")
  else ("http://127.0.0.1:" +:+ pretty (port f) +:+ callbackPath f, "Error: invalid callback configuration: ").
Definition logoutOf (f : flags) (h : Desktopflow.handlerConfig) : result string (string * string) :=
  if negb (String.eqb (logoutURI f) "") then Desktopflow.checkLogoutURI h (logoutURI f)
  else Desktopflow.checkLogoutPath h (logoutPath f).
Definition configOf (f : flags) : Config :=
  mkConfig (issuer f) (clientID f) (if String.eqb (scopes f) "" then [] else Split (scopes f) ",")
    (if 0 <? graceDays f then wrap_i64 (wrap_i64 (graceDays f * 24) * Hour) else 0) 0 0 ∅ ∅.

(** ** Formatting *)

(** [%v] of a bool; [Duration.String] of a duration truncated to seconds. *)
Definition showBool (b : bool) : string := if b then "true" else "false".
Definition showSeconds (d : Z) : string :=
  let signed := Z.quot d Second in
  let s := Z.abs signed in
  let seconds := pretty (s mod 60) +:+ "s" in
  (if signed <? 0 then "-" else "") +:+
  (if s <? 60 then seconds
   else if s <? 3600 then pretty (s / 60) +:+ "m" +:+ seconds
   else pretty (s / 3600) +:+ "h" +:+ pretty (s / 60 mod 60) +:+ "m" +:+ seconds).

Example showSeconds_examples :
  showSeconds (59 * Second) = "59s" /\ showSeconds (60 * Second) = "1m0s" /\ showSeconds (3661 * Second) = "1h1m1s" /\
  showSeconds 999999999 = "0s" /\ showSeconds (- 61 * Second) = "-1m1s".
Proof. vm_compute. auto 6. Qed.

(** The friendliest label of a claim set. *)
Definition identify (c : Claims) : string :=
  default "unknown user"
    (head (filter (fun candidate => candidate <> "") [PreferredUsername c; Email c; Name c; Subject c])).

(** The summary of an access token: a long one is abbreviated. *)
Definition shownToken (token : string) : string :=
  let len := String.length token in
  if 20 <? Z.of_nat len then str_take 8 token +:+ "..." +:+ str_drop (len - 8) token else token.

Section Program.
(** [Time.Format]; the flag package's usage; what [%v] prints of an error of the handler
    and of the configuration. *)
Context (Format : string -> Time -> string) (Usage : string)
        (handlerError : string -> string) (configErrorText : configError -> string).

(** ** Status and tokens *)

Definition timeOnly : string := "15:04:05".
Definition dateTime : string := "2006-01-02 15:04:05".

Definition printStatus : prog unit :=
  let* status := invoke CallAuthStatus QAuthStatus in
  Println "--- Auth Status ---" ;;;
  (if Valid status then Println "  State:  Authenticated"
   else if GraceMode status
   then Println ("  State:  Grace mode (" +:+ pretty (GraceDaysLeft status) +:+ " days remaining)")
   else let* claims := invoke CallClaims QClaims in
        match claims with
        | inr c => Println ("  State:  Session refused - log in again (was " +:+ identify c +:+ ")")
        | inl _ => Println "  State:  Not authenticated"
        end) ;;;
  Println ("  CanUseApp: " +:+ showBool (CanUseApp status)) ;;;
  let* state := invoke CallLoad QLoad in
  when (negb (IsZeroTime (ExpiresAt state)))
    (Println ("  Expires:    " +:+ Format timeOnly (ExpiresAt state)) ;;;
     let* now := ask QNow in
     let remaining := SubTime (ExpiresAt state) now in
     if 0 <? remaining then Println ("  TTL:        " +:+ showSeconds remaining)
     else Println ("  TTL:        expired " +:+ showSeconds (wrap_i64 (- remaining)) +:+ " ago")) ;;;
  when (negb (IsZeroTime (LastAuthAt state)))
    (Println ("  Last auth:  " +:+ Format dateTime (LastAuthAt state))) ;;;
  Println "-------------------".

Definition printTokenInfo : prog unit :=
  let* token := invoke CallAccessToken QAccessToken in
  if String.eqb token "" then Println "No valid access token available."
  else
    Println ("Access token: " +:+ shownToken token +:+ " (" +:+ pretty (Z.of_nat (String.length token)) +:+ " chars)") ;;;
    let* claims := invoke CallClaims QClaims in
    match claims with
    | inl err => Println (nl +:+ "No ID token claims: " +:+ err)
    | inr c =>
        Println (nl +:+ "--- ID Token Claims ---") ;;;
        Println ("  subject:   " +:+ Subject c) ;;;
        when (negb (String.eqb (Name c) "")) (Println ("  name:      " +:+ Name c)) ;;;
        when (negb (String.eqb (PreferredUsername c) "")) (Println ("  username:  " +:+ PreferredUsername c)) ;;;
        when (negb (String.eqb (Email c) ""))
          (Println ("  email:     " +:+ Email c +:+ " (verified: " +:+ showBool (EmailVerified c) +:+ ")")) ;;;
        Println ("  issuer:    " +:+ Issuer c) ;;;
        when (0 <? Z.of_nat (length (Audience c))) (Println ("  audience:  " +:+ String.concat ", " (Audience c))) ;;;
        when (negb (IsZeroTime (ClaimsExpiresAt c))) (Println ("  expires:   " +:+ Format dateTime (ClaimsExpiresAt c))) ;;;
        when (negb (IsZeroTime (IssuedAt c))) (Println ("  issued:    " +:+ Format dateTime (IssuedAt c))) ;;;
        Println "-----------------------"
    end.

(** ** The menu *)

(** One command; whether it is the last one. *)
Definition command (input : string) : prog bool :=
  if String.eqb input "l" then
    Println "Opening browser for login..." ;;;
    let* err := tryCall CallLogin in
    match err with
    | Some err => Eprintln ("Login failed: " +:+ err)
    | None => Println "Login successful!"
    end ;;; Ret false
  else if String.eqb input "s" then printStatus ;;; Ret false
  else if String.eqb input "t" then printTokenInfo ;;; Ret false
  else if String.eqb input "r" then
    Println "Attempting manual token refresh..." ;;;
    let* token := invoke CallAccessToken QAccessToken in
    (if negb (String.eqb token "") then Println "Token refreshed successfully."
     else Println "Refresh failed or no session.") ;;; Ret false
  else if String.eqb input "o" then
    Println "Logging out..." ;;;
    let* err := tryCall CallLogout in
    match err with
    | Some err => Eprintln ("Logout error: " +:+ err)
    | None => Println "Logged out."
    end ;;; Ret false
  else if String.eqb input "q" then Println "Bye!" ;;; Ret true
  else Println "Unknown command." ;;; Ret false.

Definition printMenu : prog unit :=
  Println "  [l] Login" ;;; Println "  [s] Show status" ;;; Println "  [t] Show access token" ;;;
  Println "  [r] Refresh token (manual)" ;;; Println "  [o] Logout" ;;; Println "  [q] Quit" ;;; Print (nl +:+ "> ").

(** One iteration of the loop: whether the function returns from within it. *)
Definition prompt (_ : unit) : prog (unit + bool) :=
  printMenu ;;;
  let* line := Scan in
  match line with
  | None => Ret (inr false)
  | Some line =>
      Println "" ;;;
      let* quit := command (ToLower (TrimSpace line)) in
      if quit then Ret (inr true) else Println "" ;;; Ret (inl tt)
  end.

Definition interact : prog unit :=
  let* returned := loop prompt tt in
  when (negb returned)
    (let* err := read scanErr in
     match err with Some err => Eprintln ("Input error: " +:+ err) | None => skip end).

(** ** The program *)

(** A failed step prints and exits with status 1. *)
Definition fatal (message : string) : prog Z := Eprintln message ;;; Ret 1.

Definition tokenDir (f : flags) : prog string :=
  if String.eqb (dataDir f) "" then (let* home := ask QHomeDir in Ret (home +:+ "/.config/pkceflow-example"))
  else Ret (dataDir f).

(** From the restored session to the end of the input. *)
Definition session (f : flags) (loginURI postLogoutURI : string) : prog Z :=
  let* r := invoke CallRestoreSession QRestoreSession in
  match r.2 with
  | Some err => fatal ("Error restoring session: " +:+ err)
  | None =>
      when r.1 (Println "Restored previous session.") ;;;
      Println ("Redirect URI: " +:+ loginURI +:+ " (register this with your IdP)") ;;;
      when (negb (String.eqb postLogoutURI loginURI))
        (Println ("Post-logout redirect URI: " +:+ postLogoutURI +:+ " (register this too)")) ;;;
      Println ("Discovering OIDC configuration from " +:+ issuer f +:+ "...") ;;;
      let* err := tryCall CallInit in
      match err with
      | Some err =>
          Eprintln ("Warning: OIDC discovery failed: " +:+ err) ;;;
          Println "Continuing in offline mode (cached tokens may still work)."
      | None => Println "OIDC discovery successful."
      end ;;;
      callVoid CallStartRefreshLoop ;;;
      deferred (callVoid CallStopRefreshLoop)
        (Println "" ;;; printStatus ;;; Println "" ;;; interact ;;; Ret 0)
  end.

(** [main]: the exit status. *)
Definition main (f : flags) : prog Z :=
  if negb (required f) then
    Eprintln "Error: --issuer and --client-id are required" ;;; Eprintln "" ;;; Eprintln Usage ;;; Ret 1
  else match flagProblem f with
  | Some message => fatal message
  | None =>
      let* dir := tokenDir f in
      let* err := tryCall (CallNewStore "pkceflow-example" dir) in
      match err with
      | Some err => fatal ("Error creating token store: " +:+ err)
      | None =>
          match Desktopflow.NewWithURI (handlerURI f).1 with
          | Err err => fatal ((handlerURI f).2 +:+ handlerError err)
          | Ok handler =>
              match logoutOf f handler with
              | Err err => fatal ("Error: " +:+ handlerError err)
              | Ok logout =>
                  match Validate (configOf f) with
                  | Err err => fatal ("Error creating client: " +:+ configErrorText err)
                  | Ok _ => session f (Desktopflow.redirectURI handler) logout.1
                  end
              end
          end
      end
  end.
End Program.
