(* ===== verification/CliProps.v ===== *)
(** Properties of the example program [Cli]: with any answers and any input it comes to
    its end, and which calls it makes. *)
From Stdlib Require Import Ascii.
From S2P Require Import Prelude Proc GoTime GoStrings UrlProps GoEncoding GoText Errors Tokens Config Claims.
From S2P Require Import Cli.
From S2P Require Desktopflow.

(** ** The calls of a program without loops *)

Section Calls.
Context (o : oracle (W := Terminal) (Q := cliQuery)) (answering : forall X q t, is_Some (o X q t)) (fuel : nat).

(** [p] ends, whatever the state of the terminal is, reads no input and makes the
    calls [cs]; its result is [a]. *)
Definition does {A} (p : prog A) (R : A -> list cliCall -> Prop) : Prop := forall t,
  exists a t' cs, run o fuel p ∅ t = Some (a, ∅, t') /\
    calls t' = calls t ++ cs /\ stdin t' = stdin t /\ scanErr t' = scanErr t /\
    (exists out, output t' = output t ++ out) /\ R a cs.

Lemma does_ret {A} (a : A) (R : A -> list cliCall -> Prop) : R a [] -> does (Ret a) R.
Proof. intros HR t. exists a, t, []. rewrite app_nil_r. repeat (split; [done|]). split; [exists []; by rewrite app_nil_r|done]. Qed.

Lemma does_bind {A B} (p : prog A) (f : A -> prog B) R1 R :
  does p R1 -> (forall a cs1, R1 a cs1 -> does (f a) (fun b cs2 => R b (cs1 ++ cs2))) -> does (bind p f) R.
Proof.
  intros Hp Hf t. destruct (Hp t) as (a & t1 & cs1 & E1 & Hc1 & Hs1 & He1 & (out1 & Ho1) & H1).
  destruct (Hf a cs1 H1 t1) as (b & t2 & cs2 & E2 & Hc2 & Hs2 & He2 & (out2 & Ho2) & H2).
  exists b, t2, (cs1 ++ cs2). rewrite run_bind, E1. split; [done|]. rewrite app_assoc.
  split; [congruence|]. split; [congruence|]. split; [congruence|].
  split; [exists (out1 ++ out2); rewrite app_assoc; congruence|done].
Qed.

Lemma does_mono {A} (p : prog A) (R R' : A -> list cliCall -> Prop) :
  does p R -> (forall a cs, R a cs -> R' a cs) -> does p R'.
Proof. intros Hp HR t. destruct (Hp t) as (a & t' & cs & ? & ? & ? & ? & ? & ?). exists a, t', cs. auto 8. Qed.

(** Programs that make no call and whose result does not matter. *)
Abbreviation quiet p := (does p (fun _ cs => cs = [])).

Lemma quiet_skip : quiet skip.
Proof. by apply does_ret. Qed.
Lemma quiet_modify f : (forall t, calls (f t) = calls t /\ stdin (f t) = stdin t /\ scanErr (f t) = scanErr t /\
    exists out, output (f t) = output t ++ out) -> quiet (modify f).
Proof. intros Hf t. destruct (Hf t) as (? & ? & ? & ?). exists tt, (f t), []. rewrite app_nil_r. done. Qed.
Lemma quiet_Print s : quiet (Print s).
Proof. apply quiet_modify. intros t. cbn. eauto. Qed.
Lemma quiet_Println s : quiet (Println s).
Proof. apply quiet_Print. Qed.
Lemma quiet_Eprintln s : quiet (Eprintln s).
Proof. apply quiet_modify. intros t. cbn. eauto. Qed.
Lemma quiet_when b p : quiet p -> quiet (when b p).
Proof. destruct b; [done|]. intros _. apply quiet_skip. Qed.

Lemma does_quiet {A B} (p : prog A) (f : A -> prog B) R : quiet p -> (forall a, does (f a) R) -> does (bind p f) R.
Proof. intros Hp Hf. apply (does_bind p f _ R Hp). intros a cs ->. apply Hf. Qed.

Lemma quiet_ask {A} (q : cliQuery A) : quiet (ask q).
Proof.
  intros t. destruct (answering _ q t) as [x Hx]. exists x, t, []. cbn. rewrite Hx, app_nil_r.
  repeat (split; [done|]). split; [exists []; by rewrite app_nil_r|done].
Qed.

Lemma does_callVoid c : does (callVoid c) (fun _ cs => cs = [c]).
Proof. intros t. exists tt, (t <| calls := calls t ++ [c] |>), [c]. cbn. repeat (split; [done|]).
  split; [exists []; by rewrite app_nil_r|done]. Qed.
Lemma does_invoke {A} c (q : cliQuery A) : does (invoke c q) (fun _ cs => cs = [c]).
Proof.
  unfold invoke. apply (does_bind _ _ _ _ (does_callVoid c)). intros _ cs ->.
  apply (does_mono _ _ _ (quiet_ask q)). by intros a cs ->.
Qed.
Lemma does_call {A B} c (q : cliQuery A) (f : A -> prog B) R :
  (forall a, does (f a) (fun b cs => R b (c :: cs))) -> does (bind (invoke c q) f) R.
Proof. intros Hf. apply (does_bind _ _ _ _ (does_invoke c q)). intros a cs ->. apply Hf. Qed.

Create HintDb quiet.
#[local] Hint Resolve quiet_skip quiet_Print quiet_Println quiet_Eprintln quiet_ask quiet_when : quiet.
Ltac quiet := repeat first [solve [auto with quiet] | apply quiet_when | apply does_quiet | case_match | intro].

(** ** What is called *)

(** By the status, by a command. *)
Definition statusCalls (cs : list cliCall) : Prop :=
  cs = [CallAuthStatus; CallLoad] \/ cs = [CallAuthStatus; CallClaims; CallLoad].
Definition commandCalls (input : string) (cs : list cliCall) : Prop :=
  if String.eqb input "l" then cs = [CallLogin]
  else if String.eqb input "s" then statusCalls cs
  else if String.eqb input "t" then cs = [CallAccessToken] \/ cs = [CallAccessToken; CallClaims]
  else if String.eqb input "r" then cs = [CallAccessToken]
  else if String.eqb input "o" then cs = [CallLogout]
  else cs = [].

(** The commands typed, up to the one that ends the program. *)
Definition commandOf (line : string) : string := ToLower (TrimSpace line).
Fixpoint commands (lines : list string) : list string :=
  match lines with
  | [] => []
  | line :: rest => commandOf line :: (if String.eqb (commandOf line) "q" then [] else commands rest)
  end.

Section Texts.
Context (Format : string -> Time -> string) (Usage : string)
        (handlerError : string -> string) (configErrorText : configError -> string).

Lemma does_printStatus : does (printStatus Format) (fun _ => statusCalls).
Proof.
  unfold printStatus. apply does_call. intros status. apply does_quiet; [auto with quiet|]. intros _.
  apply (does_bind _ _ (fun _ cs => cs = [] \/ cs = [CallClaims])).
  - repeat case_match; [apply (does_mono _ _ _ (quiet_Println _)); auto..|].
    apply does_call. intros [e|c]; apply (does_mono _ _ _ (quiet_Println _)); intros _ ? ->; auto.
  - intros _ cs Hcs. apply does_quiet; [auto with quiet|]. intros _. apply does_call. intros state.
    eapply does_mono; [quiet|]. intros _ ? ->. destruct Hcs as [-> | ->]; [by left|by right].
Qed.

Lemma does_printTokenInfo :
  does (printTokenInfo Format) (fun _ cs => cs = [CallAccessToken] \/ cs = [CallAccessToken; CallClaims]).
Proof.
  unfold printTokenInfo. apply does_call. intros token. case_match.
  - apply (does_mono _ _ _ (quiet_Println _)). intros _ ? ->. by left.
  - apply does_quiet; [auto with quiet|]. intros _. apply does_call. intros claims.
    eapply does_mono; [quiet|]. intros _ ? ->. by right.
Qed.

Lemma does_then {A B} (p : prog A) (b : B) (R : list cliCall -> Prop) :
  does p (fun _ => R) -> does (p ;;; Ret b) (fun b' cs => b' = b /\ R cs).
Proof. intros Hp. apply (does_bind _ _ _ _ Hp). intros _ cs HR. apply does_ret. by rewrite app_nil_r. Qed.

Lemma does_tryCall c (p q : string -> prog unit) (f : option string -> prog unit) :
  (forall r, quiet (f r)) -> does (let* err := tryCall c in f err) (fun _ cs => cs = [c]).
Proof. intros Hf. apply does_call. intros r. eapply does_mono; [apply Hf|]. by intros _ ? ->. Qed.

Lemma does_command input : does (command Format input) (fun quit cs => quit = String.eqb input "q" /\ commandCalls input cs).
Proof.
  unfold command, commandCalls.
  destruct (String.eqb_spec input "l") as [-> |]; [|destruct (String.eqb_spec input "s") as [-> |];
    [|destruct (String.eqb_spec input "t") as [-> |]; [|destruct (String.eqb_spec input "r") as [-> |];
    [|destruct (String.eqb_spec input "o") as [-> |]; [|destruct (String.eqb_spec input "q") as [-> |]]]]]].
  - apply does_quiet; [auto with quiet|]. intros _. apply does_call. intros err. apply does_then.
    eapply does_mono; [quiet|]. by intros _ ? ->.
  - apply does_then, does_printStatus.
  - apply does_then, does_printTokenInfo.
  - apply does_quiet; [auto with quiet|]. intros _. apply does_call. intros token. apply does_then.
    eapply does_mono; [quiet|]. by intros _ ? ->.
  - apply does_quiet; [auto with quiet|]. intros _. apply does_call. intros err. apply does_then.
    eapply does_mono; [quiet|]. by intros _ ? ->.
  - apply does_then. auto with quiet.
  - apply does_then. auto with quiet.
Qed.

(** ** The loop *)

(** What has been done when [prompt] is called again, from the state [t0]. *)
Definition progress (t0 : Terminal) (done rest : list string) (t : Terminal) : Prop :=
  commands (stdin t0) = done ++ rest /\ scanErr t = scanErr t0 /\ (exists out, output t = output t0 ++ out) /\
  exists css, calls t = calls t0 ++ concat css /\ Forall2 commandCalls done css.

Lemma progress_quiet t0 done rest t t' :
  progress t0 done rest t -> calls t' = calls t -> scanErr t' = scanErr t -> (exists out, output t' = output t ++ out) ->
  progress t0 done rest t'.
Proof.
  intros (Hc & He & (out & Ho) & css & Hcs & HF) Ec Ee (out' & Eo). split; [done|]. split; [congruence|].
  split; [exists (out ++ out'); rewrite app_assoc; congruence|]. exists css. split; [congruence|done].
Qed.

Lemma progress_command t0 done input rest t t' cs :
  progress t0 done (input :: rest) t -> commandCalls input cs ->
  calls t' = calls t ++ cs -> scanErr t' = scanErr t -> (exists out, output t' = output t ++ out) ->
  progress t0 (done ++ [input]) rest t'.
Proof.
  intros (Hc & He & (out & Ho) & css & Hcs & HF) Hin Ec Ee (out' & Eo). split; [by rewrite <- app_assoc|].
  split; [congruence|]. split; [exists (out ++ out'); rewrite app_assoc; congruence|]. exists (css ++ [cs]).
  split; [|by apply Forall2_app; [|constructor]]. rewrite concat_app, app_assoc. cbn. rewrite app_nil_r. congruence.
Qed.

Lemma quiet_printMenu : quiet printMenu.
Proof. unfold printMenu. quiet. Qed.

Lemma does_answer input :
  does (Println "" ;;; let* quit := command Format input in if quit then Ret (inr true) else Println "" ;;; Ret (inl tt))
    (fun r cs => r = (if String.eqb input "q" then inr true else inl tt) /\ commandCalls input cs).
Proof.
  apply does_quiet; [auto with quiet|]. intros _. apply (does_bind _ _ _ _ (does_command input)). intros quit cs [-> Hcs].
  destruct (String.eqb input "q").
  - apply does_ret. by rewrite app_nil_r.
  - eapply does_mono; [apply (does_then _ (inl tt) _ (quiet_Println _))|]. cbn. intros r ? [-> ->]. by rewrite app_nil_r.
Qed.

Lemma prompt_step t0 done t : progress t0 done (commands (stdin t)) t -> "q" ∉ done ->
  exists r t', run o fuel (prompt Format tt) ∅ t = Some (r, ∅, t') /\
    match r with
    | inl _ => (exists done', progress t0 done' (commands (stdin t')) t' /\ "q" ∉ done') /\
               (length (stdin t') < length (stdin t))%nat
    | inr returned => progress t0 (commands (stdin t0)) [] t' /\ returned = bool_decide ("q" ∈ commands (stdin t0))
    end.
Proof.
  intros Hp Hq. unfold prompt. rewrite run_bind.
  destruct (quiet_printMenu t) as (a & t1 & cs & -> & Hc & Hs & He & Ho & ->). rewrite app_nil_r in Hc.
  pose proof (progress_quiet _ _ _ _ t1 Hp Hc He Ho) as Hp1. rewrite <- Hs in Hp1 |- *. clear Hp Hs Hc He Ho. rename Hp1 into Hp.
  rewrite run_bind. unfold Scan. cbn. destruct (stdin t1) as [|line rest] eqn:El; cbn -[command run].
  - exists (inr false), t1. split; [done|]. destruct Hp as (E & Hp). cbn in E. rewrite app_nil_r in E.
    rewrite E, bool_decide_eq_false_2 by done. split; [|done]. split; [by rewrite app_nil_r|done].
  - destruct (does_answer (commandOf line) (t1 <| stdin := rest |>)) as (r & t2 & cs & Hrun & Hc & Hs & He & Ho & -> & Hcs).
    eexists _, t2. split; [exact Hrun|]. cbn [commands] in Hp.
    pose proof (progress_command _ _ _ _ _ t2 _ Hp Hcs Hc He Ho) as Hp'. clear Hp.
    destruct (String.eqb_spec (commandOf line) "q") as [Eq|Nq].
    + rewrite Eq in Hp'. pose proof (proj1 Hp') as E. rewrite app_nil_r in E. rewrite E. split; [done|].
      symmetry. apply bool_decide_eq_true_2, elem_of_app. right. constructor.
    + rewrite Hs. cbn. split; [|lia]. exists (done ++ [commandOf line]). split; [done|].
      rewrite not_elem_of_app, list_elem_of_singleton. split; congruence.
Qed.

(** The loop reads every command, in order, and needs no more iterations than lines. *)
Lemma interact_calls t : (length (stdin t) < fuel)%nat ->
  exists t' css, run o fuel (interact Format) ∅ t = Some (tt, ∅, t') /\ calls t' = calls t ++ concat css /\
    Forall2 commandCalls (commands (stdin t)) css /\ (exists out, output t' = output t ++ out) /\
    (forall err, scanErr t = Some err -> "q" ∉ commands (stdin t) -> last (output t') = Some (true, "Input error: " +:+ err +:+ nl)).
Proof.
  intros Hf. unfold interact.
  destruct (run_loop o fuel (prompt Format) (fun t => length (stdin t))
    (fun _ H t' => H = ∅ /\ exists done, progress t done (commands (stdin t')) t' /\ "q" ∉ done)
    (fun returned H t' => H = ∅ /\ progress t (commands (stdin t)) [] t' /\ returned = bool_decide ("q" ∈ commands (stdin t))))
    with (x := tt) (H := ∅ : gset unit) (w := t) as (returned & H & t1 & Hrun & -> & Hp & ->); [| |done|].
  - intros [] H t' (-> & done & Hp & Hq). destruct (prompt_step t done t' Hp Hq) as ([[]|y] & t2 & -> & Hr).
    + destruct Hr as [(done' & Hp' & Hq') Hlt]. exists (inl tt), ∅, t2. split; [done|]. split; [|done]. split; [done|]. by exists done'.
    + eexists _, _, _. split; [done|]. by destruct Hr.
  - split; [done|]. exists []. split; [|apply not_elem_of_nil]. split; [done|]. split; [done|].
    split; [exists []; by rewrite app_nil_r|]. exists []. by rewrite app_nil_r.
  - rewrite run_bind, Hrun. destruct Hp as (_ & He & (out & Ho) & css & Hcs & HF).
    case_bool_decide as Hq; cbn.
    + exists t1, css. split; [done|]. split; [done|]. split; [done|]. split; [by exists out|done].
    + destruct (scanErr t1) as [err|] eqn:Eerr; cbn.
      * eexists _, css. split; [done|]. cbn. split; [done|]. split; [done|].
        split; [rewrite Ho, <- app_assoc; by eexists|]. intros err' E _. rewrite last_snoc.
        assert (err' = err) as -> by congruence. done.
      * exists t1, css. split; [done|]. split; [done|]. split; [done|]. split; [eauto|]. intros err E. congruence.
Qed.

(** ** The program *)

Definition ends {A} (p : prog A) (t : Terminal) (P : A -> Terminal -> Prop) : Prop :=
  exists a t', run o fuel p ∅ t = Some (a, ∅, t') /\ P a t'.

Lemma ends_ret {A} (a : A) t P : P a t -> ends (Ret a) t P.
Proof. by exists a, t. Qed.
Lemma ends_bind {A B} (p : prog A) (f : A -> prog B) t P :
  ends p t (fun a t' => ends (f a) t' P) -> ends (bind p f) t P.
Proof. intros (a & t1 & E & b & t2 & E2 & HP). exists b, t2. by rewrite run_bind, E. Qed.
Lemma ends_does {A B} (p : prog A) (f : A -> prog B) R t P : does p R ->
  (forall a t' cs, R a cs -> calls t' = calls t ++ cs -> stdin t' = stdin t -> ends (f a) t' P) -> ends (bind p f) t P.
Proof.
  intros Hp Hf. apply ends_bind. destruct (Hp t) as (a & t' & cs & E & Hc & Hs & _ & _ & HR).
  exists a, t'. split; [done|]. by apply (Hf a t' cs).
Qed.
Lemma ends_quiet {A B} (p : prog A) (f : A -> prog B) t P : quiet p ->
  (forall a t', calls t' = calls t -> stdin t' = stdin t -> ends (f a) t' P) -> ends (bind p f) t P.
Proof. intros Hp Hf. apply (ends_does p f _ t P Hp). intros a t' ? ->. rewrite app_nil_r. apply Hf. Qed.
Lemma ends_call {A B} c (q : cliQuery A) (f : A -> prog B) t P :
  (forall a t', calls t' = calls t ++ [c] -> stdin t' = stdin t -> ends (f a) t' P) -> ends (bind (invoke c q) f) t P.
Proof. intros Hf. apply (ends_does _ f _ t P (does_invoke c q)). intros a t' ? ->. apply Hf. Qed.

(** The last thing printed is an error. *)
Definition complained (t : Terminal) : Prop := exists s, last (output t) = Some (true, s).

Lemma ends_fatal message t (P : Z -> Terminal -> Prop) :
  (forall t', calls t' = calls t -> complained t' -> P 1 t') -> ends (fatal message) t P.
Proof. intros HP. exists 1. eexists. split; [done|]. apply HP; [done|]. eexists. apply last_snoc. Qed.

(** A session that was served: what was called from the restored session on, for
    the lines [lines]. *)
Definition served (lines : list string) (cs : list cliCall) : Prop := exists status css,
  cs = [CallRestoreSession; CallInit; CallStartRefreshLoop] ++ status ++ concat css ++ [CallStopRefreshLoop] /\
  statusCalls status /\ Forall2 commandCalls (commands lines) css.

Lemma ends_session f u v t : (length (stdin t) < fuel)%nat ->
  ends (session Format f u v) t (fun code t' =>
    (code = 1 /\ complained t' /\ calls t' = calls t ++ [CallRestoreSession]) \/
    (code = 0 /\ exists cs, calls t' = calls t ++ cs /\ served (stdin t) cs)).
Proof.
  intros Hf. unfold session. apply ends_call. intros [restored [err|]] t1 Hc1 Hs1; cbn [fst snd].
  { apply ends_fatal. intros t' Hc' Hl. left. split; [done|]. split; [done|]. congruence. }
  apply ends_quiet; [quiet|]. intros _ t2 Hc2 Hs2. apply ends_quiet; [quiet|]. intros _ t3 Hc3 Hs3.
  apply ends_quiet; [quiet|]. intros _ t4 Hc4 Hs4. apply ends_quiet; [quiet|]. intros _ t5 Hc5 Hs5.
  apply ends_call. intros err t6 Hc6 Hs6. apply ends_quiet; [quiet|]. intros _ t7 Hc7 Hs7.
  apply (ends_does _ _ _ _ _ (does_callVoid CallStartRefreshLoop)). intros _ t8 ? -> Hc8 Hs8.
  unfold deferred. apply ends_bind, ends_quiet; [quiet|]. intros _ t9 Hc9 Hs9.
  apply (ends_does _ _ _ _ _ does_printStatus). intros _ t10 status Hst Hc10 Hs10.
  apply ends_quiet; [quiet|]. intros _ t11 Hc11 Hs11. apply ends_bind.
  assert (stdin t11 = stdin t) as Hs by congruence.
  destruct (interact_calls t11) as (t12 & css & E & Hc12 & HF & _); [by rewrite Hs|].
  exists tt, t12. split; [done|]. apply ends_ret, ends_bind.
  exists tt, (t12 <| calls := calls t12 ++ [CallStopRefreshLoop] |>). split; [done|]. apply ends_ret. right. split; [done|].
  eexists. split; [|exists status, css; split; [done|]; split; [done|by rewrite <- Hs]].
  cbn. rewrite Hc12, Hc11, Hc10, Hc9, Hc8, Hc7, Hc6, Hc5, Hc4, Hc3, Hc2, Hc1, <- !app_assoc. done.
Qed.

(** The command line is refused before anything is called, or after the store was
    opened, or else the handler and the configuration are valid. *)
Definition accepted (f : flags) : Prop :=
  required f = true /\ flagProblem f = None /\
  exists h logout cfg, Desktopflow.NewWithURI (handlerURI f).1 = Ok h /\ logoutOf f h = Ok logout /\ Validate (configOf f) = Ok cfg.

Definition opens (f : flags) (c : cliCall) : Prop := exists dir,
  c = CallNewStore "pkceflow-example" dir /\ (dataDir f <> "" -> dir = dataDir f).

Lemma ends_tokenDir {B} f (k : string -> prog B) t P :
  (forall dir t', calls t' = calls t -> stdin t' = stdin t -> (dataDir f <> "" -> dir = dataDir f) -> ends (k dir) t' P) ->
  ends (bind (tokenDir f) k) t P.
Proof.
  intros Hk. unfold tokenDir. destruct (String.eqb_spec (dataDir f) "") as [E|E].
  - apply ends_bind, ends_quiet; [apply quiet_ask|]. intros home t' Hc Hs. apply ends_ret. by apply Hk.
  - apply ends_bind, ends_ret. by apply Hk.
Qed.

Lemma ends_main f t : (length (stdin t) < fuel)%nat -> calls t = [] ->
  ends (main Format Usage handlerError configErrorText f) t (fun code t' =>
    (code = 1 /\ complained t' /\ (calls t' = [] \/ exists c, opens f c /\ (calls t' = [c] \/ calls t' = [c; CallRestoreSession]))) \/
    (code = 0 /\ accepted f /\ exists c cs, calls t' = c :: cs /\ opens f c /\ served (stdin t) cs)).
Proof.
  intros Hf Hc0. unfold main. destruct (required f) eqn:Er; cbn [negb].
  2: { do 2 (apply ends_quiet; [quiet|]; intros _ ? ? ?). apply ends_bind. unfold Eprintln, modify.
       eexists _, _. split; [done|]. apply ends_ret. left. split; [done|]. split; [eexists; apply last_snoc|].
       left. cbn. congruence. }
  destruct (flagProblem f) as [message|] eqn:Ef.
  { apply ends_fatal. intros t' Hc Hl. left. split; [done|]. split; [done|]. left. congruence. }
  apply ends_tokenDir. intros dir t1 Hc1 Hs1 Hdir. apply ends_call. intros r t2 Hc2 Hs2.
  assert (calls t2 = [CallNewStore "pkceflow-example" dir]) as Hc by (rewrite Hc2, Hc1, Hc0; done).
  assert (opens f (CallNewStore "pkceflow-example" dir)) as Ho by (by exists dir).
  assert (forall message, ends (fatal message) t2 (fun code t' =>
    (code = 1 /\ complained t' /\ (calls t' = [] \/ exists c, opens f c /\ (calls t' = [c] \/ calls t' = [c; CallRestoreSession]))) \/
    (code = 0 /\ accepted f /\ exists c cs, calls t' = c :: cs /\ opens f c /\ served (stdin t) cs))) as Hfatal.
  { intros message. apply ends_fatal. intros t' Hct Hl. left. split; [done|]. split; [done|]. right.
    eexists. split; [exact Ho|]. left. congruence. }
  destruct r as [err|]; [apply Hfatal|].
  destruct (Desktopflow.NewWithURI (handlerURI f).1) as [err|h] eqn:Eh; [apply Hfatal|].
  destruct (logoutOf f h) as [err|logout] eqn:El; [apply Hfatal|].
  destruct (Validate (configOf f)) as [err|cfg] eqn:Ev; [apply Hfatal|].
  destruct (ends_session f (Desktopflow.redirectURI h) logout.1 t2) as (code & t' & E & HP); [congruence|].
  exists code, t'. split; [exact E|]. destruct HP as [(-> & Hl & Hct)|(-> & cs & Hct & Hcs)].
  - left. split; [done|]. split; [done|]. right. eexists. split; [exact Ho|]. right. by rewrite Hct, Hc.
  - right. split; [done|]. split; [split; [done|]; split; [done|by exists h, logout, cfg]|].
    eexists _, cs. rewrite Hct, Hc. split; [done|]. split; [done|]. congruence.
Qed.
End Texts.
End Calls.

(** C40: The example program, whatever its flags, the text typed, the state of the store
    and the answers of the client are, comes to its end.  Either it exits with status 1
    after an error message, and then it has at most opened the store and tried to
    restore the session, and started nothing; or else its flags are valid, and it
    opens the store in the directory asked for, restores the session, initializes the
    client, starts the refresh loop, shows the status, carries out the commands typed
    one after the other, none after a quit, and stops the refresh loop at the end. *)
Theorem example_session Format Usage handlerError configErrorText (o : oracle (W := Terminal) (Q := cliQuery)) fuel f text readErr :
  (forall X q t, is_Some (o X q t)) -> let t := typed text readErr in (length (stdin t) < fuel)%nat ->
  exists code t', run o fuel (main Format Usage handlerError configErrorText f) ∅ t = Some (code, ∅, t') /\
  ((code = 1 /\ complained t' /\
    (calls t' = [] \/ exists c, opens f c /\ (calls t' = [c] \/ calls t' = [c; CallRestoreSession]))) \/
   (code = 0 /\ accepted f /\ exists c status css,
    calls t' = [c; CallRestoreSession; CallInit; CallStartRefreshLoop] ++ status ++ concat css ++ [CallStopRefreshLoop] /\
    opens f c /\ statusCalls status /\ Forall2 commandCalls (commands (stdin t)) css)).
Proof.
  intros Ho t Hf.
  assert (calls t = []) as Hc by (unfold t, typed; by destruct (ScanLines maxScanTokenSize text) as [lines []]).
  destruct (ends_main o Ho fuel Format Usage handlerError configErrorText f t Hf Hc) as (code & t' & E & HP).
  exists code, t'. split; [exact E|]. destruct HP as [HP|(-> & Ha & c & cs & Hcs & Hop & status & css & -> & Hst & HF)]; [by left|].
  right. split; [done|]. split; [done|]. by exists c, status, css.
Qed.

(** Everything succeeds; one logs in, looks at the status and quits. *)
Definition exFlags : flags := mkFlags "https://idp.example" "app" 15051 "/callback" "" "" "/logout-callback" "openid,email" 30 "/data" ∅.
Definition exClaims : Claims := claimsOf [("sub", AString "u1"); ("email", AString "u1@idp.example")].
Definition exAnswers : oracle (W := Terminal) (Q := cliQuery) := fun X q t =>
  match q in cliQuery X return option X with
  | QErr c => Some None
  | QHomeDir => Some "/home/u"
  | QRestoreSession => Some (true, None)
  | QAuthStatus => Some zeroAuthStatus
  | QClaims => Some (inr exClaims)
  | QLoad => Some zeroTokenState
  | QAccessToken => Some "0123456789abcdefghijklmn"
  | QNow => Some zeroTime
  end.
Definition exText : string := "L" +:+ nl +:+ "  s " +:+ nl +:+ "q" +:+ nl +:+ "l" +:+ nl.
Definition exMain : Cli.prog Z := main (fun _ _ => "") "" id (fun _ => "") exFlags.

Lemma exAnswers_answering X q t : is_Some (exAnswers X q t).
Proof. destruct q; by eexists. Qed.

Lemma example_session_witness : exists code t', run exAnswers 5 exMain ∅ (typed exText None) = Some (code, ∅, t') /\
  code = 0 /\ accepted exFlags /\
  exists c status css, calls t' = [c; CallRestoreSession; CallInit; CallStartRefreshLoop] ++ status ++ concat css ++ [CallStopRefreshLoop] /\
    c = CallNewStore "pkceflow-example" "/data" /\ Forall2 commandCalls ["l"; "s"; "q"] css.
Proof.
  destruct (example_session (fun _ _ => "") "" id (fun _ => "") exAnswers 5 exFlags exText None exAnswers_answering)
    as (code & t' & E & HP); [vm_compute; lia|].
  assert (Ecode : (fun r => r.1.1) <$> run exAnswers 5 exMain ∅ (typed exText None) = Some 0) by (vm_compute; reflexivity).
  exists code, t'. split; [exact E|]. unfold exMain in Ecode. rewrite E in Ecode.
  assert (code = 0) as Hcode by (cbn in Ecode; congruence). split; [exact Hcode|].
  destruct HP as [(Hone & _)|(_ & Ha & c & status & css & Hcs & (dir & Hc & Hdir) & _ & HF)]; [exfalso; lia|].
  split; [exact Ha|]. exists c, status, css. split; [exact Hcs|]. split; [rewrite Hc, Hdir; [reflexivity|discriminate]|].
  assert (El : commands (stdin (typed exText None)) = ["l"; "s"; "q"]) by (vm_compute; reflexivity).
  rewrite <- El. exact HF.
Defined.

(** ** What is shown *)

(** Of a token of more than 20 characters the first and the last eight are shown. *)
Lemma shownToken_long first middle end_ :
  String.length first = 8%nat -> String.length end_ = 8%nat -> (4 < String.length middle)%nat ->
  shownToken (first +:+ middle +:+ end_) = first +:+ "..." +:+ end_.
Proof.
  intros Hf He Hm. unfold shownToken. rewrite !str_length_app, Hf, He. case_match; bool_to_prop; [|lia].
  rewrite <- Hf, str_take_app at 1. do 2 f_equal.
  replace (8 + (String.length middle + 8) - 8)%nat with (String.length first + (String.length middle + 0))%nat by lia.
  by rewrite str_drop_app, str_drop_app.
Qed.

Lemma shownToken_short token : (String.length token <= 20)%nat -> shownToken token = token.
Proof. intros H. unfold shownToken. case_match; [bool_to_prop; lia|done]. Qed.

(** ** The grace period *)

(** Up to 106751 days the duration is the one asked for. *)
Lemma configOf_grace f : 0 < graceDays f <= 106751 -> GracePeriod (configOf f) = graceDays f * 24 * Hour.
Proof.
  intros H. unfold configOf. cbn [GracePeriod]. destruct (Z.ltb_spec 0 (graceDays f)); [|lia].
  assert (Hour = 3600000000000) as -> by done.
  rewrite (wrap_i64_id (graceDays f * 24)) by (unfold min_i64, max_i64; lia).
  apply wrap_i64_id. unfold min_i64, max_i64. lia.
Qed.

(** Beyond that it wraps around: 213504 days are less than half an hour, one day more
    than fits is negative; neither is rejected. *)
Lemma graceDays_overflow :
  GracePeriod (configOf (defaultFlags <| graceDays := 213504 |>)) < Hour / 2 /\
  GracePeriod (configOf (defaultFlags <| graceDays := 106752 |>)) < 0 /\
  Validate (configOf (exFlags <| graceDays := 106752 |>)) = Ok (applyDefaults (configOf (exFlags <| graceDays := 106752 |>))).
Proof. vm_compute. auto. Qed.
